(* ===== verification/_CoqProject ===== *)
-Q . S2P
Prelude.v
Relay.v
Queue.v
Fnv.v
Md5.v
JumpHash.v
ConsistentHash.v
Double.v
Allocator.v
Rewrite.v
Matching.v
Router.v
Optimise.v
DispatchParse.v
Transport.v
Dispatcher.v
DispatchStop.v
Server.v
Streams.v
Hop.v
RouterConfig.v
Lexer.v
Predictive.v
ConfActions.v
Receptor.v
Reload.v
Sighup.v
Free.v
Options.v
Main.v
Aggregator.v
Grammar.v
ParserError.v
ReadConfig.v
RouterTest.v
Collector.v
Print.v
PrintReads.v
PrintParses.v
