(* ===== verification/Prelude.v ===== *)
(** * carbon-c-relay: a verification of the relay

    The relay (src/) receives metrics, lines of a name, a value and a time, from
    clients, and sends each to the servers its configuration says.  This library
    models the C code in Rocq and proves what its parts promise to each other.

    ** The program and its parts

    [main] (src/relay.c) reads the options and the configuration and starts the
    threads.  Dispatchers (src/dispatcher.c) accept connections on the listeners
    (src/receptor.c), read from them, through decompressors and SSL, split what
    they read into metrics, and ask the router (src/router.c) where each goes.
    The router tries its routes in order: expressions, rewrites, aggregations and
    clusters, among them consistent-hash rings (src/consistent-hash.c, src/fnv1a.h,
    src/md5.c).  A metric for a server (src/server.c) goes to its queue
    (src/queue.c), from which the server's threads send batches over a stream.
    Aggregators (src/aggregator.c) and the collector of statistics
    (src/collector.c) produce metrics that are routed as others are.  A
    configuration is text (src/conffile.l, src/conffile.y); on SIGHUP a second one
    is read, and takes over queues and sockets from the first.

    ** Files

    Shared: [Prelude] (this file: machine integers, C strings, tactics, lists),
    [Relay] (constants and types of relay.h), [Double] (the C type, from the Standard
    Library's specification of floating point).

    Data structures: [Queue] (queue.c), [Allocator] (allocator.c), [Fnv], [Md5],
    [JumpHash] and [ConsistentHash] (the rings).

    Routing, router.c: [Rewrite] ([router_rewrite_metric]), [Matching]
    ([determine_if_regex], [router_metric_matches]), [Router] ([router_route]),
    [Optimise] ([router_optimise]), [RouterTest] ([router_test]).

    Configuration: [Lexer] (the scanner of conffile.l, [router_quoteident]),
    [Predictive] (grammars that are decided by looking ahead, in general), [Grammar]
    (the productions of conffile.y and the values of its actions), [RouterConfig]
    (the functions of router.c that the actions call), [ConfActions] (statements on
    a router), [ReadConfig] ([router_readconfig], with included files),
    [ParserError] ([router_yyerror] and the report of an error), [Print]
    ([router_printconfig]), [PrintReads] and [PrintParses] (what is printed is read
    again as it was).

    Receiving: [DispatchParse] (from bytes to metrics, [dispatch_connection]),
    [Transport] (streams of dispatcher.c), [Dispatcher] (workers, tables, callbacks),
    [DispatchStop] (threads, stopping, freeing, eventpipe.c), [Receptor].

    Sending: [Server] (queueing, batches, the reader threads), [Streams] (compressors,
    SSL, [server_connect]), [Hop] (a relay's output as another's input).

    Producing: [Aggregator], [Collector].

    The whole: [Reload] ([router_swap] and the threads meanwhile), [Sighup]
    ([do_reload], signals), [Free] ([router_free], [server_free]), [Options] (the
    command line), [Main] (start and end).

    ** How the code is modelled

    A structure is a record with its fields, a function of C a function here with
    the same name, its loops and tests those of the code; a loop has a function of its
    own.  Integers are [Z], with the conversion of each C type where the code has
    one ([u8] to [s64]); characters are signed, as [char] is.  Shared objects
    (servers, queues, aggregators, listeners) are referred to by number in a store
    ([Server.world], [Dispatcher.state]), so that two owners of one object see the
    same.  An error that the code returns is a value of a sum or an option;
    behaviour that C leaves undefined (a null pointer, an access outside an array,
    a second free) is [None], or [Undefined], and the theorems that a function has a
    result say that it does not happen.

    What is not in src/ is a parameter: the regular expressions ([Matching.Regex]),
    [qsort] ([ConsistentHash.Qsort]), the resolver ([RouterConfig.Resolver]), files
    ([RouterConfig.Filesystem]), the compression libraries and SSL
    ([Transport.Decompressors], [Streams.Codecs]), system calls ([ServerEnv],
    [NetEnv], [WireEnv], [SocketEnv]), and the parts a component calls
    ([DispatchEnv], [FifoQueue]).  What is relied on of them is stated as laws, each
    with an instance that has it.

    Threads are steps.  An operation under a lock is one step, and theorems are about
    every sequence of them: [Queue.run], [Dispatcher.step], [DispatchStop.run_step],
    [Reload.thread_step].

    ** What is proved

    The comment of each theorem says on which conditions; what they leave out is
    mostly where the code fails, which has theorems of its own.

    - The queue is a bounded first-in first-out list that drops its oldest
      ([queue_refines_fifo]); each metric is handed out or freed once.  Through a
      server, every metric is sent, put back, counted as dropped, or still queued
      ([server_send_conserves], [queuesend_conserves], [queuesend_delivers]).
    - The rings: the servers for a metric are the next ones clockwise, all different
      ([ch_get_nodes_clockwise]); a server that joins takes metrics and moves no
      others ([ring_consistent], [jump_bucketpos_consistent]).  MD5 is RFC 1321's.
    - Routing: groups for a text that their routes require change nothing
      ([groups_are_transparent]), nor does the optimiser for routes that require
      their tails ([optimise_preserves_routing], and [optimise_hides_optional_tails]
      for others); the destinations stay in their array ([router_route_bounded]);
      routes with destinations and rings with enough servers route every metric
      ([router_route_total]); comparisons do what the expression would
      ([fast_match_is_regex]); rewriting is the expansion of its template, in the
      buffer.  Test mode tells what routing does ([router_test_predicts]).
    - Configuration: the grammar has one tree for each text, which a predictive
      parser, standing for the one bison makes, finds ([config_grammar_parsed]); what is read is well-formed
      ([read_configuration_sound], [configured_references_exact],
      [configured_members_typed]); what is printed reads back
      ([printconfig_parses_back]); errors are always reported ([yyerror_ends]).
    - Receiving: the metrics do not depend on how the bytes arrive
      ([received_independent_of_reads]) and are clean ([received_lines_clean]); no
      stream leaves its buffers ([transport_in_bounds]); a gzip hop delivers what
      was sent, until a read without data ([gzip_hop_delivers]); the counters
      of connections are right but for three errors ([connections_balanced]), and
      but for timeouts a connection is served by one worker ([read_cb_exclusive]); stopping ends the threads
      and leaves nothing open or allocated ([stopping_ends_workers],
      [dispatchers_leave_nothing]).
    - Sending: what is written to empty buffers and fits decodes to the metrics
      ([streams_deliver]); descriptors are closed, but for two errors
      ([connect_keeps_descriptors]).
    - Aggregations refine a table of values by interval ([putmetric_refines]), which
      are emitted once ([expire_emits_once]) with the right value, medians and
      percentiles apart ([bucket_value_aggregates], [percentile_errors]); statistics are the differences of the counters
      ([collector_reports]).
    - Reloads of routers that have each server in one cluster hand queues over
      ([router_swap_hands_over]), switch the workers of connections
      ([reload_switches_routers]), and free the old router and nothing of the new
      one, but for one expression of each rule ([reload_frees_safely],
      [configured_router_freed]).
    - The settings the relay starts with are in range ([options_sane]), and a relay
      that starts ends in order ([orderly_run]).
    - Where the code does not do what it means to, a theorem shows it on an input:
      for instance [reload_frees_queue_in_use], [gzip_without_output_closes],
      [batches_can_be_lost], [worker_failure_unnoticed].

    ** Bounds and fuel

    Loops that are not structural have fuel, and a theorem that the fuel is enough,
    or is given as one that any more gives the same: a walk over a ring visits each
    entry once ([ch_search], [ch_walk]: the number of entries); the jump hash
    at most one turn for each bucket; [router_test] how often a metric that an
    aggregation makes is tested again; the optimiser's second loop its sequence number and blocks
    ([reduce_blocks]), with memory for [4 n + 1] allocations; a server's thread
    [SERVER_MAX_SEND] = 10 attempts for a batch; [gzip_loop] one more than the
    bytes to compress; the scanner one more than the length of the text; the parser
    [fuel_for], the length times the ranks of the nonterminals; a file the number of
    its tokens, and its depth of includes; [print_routes] the size of the routes;
    the rotation of buckets the length of the row; the cleaning of messages
    [METRIC_BUFSIZ]; the joining of workers 256, what a [char] can count.  Where
    the code itself does not end (a ring asked for more servers than it has, a file
    that includes itself) this is a theorem too ([ch_get_nodes_diverges],
    [include_loop_diverges]).

    ** Not modelled

    The scanner and parser that flex and bison generate (conffile.yy.c,
    conffile.tab.c): their sources are modelled instead.  The program [diff] that
    [router_printdiffs] runs: its verdict is an argument.  Texts of usage and of
    most log messages; reopening the log; forks, pidfile and the check of the CA
    file at the start; socket options; loading certificates.  Memory is
    available except where an argument says which call fails.  The test programs
    (sendmetric.c, faketime.c, minunit.h, router_test.c, server_test.c, issues/) and
    the choice of libraries by the preprocessor (posixregex.h, lz4settings.h). *)
From stdpp Require Export base tactics numbers list gmap option strings.
From Stdlib Require Export ZArith Lia Sorting.Sorted.
From Stdlib Require Import Ascii.
#[local] Open Scope Z_scope.

(** ** Machine integers

    Values are [Z]; the conversions write the wrap-around of each C type out.
    Signed conversions are two's complement, as on the platforms the relay is
    built for. *)
Declare Scope cint_scope.
Delimit Scope cint_scope with cint.

Definition u8 (x : Z) : Z := x mod 2 ^ 8.
Definition u16 (x : Z) : Z := x mod 2 ^ 16.
Definition u32 (x : Z) : Z := x mod 2 ^ 32.
Definition u64 (x : Z) : Z := x mod 2 ^ 64.
Definition s8 (x : Z) : Z := (x + 2 ^ 7) mod 2 ^ 8 - 2 ^ 7.
Definition s32 (x : Z) : Z := (x + 2 ^ 31) mod 2 ^ 32 - 2 ^ 31.
Definition s64 (x : Z) : Z := (x + 2 ^ 63) mod 2 ^ 64 - 2 ^ 63.

Notation "x +u32 y" := (u32 (x + y)) (at level 50, left associativity) : cint_scope.
Notation "x *u32 y" := (u32 (x * y)) (at level 40, left associativity) : cint_scope.
Notation "x *u64 y" := (u64 (x * y)) (at level 40, left associativity) : cint_scope.

(** ** Characters and strings

    A [char] is a signed 8-bit value ([char] is signed with GCC on x86, where
    the relay is built by default).  A C string is the list of its characters
    before the terminating NUL; a buffer is a list of cells. *)
Abbreviation cchar := Z (only parsing).
Abbreviation cstring := (list Z) (only parsing).

Definition char_of_ascii (a : ascii) : cchar := s8 (Z.of_nat (nat_of_ascii a)).

(** A string literal of the source. *)
Fixpoint lit (s : string) : cstring :=
  match s with
  | EmptyString => []
  | String a s' => char_of_ascii a :: lit s'
  end.

Arguments lit _%_string.

(** A character literal of the source. *)
Definition ch (s : string) : cchar :=
  match s with
  | EmptyString => 0
  | String a _ => char_of_ascii a
  end.
Arguments ch _%_string.

Definition NUL : cchar := 0.

(** [strchr(set, c) != NULL], which also finds the terminator. *)
Definition strchr_set (set : cstring) (c : cchar) : bool :=
  bool_decide (c = NUL) || bool_decide (c ∈ set).

Definition is_lower (c : cchar) : bool := (97 <=? c)%Z && (c <=? 122)%Z.
Definition is_upper (c : cchar) : bool := (65 <=? c)%Z && (c <=? 90)%Z.
Definition is_digit (c : cchar) : bool := (48 <=? c)%Z && (c <=? 57)%Z.
Definition is_alnum (c : cchar) : bool := is_lower c || is_upper c || is_digit c.

(** [tolower]/[toupper] of the C locale. *)
Definition tolower (c : cchar) : cchar := if is_upper c then c + 32 else c.
Definition toupper (c : cchar) : cchar := if is_lower c then c - 32 else c.

(** [strcmp]: lexicographic on unsigned bytes; only the sign is specified. *)
Fixpoint strcmp (a b : cstring) : Z :=
  match a, b with
  | [], [] => 0
  | [], _ :: _ => -1
  | _ :: _, [] => 1
  | x :: a', y :: b' =>
      if (u8 x =? u8 y)%Z then strcmp a' b' else if (u8 x <? u8 y)%Z then -1 else 1
  end.

(** [isspace] of the C locale. *)
Definition is_space (c : cchar) : bool := (c =? 32)%Z || ((9 <=? c)%Z && (c <=? 13)%Z).

(** The value of the longest prefix of digits, and what follows it. *)
Fixpoint digits_value (acc : Z) (s : cstring) : Z * cstring :=
  match s with
  | c :: s' => if is_digit c then digits_value (acc * 10 + (c - 48)) s' else (acc, s)
  | [] => (acc, s)
  end.

(** [strtol(s, &endp, 10)]: the value, clamped to a [long], and the text at
    [endp]; without digits the value is 0 and [endp] is [s]. *)
Definition strtol (s : cstring) : Z * cstring :=
  let s1 := list_find (fun c => negb (is_space c) = true) s in
  let t := match s1 with Some (i, _) => drop i s | None => [] end in
  let '(neg, u) := match t with
                   | c :: t' => if (c =? 45)%Z then (true, t') else if (c =? 43)%Z then (false, t') else (false, t)
                   | [] => (false, t)
                   end in
  match u with
  | c :: _ =>
      if is_digit c then
        let '(v, rest) := digits_value 0 u in
        (Z.max (- 2 ^ 63) (Z.min (2 ^ 63 - 1) (if neg : bool then - v else v)), rest)
      else (0, s)
  | [] => (0, s)
  end.

(** Decimal rendering, as [%d]/[%u] of [printf]. *)
Fixpoint digits_fuel (fuel : nat) (n : Z) (acc : cstring) : cstring :=
  match fuel with
  | O => acc
  | S fuel' =>
      let acc' := (48 + n mod 10) :: acc in
      if (n <? 10)%Z then acc' else digits_fuel fuel' (n / 10) acc'
  end.
Definition show_nonneg (n : Z) : cstring := digits_fuel (Z.to_nat (Z.log2_up (n + 2)) + 1)%nat n [].
Definition show_Z (n : Z) : cstring :=
  if (n <? 0)%Z then 45 :: show_nonneg (- n) else show_nonneg n.

(** [snprintf(buf, size, ...)]: at most [size - 1] characters are stored. *)
Definition snprintf_trunc (size : nat) (s : cstring) : cstring := take (size - 1)%nat s.

(** ** Tactics *)

(** Case analysis on the boolean and decidable tests a definition branches on. *)
Ltac case_tests :=
  repeat match goal with
  | |- context [if ?b then _ else _] => let E := fresh "E" in destruct b eqn:E
  | H : context [if ?b then _ else _] |- _ => let E := fresh "E" in destruct b eqn:E
  end.

(** Computing the binds of the option monad, and nothing else. *)
Ltac run_binds := cbn [mbind option_bind mret option_ret].

Ltac unfold_ints := unfold u8, u16, u32, u64, s8, s32, s64 in *.

Create HintDb relay discriminated.
#[export] Hint Constants Opaque : relay.

(** ** Integer lemmas *)

Lemma u8_range x : (0 <= u8 x < 256)%Z.
Proof. apply Z.mod_pos_bound; lia. Qed.
Lemma u16_range x : (0 <= u16 x < 65536)%Z.
Proof. apply Z.mod_pos_bound; lia. Qed.
Lemma u32_range x : (0 <= u32 x < 2 ^ 32)%Z.
Proof. apply Z.mod_pos_bound; lia. Qed.
Lemma u64_range x : (0 <= u64 x < 2 ^ 64)%Z.
Proof. apply Z.mod_pos_bound; lia. Qed.

Lemma u32_small x : (0 <= x < 2 ^ 32)%Z -> u32 x = x.
Proof. apply Z.mod_small. Qed.
Lemma u64_small x : (0 <= x < 2 ^ 64)%Z -> u64 x = x.
Proof. apply Z.mod_small. Qed.
Lemma u32_idemp x : u32 (u32 x) = u32 x.
Proof. apply u32_small, u32_range. Qed.

#[export] Hint Resolve u8_range u16_range u32_range u64_range : relay.

Lemma strcmp_refl a : strcmp a a = 0%Z.
Proof. induction a as [|x a IH]; simpl; [done|]. by rewrite Z.eqb_refl. Qed.

(** [strcmp] orders strings: reflexive, total, antisymmetric up to the bytes'
    values, transitive. *)
Lemma strcmp_total a b : (strcmp a b <= 0 \/ strcmp b a <= 0)%Z.
Proof.
  revert b. induction a as [|x a IH]; intros [|y b]; simpl; [lia..|].
  destruct (Z.eqb_spec (u8 x) (u8 y)) as [E|E], (Z.eqb_spec (u8 y) (u8 x)); try congruence; [apply IH|].
  destruct (Z.ltb_spec (u8 x) (u8 y)), (Z.ltb_spec (u8 y) (u8 x)); lia.
Qed.

Lemma strcmp_trans a b c : (strcmp a b <= 0 -> strcmp b c <= 0 -> strcmp a c <= 0)%Z.
Proof.
  revert b c. induction a as [|x a IH]; intros [|y b] [|z c]; simpl; try lia.
  repeat match goal with
  | |- context [Z.eqb ?p ?q] => destruct (Z.eqb_spec p q)
  | |- context [Z.ltb ?p ?q] => destruct (Z.ltb_spec p q)
  end; try lia. by apply IH.
Qed.

Lemma strcmp_antisym a b : strcmp b a = (- strcmp a b)%Z.
Proof.
  revert b. induction a as [|x a IH]; intros [|y b]; simpl; [done..|].
  destruct (Z.eqb_spec (u8 x) (u8 y)), (Z.eqb_spec (u8 y) (u8 x)); try congruence.
  destruct (Z.ltb_spec (u8 x) (u8 y)), (Z.ltb_spec (u8 y) (u8 x)); lia.
Qed.

(** Strings of [char]s that compare equal are equal. *)
Lemma strcmp_eq a b :
  Forall (fun c => -128 <= c <= 127)%Z a -> Forall (fun c => -128 <= c <= 127)%Z b -> strcmp a b = 0%Z -> a = b.
Proof.
  intros Ha. revert b. induction Ha as [|x a Hx Ha IH]; intros [|y b] Hb; simpl; [done..|].
  apply Forall_cons in Hb as [Hy Hb]. destruct (Z.eqb_spec (u8 x) (u8 y)) as [E|]; [|by destruct (_ <? _)%Z].
  intros Hs. f_equal; [|by apply IH]. unfold u8 in E.
  pose proof (Z.div_mod x (2 ^ 8)). pose proof (Z.div_mod y (2 ^ 8)). lia.
Qed.

(** ** Comparators *)

(** A three-way comparator that orders its arguments. *)
Record is_cmp {A} (cmp : A -> A -> Z) : Prop := {
  cmp_antisym : forall x y, cmp y x = (- cmp x y)%Z;
  cmp_trans : forall x y z, (cmp x y <= 0 -> cmp y z <= 0 -> cmp x z <= 0)%Z;
}.

Lemma is_cmp_ext {A} (c c' : A -> A -> Z) : (forall x y, c' x y = c x y) -> is_cmp c -> is_cmp c'.
Proof. intros E [Ha Ht]. split; intros *; rewrite !E; [apply Ha|apply Ht]. Qed.

Lemma is_cmp_total {A} (c : A -> A -> Z) x y : is_cmp c -> (c x y <= 0 \/ c y x <= 0)%Z.
Proof. intros Hc. rewrite (cmp_antisym c Hc x y). lia. Qed.

Lemma strcmp_is_cmp {A} (f : A -> cstring) : is_cmp (fun x y => strcmp (f x) (f y)).
Proof. split; [intros; apply strcmp_antisym|intros x y z; apply strcmp_trans]. Qed.
Lemma diff_is_cmp {A} (f : A -> Z) : is_cmp (fun x y => (f x - f y)%Z).
Proof. split; intros; lia. Qed.

(** Ties of a comparator broken by another one. *)
Lemma lex_is_cmp {A} (d c : A -> A -> Z) :
  is_cmp d -> is_cmp c -> is_cmp (fun x y => if negb (d x y =? 0)%Z then d x y else c x y).
Proof.
  intros [Hda Hdt] [Hca Hct].
  assert (forall x y z, (d x y < 0 -> d y z <= 0 -> d x z < 0)%Z) as H1.
  { intros x y z ? ?. destruct (Z.lt_ge_cases (d x z) 0); [done|].
    pose proof (Hda x z). pose proof (Hdt y z x). pose proof (Hda x y). lia. }
  assert (forall x y z, (d x y <= 0 -> d y z < 0 -> d x z < 0)%Z) as H2.
  { intros x y z ? ?. destruct (Z.lt_ge_cases (d x z) 0); [done|].
    pose proof (Hda x z). pose proof (Hdt z x y). pose proof (Hda y z). lia. }
  split.
  - intros x y. rewrite (Hda x y). destruct (Z.eqb_spec (d x y) 0), (Z.eqb_spec (- d x y) 0);
      simpl; lia || apply Hca.
  - intros x y z. pose proof (H1 x y z). pose proof (H2 x y z). pose proof (Hdt x y z).
    pose proof (Hdt z y x). pose proof (Hda x y). pose proof (Hda y z). pose proof (Hda x z).
    destruct (Z.eqb_spec (d x y) 0), (Z.eqb_spec (d y z) 0), (Z.eqb_spec (d x z) 0); simpl; try lia.
    apply Hct.
Qed.

(** Absent values come last. *)
Lemma option_strcmp_is_cmp {A} (f : A -> option cstring) :
  is_cmp (fun x y => match f x, f y with
                     | None, None => 0 | None, Some _ => 1 | Some _, None => -1
                     | Some a, Some b => strcmp a b
                     end)%Z.
Proof.
  split.
  - intros x y. destruct (f x), (f y); try done. apply strcmp_antisym.
  - intros x y z. destruct (f x), (f y), (f z); try lia. apply strcmp_trans.
Qed.

(** ** List lemmas *)

Lemma filter_all {A} (P : A -> Prop) `{!forall x, Decision (P x)} (l : list A) :
  (forall x, x ∈ l -> P x) -> filter P l = l.
Proof.
  induction l as [|a l IH]; intros Hl; [done|]. rewrite filter_cons_True by set_solver.
  f_equal. apply IH. set_solver.
Qed.
Lemma filter_none {A} (P : A -> Prop) `{!forall x, Decision (P x)} (l : list A) :
  (forall x, x ∈ l -> ~ P x) -> filter P l = [].
Proof.
  induction l as [|a l IH]; intros Hl; [done|]. rewrite filter_cons_False by set_solver.
  apply IH. set_solver.
Qed.

Lemma elem_of_take_lookup {A} (l : list A) t x : x ∈ take t l -> exists k, (k < t)%nat /\ l !! k = Some x.
Proof. intros (k & Hk)%list_elem_of_lookup. apply lookup_take_Some in Hk as [? ?]. eauto. Qed.
Lemma elem_of_drop_lookup {A} (l : list A) t x : x ∈ drop t l -> exists k, (t <= k)%nat /\ l !! k = Some x.
Proof. intros (k & Hk)%list_elem_of_lookup. rewrite lookup_drop in Hk. exists (t + k)%nat. split; [lia|done]. Qed.

Lemma Sorted_weaken {A} (R R' : A -> A -> Prop) l :
  (forall x y, R x y -> R' x y) -> Sorted R l -> Sorted R' l.
Proof.
  intros HR Hs. induction Hs as [|x k Hs IH Hhd]; constructor; [done|]. destruct Hhd; constructor; auto.
Qed.

Lemma Sorted_snoc {A} (R : A -> A -> Prop) l x : Sorted R l -> Forall (fun y => R y x) l -> Sorted R (l ++ [x]).
Proof.
  intros Hs. induction Hs as [|y l Hs IH Hhd]; intros Hl; cbn [app]; [by repeat constructor|].
  apply Forall_cons in Hl as [Hy Hl]. constructor; [auto|]. destruct Hhd; cbn [app]; by constructor.
Qed.

(** Printed numbers read back. *)
Lemma digits_fuel_value fuel n acc :
  (0 <= n < 10 ^ Z.of_nat fuel)%Z -> (0 < fuel)%nat -> digits_value 0 (digits_fuel fuel n acc) = digits_value n acc.
Proof.
  revert n acc. induction fuel as [|fuel IH]; intros n acc Hn Hf; [lia|]. cbn [digits_fuel].
  assert (forall m, digits_value m ((48 + n mod 10)%Z :: acc) = digits_value (m * 10 + n mod 10) acc) as Hd.
  { intros m. cbn [digits_value]. unfold is_digit. pose proof (Z.mod_pos_bound n 10).
    rewrite (proj2 (Z.leb_le _ _)), (proj2 (Z.leb_le _ _)) by lia. cbn. f_equal. lia. }
  destruct (Z.ltb_spec n 10).
  - rewrite Hd. f_equal. rewrite Z.mod_small; lia.
  - assert (10 ^ Z.of_nat (S fuel) = 10 * 10 ^ Z.of_nat fuel)%Z as E by (rewrite Nat2Z.inj_succ, Z.pow_succ_r; lia).
    rewrite IH.
    + rewrite Hd. f_equal. pose proof (Z.div_mod n 10). lia.
    + split; [apply Z.div_pos; lia|]. apply Z.div_lt_upper_bound; lia.
    + destruct fuel; [|lia]. cbn in E. lia.
Qed.
Lemma digits_fuel_digits fuel n acc :
  Forall (fun c => is_digit c = true) acc -> Forall (fun c => is_digit c = true) (digits_fuel fuel n acc).
Proof.
  revert n acc. induction fuel as [|fuel IH]; intros n acc Ha; [done|]. cbn [digits_fuel].
  assert (Forall (fun c => is_digit c = true) ((48 + n mod 10)%Z :: acc)) as Ha'.
  { constructor; [|done]. unfold is_digit. pose proof (Z.mod_pos_bound n 10).
    by rewrite (proj2 (Z.leb_le _ _)), (proj2 (Z.leb_le _ _)) by lia. }
  destruct (_ <? _)%Z; auto.
Qed.
Lemma digits_fuel_cons fuel n acc : (0 < fuel)%nat \/ acc <> [] -> digits_fuel fuel n acc <> [].
Proof.
  revert n acc. induction fuel as [|fuel IH]; intros n acc Ha; [destruct Ha; [lia|done]|]. cbn [digits_fuel].
  destruct (_ <? _)%Z; [done|]. apply IH. by right.
Qed.
Lemma show_nonneg_digits n : Forall (fun c => is_digit c = true) (show_nonneg n) /\ show_nonneg n <> [].
Proof. split; [by apply digits_fuel_digits|]. apply digits_fuel_cons. left. lia. Qed.
Lemma digits_value_show n : (0 <= n)%Z -> digits_value 0 (show_nonneg n) = (n, []).
Proof.
  intros Hn. unfold show_nonneg. rewrite digits_fuel_value; [done| |lia].
  split; [done|]. pose proof (Z.log2_up_spec (n + 2)) as Hl.
  rewrite Nat2Z.inj_add, Z2Nat.id by apply Z.log2_up_nonneg.
  assert (2 ^ Z.log2_up (n + 2) <= 10 ^ Z.log2_up (n + 2))%Z by (apply Z.pow_le_mono_l; lia).
  assert (10 ^ Z.log2_up (n + 2) <= 10 ^ (Z.log2_up (n + 2) + Z.of_nat 1))%Z by (apply Z.pow_le_mono_r; lia). lia.
Qed.
Lemma strtol_show n : (0 <= n < 2 ^ 63)%Z -> strtol (show_nonneg n) = (n, []).
Proof.
  intros Hn. pose proof (digits_value_show n) as Hv. pose proof (show_nonneg_digits n) as [Hd Hne].
  unfold strtol. destruct (show_nonneg n) as [|c s] eqn:E; [done|]. apply Forall_cons in Hd as [Hc _].
  unfold is_digit in Hc. apply andb_true_iff in Hc as [H1%Z.leb_le H2%Z.leb_le].
  assert (negb (is_space c) = true) as Hs.
  { unfold is_space. destruct (Z.eqb_spec c 32), (Z.leb_spec 9 c), (Z.leb_spec c 13); try done; lia. }
  cbn [list_find]. rewrite decide_True by done. cbn [drop].
  rewrite (proj2 (Z.eqb_neq c 45)), (proj2 (Z.eqb_neq c 43)) by lia.
  unfold is_digit at 1. rewrite (proj2 (Z.leb_le 48 c)), (proj2 (Z.leb_le c 57)) by lia. cbn [andb].
  rewrite Hv by lia. f_equal. lia.
Qed.
