(* ===== verification/Relay.v ===== *)
(** * Definitions shared by the relay's parts (src/relay.h, src/collector.h)

    Protocols, line types, transports, times, sizes, and the way a statistic's
    growth since the last look is computed. *)
From S2P Require Import Prelude.
#[local] Open Scope Z_scope.

Inductive con_proto := CON_TCP | CON_UDP | CON_PIPE | CON_FILE | CON_UNIX.
Inductive con_type := T_LINEMODE | T_SYSLOGMODE.
#[export] Instance con_proto_eq_dec : EqDecision con_proto.
Proof. solve_decision. Defined.
#[export] Instance con_type_eq_dec : EqDecision con_type.
Proof. solve_decision. Defined.

(** A transport is a compressor and, as a bit, SSL. *)
Definition W_PLAIN : Z := 1.
Definition W_GZIP : Z := 2.
Definition W_LZ4 : Z := 3.
Definition W_SNAPPY : Z := 4.
Definition W_SSL : Z := Z.shiftl 1 16.

(** The largest metric, and the size of the buffers that hold metrics. *)
Definition METRIC_BUFSIZ : Z := 32768.

(** ** Time *)

Record timeval := mkTv { tv_sec : Z; tv_usec : Z }.
Definition timediff (x y : timeval) : Z :=
  if tv_sec x <? tv_sec y then (tv_sec y - tv_sec x) * 1000000 + (tv_usec y - tv_usec x)
  else tv_usec y - tv_usec x.

(** ** Statistics

    The [*_sub] functions return the growth of a [size_t] statistic since their
    last call: the difference is taken, and added to the remembered value. *)
Definition counter_sub (total prev : Z) : Z * Z :=
  let d := u64 (total - prev) in (u64 (prev + d), d).

Definition sumz (l : list Z) : Z := foldr Z.add 0 l.

Lemma u64_add_l a b : u64 (u64 a + b) = u64 (a + b).
Proof. apply Zplus_mod_idemp_l. Qed.
Lemma u64_add_r a b : u64 (a + u64 b) = u64 (a + b).
Proof. apply Zplus_mod_idemp_r. Qed.
Lemma u64_sub_r a b : u64 (a - u64 b) = u64 (a - b).
Proof. apply Zminus_mod_idemp_r. Qed.
Lemma u64_idemp a : u64 (u64 a) = u64 a.
Proof. apply Zmod_mod. Qed.

(** ** Sums over lists *)

Lemma sumz_app l k : sumz (l ++ k) = sumz l + sumz k.
Proof. induction l as [|x l IH]; cbn; [done|]. fold (sumz (l ++ k)) (sumz l). lia. Qed.
Lemma sumz_cons x l : sumz (x :: l) = x + sumz l.
Proof. done. Qed.
Lemma sumz_insert {A} (f : A -> Z) (l : list A) i x y :
  l !! i = Some y -> sumz (f <$> <[i := x]> l) = sumz (f <$> l) - f y + f x.
Proof.
  revert i. induction l as [|a l IH]; intros [|i]; csimpl; rewrite ?sumz_cons; try done.
  - intros [= ->]. lia.
  - intros Hy. rewrite (IH i Hy). lia.
Qed.
Lemma sumz_replicate n x : sumz (replicate n x) = Z.of_nat n * x.
Proof. induction n as [|n IH]; cbn [replicate sumz foldr]; [done|]. fold (sumz (replicate n x)). lia. Qed.
#[export] Instance sumz_perm : Proper ((≡ₚ) ==> eq) sumz.
Proof. intros l k H. induction H; cbn; fold (sumz); unfold sumz in *; lia. Qed.

(** ** The texts of stream errors *)

(** What [SSL_get_error] returns, with OpenSSL's numbers. *)
Definition SSL_ERROR_NONE : Z := 0.
Definition SSL_ERROR_SSL : Z := 1.
Definition SSL_ERROR_WANT_READ : Z := 2.
Definition SSL_ERROR_WANT_WRITE : Z := 3.
Definition SSL_ERROR_WANT_X509_LOOKUP : Z := 4.
Definition SSL_ERROR_SYSCALL : Z := 5.
Definition SSL_ERROR_ZERO_RETURN : Z := 6.
Definition SSL_ERROR_WANT_CONNECT : Z := 7.
Definition SSL_ERROR_WANT_ACCEPT : Z := 8.
Definition SSL_ERROR_WANT_ASYNC : Z := 9.
Definition SSL_ERROR_WANT_ASYNC_JOB : Z := 10.

(** [sslerror]: the contents of [_sslerror_buf] afterwards, from those before, [strerror(errno)] and what OpenSSL's queue of
    errors says.  A number that is not known leaves the last message. *)
Definition sslerror (buf : cstring) (err : Z) (strerror queued : cstring) : cstring :=
  let text (t : cstring) := snprintf_trunc 256 (show_Z err ++ lit ": " ++ t) in
  if err =? SSL_ERROR_NONE then text (lit "SSL_ERROR_NONE")
  else if err =? SSL_ERROR_ZERO_RETURN then text (lit "TLS/SSL connection has been closed")
  else if (err =? SSL_ERROR_WANT_READ) || (err =? SSL_ERROR_WANT_WRITE) || (err =? SSL_ERROR_WANT_CONNECT) || (err =? SSL_ERROR_WANT_ACCEPT) then
    text (lit "the read or write operation did not complete")
  else if err =? SSL_ERROR_WANT_X509_LOOKUP then text (lit "call callback via SSL_CTX_set_client_cert_cb()")
  else if err =? SSL_ERROR_WANT_ASYNC then text (lit "asynchronous engine is still processing data")
  else if err =? SSL_ERROR_WANT_ASYNC_JOB then text (lit "no async jobs available in the pool")
  else if err =? SSL_ERROR_SYSCALL then text (lit "I/O error: " ++ strerror)
  else if err =? SSL_ERROR_SSL then snprintf_trunc 256 queued
  else buf.
Lemma sslerror_fits buf err strerror queued : (length buf < 256)%nat -> (length (sslerror buf err strerror queued) < 256)%nat.
Proof. intros Hb. unfold sslerror, snprintf_trunc. repeat case_match; rewrite ?length_take; lia. Qed.
