(* ===== verification/Queue.v ===== *)
(** * The metric queue (src/queue.c)

    A bounded ring buffer of metric pointers, shared by the dispatchers that
    enqueue and the server threads that drain it.  Every operation of queue.c
    runs under the queue's mutex from its first to its last access of the
    mutable fields, so an execution of any number of threads is a sequence of
    these operations: [run] executes such a sequence, and the refinement theorem
    is about every sequence.

    An array access outside the [q_end] cells of the buffer has no defined
    behaviour in C: the operations return [None] there, and the theorems show
    this never happens.  [free] of a stored pointer is part of the result of the
    operation that performs it. *)
From S2P Require Import Prelude.
#[local] Open Scope nat_scope.

(** ** The structure and its operations *)

Section definitions.
Context {A : Type}.

(** [struct _queue]; a cell is [None] while it holds the NULL of [memset]. *)
Record queue := mkQueue {
  q_queue : list (option A);
  q_end : nat;
  q_write : nat;
  q_read : nat;
  q_len : nat;
}.

(** [queue_new(size)]; [ok] says whether both [malloc]s succeed. *)
Definition queue_new (ok : bool) (size : nat) : option queue :=
  if ok then Some (mkQueue (replicate size None) size 0 0 0) else None.

(** [if (q->read == q->end) q->read = 0], and the same for [write]. *)
Definition rewind (q_end pos : nat) : nat := if decide (pos = q_end) then 0 else pos.

(** [queue_enqueue(q, p)]: the new queue and the pointers passed to [free]. *)
Definition queue_enqueue (q : queue) (p : A) : option (queue * list (option A)) :=
  '(rd, len, freed) ←
    (if decide (q_len q = q_end q) then
       let rd := rewind (q_end q) (q_read q) in
       x ← q_queue q !! rd;
       Some (rd + 1, q_len q - 1, [x])
     else Some (q_read q, q_len q, []));
  let w := rewind (q_end q) (q_write q) in
  if decide (w < length (q_queue q)) then
    Some (mkQueue (<[w := Some p]> (q_queue q)) (q_end q) (w + 1) rd (len + 1), freed)
  else None.

(** [queue_dequeue(q)]: the new queue and the returned pointer ([None] is NULL). *)
Definition queue_dequeue (q : queue) : option (queue * option A) :=
  if decide (q_len q = 0) then Some (q, None)
  else
    let rd := rewind (q_end q) (q_read q) in
    x ← q_queue q !! rd;
    Some (mkQueue (q_queue q) (q_end q) (q_write q) (rd + 1) (q_len q - 1), x).

(** The [for] loop of [queue_dequeue_vector]: [n] cells from position [rd] on. *)
Fixpoint dequeue_loop (cells : list (option A)) (e : nat) (n rd : nat) :
    option (nat * list (option A)) :=
  match n with
  | O => Some (rd, [])
  | S n' =>
      let rd := rewind e rd in
      x ← cells !! rd;
      '(rd', xs) ← dequeue_loop cells e n' (rd + 1);
      Some (rd', x :: xs)
  end.

(** [queue_dequeue_vector(ret, q, len)]: the new queue and what is stored in [ret]. *)
Definition queue_dequeue_vector (q : queue) (len : nat) : option (queue * list (option A)) :=
  if decide (q_len q = 0) then Some (q, [])
  else
    let len := if decide (q_len q < len) then q_len q else len in
    '(rd, xs) ← dequeue_loop (q_queue q) (q_end q) len (q_read q);
    Some (mkQueue (q_queue q) (q_end q) (q_write q) rd (q_len q - len), xs).

(** [queue_putback(q, p)]: the new queue and the returned flag. *)
Definition queue_putback (q : queue) (p : A) : option (queue * bool) :=
  if decide (q_len q = q_end q) then Some (q, false)
  else
    let rd := (if decide (q_read q = 0) then q_end q else q_read q) - 1 in
    if decide (rd < length (q_queue q)) then
      Some (mkQueue (<[rd := Some p]> (q_queue q)) (q_end q) (q_write q) rd (q_len q + 1), true)
    else None.

Definition queue_len (q : queue) : nat := q_len q.
Definition queue_free (q : queue) : nat := q_end q - queue_len q.
Definition queue_size (q : queue) : nat := q_end q.

(** [queue_destroy(q)]: the drain loop, which frees what [queue_dequeue] returns
    until that is NULL.  The result is the list of freed pointers; the loop body
    is bounded by the fuel, one unit per iteration. *)
Fixpoint queue_drain (fuel : nat) (q : queue) : option (list A) :=
  match fuel with
  | O => None
  | S fuel' =>
      '(q', p) ← queue_dequeue q;
      match p with
      | None => Some []
      | Some x => xs ← queue_drain fuel' q'; Some (x :: xs)
      end
  end.
Definition queue_destroy (q : queue) : option (list A) := queue_drain (q_len q + 1) q.

(** ** The abstract queue: a list of at most [cap] entries, oldest first *)

Definition fifo_enqueue (cap : nat) (l : list A) (p : A) : list A * list A :=
  if decide (length l = cap) then (tail l ++ [p], take 1 l) else (l ++ [p], []).
Definition fifo_dequeue (l : list A) : list A * option A := (tail l, head l).
Definition fifo_dequeue_vector (l : list A) (n : nat) : list A * list A := (drop n l, take n l).
Definition fifo_putback (cap : nat) (l : list A) (p : A) : list A * bool :=
  if decide (length l = cap) then (l, false) else (p :: l, true).

(** ** Operation sequences *)

Inductive qop :=
  | OpEnqueue (p : A)
  | OpDequeue
  | OpDequeueVector (n : nat)
  | OpPutback (p : A)
  | OpLen
  | OpFree.

(** What an operation hands back to its caller (or to [free]). *)
Inductive qres :=
  | RFreed (l : list (option A))
  | RPtr (p : option A)
  | RVector (l : list (option A))
  | RFlag (b : bool)
  | RNum (n : nat).

Definition queue_step (q : queue) (o : qop) : option (queue * qres) :=
  match o with
  | OpEnqueue p => '(q', f) ← queue_enqueue q p; Some (q', RFreed f)
  | OpDequeue => '(q', r) ← queue_dequeue q; Some (q', RPtr r)
  | OpDequeueVector n => '(q', r) ← queue_dequeue_vector q n; Some (q', RVector r)
  | OpPutback p => '(q', b) ← queue_putback q p; Some (q', RFlag b)
  | OpLen => Some (q, RNum (queue_len q))
  | OpFree => Some (q, RNum (queue_free q))
  end.

Definition fifo_step (cap : nat) (l : list A) (o : qop) : list A * qres :=
  match o with
  | OpEnqueue p => let '(l', f) := fifo_enqueue cap l p in (l', RFreed (Some <$> f))
  | OpDequeue => let '(l', r) := fifo_dequeue l in (l', RPtr r)
  | OpDequeueVector n => let '(l', r) := fifo_dequeue_vector l n in (l', RVector (Some <$> r))
  | OpPutback p => let '(l', b) := fifo_putback cap l p in (l', RFlag b)
  | OpLen => (l, RNum (length l))
  | OpFree => (l, RNum (cap - length l))
  end.

Fixpoint queue_run (q : queue) (os : list qop) : option (queue * list qres) :=
  match os with
  | [] => Some (q, [])
  | o :: os' =>
      '(q1, r) ← queue_step q o;
      '(q2, rs) ← queue_run q1 os';
      Some (q2, r :: rs)
  end.

Fixpoint fifo_run (cap : nat) (l : list A) (os : list qop) : list A * list qres :=
  match os with
  | [] => (l, [])
  | o :: os' =>
      let '(l1, r) := fifo_step cap l o in
      let '(l2, rs) := fifo_run cap l1 os' in (l2, r :: rs)
  end.

(** ** The representation relation *)

(** The cell of the [i]-th oldest entry when [read] is [r]. *)
Definition ring_index (e r i : nat) : nat := if decide (r + i < e) then r + i else r + i - e.

Record queue_rep (q : queue) (l : list A) : Prop := mkRep {
  rep_cells : length (q_queue q) = q_end q;
  rep_pos : 0 < q_end q;
  rep_read : q_read q <= q_end q;
  rep_write_le : q_write q <= q_end q;
  rep_len : length l = q_len q;
  rep_cap : q_len q <= q_end q;
  rep_write : rewind (q_end q) (q_write q) =
              rewind (q_end q) (ring_index (q_end q) (q_read q) (q_len q));
  rep_entry : forall i x, l !! i = Some x ->
              q_queue q !! ring_index (q_end q) (q_read q) i = Some (Some x);
}.
End definitions.

Arguments queue : clear implicits.
Arguments qop : clear implicits.
Arguments qres : clear implicits.

(** ** Lemmas *)

Ltac ring_arith := unfold ring_index, rewind in *; repeat case_decide; try lia; simpl in *.

Section lemmas.
Context {A : Type}.
Implicit Types (q : queue A) (l : list A).

Lemma rewind_lt e r : 0 < e -> r <= e -> rewind e r < e.
Proof. ring_arith. Qed.

Lemma rewind_index e r : 0 < e -> r <= e -> rewind e r = ring_index e r 0.
Proof. ring_arith. Qed.

Lemma ring_index_succ e r i :
  r <= e -> S i < e -> ring_index e r (S i) = ring_index e (rewind e r + 1) i.
Proof. ring_arith. Qed.

Lemma queue_new_rep n : 0 < n -> queue_rep (mkQueue (A := A) (replicate n None) n 0 0 0) [].
Proof. intros Hn. constructor; simpl; rewrite ?length_replicate; ring_arith; set_solver. Qed.

(** Advancing [read] past the oldest entry drops it from the represented list. *)
Lemma queue_rep_tail q x l :
  queue_rep q (x :: l) ->
  q_queue q !! rewind (q_end q) (q_read q) = Some (Some x) /\
  queue_rep (mkQueue (q_queue q) (q_end q) (q_write q)
               (rewind (q_end q) (q_read q) + 1) (q_len q - 1)) l.
Proof.
  intros [Hc Hp Hr Hwl Hl Hcap Hw He]. simpl in Hl. split.
  - rewrite rewind_index by done. by apply He.
  - constructor; simpl; try lia.
    + pose proof (rewind_lt (q_end q) (q_read q)). lia.
    + rewrite Hw. ring_arith.
    + intros i y Hi. rewrite <- ring_index_succ by (try apply lookup_lt_Some in Hi; lia).
      by apply He.
Qed.

Lemma queue_rep_snoc q l p :
  queue_rep q l -> q_len q < q_end q ->
  let w := rewind (q_end q) (q_write q) in
  w < length (q_queue q) /\
  queue_rep (mkQueue (<[w := Some p]> (q_queue q)) (q_end q) (w + 1) (q_read q) (q_len q + 1))
    (l ++ [p]).
Proof.
  intros [Hc Hp Hr Hwl Hl Hcap Hw He] Hlt w.
  assert (w < q_end q) as Hwlt by (by apply rewind_lt).
  split; [lia|]. constructor; simpl; rewrite ?length_insert, ?length_app; simpl; try lia.
  - subst w. rewrite Hw. ring_arith.
  - intros i x Hi. destruct (decide (i = length l)) as [->|Hne].
    + rewrite lookup_app_r, Nat.sub_diag in Hi by done. simplify_eq/=.
      replace (ring_index _ _ _) with w by (subst w; rewrite Hw, Hl; ring_arith).
      apply list_lookup_insert_eq. lia.
    + assert (i < length l) by (apply lookup_lt_Some in Hi; rewrite length_app in Hi; simpl in Hi; lia).
      rewrite lookup_app_l in Hi by done. rewrite list_lookup_insert_ne; [by apply He|].
      subst w. rewrite Hw. ring_arith.
Qed.

Lemma queue_rep_cons q l p :
  queue_rep q l -> q_len q < q_end q ->
  let rd := (if decide (q_read q = 0) then q_end q else q_read q) - 1 in
  rd < length (q_queue q) /\
  queue_rep (mkQueue (<[rd := Some p]> (q_queue q)) (q_end q) (q_write q) rd (q_len q + 1))
    (p :: l).
Proof.
  intros [Hc Hp Hr Hwl Hl Hcap Hw He] Hlt rd.
  assert (rd < q_end q) as Hrd by (subst rd; case_decide; lia).
  split; [lia|]. constructor; simpl; rewrite ?length_insert; simpl; try lia.
  - rewrite Hw. subst rd. ring_arith.
  - intros [|i] x Hi; simpl in Hi.
    + simplify_eq. replace (ring_index _ _ _) with rd by (subst rd; ring_arith).
      apply list_lookup_insert_eq. lia.
    + assert (i < length l) by (by eapply lookup_lt_Some).
      assert (ring_index (q_end q) rd (S i) = ring_index (q_end q) (q_read q) i) as ->
        by (subst rd; ring_arith).
      rewrite list_lookup_insert_ne; [by apply He|]. subst rd. ring_arith.
Qed.

Lemma queue_enqueue_rep q l p :
  queue_rep q l ->
  exists q', queue_enqueue q p = Some (q', Some <$> (fifo_enqueue (q_end q) l p).2) /\
    queue_rep q' (fifo_enqueue (q_end q) l p).1 /\ q_end q' = q_end q.
Proof.
  intros H. pose proof H as [Hc Hp Hr Hwl Hl Hcap _ _].
  unfold queue_enqueue, fifo_enqueue. rewrite Hl.
  destruct (decide (q_len q = q_end q)) as [Hfull|Hfull]; simpl.
  - destruct l as [|x l]; simpl in Hl; [lia|].
    apply queue_rep_tail in H as [-> H]. simpl.
    eapply (queue_rep_snoc _ _ p) in H as [Hw H]; simpl in *; [|lia].
    rewrite decide_True by done. eauto.
  - eapply (queue_rep_snoc _ _ p) in H as [Hw H]; [|lia].
    rewrite decide_True by done. eauto.
Qed.

Lemma queue_dequeue_rep q l :
  queue_rep q l ->
  exists q', queue_dequeue q = Some (q', head l) /\ queue_rep q' (tail l) /\ q_end q' = q_end q.
Proof.
  intros H. pose proof (rep_len _ _ H) as Hl. unfold queue_dequeue. destruct l as [|x l]; simpl in *.
  - rewrite decide_True by done. eauto.
  - rewrite decide_False by lia. apply queue_rep_tail in H as [-> H]. simpl. eauto.
Qed.

Lemma dequeue_loop_rep n q l :
  queue_rep q l -> n <= length l ->
  exists rd, dequeue_loop (q_queue q) (q_end q) n (q_read q) = Some (rd, Some <$> take n l) /\
    queue_rep (mkQueue (q_queue q) (q_end q) (q_write q) rd (q_len q - n)) (drop n l).
Proof.
  revert q l. induction n as [|n IH]; intros q l H Hn; simpl.
  - exists (q_read q). split; [done|]. rewrite Nat.sub_0_r. by destruct q.
  - destruct l as [|x l]; simpl in Hn; [lia|]. apply queue_rep_tail in H as [-> H]. simpl.
    apply IH in H as (rd & Hrd & H); [|lia]. simpl in Hrd. rewrite Hrd. simpl.
    exists rd. split; [done|]. simpl in H. by rewrite <- Nat.sub_add_distr in H.
Qed.

Lemma queue_dequeue_vector_rep q l n :
  queue_rep q l ->
  exists q', queue_dequeue_vector q n = Some (q', Some <$> take n l) /\
    queue_rep q' (drop n l) /\ q_end q' = q_end q.
Proof.
  intros H. pose proof (rep_len _ _ H) as Hl. unfold queue_dequeue_vector. case_decide.
  - destruct l; simpl in Hl; [|lia]. rewrite take_nil, drop_nil. eauto.
  - set (m := if decide (q_len q < n) then q_len q else n).
    assert (m <= length l) as Hm by (subst m; case_decide; lia).
    destruct (dequeue_loop_rep m q l H Hm) as (rd & Hrd & H'). rewrite Hrd. simpl.
    assert (take m l = take n l /\ drop m l = drop n l) as [-> Hd]
      by (subst m; case_decide; rewrite ?take_ge, ?drop_ge by lia; done).
    rewrite Hd in H'. eauto.
Qed.

Lemma queue_putback_rep q l p :
  queue_rep q l ->
  exists q', queue_putback q p = Some (q', (fifo_putback (q_end q) l p).2) /\
    queue_rep q' (fifo_putback (q_end q) l p).1 /\ q_end q' = q_end q.
Proof.
  intros H. pose proof H as [_ _ _ _ Hl Hcap _ _]. unfold queue_putback, fifo_putback.
  rewrite Hl. destruct (decide (q_len q = q_end q)); simpl; [by eauto|].
  eapply (queue_rep_cons _ _ p) in H as [Hw H]; [|lia]. rewrite decide_True by done. eauto.
Qed.

Lemma queue_step_rep q l o :
  queue_rep q l ->
  exists q', queue_step q o = Some (q', (fifo_step (q_end q) l o).2) /\
    queue_rep q' (fifo_step (q_end q) l o).1 /\ q_end q' = q_end q.
Proof.
  intros H. destruct o as [p| |n|p| |]; simpl.
  - destruct (queue_enqueue_rep q l p H) as (q' & -> & ? & ?). destruct (fifo_enqueue _ _ _). eauto.
  - destruct (queue_dequeue_rep q l H) as (q' & -> & ? & ?). eauto.
  - destruct (queue_dequeue_vector_rep q l n H) as (q' & -> & ? & ?). eauto.
  - destruct (queue_putback_rep q l p H) as (q' & -> & ? & ?). destruct (fifo_putback _ _ _). eauto.
  - unfold queue_len. rewrite (rep_len _ _ H). eauto.
  - unfold queue_free, queue_len. rewrite (rep_len _ _ H). eauto.
Qed.

Lemma queue_run_rep os q l :
  queue_rep q l ->
  exists q', queue_run q os = Some (q', (fifo_run (q_end q) l os).2) /\
    queue_rep q' (fifo_run (q_end q) l os).1 /\ q_end q' = q_end q.
Proof.
  revert q l. induction os as [|o os IH]; intros q l H; simpl; [by eauto|].
  destruct (queue_step_rep q l o H) as (q1 & -> & H1 & He). simpl.
  destruct (fifo_step _ _ _) as [l1 r]. destruct (IH _ _ H1) as (q2 & -> & H2 & He2).
  rewrite He in *. destruct (fifo_run _ _ _). simpl in *. eauto with congruence.
Qed.

Lemma queue_drain_rep q l fuel :
  queue_rep q l -> length l < fuel -> queue_drain fuel q = Some l.
Proof.
  revert q l. induction fuel as [|fuel IH]; intros q l H Hf; [lia|]. simpl.
  destruct (queue_dequeue_rep q l H) as (q' & -> & H' & _). simpl.
  destruct l as [|x l]; simpl in *; [done|]. rewrite (IH q' l) by (done || lia). done.
Qed.
End lemmas.

#[export] Hint Resolve queue_new_rep queue_enqueue_rep queue_dequeue_rep
  queue_dequeue_vector_rep queue_putback_rep : relay.

(** ** The interface the servers use

    What a server relies on: the operations of a bounded queue, a representation
    relation to the list of its entries, and the laws that relate them. *)
Class FifoQueue (Q : Type) (A : Type) := {
  fq_enqueue : Q -> A -> option (Q * list (option A));
  fq_dequeue_vector : Q -> nat -> option (Q * list (option A));
  fq_putback : Q -> A -> option (Q * bool);
  fq_len : Q -> nat;
  fq_free : Q -> nat;
  fq_size : Q -> nat;
  fq_rep : Q -> list A -> Prop;
  fq_enqueue_law q l p : fq_rep q l ->
    exists q', fq_enqueue q p = Some (q', Some <$> (fifo_enqueue (fq_size q) l p).2) /\
      fq_rep q' (fifo_enqueue (fq_size q) l p).1 /\ fq_size q' = fq_size q;
  fq_dequeue_vector_law q l n : fq_rep q l ->
    exists q', fq_dequeue_vector q n = Some (q', Some <$> take n l) /\
      fq_rep q' (drop n l) /\ fq_size q' = fq_size q;
  fq_putback_law q l p : fq_rep q l ->
    exists q', fq_putback q p = Some (q', (fifo_putback (fq_size q) l p).2) /\
      fq_rep q' (fifo_putback (fq_size q) l p).1 /\ fq_size q' = fq_size q;
  fq_len_law q l : fq_rep q l -> fq_len q = length l;
  fq_free_law q l : fq_rep q l -> fq_free q = fq_size q - length l;
  fq_cap_law q l : fq_rep q l -> length l <= fq_size q;
}.

(** queue.c implements it. *)
#[export] Instance queue_fifo (A : Type) : FifoQueue (queue A) A.
Proof.
  refine (Build_FifoQueue _ _ queue_enqueue queue_dequeue_vector queue_putback
    queue_len queue_free queue_size queue_rep
    queue_enqueue_rep queue_dequeue_vector_rep queue_putback_rep _ _ _);
    intros q l H; unfold queue_free, queue_len, queue_size;
    rewrite ?(rep_len _ _ H); try done.
  apply (rep_cap _ _ H).
Defined.

(** ** Ownership of the pointers *)

Section ownership.
Context {A : Type}.

(** The pointers an operation hands over to the queue, and those it hands out
    (to its caller or to [free]). *)
Definition given (o : qop A) (r : qres A) : list A :=
  match o, r with
  | OpEnqueue p, _ => [p]
  | OpPutback p, RFlag true => [p]
  | _, _ => []
  end.
Definition handed_out (r : qres A) : list A :=
  match r with
  | RFreed l => omap id l
  | RVector l => omap id l
  | RPtr p => option_list p
  | _ => []
  end.
Definition all_given (os : list (qop A)) (rs : list (qres A)) : list A :=
  concat (zip_with given os rs).
Definition all_handed_out (rs : list (qres A)) : list A := concat (handed_out <$> rs).

Lemma omap_id_Some (l : list A) : omap id (Some <$> l) = l.
Proof. induction l as [|x l IH]; csimpl; [done|]. by f_equal. Qed.

Lemma fifo_step_owns cap (l : list A) o :
  let '(l', r) := fifo_step cap l o in given o r ++ l ≡ₚ handed_out r ++ l'.
Proof.
  destruct o as [p| |n|p| |]; simpl; unfold fifo_enqueue, fifo_dequeue, fifo_putback;
    repeat case_decide; csimpl; rewrite ?omap_id_Some; try done.
  - destruct l as [|x l]; csimpl; [done|]. rewrite Permutation_swap. f_equiv.
    apply Permutation_cons_append.
  - apply Permutation_cons_append.
  - by destruct l.
  - by rewrite take_drop.
Qed.

Lemma fifo_run_owns cap os (l : list A) :
  let '(l', rs) := fifo_run cap l os in all_given os rs ++ l ≡ₚ all_handed_out rs ++ l'.
Proof.
  revert l. induction os as [|o os IH]; intros l; simpl; [done|].
  pose proof (fifo_step_owns cap l o) as H1. destruct (fifo_step cap l o) as [l1 r].
  specialize (IH l1). destruct (fifo_run cap l1 os) as [l2 rs].
  unfold all_given, all_handed_out in *. csimpl.
  transitivity (concat (zip_with given os rs) ++ (given o r ++ l)); [solve_Permutation|].
  rewrite H1. transitivity (handed_out r ++ (concat (zip_with given os rs) ++ l1));
    [solve_Permutation|].
  rewrite IH. solve_Permutation.
Qed.
End ownership.

(** ** Properties *)

(** C1: a queue of [n > 0] cells behaves, under every sequence of operations, as
    a list bounded by [n]: no operation accesses a cell outside the buffer, each
    returns exactly what the bounded list gives (the oldest entries first, the
    oldest entry freed when the queue overflows, [queue_putback] refused when it
    is full), and the final state represents the final list. *)
Theorem queue_refines_fifo (A : Type) (n : nat) (os : list (qop A)) :
  0 < n ->
  exists q q', queue_new true n = Some q /\
    queue_run q os = Some (q', (fifo_run n [] os).2) /\
    queue_rep q' (fifo_run n [] os).1.
Proof.
  intros Hn. destruct (queue_run_rep os _ _ (queue_new_rep (A := A) n Hn)) as (q' & ? & ? & _).
  eexists _, q'. split; [done|]. eauto.
Qed.

Lemma queue_refines_fifo_witness :
  exists q q', queue_new true 2 = Some q /\
    queue_run q [OpEnqueue 1%Z; OpEnqueue 2%Z; OpEnqueue 3%Z; OpPutback 9%Z; OpDequeueVector 5; OpDequeue]
      = Some (q', [RFreed []; RFreed []; RFreed [Some 1%Z]; RFlag false;
                   RVector [Some 2%Z; Some 3%Z]; RPtr None]) /\
    queue_rep q' [].
Proof.
  refine (queue_refines_fifo Z 2
    [OpEnqueue 1%Z; OpEnqueue 2%Z; OpEnqueue 3%Z; OpPutback 9%Z; OpDequeueVector 5; OpDequeue] _).
  lia.
Defined.

(** C17: Pointers are neither leaked nor duplicated, in a queue of at least one element for which there was memory.  After any
    sequence of operations, destroying the queue succeeds, and the pointers that were handed
    over to it (by [queue_enqueue], and by a [queue_putback] that returned true)
    are, up to order, exactly those it returned, freed on overflow, or freed in
    [queue_destroy]. *)
Theorem queue_ownership (A : Type) (n : nat) (os : list (qop A)) (q q' : queue A) (rs : list (qres A)) :
  0 < n -> queue_new true n = Some q -> queue_run q os = Some (q', rs) ->
  exists rest, queue_destroy q' = Some rest /\
    all_given os rs ≡ₚ all_handed_out rs ++ rest.
Proof.
  intros Hn [= <-] Hrun.
  destruct (queue_run_rep os _ _ (queue_new_rep n Hn)) as (q'' & Hrun' & Hrep & _).
  rewrite Hrun in Hrun'. simplify_eq. pose proof (fifo_run_owns n os (A := A) []) as Ho.
  simpl in *. destruct (fifo_run n [] os) as [l rs']. rewrite app_nil_r in Ho.
  exists l. split; [|done]. apply queue_drain_rep; [done|]. simpl in Hrep.
  rewrite (rep_len _ _ Hrep). lia.
Qed.

Lemma queue_ownership_witness :
  exists q q' rest, queue_new true 1 = Some q /\
    queue_run q [OpEnqueue 1%Z; OpEnqueue 2%Z; OpDequeue; OpPutback 7%Z]
      = Some (q', [RFreed []; RFreed [Some 1%Z]; RPtr (Some 2%Z); RFlag true]) /\
    queue_destroy q' = Some rest /\ [1; 2; 7]%Z ≡ₚ [1; 2]%Z ++ rest.
Proof.
  eexists _, _, _. split; [reflexivity|]. split; [reflexivity|].
  destruct (queue_ownership Z 1 [OpEnqueue 1%Z; OpEnqueue 2%Z; OpDequeue; OpPutback 7%Z]
    _ _ _ ltac:(lia) eq_refl eq_refl) as (rest & Hd & Hp).
  vm_compute in Hd. injection Hd as <-. split; [reflexivity|]. exact Hp.
Defined.
