(* ===== verification/Fnv.v ===== *)
(** * FNV1a hashing (src/fnv1a.h)

    The two macros walk a [const char *] from [metric] to [firstspace].  The
    cast [(unsigned int)*p] of a signed [char] sign-extends, which the model
    keeps: [u32 c] of a negative character is [2^32 + c]. *)
From S2P Require Import Prelude.
#[local] Open Scope Z_scope.
#[local] Open Scope cint_scope.

Definition FNV1A_32_OFFSET : Z := 2166136261.
Definition FNV1A_32_PRIME : Z := 16777619.
Definition FNV1A_64_OFFSET : Z := 14695981039346656037.
Definition FNV1A_64_PRIME : Z := 1099511628211.

(** One iteration of each macro's loop. *)
Definition fnv1a_32_step (hash : Z) (c : cchar) : Z := Z.lxor hash (u32 c) *u32 FNV1A_32_PRIME.
Definition fnv1a_64_step (hash : Z) (c : cchar) : Z := Z.lxor hash (u64 c) *u64 FNV1A_64_PRIME.

(** [fnv1a_32(hash, p, metric, firstspace)] on the characters in between. *)
Definition fnv1a_32 (key : cstring) : Z := foldl fnv1a_32_step FNV1A_32_OFFSET key.
Definition fnv1a_64 (key : cstring) : Z := foldl fnv1a_64_step FNV1A_64_OFFSET key.

(** The published algorithm, on octets. *)
Definition fnv1a_ref (offset prime modulus : Z) (octets : list Z) : Z :=
  foldl (fun h b => (Z.lxor h b * prime) mod modulus) offset octets.

(** A value a [char] can have. *)
Definition is_char (c : cchar) : Prop := -128 <= c <= 127.

(** ** Lemmas *)

Lemma lxor_range n a b : 0 <= n -> 0 <= a < 2 ^ n -> 0 <= b < 2 ^ n -> 0 <= Z.lxor a b < 2 ^ n.
Proof.
  intros Hn Ha Hb. assert (0 <= Z.lxor a b) as H0 by (apply Z.lxor_nonneg; lia).
  split; [done|]. destruct (decide (Z.lxor a b = 0)) as [->|Hne]; [lia|].
  apply Z.log2_lt_pow2; [lia|]. eapply Z.le_lt_trans; [apply Z.log2_lxor; lia|].
  assert (0 < n) by (destruct (decide (n = 0)) as [->|]; [|lia];
    assert (a = 0) as -> by lia; assert (b = 0) as -> by lia; done).
  apply Z.max_lub_lt.
  - destruct (decide (a = 0)) as [->|]; [simpl; lia|]. apply Z.log2_lt_pow2; lia.
  - destruct (decide (b = 0)) as [->|]; [simpl; lia|]. apply Z.log2_lt_pow2; lia.
Qed.

(** Multiplication by a unit of [Z/m] is injective. *)
Lemma mul_unit_inj m p pinv x y :
  0 < m -> (p * pinv) mod m = 1 mod m -> 0 <= x < m -> 0 <= y < m ->
  (x * p) mod m = (y * p) mod m -> x = y.
Proof.
  intros Hm Hinv Hx Hy Heq.
  assert (forall z, 0 <= z < m -> ((z * p) mod m * pinv) mod m = z) as Hz.
  { intros z Hz. rewrite Zmult_mod_idemp_l, <- Z.mul_assoc, <- Zmult_mod_idemp_r, Hinv,
      Zmult_mod_idemp_r, Z.mul_1_r. by apply Z.mod_small. }
  rewrite <- (Hz x Hx), <- (Hz y Hy). by rewrite Heq.
Qed.

Lemma lxor_inj_r a b c : Z.lxor a b = Z.lxor a c -> b = c.
Proof.
  intros H. apply (f_equal (Z.lxor a)) in H.
  by rewrite <- !Z.lxor_assoc, !Z.lxor_nilpotent, !Z.lxor_0_l in H.
Qed.
Lemma lxor_inj_l a b c : Z.lxor b a = Z.lxor c a -> b = c.
Proof. rewrite (Z.lxor_comm b), (Z.lxor_comm c). apply lxor_inj_r. Qed.

Lemma u32_char_inj a b : is_char a -> is_char b -> u32 a = u32 b -> a = b.
Proof. unfold is_char, u32. intros. Z.div_mod_to_equations. lia. Qed.
Lemma u64_char_inj a b : is_char a -> is_char b -> u64 a = u64 b -> a = b.
Proof. unfold is_char, u64. intros. Z.div_mod_to_equations. lia. Qed.

(** A hash whose step is injective in the state and in the character separates
    keys that differ in one position. *)
Section one_char.
Context (step : Z -> Z -> Z) (R : Z -> Prop).
Context (step_R : forall h c, R h -> R (step h c)).
Context (step_inj_h : forall h h' c, R h -> R h' -> step h c = step h' c -> h = h').
Context (step_inj_c : forall h c c', R h -> is_char c -> is_char c' -> step h c = step h c' -> c = c').

Lemma foldl_R s h : R h -> R (foldl step h s).
Proof using step_R. revert h. induction s; simpl; eauto. Qed.

Lemma foldl_inj s h h' : R h -> R h' -> foldl step h s = foldl step h' s -> h = h'.
Proof using step_R step_inj_h. revert h h'. induction s; simpl; eauto 6. Qed.

Lemma foldl_one_char h p a b t :
  R h -> is_char a -> is_char b ->
  foldl step h (p ++ a :: t) = foldl step h (p ++ b :: t) -> a = b.
Proof using step_R step_inj_h step_inj_c.
  intros Hh Ha Hb. rewrite !foldl_app. simpl. intros H.
  assert (R (foldl step h p)) by (by apply foldl_R).
  apply foldl_inj in H; eauto.
Qed.
End one_char.

Lemma fnv1a_32_range key : 0 <= fnv1a_32 key < 2 ^ 32.
Proof.
  apply (foldl_R fnv1a_32_step (fun h => 0 <= h < 2 ^ 32)); [|vm_compute; intuition congruence].
  intros. apply u32_range.
Qed.
Lemma fnv1a_64_range key : 0 <= fnv1a_64 key < 2 ^ 64.
Proof.
  apply (foldl_R fnv1a_64_step (fun h => 0 <= h < 2 ^ 64)); [|vm_compute; intuition congruence].
  intros. apply u64_range.
Qed.
#[export] Hint Resolve fnv1a_32_range fnv1a_64_range : relay.

Lemma fnv1a_32_mix_inj x y :
  0 <= x < 2 ^ 32 -> 0 <= y < 2 ^ 32 -> x *u32 FNV1A_32_PRIME = y *u32 FNV1A_32_PRIME -> x = y.
Proof. apply (mul_unit_inj _ _ 899433627); [lia|reflexivity]. Qed.
Lemma fnv1a_64_mix_inj x y :
  0 <= x < 2 ^ 64 -> 0 <= y < 2 ^ 64 -> x *u64 FNV1A_64_PRIME = y *u64 FNV1A_64_PRIME -> x = y.
Proof. apply (mul_unit_inj _ _ 14886173955864302971); [lia|reflexivity]. Qed.

(** ** Properties *)

(** Two keys that differ in exactly one character never have the same FNV1a
    hash, neither in the 32-bit hash used for rings and any_of clusters nor in
    the 64-bit one that seeds the jump hash. *)
Theorem fnv1a_separates_one_char (p t : cstring) (a b : cchar) :
  is_char a -> is_char b -> a <> b ->
  fnv1a_32 (p ++ a :: t) <> fnv1a_32 (p ++ b :: t) /\
  fnv1a_64 (p ++ a :: t) <> fnv1a_64 (p ++ b :: t).
Proof.
  intros Ha Hb Hne. split; intros H; apply Hne; revert H.
  - apply (foldl_one_char _ (fun h => 0 <= h < 2 ^ 32)); try done.
    + intros. apply u32_range.
    + intros h h' c Hh Hh' H. apply fnv1a_32_mix_inj in H;
        [by eapply lxor_inj_l|apply lxor_range; auto using u32_range with lia..].
    + intros h c c' Hh Hc Hc' H. apply fnv1a_32_mix_inj in H;
        [by apply lxor_inj_r, u32_char_inj in H|apply lxor_range; auto using u32_range with lia..].
  - apply (foldl_one_char _ (fun h => 0 <= h < 2 ^ 64)); try done.
    + intros. apply u64_range.
    + intros h h' c Hh Hh' H. apply fnv1a_64_mix_inj in H;
        [by eapply lxor_inj_l|apply lxor_range; auto using u64_range with lia..].
    + intros h c c' Hh Hc Hc' H. apply fnv1a_64_mix_inj in H;
        [by apply lxor_inj_r, u64_char_inj in H|apply lxor_range; auto using u64_range with lia..].
Qed.

Lemma fnv1a_separates_one_char_witness :
  fnv1a_32 (lit "a.b.c") <> fnv1a_32 (lit "a.x.c") /\
  fnv1a_64 (lit "a.b.c") <> fnv1a_64 (lit "a.x.c").
Proof.
  refine (fnv1a_separates_one_char (lit "a.") (lit ".c") (ch "b") (ch "x") _ _ _);
    vm_compute; intuition congruence.
Defined.

(** On 7-bit keys the macros compute the published FNV1a of the key's octets
    (so a ring agrees with other implementations of the hash); on a character
    above 127 the sign extension of the cast makes the 32-bit value differ from
    it. *)
Theorem fnv1a_32_is_fnv1a (key : cstring) :
  Forall (fun c => 0 <= c <= 127) key ->
  fnv1a_32 key = fnv1a_ref FNV1A_32_OFFSET FNV1A_32_PRIME (2 ^ 32) (u8 <$> key) /\
  fnv1a_64 key = fnv1a_ref FNV1A_64_OFFSET FNV1A_64_PRIME (2 ^ 64) (u8 <$> key) /\
  fnv1a_32 [-61] <> fnv1a_ref FNV1A_32_OFFSET FNV1A_32_PRIME (2 ^ 32) (u8 <$> [-61]).
Proof.
  intros Hk. split; [|split; [|vm_compute; congruence]].
  - unfold fnv1a_32, fnv1a_ref. generalize FNV1A_32_OFFSET.
    induction Hk as [|c key Hc Hk IH]; intros h; csimpl; [done|]. rewrite IH. f_equal. simpl in Hc.
    unfold fnv1a_32_step. rewrite (u32_small c) by lia. unfold u8. by rewrite (Z.mod_small c) by lia.
  - unfold fnv1a_64, fnv1a_ref. generalize FNV1A_64_OFFSET.
    induction Hk as [|c key Hc Hk IH]; intros h; csimpl; [done|]. rewrite IH. f_equal. simpl in Hc.
    unfold fnv1a_64_step. rewrite (u64_small c) by lia. unfold u8. by rewrite (Z.mod_small c) by lia.
Qed.

Lemma fnv1a_32_is_fnv1a_witness :
  fnv1a_32 (lit "foobar") = fnv1a_ref FNV1A_32_OFFSET FNV1A_32_PRIME (2 ^ 32) (u8 <$> lit "foobar") /\
  fnv1a_32 (lit "foobar") = 3214735720.
Proof.
  split; [|reflexivity].
  refine (proj1 (fnv1a_32_is_fnv1a (lit "foobar") _)).
  repeat constructor; vm_compute; congruence.
Defined.
