(* ===== verification/Md5.v ===== *)
(** * MD5 (src/md5.c, src/md5.h)

    The OpenSSL-compatible MD5 the relay uses for carbon_ch rings when it is
    built without OpenSSL.  [MD5_u32plus] is [unsigned int], so every sum wraps
    at 32 bits.  The 64 [STEP] lines of [body] are the rows of [body_steps], in
    order; a row names the macro, the register it updates (which fixes the other
    three), the message word, the constant and the rotation.  The x86 variant of
    [SET]/[GET] is modelled: a word is read from the data, least significant byte
    first. *)
From S2P Require Import Prelude.
#[local] Open Scope Z_scope.
#[local] Open Scope cint_scope.

(** ** The code *)

Record MD5_CTX := mkCTX {
  ctx_lo : Z; ctx_hi : Z;
  ctx_a : Z; ctx_b : Z; ctx_c : Z; ctx_d : Z;
  ctx_buffer : list Z;
}.

(** The macros [F], [G], [H], [H2] and [I]. *)
Definition F (x y z : Z) : Z := Z.lxor z (Z.land x (Z.lxor y z)).
Definition G (x y z : Z) : Z := Z.lxor y (Z.land z (Z.lxor x y)).
Definition H (x y z : Z) : Z := Z.lxor (Z.lxor x y) z.
Definition H2 (x y z : Z) : Z := Z.lxor x (Z.lxor y z).
Definition I (x y z : Z) : Z := Z.lxor y (Z.lor x (u32 (Z.lnot z))).

(** [STEP(f, a, b, c, d, x, t, s)]: the new value of [a]. *)
Definition STEP (f : Z -> Z -> Z -> Z) (a b c d x t s : Z) : Z :=
  let a := a +u32 (f b c d + x + t) in
  let a := Z.lor (u32 (Z.shiftl a s)) (Z.shiftr (Z.land a 0xffffffff) (32 - s)) in
  a +u32 b.

(** The register a [STEP] line updates. *)
Inductive reg := Ra | Rd | Rc | Rb.

(** The four registers, in the order [a], [b], [c], [d]. *)
Abbreviation regs := (Z * Z * Z * Z)%type (only parsing).

Definition step_row (word : nat -> Z) (st : regs)
    (row : (Z -> Z -> Z -> Z) * reg * nat * Z * Z) : regs :=
  let '(f, r, k, t, s) := row in
  let '(a, b, c, d) := st in
  match r with
  | Ra => (STEP f a b c d (word k) t s, b, c, d)
  | Rd => (a, b, c, STEP f d a b c (word k) t s)
  | Rc => (a, b, STEP f c d a b (word k) t s, d)
  | Rb => (a, STEP f b c d a (word k) t s, c, d)
  end.

Definition body_steps : list ((Z -> Z -> Z -> Z) * reg * nat * Z * Z) := [
  (F, Ra, 0%nat, 0xd76aa478, 7);
  (F, Rd, 1%nat, 0xe8c7b756, 12);
  (F, Rc, 2%nat, 0x242070db, 17);
  (F, Rb, 3%nat, 0xc1bdceee, 22);
  (F, Ra, 4%nat, 0xf57c0faf, 7);
  (F, Rd, 5%nat, 0x4787c62a, 12);
  (F, Rc, 6%nat, 0xa8304613, 17);
  (F, Rb, 7%nat, 0xfd469501, 22);
  (F, Ra, 8%nat, 0x698098d8, 7);
  (F, Rd, 9%nat, 0x8b44f7af, 12);
  (F, Rc, 10%nat, 0xffff5bb1, 17);
  (F, Rb, 11%nat, 0x895cd7be, 22);
  (F, Ra, 12%nat, 0x6b901122, 7);
  (F, Rd, 13%nat, 0xfd987193, 12);
  (F, Rc, 14%nat, 0xa679438e, 17);
  (F, Rb, 15%nat, 0x49b40821, 22);
  (G, Ra, 1%nat, 0xf61e2562, 5);
  (G, Rd, 6%nat, 0xc040b340, 9);
  (G, Rc, 11%nat, 0x265e5a51, 14);
  (G, Rb, 0%nat, 0xe9b6c7aa, 20);
  (G, Ra, 5%nat, 0xd62f105d, 5);
  (G, Rd, 10%nat, 0x02441453, 9);
  (G, Rc, 15%nat, 0xd8a1e681, 14);
  (G, Rb, 4%nat, 0xe7d3fbc8, 20);
  (G, Ra, 9%nat, 0x21e1cde6, 5);
  (G, Rd, 14%nat, 0xc33707d6, 9);
  (G, Rc, 3%nat, 0xf4d50d87, 14);
  (G, Rb, 8%nat, 0x455a14ed, 20);
  (G, Ra, 13%nat, 0xa9e3e905, 5);
  (G, Rd, 2%nat, 0xfcefa3f8, 9);
  (G, Rc, 7%nat, 0x676f02d9, 14);
  (G, Rb, 12%nat, 0x8d2a4c8a, 20);
  (H, Ra, 5%nat, 0xfffa3942, 4);
  (H2, Rd, 8%nat, 0x8771f681, 11);
  (H, Rc, 11%nat, 0x6d9d6122, 16);
  (H2, Rb, 14%nat, 0xfde5380c, 23);
  (H, Ra, 1%nat, 0xa4beea44, 4);
  (H2, Rd, 4%nat, 0x4bdecfa9, 11);
  (H, Rc, 7%nat, 0xf6bb4b60, 16);
  (H2, Rb, 10%nat, 0xbebfbc70, 23);
  (H, Ra, 13%nat, 0x289b7ec6, 4);
  (H2, Rd, 0%nat, 0xeaa127fa, 11);
  (H, Rc, 3%nat, 0xd4ef3085, 16);
  (H2, Rb, 6%nat, 0x04881d05, 23);
  (H, Ra, 9%nat, 0xd9d4d039, 4);
  (H2, Rd, 12%nat, 0xe6db99e5, 11);
  (H, Rc, 15%nat, 0x1fa27cf8, 16);
  (H2, Rb, 2%nat, 0xc4ac5665, 23);
  (I, Ra, 0%nat, 0xf4292244, 6);
  (I, Rd, 7%nat, 0x432aff97, 10);
  (I, Rc, 14%nat, 0xab9423a7, 15);
  (I, Rb, 5%nat, 0xfc93a039, 21);
  (I, Ra, 12%nat, 0x655b59c3, 6);
  (I, Rd, 3%nat, 0x8f0ccc92, 10);
  (I, Rc, 10%nat, 0xffeff47d, 15);
  (I, Rb, 1%nat, 0x85845dd1, 21);
  (I, Ra, 8%nat, 0x6fa87e4f, 6);
  (I, Rd, 15%nat, 0xfe2ce6e0, 10);
  (I, Rc, 6%nat, 0xa3014314, 15);
  (I, Rb, 13%nat, 0x4e0811a1, 21);
  (I, Ra, 4%nat, 0xf7537e82, 6);
  (I, Rd, 11%nat, 0xbd3af235, 10);
  (I, Rc, 2%nat, 0x2ad7d2bb, 15);
  (I, Rb, 9%nat, 0xeb86d391, 21)
].

(** [SET(n)]/[GET(n)]: the [n]-th little-endian word at [ptr]. *)
Definition byte_at (ptr : list Z) (i : nat) : Z := default 0 (ptr !! i).
Definition GET (ptr : list Z) (n : nat) : Z :=
  byte_at ptr (n * 4) + byte_at ptr (n * 4 + 1) * 2 ^ 8 +
  byte_at ptr (n * 4 + 2) * 2 ^ 16 + byte_at ptr (n * 4 + 3) * 2 ^ 24.

(** One iteration of the [do ... while] loop of [body], on the block at [ptr]. *)
Definition body_block (st : regs) (ptr : list Z) : regs :=
  let '(saved_a, saved_b, saved_c, saved_d) := st in
  let '(a, b, c, d) := foldl (step_row (GET ptr)) st body_steps in
  (a +u32 saved_a, b +u32 saved_b, c +u32 saved_c, d +u32 saved_d).

(** [body(ctx, data, 64 * n)]: the new registers and the returned pointer. *)
Fixpoint body_loop (n : nat) (st : regs) (ptr : list Z) : regs * list Z :=
  match n with
  | O => (st, ptr)
  | S n' => body_loop n' (body_block st (take 64 ptr)) (drop 64 ptr)
  end.
Definition ctx_regs (ctx : MD5_CTX) : regs := (ctx_a ctx, ctx_b ctx, ctx_c ctx, ctx_d ctx).
Definition body (ctx : MD5_CTX) (data : list Z) (n : nat) : MD5_CTX * list Z :=
  let '((a, b, c, d), ptr) := body_loop n (ctx_regs ctx) data in
  (mkCTX (ctx_lo ctx) (ctx_hi ctx) a b c d (ctx_buffer ctx), ptr).

(** [MD5_Init] leaves the 64 bytes of [buffer] as they were. *)
Definition MD5_Init (buffer : list Z) : MD5_CTX :=
  mkCTX 0 0 0x67452301 0xefcdab89 0x98badcfe 0x10325476 buffer.

(** [memcpy(&buf[off], data, len(data))]. *)
Definition memcpy_at (buf : list Z) (off : nat) (data : list Z) : list Z :=
  take off buf ++ data ++ drop (off + length data) buf.

Definition with_buffer (ctx : MD5_CTX) (buf : list Z) : MD5_CTX :=
  mkCTX (ctx_lo ctx) (ctx_hi ctx) (ctx_a ctx) (ctx_b ctx) (ctx_c ctx) (ctx_d ctx) buf.

(** The end of [MD5_Update]: the whole blocks, then the remainder. *)
Definition update_tail (ctx : MD5_CTX) (data : list Z) : MD5_CTX :=
  let '(ctx, data) :=
    if (64 <=? length data)%nat then body ctx data (length data / 64) else (ctx, data) in
  with_buffer ctx (memcpy_at (ctx_buffer ctx) 0 data).

(** The part of [MD5_Update] after the counters. *)
Definition update_data (ctx : MD5_CTX) (used : nat) (data : list Z) : MD5_CTX :=
  if (used =? 0)%nat then update_tail ctx data
  else
    let available := (64 - used)%nat in
    if (length data <? available)%nat then
      with_buffer ctx (memcpy_at (ctx_buffer ctx) used data)
    else
      let ctx := with_buffer ctx (memcpy_at (ctx_buffer ctx) used (take available data)) in
      let '(ctx, _) := body ctx (ctx_buffer ctx) 1 in
      update_tail ctx (drop available data).

Definition MD5_Update (ctx : MD5_CTX) (data : list Z) : MD5_CTX :=
  let size := Z.of_nat (length data) in
  let saved_lo := ctx_lo ctx in
  let lo := Z.land (u64 (saved_lo + size)) 0x1fffffff in
  let hi := if lo <? saved_lo then ctx_hi ctx +u32 1 else ctx_hi ctx in
  let hi := u32 (hi + Z.shiftr size 29) in
  let ctx := mkCTX lo hi (ctx_a ctx) (ctx_b ctx) (ctx_c ctx) (ctx_d ctx) (ctx_buffer ctx) in
  let used := Z.to_nat (Z.land saved_lo 0x3f) in
  update_data ctx used data.

(** The stores [p[0] = x; p[1] = x >> 8; ...] of an [unsigned int] into bytes. *)
Definition le_bytes (x : Z) : list Z :=
  [u8 x; u8 (Z.shiftr x 8); u8 (Z.shiftr x 16); u8 (Z.shiftr x 24)].

(** The end of [MD5_Final]: zeros up to 56, the length, the last block. *)
Definition final_tail (ctx : MD5_CTX) (used available : nat) : list Z :=
  let ctx := with_buffer ctx (memcpy_at (ctx_buffer ctx) used (replicate (available - 8) 0)) in
  let lo := u32 (Z.shiftl (ctx_lo ctx) 3) in
  let ctx := with_buffer ctx (memcpy_at (ctx_buffer ctx) 56 (le_bytes lo ++ le_bytes (ctx_hi ctx))) in
  let '(ctx, _) := body ctx (ctx_buffer ctx) 1 in
  le_bytes (ctx_a ctx) ++ le_bytes (ctx_b ctx) ++ le_bytes (ctx_c ctx) ++ le_bytes (ctx_d ctx).

Definition MD5_Final (ctx : MD5_CTX) : list Z :=
  let used := Z.to_nat (Z.land (ctx_lo ctx) 0x3f) in
  let ctx := with_buffer ctx (memcpy_at (ctx_buffer ctx) used [0x80]) in
  let used := (used + 1)%nat in
  let available := (64 - used)%nat in
  if (available <? 8)%nat then
    let ctx := with_buffer ctx (memcpy_at (ctx_buffer ctx) used (replicate available 0)) in
    let '(ctx, _) := body ctx (ctx_buffer ctx) 1 in
    final_tail ctx 0 64
  else final_tail ctx used available.

(** [buffer]: the bytes the stack holds where [MD5] puts its context. *)
Definition MD5 (buffer data : list Z) : list Z := MD5_Final (MD5_Update (MD5_Init buffer) data).

(** ** RFC 1321 *)

Module RFC.

(** The auxiliary functions, as the RFC writes them. *)
Definition F_rfc1321 (x y z : Z) : Z := Z.lor (Z.land x y) (Z.land (Z.lnot x) z).
Definition G_rfc1321 (x y z : Z) : Z := Z.lor (Z.land x z) (Z.land y (Z.lnot z)).
Definition H_rfc1321 (x y z : Z) : Z := Z.lxor (Z.lxor x y) z.
Definition I_rfc1321 (x y z : Z) : Z := Z.lxor y (Z.lor x (u32 (Z.lnot z))).

(** The table [T], [T[i] = floor(4294967296 * abs(sin(i + 1)))]. *)
Definition T : list Z := [
  3614090360; 3905402710; 606105819; 3250441966;
  4118548399; 1200080426; 2821735955; 4249261313;
  1770035416; 2336552879; 4294925233; 2304563134;
  1804603682; 4254626195; 2792965006; 1236535329;
  4129170786; 3225465664; 643717713; 3921069994;
  3593408605; 38016083; 3634488961; 3889429448;
  568446438; 3275163606; 4107603335; 1163531501;
  2850285829; 4243563512; 1735328473; 2368359562;
  4294588738; 2272392833; 1839030562; 4259657740;
  2763975236; 1272893353; 4139469664; 3200236656;
  681279174; 3936430074; 3572445317; 76029189;
  3654602809; 3873151461; 530742520; 3299628645;
  4096336452; 1126891415; 2878612391; 4237533241;
  1700485571; 2399980690; 4293915773; 2240044497;
  1873313359; 4264355552; 2734768916; 1309151649;
  4149444226; 3174756917; 718787259; 3951481745
].

Definition f (i : nat) : Z -> Z -> Z -> Z :=
  if (i <? 16)%nat then F_rfc1321 else if (i <? 32)%nat then G_rfc1321 else if (i <? 48)%nat then H_rfc1321 else I_rfc1321.
Definition k (i : nat) : nat :=
  if (i <? 16)%nat then i else if (i <? 32)%nat then (5 * i + 1) mod 16
  else if (i <? 48)%nat then (3 * i + 5) mod 16 else (7 * i) mod 16.
Definition shifts (i : nat) : list Z :=
  if (i <? 16)%nat then [7; 12; 17; 22] else if (i <? 32)%nat then [5; 9; 14; 20]
  else if (i <? 48)%nat then [4; 11; 16; 23] else [6; 10; 15; 21].

Definition rotl (x s : Z) : Z := Z.lor (u32 (Z.shiftl x s)) (Z.shiftr x (32 - s)).

(** Step [i] on [A B C D]: [A = B + ((A + f(B,C,D) + X[k] + T[i]) <<< s)], then
    the registers rotate. *)
Definition step (X : nat -> Z) (st : regs) (i : nat) : regs :=
  let '(A, B, C, D) := st in
  let s := shifts i !!! (i mod 4)%nat in
  let sum := u32 (A + (f i B C D + X (k i) + T !!! i)) in
  (D, u32 (rotl sum s + B), B, C).

Definition block (st : regs) (X : nat -> Z) : regs :=
  let '(AA, BB, CC, DD) := st in
  let '(A, B, C, D) := foldl (step X) st (seq 0 64) in
  (u32 (A + AA), u32 (B + BB), u32 (C + CC), u32 (D + DD)).

(** The message is padded with 0x80, zeros up to 56 modulo 64, and its length in
    bits as 64 little-endian bits. *)
Definition padding (len : nat) : list Z :=
  [0x80] ++ replicate ((119 - len mod 64) mod 64) 0 ++
  le_bytes (u32 (8 * Z.of_nat len)) ++ le_bytes (u32 ((8 * Z.of_nat len) / 2 ^ 32)).

Fixpoint blocks (n : nat) (st : regs) (msg : list Z) : regs :=
  match n with
  | O => st
  | S n' => blocks n' (block st (GET (take 64 msg))) (drop 64 msg)
  end.

Definition digest (msg : list Z) : list Z :=
  let padded := msg ++ padding (length msg) in
  let '(A, B, C, D) := blocks (length padded / 64) (0x67452301, 0xefcdab89, 0x98badcfe, 0x10325476) padded in
  le_bytes A ++ le_bytes B ++ le_bytes C ++ le_bytes D.

End RFC.

(** The text of RFC 1321's test suite, as [unsigned char]s. *)
Definition octets (s : string) : list Z := u8 <$> lit s.
Definition hex_nibble (n : Z) : Z := if n <? 10 then 48 + n else 87 + n.
Definition hex (l : list Z) : list Z := b ← l; [hex_nibble (b / 16); hex_nibble (b mod 16)].


(** ** The compression function is the RFC's *)

Lemma F_rfc x y z : F x y z = RFC.F_rfc1321 x y z.
Proof.
  apply Z.bits_inj'; intros n Hn. unfold F, RFC.F_rfc1321.
  rewrite Z.lxor_spec, Z.land_spec, Z.lxor_spec, Z.lor_spec, !Z.land_spec, Z.lnot_spec by done.
  by destruct (Z.testbit x n), (Z.testbit y n), (Z.testbit z n).
Qed.
Lemma G_rfc x y z : G x y z = RFC.G_rfc1321 x y z.
Proof.
  apply Z.bits_inj'; intros n Hn. unfold G, RFC.G_rfc1321.
  rewrite Z.lxor_spec, Z.land_spec, Z.lxor_spec, Z.lor_spec, !Z.land_spec, Z.lnot_spec by done.
  by destruct (Z.testbit x n), (Z.testbit y n), (Z.testbit z n).
Qed.
Lemma H2_rfc x y z : H2 x y z = RFC.H_rfc1321 x y z.
Proof. unfold H2, RFC.H_rfc1321. by rewrite Z.lxor_assoc. Qed.

Lemma STEP_rfc f g a b c d x t s :
  f b c d = g b c d -> STEP f a b c d x t s = u32 (RFC.rotl (u32 (a + (g b c d + x + t))) s + b).
Proof.
  intros Hf. unfold STEP, RFC.rotl. rewrite Hf. cbv zeta.
  change 0xffffffff with (Z.ones 32). rewrite Z.land_ones by lia.
  by rewrite (Z.mod_small (u32 _)) by apply u32_range.
Qed.

(** The rows of [body_steps] follow the RFC's schedule. *)
Definition code_f (i : nat) : Z -> Z -> Z -> Z :=
  if (i <? 16)%nat then F else if (i <? 32)%nat then G
  else if (i <? 48)%nat then (if Nat.even i then H else H2) else I.
Definition row (i : nat) : (Z -> Z -> Z -> Z) * reg * nat * Z * Z :=
  (code_f i, match (i mod 4)%nat with O => Ra | 1%nat => Rd | 2%nat => Rc | _ => Rb end,
   RFC.k i, RFC.T !!! i, RFC.shifts i !!! (i mod 4)%nat).

Lemma body_steps_rows : body_steps = row <$> seq 0 64.
Proof. reflexivity. Qed.

Lemma code_f_rfc i x y z : code_f i x y z = RFC.f i x y z.
Proof.
  unfold code_f, RFC.f. case_tests; first [apply F_rfc | apply G_rfc | apply H2_rfc | done].
Qed.

(** The RFC rotates the registers after each step; the code rotates their names. *)
Definition view (i : nat) (st : regs) : regs :=
  let '(a, b, c, d) := st in
  match (i mod 4)%nat with
  | O => (a, b, c, d)
  | 1%nat => (d, a, b, c)
  | 2%nat => (c, d, a, b)
  | _ => (b, c, d, a)
  end.

Lemma mod4_succ i :
  (S i mod 4 = match i mod 4 with 0 => 1 | 1 => 2 | 2 => 3 | _ => 0 end)%nat.
Proof.
  pose proof (Nat.mod_upper_bound i 4) as Hb. pose proof (Nat.mod_upper_bound (S i) 4) as Hb'.
  pose proof (Nat.div_mod_eq i 4). pose proof (Nat.div_mod_eq (S i) 4).
  destruct (i mod 4)%nat as [|[|[|[|?]]]]; lia.
Qed.

Lemma step_row_view X st i :
  RFC.step X (view i st) i = view (S i) (step_row X st (row i)).
Proof.
  destruct st as [[[a b] c] d]. unfold view, row, step_row. rewrite mod4_succ.
  pose proof (Nat.mod_upper_bound i 4) as Hb.
  unfold RFC.step.
  destruct (i mod 4)%nat as [|[|[|[|?]]]]; [..|lia];
    by rewrite (STEP_rfc _ (RFC.f i)) by apply code_f_rfc.
Qed.

Lemma rows_view X n i st :
  foldl (RFC.step X) (view i st) (seq i n) = view (i + n) (foldl (step_row X) st (row <$> seq i n)).
Proof.
  revert i st. induction n as [|n IH]; intros i st; cbn [seq fmap list_fmap foldl].
  - by rewrite Nat.add_0_r.
  - rewrite step_row_view, IH. f_equal; lia.
Qed.

Lemma body_block_rfc st ptr : body_block st ptr = RFC.block st (GET ptr).
Proof.
  unfold body_block, RFC.block. rewrite body_steps_rows.
  assert (forall s, view 0 s = s) as H0 by (by intros [[[??]?]?]).
  assert (forall s, view 64 s = s) as H64 by (by intros [[[??]?]?]).
  pose proof (rows_view (GET ptr) 64 0 st) as E. rewrite H0 in E.
  change (0 + 64)%nat with 64%nat in E. rewrite H64 in E. by rewrite E.
Qed.

Lemma body_loop_rfc n st ptr : body_loop n st ptr = (RFC.blocks n st ptr, drop (64 * n) ptr).
Proof.
  revert st ptr. induction n as [|n IH]; intros st ptr; [done|].
  cbn [body_loop RFC.blocks]. rewrite IH, body_block_rfc, drop_drop. f_equal. f_equal. lia.
Qed.

Lemma blocks_add n1 n2 st m :
  RFC.blocks (n1 + n2) st m = RFC.blocks n2 (RFC.blocks n1 st m) (drop (64 * n1) m).
Proof.
  revert st m. induction n1 as [|n1 IH]; intros st m; [done|].
  cbn [RFC.blocks Nat.add]. rewrite IH, drop_drop. do 2 f_equal. lia.
Qed.

Lemma blocks_prefix n st m m' :
  (64 * n <= length m)%nat -> RFC.blocks n st (m ++ m') = RFC.blocks n st m.
Proof.
  revert st m. induction n as [|n IH]; intros st m Hm; [done|].
  cbn [RFC.blocks]. rewrite take_app_le, drop_app_le by lia. apply IH. rewrite length_drop. lia.
Qed.

(** ** Streaming *)

Definition IV : regs := (0x67452301, 0xefcdab89, 0x98badcfe, 0x10325476).

(** What [body] has not consumed yet of a message. *)
Definition pending (m : list Z) : list Z := drop (64 * (length m / 64)) m.

(** A context that has been fed the message [m]. *)
Record ctx_rep (ctx : MD5_CTX) (m : list Z) : Prop := {
  rep_lo : ctx_lo ctx = Z.of_nat (length m) mod 2 ^ 29;
  rep_hi : ctx_hi ctx = u32 (Z.of_nat (length m) / 2 ^ 29);
  rep_regs : ctx_regs ctx = RFC.blocks (length m / 64) IV m;
  rep_buflen : length (ctx_buffer ctx) = 64%nat;
  rep_buf : take (length m mod 64) (ctx_buffer ctx) = pending m;
}.

Lemma length_pending m : length (pending m) = (length m mod 64)%nat.
Proof. unfold pending. rewrite length_drop. pose proof (Nat.div_mod_eq (length m) 64). lia. Qed.

Lemma pending_lt m : (length (pending m) < 64)%nat.
Proof. rewrite length_pending. by apply Nat.mod_upper_bound. Qed.

Lemma append_block_count m d :
  (length (m ++ d) / 64 = length m / 64 + length (pending m ++ d) / 64)%nat.
Proof.
  pose proof (Nat.div_mod_eq (length m) 64) as Hm.
  rewrite !length_app, length_pending.
  replace (length m + length d)%nat with (length m mod 64 + length d + length m / 64 * 64)%nat by lia.
  rewrite Nat.div_add by done. lia.
Qed.

(** Appending to a message only involves its pending bytes. *)
Lemma blocks_append m d :
  RFC.blocks (length (m ++ d) / 64) IV (m ++ d) =
  RFC.blocks (length (pending m ++ d) / 64) (RFC.blocks (length m / 64) IV m) (pending m ++ d).
Proof.
  pose proof (Nat.div_mod_eq (length m) 64) as Hm.
  rewrite append_block_count, blocks_add, blocks_prefix by lia. f_equal.
  rewrite drop_app_le by lia. done.
Qed.

Lemma pending_append m d : pending (m ++ d) = pending (pending m ++ d).
Proof.
  pose proof (Nat.div_mod_eq (length m) 64) as Hm. unfold pending at 1 2.
  rewrite append_block_count, Nat.mul_add_distr_l, <- drop_drop, drop_app_le by lia. done.
Qed.

(** [memcpy] behind a known prefix of the buffer. *)
Lemma memcpy_at_prefix buf p d :
  length buf = 64%nat -> take (length p) buf = p -> (length p + length d <= 64)%nat ->
  memcpy_at buf (length p) d = (p ++ d) ++ drop (length p + length d) buf.
Proof. intros _ Hp _. unfold memcpy_at. by rewrite Hp, (assoc_L app). Qed.

Lemma length_memcpy_at buf off d :
  (off + length d <= length buf)%nat -> length (memcpy_at buf off d) = length buf.
Proof. intros. unfold memcpy_at. rewrite !length_app, length_take, length_drop. lia. Qed.

(** The part of the state [body] and [memcpy] work on. *)
Record absorbs (ctx ctx' : MD5_CTX) (p : list Z) : Prop := {
  ab_lo : ctx_lo ctx' = ctx_lo ctx;
  ab_hi : ctx_hi ctx' = ctx_hi ctx;
  ab_regs : ctx_regs ctx' = RFC.blocks (length p / 64) (ctx_regs ctx) p;
  ab_buflen : length (ctx_buffer ctx') = 64%nat;
  ab_buf : take (length p mod 64) (ctx_buffer ctx') = pending p;
}.

Lemma body_eq ctx data n :
  ctx_regs (body ctx data n).1 = RFC.blocks n (ctx_regs ctx) data /\
  ctx_lo (body ctx data n).1 = ctx_lo ctx /\ ctx_hi (body ctx data n).1 = ctx_hi ctx /\
  ctx_buffer (body ctx data n).1 = ctx_buffer ctx /\ (body ctx data n).2 = drop (64 * n) data.
Proof.
  unfold body. rewrite body_loop_rfc. by destruct (RFC.blocks n (ctx_regs ctx) data) as [[[??]?]?].
Qed.

Lemma pending_short p : (length p < 64)%nat -> pending p = p.
Proof. intros. unfold pending. by rewrite Nat.div_small. Qed.

Lemma update_tail_absorbs ctx d :
  length (ctx_buffer ctx) = 64%nat -> absorbs ctx (update_tail ctx d) d.
Proof.
  intros Hb. unfold update_tail. destruct (Nat.leb_spec 64 (length d)).
  - destruct (body_eq ctx d (length d / 64)) as (Hr & Hlo & Hhi & Hbuf & Hd).
    destruct (body ctx d (length d / 64)) as [ctx1 d1]; cbn [fst snd] in *. subst d1.
    pose proof (pending_lt d). fold (pending d).
    split; cbn [ctx_lo ctx_hi ctx_buffer with_buffer]; try done.
    + rewrite Hbuf, length_memcpy_at; lia.
    + unfold memcpy_at. rewrite take_0, app_nil_l. by rewrite take_app_length' by (by rewrite length_pending).
  - split; cbn [ctx_lo ctx_hi ctx_buffer with_buffer]; try done.
    + by rewrite Nat.div_small.
    + rewrite length_memcpy_at; lia.
    + rewrite pending_short, Nat.mod_small by lia. unfold memcpy_at. rewrite take_0, app_nil_l.
      by rewrite take_app_length.
Qed.

Lemma update_data_absorbs ctx p d :
  length (ctx_buffer ctx) = 64%nat -> (length p < 64)%nat -> take (length p) (ctx_buffer ctx) = p ->
  absorbs ctx (update_data ctx (length p) d) (p ++ d).
Proof.
  intros Hb Hp Htake. unfold update_data. destruct (Nat.eqb_spec (length p) 0) as [H0|H0].
  { apply nil_length_inv in H0 as ->. by apply update_tail_absorbs. }
  destruct (Nat.ltb_spec (length d) (64 - length p)).
  - split; cbn [ctx_lo ctx_hi ctx_buffer with_buffer]; try done.
    + by rewrite Nat.div_small by (rewrite length_app; lia).
    + rewrite length_memcpy_at; lia.
    + rewrite pending_short, Nat.mod_small by (rewrite length_app; lia).
      rewrite (memcpy_at_prefix _ p) by (done || lia). by rewrite take_app_length.
  - set (n := (64 - length p)%nat) in *.
    set (ctx1 := with_buffer ctx _).
    assert (ctx_buffer ctx1 = p ++ take n d) as Hb1.
    { unfold ctx1. cbn [ctx_buffer with_buffer].
      rewrite (memcpy_at_prefix _ p) by (done || rewrite length_take; lia).
      rewrite drop_ge by (rewrite length_take; lia). by rewrite app_nil_r. }
    destruct (body_eq ctx1 (ctx_buffer ctx1) 1) as (Hr & Hlo & Hhi & Hbuf & Hd).
    destruct (body ctx1 (ctx_buffer ctx1) 1) as [ctx2 d2]; cbn [fst snd] in *.
    destruct (update_tail_absorbs ctx2 (drop n d)) as [L1 L2 L3 L4 L5].
    { rewrite Hbuf, Hb1, length_app, length_take. lia. }
    assert (length (p ++ d) = (length (drop n d) + 1 * 64))%nat as Hl.
    { rewrite length_app, length_drop. lia. }
    assert (p ++ d = (p ++ take n d) ++ drop n d) as Hsplit by (by rewrite <- (assoc_L app), take_drop).
    assert (length (p ++ take n d) = 64)%nat as H64 by (rewrite length_app, length_take; lia).
    split; [by rewrite L1, Hlo|by rewrite L2, Hhi| |done|].
    + rewrite L3, Hr, Hl, Nat.div_add, Nat.add_comm by done.
      rewrite blocks_add, Hsplit, drop_app_length', blocks_prefix, Hb1 by lia. done.
    + rewrite Hl, Nat.Div0.mod_add, L5. unfold pending. rewrite Hl, Nat.div_add by done.
      rewrite Nat.mul_add_distr_l, Nat.add_comm, <- drop_drop, Hsplit, drop_app_length' by lia. done.
Qed.

Lemma land_ones_mod x n m : m = Z.ones n -> 0 <= n -> Z.land x m = x mod 2 ^ n.
Proof. intros -> ?. by apply Z.land_ones. Qed.

Lemma mod_mod_pow x a b : 0 <= a <= b -> (x mod 2 ^ b) mod 2 ^ a = x mod 2 ^ a.
Proof.
  intros. apply Z.mod_mod_divide.
  exists (2 ^ (b - a)). rewrite <- Z.pow_add_r by lia. f_equal. lia.
Qed.

(** The two counters of [MD5_Update] are the length's low 29 and high 32 bits. *)
Lemma update_lo l s : Z.land (u64 (l mod 2 ^ 29 + s)) 0x1fffffff = (l + s) mod 2 ^ 29.
Proof.
  rewrite (land_ones_mod _ 29) by done. unfold u64. rewrite mod_mod_pow by lia.
  by rewrite Zplus_mod_idemp_l.
Qed.

Lemma update_hi l s :
  0 <= l -> 0 <= s ->
  u32 ((if (l + s) mod 2 ^ 29 <? l mod 2 ^ 29 then u32 (u32 (l / 2 ^ 29) + 1) else u32 (l / 2 ^ 29))
       + Z.shiftr s 29) = u32 ((l + s) / 2 ^ 29).
Proof.
  intros Hl Hs. rewrite Z.shiftr_div_pow2 by lia.
  pose proof (Z.div_mod l (2 ^ 29) ltac:(lia)). pose proof (Z.mod_pos_bound l (2 ^ 29) ltac:(lia)).
  pose proof (Z.div_mod s (2 ^ 29) ltac:(lia)). pose proof (Z.mod_pos_bound s (2 ^ 29) ltac:(lia)).
  pose proof (Z.div_mod (l + s) (2 ^ 29) ltac:(lia)). pose proof (Z.mod_pos_bound (l + s) (2 ^ 29) ltac:(lia)).
  destruct (Z.ltb_spec ((l + s) mod 2 ^ 29) (l mod 2 ^ 29)).
  - assert ((l + s) / 2 ^ 29 = l / 2 ^ 29 + 1 + s / 2 ^ 29) as -> by lia.
    unfold u32. rewrite Zplus_mod_idemp_l, <- Z.add_assoc, Zplus_mod_idemp_l. f_equal. lia.
  - assert ((l + s) / 2 ^ 29 = l / 2 ^ 29 + s / 2 ^ 29) as -> by lia.
    unfold u32. by rewrite Zplus_mod_idemp_l.
Qed.

Lemma used_pending m :
  Z.to_nat (Z.land (Z.of_nat (length m) mod 2 ^ 29) 0x3f) = length (pending m).
Proof.
  rewrite (land_ones_mod _ 6), mod_mod_pow, length_pending by (done || lia).
  change (2 ^ 6) with (Z.of_nat 64). rewrite <- Nat2Z.inj_mod. apply Nat2Z.id.
Qed.

Lemma MD5_Init_rep buffer : length buffer = 64%nat -> ctx_rep (MD5_Init buffer) [].
Proof. by split. Qed.

Lemma MD5_Update_rep ctx m d : ctx_rep ctx m -> ctx_rep (MD5_Update ctx d) (m ++ d).
Proof.
  intros [Hlo Hhi Hregs Hlen Hbuf]. unfold MD5_Update.
  rewrite Hlo, Hhi, update_lo, update_hi, used_pending by lia.
  set (ctx1 := mkCTX _ _ _ _ _ _ _).
  destruct (update_data_absorbs ctx1 (pending m) d) as [L1 L2 L3 L4 L5]; [done|apply pending_lt|
    by rewrite length_pending|].
  split.
  - rewrite L1, length_app, Nat2Z.inj_add. done.
  - rewrite L2, length_app, Nat2Z.inj_add. done.
  - rewrite L3, blocks_append. f_equal. exact Hregs.
  - done.
  - rewrite <- length_pending, pending_append, length_pending. exact L5.
Qed.

(** A buffer that begins with [p]. *)
Definition holds (ctx : MD5_CTX) (p : list Z) : Prop :=
  length (ctx_buffer ctx) = 64%nat /\ take (length p) (ctx_buffer ctx) = p.

Lemma holds_memcpy ctx p d :
  holds ctx p -> (length p + length d <= 64)%nat ->
  holds (with_buffer ctx (memcpy_at (ctx_buffer ctx) (length p) d)) (p ++ d).
Proof.
  intros [Hb Hp] Hd. split; cbn [ctx_buffer with_buffer].
  - rewrite length_memcpy_at; lia.
  - rewrite memcpy_at_prefix by done. apply take_app_length.
Qed.

Lemma holds_full ctx p : holds ctx p -> length p = 64%nat -> ctx_buffer ctx = p.
Proof. intros [Hb Hp] Hl. rewrite <- Hp, take_ge; lia || done. Qed.

Lemma length_le_bytes x : length (le_bytes x) = 4%nat.
Proof. done. Qed.

Definition output (st : regs) : list Z :=
  let '(A, B, C, D) := st in le_bytes A ++ le_bytes B ++ le_bytes C ++ le_bytes D.

Lemma final_tail_block ctx p used available :
  holds ctx p -> (length p <= 56)%nat -> used = length p -> available = (64 - length p)%nat ->
  final_tail ctx used available =
  output (RFC.blocks 1 (ctx_regs ctx) (p ++ replicate (56 - length p) 0 ++
    le_bytes (u32 (Z.shiftl (ctx_lo ctx) 3)) ++ le_bytes (ctx_hi ctx))).
Proof.
  intros Hp Hl -> ->. unfold final_tail.
  replace (64 - length p - 8)%nat with (56 - length p)%nat by lia.
  assert (length (p ++ replicate (56 - length p) (0 : Z)) = 56)%nat as H56
    by (rewrite length_app, length_replicate; lia).
  pose proof (holds_memcpy ctx p (replicate (56 - length p) (0 : Z)) Hp
    ltac:(rewrite length_replicate; lia)) as Hp1.
  set (ctx1 := with_buffer ctx _) in *.
  pose proof (holds_memcpy ctx1 _ (le_bytes (u32 (Z.shiftl (ctx_lo ctx) 3)) ++ le_bytes (ctx_hi ctx))
    Hp1 ltac:(rewrite H56; simpl; lia)) as Hp2.
  apply holds_full in Hp2; [|by rewrite length_app, H56]. rewrite H56 in Hp2.
  set (ctx2 := with_buffer ctx1 _) in *.
  change (with_buffer ctx1 _) with ctx2. rewrite Hp2.
  pose proof (proj1 (body_eq ctx2 ((p ++ replicate (56 - length p) 0) ++
    le_bytes (u32 (Z.shiftl (ctx_lo ctx) 3)) ++ le_bytes (ctx_hi ctx)) 1)) as Hr.
  destruct (body ctx2 _ 1) as [ctx3 ?]. cbn [fst] in Hr. rewrite <- (assoc_L app) in Hr.
  change (ctx_regs ctx) with (ctx_regs ctx2). by rewrite <- Hr.
Qed.

Lemma final_length_words l :
  0 <= l -> le_bytes (u32 (Z.shiftl (l mod 2 ^ 29) 3)) ++ le_bytes (u32 (l / 2 ^ 29)) =
  le_bytes (u32 (8 * l)) ++ le_bytes (u32 (8 * l / 2 ^ 32)).
Proof.
  intros Hl. f_equal; f_equal.
  - rewrite Z.shiftl_mul_pow2 by lia. unfold u32. change (2 ^ 32) with (2 ^ 29 * 8).
    change (2 ^ 3) with 8. rewrite (Z.mul_comm 8 l), !Zmult_mod_distr_r. by rewrite Zmod_mod.
  - change (2 ^ 32) with (8 * 2 ^ 29). by rewrite Z.div_mul_cancel_l by lia.
Qed.

(** The digest, computed from the pending bytes on. *)
Lemma digest_pending m :
  RFC.digest m =
  output (RFC.blocks (length (pending m ++ RFC.padding (length m)) / 64)
    (RFC.blocks (length m / 64) IV m) (pending m ++ RFC.padding (length m))).
Proof. unfold RFC.digest. fold IV. rewrite blocks_append. done. Qed.

Lemma MD5_Final_rep ctx m : ctx_rep ctx m -> MD5_Final ctx = RFC.digest m.
Proof.
  intros [Hlo Hhi Hregs Hlen Hbuf]. rewrite digest_pending, <- Hregs. unfold MD5_Final, RFC.padding.
  rewrite Hlo, used_pending, <- final_length_words, <- Hlo, <- Hhi by lia.
  pose proof (pending_lt m) as Hlt. rewrite <- length_pending.
  assert (holds ctx (pending m)) as Hp by (split; [done|by rewrite length_pending]).
  set (p := pending m) in *.
  pose proof (holds_memcpy ctx p [0x80] Hp ltac:(simpl; lia)) as Hp1.
  set (ctx1 := with_buffer ctx _) in *.
  change (ctx_regs ctx) with (ctx_regs ctx1). change (ctx_lo ctx) with (ctx_lo ctx1).
  change (ctx_hi ctx) with (ctx_hi ctx1).
  rewrite (assoc_L app p [0x80]). set (p1 := p ++ [0x80]) in *.
  assert (length p1 = (length p + 1)%nat) as Hl1 by (by unfold p1; rewrite length_app).
  rewrite <- Hl1. destruct (Nat.ltb_spec (64 - length p1) 8) as [Hs|Hs].
  - replace ((119 - length p) mod 64)%nat with (64 - length p1 + 56)%nat
      by (rewrite Nat.mod_small; lia).
    rewrite replicate_add.
    pose proof (holds_memcpy ctx1 p1 (replicate (64 - length p1) (0 : Z)) Hp1
      ltac:(rewrite length_replicate; lia)) as Hp2.
    assert (length (p1 ++ replicate (64 - length p1) (0 : Z)) = 64%nat) as H64
      by (rewrite length_app, length_replicate; lia).
    apply holds_full in Hp2; [|done].
    set (ctx2 := with_buffer ctx1 _) in *.
    destruct (body_eq ctx2 (ctx_buffer ctx2) 1) as (Hr & Hlo2 & Hhi2 & Hb2 & _).
    destruct (body ctx2 (ctx_buffer ctx2) 1) as [ctx3 ?]. cbn [fst] in *.
    assert (holds ctx3 []) as Hp3 by (split; [by rewrite Hb2, Hp2|exact (take_0 _)]).
    rewrite (final_tail_block ctx3 [] 0 64 Hp3 (Nat.le_0_l _) eq_refl eq_refl).
    rewrite Hr, Hlo2, Hhi2, Hp2. cbn [length app]. f_equal.
    rewrite <- (assoc_L app (replicate (64 - length p1) 0)), (assoc_L app p1 (replicate (64 - length p1) 0)).
    set (b1 := p1 ++ replicate (64 - length p1) 0) in *.
    set (b2 := replicate 56 0 ++ _).
    assert (length (b1 ++ b2) / 64 = 1 + 1)%nat as ->.
    { rewrite length_app, H64. done. }
    rewrite (blocks_add 1 1), drop_app_length', (blocks_prefix 1 _ b1) by lia. done.
  - replace ((119 - length p) mod 64)%nat with (56 - length p1)%nat.
    2: { replace (119 - length p)%nat with (56 - length p1 + 1 * 64)%nat by lia.
         rewrite Nat.Div0.mod_add, Nat.mod_small; lia. }
    rewrite (final_tail_block ctx1 p1) by (done || lia). f_equal.
    replace (length (p1 ++ _) / 64)%nat with 1%nat; [done|].
    rewrite !length_app, length_replicate, !length_le_bytes.
    replace (_ + _)%nat with 64%nat by lia. done.
Qed.

(** C24: MD5 of any data, fed in one call or in any number of pieces, is the
    digest RFC 1321 defines for the concatenation, whatever the context's buffer
    held before: the optimised round functions, the unrolled schedule, the
    29/32-bit length counters, the partial-block buffering and the padding are
    all right, for messages of any length. *)
Theorem MD5_is_rfc1321 (buffer : list Z) (chunks : list (list Z)) :
  length buffer = 64%nat ->
  MD5_Final (foldl MD5_Update (MD5_Init buffer) chunks) = RFC.digest (concat chunks) /\
  MD5 buffer (concat chunks) = RFC.digest (concat chunks).
Proof.
  intros Hb.
  assert (forall ctx m, ctx_rep ctx m -> ctx_rep (foldl MD5_Update ctx chunks) (m ++ concat chunks)) as Hall.
  { induction chunks as [|c cs IH]; intros ctx m Hm; simpl; [by rewrite app_nil_r|].
    rewrite (assoc_L app). by apply IH, MD5_Update_rep. }
  split.
  - by apply MD5_Final_rep, (Hall _ []), MD5_Init_rep.
  - by apply MD5_Final_rep, (MD5_Update_rep _ []), MD5_Init_rep.
Qed.

(** The witness evaluates RFC 1321's own test vector for "message digest". *)
Lemma MD5_is_rfc1321_witness :
  hex (MD5_Final (foldl MD5_Update (MD5_Init (replicate 64 0)) [octets "message"; octets " digest"]))
    = lit "f96b697d7cb7938d525a2f31aaf161d0" /\
  RFC.digest (octets "message digest") = MD5 (replicate 64 0) (octets "message digest").
Proof.
  destruct (MD5_is_rfc1321 (replicate 64 0) [octets "message"; octets " digest"] eq_refl) as [E1 E2].
  split; [rewrite E1; vm_compute; reflexivity|symmetry; exact E2].
Defined.

(** Two more vectors of RFC 1321's test suite. *)
Example MD5_test_suite :
  hex (MD5 (replicate 64 0) (octets "")) = lit "d41d8cd98f00b204e9800998ecf8427e" /\
  hex (MD5 (replicate 64 1) (octets "12345678901234567890123456789012345678901234567890123456789012345678901234567890"))
  = lit "57edf4a22be3c955ac49da2e2107b67a".
Proof. vm_compute. done. Qed.
