(* ===== verification/JumpHash.v ===== *)
(** * Jump consistent hash (src/consistent-hash.c, [jump_bucketpos])

    The loop computes with [double]s.  The two operations it uses are modelled
    exactly: the operands are positive and in the range of normal numbers, so a
    [double] is [m * 2 ^ e] and an operation is the exact rational result rounded
    to 53 bits, to nearest, ties to even (IEEE 754 binary64). *)
From S2P Require Import Prelude.
#[local] Open Scope Z_scope.
#[local] Open Scope cint_scope.

(** ** Doubles *)

(** The positive number [mant * 2 ^ expo]. *)
Record double := mkD { mant : Z; expo : Z }.

(** The integer nearest to [num / den], ties to even. *)
Definition round_ne (num den : Z) : Z :=
  let q := num / den in
  let r := num mod den in
  if 2 * r <? den then q
  else if den <? 2 * r then q + 1
  else if Z.even q then q else q + 1.

(** The exponent that leaves 53 bits of [num / den] before the point. *)
Definition expo53 (num den : Z) : Z :=
  let e := Z.log2 num - Z.log2 den in
  (if num * 2 ^ Z.max 0 (- e) <? den * 2 ^ Z.max 0 e then e - 1 else e) - 52.

Definition round53 (num den : Z) : double :=
  let e := expo53 num den in
  mkD (round_ne (num * 2 ^ Z.max 0 (- e)) (den * 2 ^ Z.max 0 e)) e.

(** [(double)i], [x / y] and [x * y] of positive doubles, and [(long long int)x]. *)
Definition of_int (i : Z) : double := round53 i 1.
Definition num_of (x : double) : Z := mant x * 2 ^ Z.max 0 (expo x).
Definition den_of (x : double) : Z := 2 ^ Z.max 0 (- expo x).
Definition div_d (x y : double) : double := round53 (num_of x * den_of y) (den_of x * num_of y).
Definition mul_d (x y : double) : double := round53 (num_of x * num_of y) (den_of x * den_of y).
Definition trunc_d (x : double) : Z := num_of x / den_of x.

(** ** The loop of [jump_bucketpos] *)

Definition jump_key (key : Z) : Z := u64 (key * 2862933555777941757 + 1).
Definition jump_next (b key : Z) : Z :=
  trunc_d (mul_d (of_int (b + 1)) (div_d (of_int (Z.shiftl 1 31)) (of_int (Z.shiftr key 33 + 1)))).

(** [while (j < bckcnt)]; [None] is running out of fuel. *)
Fixpoint jump_loop (fuel : nat) (key b j bckcnt : Z) : option Z :=
  if j <? bckcnt then
    match fuel with
    | O => None
    | S fuel' =>
        let b := j in
        let key := jump_key key in
        jump_loop fuel' key b (jump_next b key) bckcnt
    end
  else Some b.

Definition jump_bucketpos (key bckcnt : Z) : option Z :=
  u32 <$> jump_loop (Z.to_nat bckcnt) key (-1) 0 bckcnt.

(** ** Rounding *)

Lemma round_ne_floor num den : num / den <= round_ne num den.
Proof. unfold round_ne. case_tests; lia. Qed.

Lemma log2_bounds n : 0 < n -> 2 ^ Z.log2 n <= n < 2 ^ Z.log2 n * 2.
Proof.
  intros Hn. pose proof (Z.log2_spec n Hn) as [? H2].
  rewrite Z.pow_succ_r in H2 by apply Z.log2_nonneg. lia.
Qed.

(** With a positive exponent, the quotient has its 53 bits. *)
Lemma expo53_pos num den :
  0 < num -> 0 < den -> 0 < expo53 num den -> 2 ^ 52 * (den * 2 ^ expo53 num den) <= num.
Proof.
  intros Hn Hd. unfold expo53. set (l := Z.log2 num - Z.log2 den).
  pose proof (log2_bounds num Hn) as [Hn1 _]. pose proof (log2_bounds den Hd) as [_ Hd2].
  pose proof (Z.log2_nonneg den). pose proof (Z.log2_nonneg num).
  destruct (Z.ltb_spec (num * 2 ^ Z.max 0 (- l)) (den * 2 ^ Z.max 0 l)) as [Ht|Ht]; intros Hpos.
  - apply Z.lt_le_incl. eapply Z.lt_le_trans; [|exact Hn1].
    replace (Z.log2 num) with (52 + (Z.log2 den + (1 + (l - 1 - 52)))) by (unfold l; lia).
    rewrite !Z.pow_add_r, Z.pow_1_r by lia.
    apply Z.mul_lt_mono_pos_l; [lia|].
    pose proof (Z.pow_pos_nonneg 2 (l - 1 - 52) ltac:(lia) ltac:(lia)). nia.
  - rewrite (Z.max_l 0 (- l)), (Z.max_r 0 l), Z.mul_1_r in Ht by lia.
    replace l with (52 + (l - 52)) in Ht by lia. rewrite Z.pow_add_r in Ht by lia. lia.
Qed.

(** An integer below [2 ^ 53] is a lower bound of the rounding of anything above it. *)
Lemma round53_ge num den z :
  0 < num -> 0 < den -> 0 < z < 2 ^ 53 -> z * den <= num ->
  z * den_of (round53 num den) <= num_of (round53 num den).
Proof.
  intros Hn Hd Hz Hle. unfold num_of, den_of, round53. cbn [mant expo].
  pose proof (expo53_pos num den Hn Hd) as He. set (e := expo53 num den) in *.
  pose proof (round_ne_floor (num * 2 ^ Z.max 0 (- e)) (den * 2 ^ Z.max 0 e)) as Hm.
  destruct (Z.le_gt_cases e 0).
  - rewrite (Z.max_l 0 e), (Z.max_r 0 (- e)), !Z.mul_1_r in * by lia.
    etransitivity; [|exact Hm]. apply Z.div_le_lower_bound; [done|].
    rewrite Z.mul_assoc, (Z.mul_comm den). apply Z.mul_le_mono_nonneg_r; [|done].
    apply Z.pow_nonneg; lia.
  - rewrite (Z.max_r 0 e), (Z.max_l 0 (- e)), !Z.mul_1_r in * by lia.
    specialize (He ltac:(lia)).
    assert (0 < 2 ^ e) by (apply Z.pow_pos_nonneg; lia).
    assert (2 ^ 52 <= num / (den * 2 ^ e)) by (apply Z.div_le_lower_bound; lia).
    assert (2 ^ 1 <= 2 ^ e) by (apply Z.pow_le_mono_r; lia). nia.
Qed.

Lemma num_of_pos num den : 0 < num -> 0 < den -> den <= num -> 0 < num_of (round53 num den).
Proof.
  intros. pose proof (round53_ge num den 1 ltac:(lia) ltac:(lia) ltac:(lia) ltac:(lia)).
  assert (0 < den_of (round53 num den)) by (apply Z.pow_pos_nonneg; lia). lia.
Qed.

Lemma den_of_pos x : 0 < den_of x.
Proof. apply Z.pow_pos_nonneg; lia. Qed.

(** Small integers convert exactly. *)
Lemma of_int_exact i : 0 < i < 2 ^ 53 -> num_of (of_int i) = i * den_of (of_int i).
Proof.
  intros Hi. unfold of_int, num_of, den_of, round53. cbn [mant expo].
  assert (expo53 i 1 <= 0) as He.
  { unfold expo53. pose proof (Z.log2_lt_pow2 i 53 ltac:(lia)) as [Hlt _].
    specialize (Hlt ltac:(lia)). change (Z.log2 1) with 0. case_tests; lia. }
  rewrite (Z.max_l 0 (expo53 i 1)) by lia. change (2 ^ 0) with 1. rewrite !Z.mul_1_r.
  unfold round_ne. by rewrite Z.div_1_r, Z.mod_1_r.
Qed.

(** The next [j] is past [b]: every iteration moves the bucket up. *)
Lemma jump_next_gt b key :
  0 <= b < 2 ^ 31 -> 0 <= key < 2 ^ 64 -> b < jump_next b key.
Proof.
  intros Hb Hk. unfold jump_next. set (k := Z.shiftr key 33 + 1).
  assert (1 <= k <= 2 ^ 31) as Hkr.
  { unfold k. rewrite Z.shiftr_div_pow2 by lia.
    pose proof (Z.div_pos key (2 ^ 33) ltac:(lia) ltac:(lia)).
    pose proof (Z.div_lt_upper_bound key (2 ^ 33) (2 ^ 31) ltac:(lia) ltac:(lia)). lia. }
  change (Z.shiftl 1 31) with (2 ^ 31).
  pose proof (of_int_exact (b + 1) ltac:(lia)) as E1. pose proof (of_int_exact (2 ^ 31) ltac:(lia)) as E2.
  pose proof (of_int_exact k ltac:(lia)) as E3.
  pose proof (den_of_pos (of_int (b + 1))). pose proof (den_of_pos (of_int (2 ^ 31))).
  pose proof (den_of_pos (of_int k)).
  set (x := of_int (b + 1)) in *. set (y := of_int (2 ^ 31)) in *. set (z := of_int k) in *.
  assert (den_of (div_d y z) <= num_of (div_d y z)) as Hq.
  { rewrite <- (Z.mul_1_l (den_of _)). apply round53_ge; rewrite ?E2, ?E3; nia. }
  pose proof (den_of_pos (div_d y z)).
  assert ((b + 1) * den_of (mul_d x (div_d y z)) <= num_of (mul_d x (div_d y z))) as Hp.
  { assert (0 < (b + 1) * den_of x) by nia.
    pose proof (Z.mul_le_mono_nonneg_l _ _ ((b + 1) * den_of x) ltac:(lia) Hq).
    apply round53_ge; rewrite ?E1; [|apply Z.mul_pos_pos| |rewrite Z.mul_assoc]; lia || nia. }
  unfold trunc_d. pose proof (den_of_pos (mul_d x (div_d y z))).
  pose proof (Z.div_le_lower_bound (num_of (mul_d x (div_d y z))) (den_of (mul_d x (div_d y z)))
    (b + 1) ltac:(lia) ltac:(lia)). lia.
Qed.

Lemma jump_key_range key : 0 <= jump_key key < 2 ^ 64.
Proof. apply u64_range. Qed.
#[export] Hint Resolve jump_key_range : relay.

(** ** The loop *)

Lemma jump_loop_unfold fuel key b j n :
  j < n -> jump_loop (S fuel) key b j n = jump_loop fuel (jump_key key) j (jump_next j (jump_key key)) n.
Proof. intros Hj. cbn [jump_loop]. by destruct (Z.ltb_spec j n); [|lia]. Qed.

Lemma jump_loop_done fuel key b j n : n <= j -> jump_loop fuel key b j n = Some b.
Proof. intros Hj. destruct fuel; cbn [jump_loop]; by destruct (Z.ltb_spec j n); [lia|]. Qed.

(** With fuel for every bucket left, the loop ends on a bucket below [n]. *)
Lemma jump_loop_total fuel key b j n :
  -1 <= b < n -> b < j -> n <= 2 ^ 31 -> (n - j <= Z.of_nat fuel) ->
  exists b', jump_loop fuel key b j n = Some b' /\ b <= b' < n /\ (j < n -> 0 <= b').
Proof.
  revert key b j. induction fuel as [|fuel IH]; intros key b j Hb Hj Hn Hf.
  - exists b. rewrite jump_loop_done by lia. split_and!; lia || done.
  - destruct (Z.lt_ge_cases j n) as [Hlt|Hge].
    + rewrite jump_loop_unfold by done.
      assert (0 <= j) by lia.
      pose proof (jump_next_gt j (jump_key key) ltac:(lia) ltac:(auto with relay)).
      destruct (IH (jump_key key) j (jump_next j (jump_key key))) as (b' & E & ? & ?); [lia..|].
      exists b'. split_and!; lia || done.
    + exists b. rewrite jump_loop_done by lia. split_and!; lia || done.
Qed.

(** Enlarging the range by one keeps the bucket or moves it to the new one. *)
Lemma jump_loop_succ fuel fuel' key b j n b1 b2 :
  -1 <= b < n -> b < j -> n < 2 ^ 31 -> n + 1 - j <= Z.of_nat fuel' ->
  jump_loop fuel key b j n = Some b1 -> jump_loop fuel' key b j (n + 1) = Some b2 ->
  b2 = b1 \/ b2 = n.
Proof.
  revert fuel' key b j. induction fuel as [|fuel IH]; intros fuel' key b j Hb Hj Hn Hf E1 E2.
  all: destruct (Z.lt_ge_cases j n) as [Hlt|Hge].
  - simpl in E1. destruct (Z.ltb_spec j n); [done|lia].
  - rewrite jump_loop_done in E1 by done. simplify_eq.
    destruct (decide (j = n)) as [->|]; [|rewrite jump_loop_done in E2 by lia; simplify_eq; by left].
    destruct fuel' as [|fuel']; [lia|]. rewrite jump_loop_unfold in E2 by lia.
    pose proof (jump_next_gt n (jump_key key) ltac:(lia) ltac:(auto with relay)).
    rewrite jump_loop_done in E2 by lia. simplify_eq. by right.
  - destruct fuel' as [|fuel']; [lia|].
    rewrite jump_loop_unfold in E1, E2 by lia.
    pose proof (jump_next_gt j (jump_key key) ltac:(lia) ltac:(auto with relay)).
    eapply IH; [| | | |exact E1|exact E2]; lia.
  - rewrite jump_loop_done in E1 by done. simplify_eq.
    destruct (decide (j = n)) as [->|]; [|rewrite jump_loop_done in E2 by lia; simplify_eq; by left].
    destruct fuel' as [|fuel']; [lia|]. rewrite jump_loop_unfold in E2 by lia.
    pose proof (jump_next_gt n (jump_key key) ltac:(lia) ltac:(auto with relay)).
    rewrite jump_loop_done in E2 by lia. simplify_eq. by right.
Qed.

(** What the ring needs of the function: a bucket of the range, and monotonicity
    when the range grows. *)
Lemma jump_bucketpos_total key n :
  0 < n <= 2 ^ 31 -> exists b, jump_bucketpos key n = Some b /\ 0 <= b < n.
Proof.
  intros Hn. destruct (jump_loop_total (Z.to_nat n) key (-1) 0 n) as (b & E & ? & Hb); [lia..|].
  exists b. unfold jump_bucketpos. rewrite E. cbn [fmap option_fmap option_map].
  rewrite (u32_small b) by lia. split; [done|]. lia.
Qed.

(** C7: Jump hash terminates for every key and every bucket count, on a bucket of
    the range (rounding never keeps [j] from growing), and it is consistent: when
    a bucket is added, a key stays in its bucket or moves to the new one, so only
    the keys the new server takes over are relocated. *)
Theorem jump_bucketpos_consistent (key n : Z) :
  0 < n < 2 ^ 31 ->
  exists b b', jump_bucketpos key n = Some b /\ 0 <= b < n /\
    jump_bucketpos key (n + 1) = Some b' /\ (b' = b \/ b' = n).
Proof.
  intros Hn. unfold jump_bucketpos.
  destruct (jump_loop_total (Z.to_nat n) key (-1) 0 n) as (c & F1 & ? & ?); [lia..|].
  destruct (jump_loop_total (Z.to_nat (n + 1)) key (-1) 0 (n + 1)) as (c' & F2 & ? & ?); [lia..|].
  exists c, c'. rewrite F1, F2. cbn [fmap option_fmap option_map]. rewrite !u32_small by lia.
  split_and!; [done|lia..|done|].
  eapply (jump_loop_succ _ _ key (-1) 0 n); [..|exact F1|exact F2]; lia.
Qed.

Lemma jump_bucketpos_consistent_witness :
  jump_bucketpos 3 8 = Some 3 /\ jump_bucketpos 3 9 = Some 8 /\
  exists b b', jump_bucketpos 3 8 = Some b /\ 0 <= b < 8 /\
    jump_bucketpos 3 (8 + 1) = Some b' /\ (b' = b \/ b' = 8).
Proof.
  split; [vm_compute; reflexivity|]. split; [vm_compute; reflexivity|].
  apply (jump_bucketpos_consistent 3 8). lia.
Defined.
