(* ===== verification/ConsistentHash.v ===== *)
(** * Consistent-hash rings (src/consistent-hash.c)

    Rings of type carbon_ch, fnv1a_ch and jump_fnv1a_ch: how servers are placed
    ([ch_new], [ch_addnode]) and which servers a metric goes to ([ch_get_nodes],
    [ch_gethashpos]).  [entrylist] holds the entries written so far, so
    [entrycnt] is its length.  What the file needs of src/server.c (the address
    accessors) is the class [ServerInfo]; [qsort] is the class [Qsort], because
    its result on equal elements is unspecified. *)
From S2P Require Import Prelude Fnv Md5 JumpHash.
#[local] Open Scope Z_scope.

(** The accessors [server_ip], [server_port] and [server_instance]. *)
Class ServerInfo (server : Type) := {
  server_ip : server -> cstring;
  server_port : server -> Z;
  server_instance : server -> option cstring;
}.

Definition HASH_REPLICAS : Z := 100.
Definition CONN_DESTS_SIZE : Z := 64.

Inductive ch_type := CARBON | FNV1a | JUMP_FNV1a.
#[export] Instance ch_type_eq_dec : EqDecision ch_type.
Proof. solve_decision. Defined.

(** [qsort] gives a sorted permutation when the comparator is a total preorder; for others nothing is known of it. *)
Definition total_preorder {A} (cmp : A -> A -> Z) : Prop :=
  (forall x y, cmp x y <= 0 \/ cmp y x <= 0) /\ (forall x y z, cmp x y <= 0 -> cmp y z <= 0 -> cmp x z <= 0).
Class Qsort (A : Type) := {
  qsort : (A -> A -> Z) -> list A -> list A;
  qsort_perm : forall cmp l, total_preorder cmp -> Permutation (qsort cmp l) l;
  qsort_sorted : forall cmp l, total_preorder cmp -> Sorted (fun x y => cmp x y <= 0) (qsort cmp l);
}.

(** ** Hash positions *)

Definition carbon_hashpos (key : cstring) : Z :=
  (* the digest does not depend on the bytes of the context's buffer *)
  let md5 := MD5 (replicate 64 0) (u8 <$> key) in
  u16 (Z.shiftl (md5 !!! 0%nat) 8 + md5 !!! 1%nat).

Definition fnv1a_hashpos (key : cstring) : Z :=
  let hash := fnv1a_32 key in
  u16 (Z.lxor (Z.shiftr hash 16) (Z.land hash 0xFFFF)).

Section Ring.
Context {server : Type} `{EqDecision server} `{ServerInfo server}.

Record ch_ring_entry := mkEntry { e_pos : Z; e_server : server }.

Record ch_ring := mkRing {
  r_type : ch_type;
  hash_replicas : Z;
  entrylist : list ch_ring_entry;
  entrysize : Z;
}.
Definition entrycnt (ring : ch_ring) : Z := Z.of_nat (length (entrylist ring)).

(** ** Sort comparators *)

Definition entrycmp_carbon (l r : ch_ring_entry) : Z :=
  if negb (e_pos l =? e_pos r) then e_pos l - e_pos r
  else
    let d := strcmp (server_ip (e_server l)) (server_ip (e_server r)) in
    if negb (d =? 0) then d
    else match server_instance (e_server l), server_instance (e_server r) with
         | None, None => 0
         | None, Some _ => 1
         | Some _, None => -1
         | Some i_l, Some i_r => strcmp i_l i_r
         end.

Definition entrycmp_fnv1a (l r : ch_ring_entry) : Z :=
  if negb (e_pos l =? e_pos r) then e_pos l - e_pos r
  else
    let d := strcmp (server_ip (e_server l)) (server_ip (e_server r)) in
    if negb (d =? 0) then d
    else server_port (e_server l) - server_port (e_server r).

Definition entrycmp_jump_fnv1a (l r : ch_ring_entry) : Z :=
  match server_instance (e_server l), server_instance (e_server r) with
  | None, None => e_pos l - e_pos r
  | None, Some _ => 1
  | Some _, None => -1
  | Some si_l, Some si_r =>
      let '(val_l, end_l) := strtol si_l in
      if bool_decide (end_l = []) then
        let '(val_r, end_r) := strtol si_r in
        if bool_decide (end_r = []) then s32 (val_l - val_r) else strcmp si_l si_r
      else strcmp si_l si_r
  end.

(** ** Building a ring *)

(** [alloc], [alloc_list]: whether the two [ra_malloc]s succeed. *)
Definition ch_new (alloc alloc_list : bool) (type : ch_type) (servercnt : Z) : option ch_ring :=
  if CONN_DESTS_SIZE <? servercnt then None
  else if negb alloc then None
  else
    let replicas := match type with CARBON | FNV1a => HASH_REPLICAS | JUMP_FNV1a => 1 end in
    if negb alloc_list then None
    else Some (mkRing type replicas [] (replicas * servercnt)).

(** The text hashed for replica [i] of a server. *)
Definition carbon_key (s : server) (i : Z) : cstring :=
  let instance := server_instance s in
  let quote := match instance with None => [] | Some _ => lit "'" end in
  snprintf_trunc 256 (lit "('" ++ server_ip s ++ lit "', " ++ quote ++
    default (lit "None") instance ++ quote ++ lit "):" ++ show_Z i).
Definition fnv1a_key (s : server) (i : Z) : cstring :=
  match server_instance s with
  | None => snprintf_trunc 256 (show_Z i ++ lit "-" ++ server_ip s ++ lit ":" ++ show_Z (server_port s))
  | Some instance => snprintf_trunc 256 (show_Z i ++ lit "-" ++ instance)
  end.

(** The entries [ch_addnode] writes for a server, and the comparator it picks. *)
Definition node_entries (ring : ch_ring) (s : server) : list ch_ring_entry :=
  match r_type ring with
  | CARBON => (fun i => mkEntry (carbon_hashpos (carbon_key s (Z.of_nat i))) s) <$> seq 0 (Z.to_nat (hash_replicas ring))
  | FNV1a => (fun i => mkEntry (fnv1a_hashpos (fnv1a_key s (Z.of_nat i))) s) <$> seq 0 (Z.to_nat (hash_replicas ring))
  | JUMP_FNV1a => [mkEntry (u16 (entrycnt ring)) s]
  end.
Definition entrycmp (type : ch_type) : ch_ring_entry -> ch_ring_entry -> Z :=
  match type with
  | CARBON => entrycmp_carbon
  | FNV1a => entrycmp_fnv1a
  | JUMP_FNV1a => entrycmp_jump_fnv1a
  end.

(** The loop that overwrites successive duplicates with the first entry. *)
Fixpoint overwrite_after (prev : ch_ring_entry) (l : list ch_ring_entry) : list ch_ring_entry :=
  match l with
  | [] => []
  | e :: l' =>
      let e' := if e_pos prev =? e_pos e then mkEntry (e_pos e) (e_server prev) else e in
      e' :: overwrite_after e' l'
  end.
Definition overwrite_dups (l : list ch_ring_entry) : list ch_ring_entry :=
  match l with [] => [] | e :: l' => e :: overwrite_after e l' end.

(** [None] is a write past the end of [entrylist]; [Some None] is [NULL]. *)
Definition ch_addnode `{Qsort ch_ring_entry} (ring : option ch_ring) (s : server) : option (option ch_ring) :=
  match ring with
  | None => Some None
  | Some ring =>
      let entries := entrylist ring ++ node_entries ring s in
      if entrysize ring <? Z.of_nat (length entries) then None
      else
        let entries :=
          if Z.of_nat (length entries) =? entrysize ring
          then overwrite_dups (qsort (entrycmp (r_type ring)) entries) else entries in
        Some (Some (mkRing (r_type ring) (hash_replicas ring) entries (entrysize ring)))
  end.

(** ** Looking up a metric *)

(** The binary search for the first position not below [pos], on the accessor
    [at t = entrylist[t].pos]; it reads [entrylist[entrycnt]] when every position is
    below [pos].  [None] is running out of fuel. *)
Fixpoint ch_search (fuel : nat) (at_ : nat -> Z) (pos : Z) (i j : nat) : option nat :=
  match fuel with
  | O => None
  | S fuel' =>
      let t := ((i + j) / 2)%nat in
      if at_ t =? pos then Some t
      else if at_ t <? pos then
        let i := t in
        if Z.of_nat i =? Z.of_nat j - 1 then (if at_ j <? pos then Some (j + 1)%nat else Some j)
        else ch_search fuel' at_ pos i j
      else
        let j := t in
        if Z.of_nat i =? Z.of_nat j - 1 then (if pos <=? at_ i then Some i else Some j)
        else ch_search fuel' at_ pos i j
  end.

(** The loop that fetches [replcnt] unique servers from index [t] on. *)
Fixpoint ch_walk (fuel : nat) (servers : list server) (replcnt : Z) (t : nat) (ret : list server) :
    option (list server) :=
  if Z.of_nat (length ret) <? replcnt then
    match fuel with
    | O => None
    | S fuel' =>
        let t := if (length servers <=? t)%nat then 0%nat else t in
        match servers !! t with
        | None => None
        | Some s =>
            if bool_decide (s ∈ ret) then ch_walk fuel' servers replcnt (t + 1) ret
            else ch_walk fuel' servers replcnt (t + 1) (ret ++ [s])
        end
    end
  else Some ret.

Definition xorshift (hash : Z) : Z :=
  let hash := Z.lxor hash (Z.shiftr hash 12) in
  let hash := Z.lxor hash (u64 (Z.shiftl hash 25)) in
  let hash := Z.lxor hash (Z.shiftr hash 27) in
  u64 (hash * 2685821657736338717).

(** The jump loop; [bcklst] is the first [i] servers of the C array. *)
Fixpoint jump_nodes (i : nat) (bcklst : list server) (hash pos : Z) (ret : list server) :
    option (list server) :=
  match i with
  | O => Some ret
  | S i' =>
      j ← jump_bucketpos hash (Z.of_nat i);
      s ← bcklst !! Z.to_nat j;
      last ← bcklst !! i';
      let ret := ret ++ [s] in
      let pos := u16 (pos - 1) in
      if pos =? 0 then Some ret
      else jump_nodes i' (take i' (<[Z.to_nat j := last]> bcklst)) (xorshift hash) pos ret
  end.

(** [entrylist[t].pos], where [oob] is whatever lies after the array. *)
Definition pos_at (ring : ch_ring) (oob : Z) (t : nat) : Z :=
  match entrylist ring !! t with Some e => e_pos e | None => oob end.

(** [ch_get_nodes(ret, ring, replcnt, metric, firstspace)] on the key between the
    two pointers; [None]: the loops did not finish within [fuel]. *)
Definition ch_get_nodes (fuel : nat) (oob : Z) (ring : ch_ring) (replcnt : Z) (key : cstring) :
    option (list server) :=
  let n := length (entrylist ring) in
  let servers := e_server <$> entrylist ring in
  match r_type ring with
  | JUMP_FNV1a => jump_nodes n servers (fnv1a_64 key) (u16 replcnt) []
  | type =>
      let pos := match type with CARBON => carbon_hashpos key | _ => fnv1a_hashpos key end in
      t ← ch_search fuel (pos_at ring oob) pos 0 n;
      ch_walk fuel servers replcnt t []
  end.

Definition ch_gethashpos (ring : ch_ring) (key : cstring) : option Z :=
  match r_type ring with
  | CARBON => Some (carbon_hashpos key)
  | FNV1a => Some (fnv1a_hashpos key)
  | JUMP_FNV1a => u16 <$> jump_bucketpos (fnv1a_64 key) (entrycnt ring)
  end.

(** ** Specification *)

(** Keep the first occurrence of each server, in order. *)
Definition add_new (acc : list server) (s : server) : list server :=
  if bool_decide (s ∈ acc) then acc else acc ++ [s].
Definition uniq (l : list server) : list server := foldl add_new [] l.

(** The servers clockwise from [pos]: first the entries at or after it, then,
    wrapping around, the others. *)
Definition clockwise (l : list ch_ring_entry) (pos : Z) : list server :=
  e_server <$> (filter (fun e => pos <= e_pos e) l ++ filter (fun e => ~ pos <= e_pos e) l).

(** A finished carbon_ch or fnv1a_ch ring: ordered by position, and entries that
    share a position share their server. *)
Record ring_ok (l : list ch_ring_entry) : Prop := {
  ok_sorted : StronglySorted (fun x y => e_pos x <= e_pos y) l;
  ok_dups : forall x y, x ∈ l -> y ∈ l -> e_pos x = e_pos y -> e_server x = e_server y;
}.

(** ** The binary search *)

Lemma sorted_lookup (l : list ch_ring_entry) i j x y :
  StronglySorted (fun x y => e_pos x <= e_pos y) l -> (i <= j)%nat ->
  l !! i = Some x -> l !! j = Some y -> e_pos x <= e_pos y.
Proof.
  intros Hs. revert i j. induction Hs as [|a l Hs IH Ha]; intros [|i] [|j] Hij Hx Hy; simplify_eq/=; try lia.
  - rewrite Forall_forall in Ha. by apply Ha, list_elem_of_lookup_2 with j.
  - apply (IH i j); auto with lia.
Qed.

(** Where the search may stop. *)
Definition search_result (l : list ch_ring_entry) (pos : Z) (t : nat) : Prop :=
  (exists e, l !! t = Some e /\ e_pos e = pos) \/
  ((forall k e, l !! k = Some e -> ((k < t)%nat <-> e_pos e < pos))).

Lemma ch_search_spec (l : list ch_ring_entry) (at_ : nat -> Z) pos fuel i j :
  StronglySorted (fun x y => e_pos x <= e_pos y) l ->
  (forall k e, l !! k = Some e -> at_ k = e_pos e) ->
  (i + 2 <= j <= length l)%nat -> (j - i <= fuel)%nat ->
  (i = 0%nat \/ at_ i < pos) -> (j = length l \/ pos < at_ j) ->
  exists t, ch_search fuel at_ pos i j = Some t /\ search_result l pos t.
Proof.
  intros Hs Hat. revert i j. induction fuel as [|fuel IH]; intros i j Hij Hf Hi Hj; [lia|].
  cbn [ch_search]. set (t := ((i + j) / 2)%nat).
  assert (i < t < j)%nat as Ht.
  { unfold t. split; [apply Nat.div_le_lower_bound|apply Nat.Div0.div_lt_upper_bound]; lia. }
  destruct (lookup_lt_is_Some_2 l t) as [et Het]; [lia|]. rewrite (Hat t et Het).
  assert (forall k e, l !! k = Some e -> (k <= t)%nat -> e_pos e <= e_pos et) as Hbelow
    by (intros k e Hk Hkt; by apply (sorted_lookup l k t)).
  assert (forall k e, l !! k = Some e -> (t <= k)%nat -> e_pos et <= e_pos e) as Habove
    by (intros k e Hk Hkt; by apply (sorted_lookup l t k)).
  destruct (Z.eqb_spec (e_pos et) pos) as [Heq|Hne].
  { exists t. split; [done|]. left. eauto. }
  destruct (Z.ltb_spec (e_pos et) pos) as [Hlt|Hge].
  - destruct (Z.eqb_spec (Z.of_nat t) (Z.of_nat j - 1)) as [Htj|Htj].
    2: { apply IH; try lia. right. by rewrite (Hat t et Het). }
    destruct (decide (j = length l)) as [->|Hjl].
    + destruct (Z.ltb (at_ (length l)) pos); eexists; (split; [done|]); right; intros k e Hk;
        pose proof (lookup_lt_Some l k e Hk); pose proof (Hbelow k e Hk ltac:(lia)); lia.
    + destruct Hj as [?|Hj]; [done|]. destruct (Z.ltb_spec (at_ j) pos); [lia|].
      exists j. split; [done|]. right. intros k e Hk. split; intros Hc.
      * pose proof (Hbelow k e Hk ltac:(lia)). lia.
      * destruct (lookup_lt_is_Some_2 l j) as [ej Hej]; [lia|]. rewrite (Hat j ej Hej) in Hj.
        destruct (Nat.lt_ge_cases k j); [done|].
        pose proof (sorted_lookup l j k ej e Hs ltac:(lia) Hej Hk). lia.
  - destruct (Z.eqb_spec (Z.of_nat i) (Z.of_nat t - 1)) as [Hit|Hit].
    2: { apply IH; try lia. right. rewrite (Hat t et Het). lia. }
    destruct (lookup_lt_is_Some_2 l i) as [ei Hei]; [lia|]. rewrite (Hat i ei Hei) in *.
    destruct (Z.leb_spec pos (e_pos ei)) as [Hle|Hgt].
    + exists i. split; [done|]. right. intros k e Hk. destruct Hi as [->|?]; [|lia].
      pose proof (sorted_lookup l 0 k ei e Hs ltac:(lia) Hei Hk). lia.
    + exists t. split; [done|]. right. intros k e Hk. split; intros Hc.
      * pose proof (sorted_lookup l k i e ei Hs ltac:(lia) Hk Hei). lia.
      * destruct (Nat.lt_ge_cases k t); [done|]. pose proof (Habove k e Hk ltac:(lia)). lia.
Qed.

(** ** The walk *)

Lemma add_new_prefix l acc : acc `prefix_of` foldl add_new acc l.
Proof.
  revert acc. induction l as [|s l IH]; intros acc; [done|]. simpl.
  etrans; [|apply IH]. unfold add_new. case_bool_decide; [done|]. by apply prefix_app_r.
Qed.

Lemma elem_of_add_new l acc x : x ∈ foldl add_new acc l <-> x ∈ acc \/ x ∈ l.
Proof.
  revert acc. induction l as [|s l IH]; intros acc; simpl; [set_solver|].
  rewrite IH. unfold add_new. case_bool_decide; set_solver.
Qed.

Lemma add_new_NoDup l acc : NoDup acc -> NoDup (foldl add_new acc l).
Proof.
  revert acc. induction l as [|s l IH]; intros acc Ha; simpl; [done|]. apply IH.
  unfold add_new. case_bool_decide; [done|]. apply NoDup_app. set_solver by eauto using NoDup_singleton.
Qed.

(** Servers already collected change nothing. *)
Lemma add_new_known l acc : (forall x, x ∈ l -> x ∈ acc) -> foldl add_new acc l = acc.
Proof.
  induction l as [|s l IH]; intros Hl; simpl; [done|].
  unfold add_new at 2. rewrite bool_decide_true by set_solver. apply IH. set_solver.
Qed.

(** [visits servers t vs]: [vs] are the servers the loop looks at from [t] on. *)
Fixpoint visits (servers : list server) (t : nat) (vs : list server) : Prop :=
  match vs with
  | [] => True
  | s :: vs' =>
      let t := if (length servers <=? t)%nat then 0%nat else t in
      servers !! t = Some s /\ visits servers (t + 1) vs'
  end.

Lemma visits_lookup servers t vs :
  (t + length vs <= length servers)%nat ->
  (forall k, (k < length vs)%nat -> servers !! (t + k)%nat = vs !! k) -> visits servers t vs.
Proof.
  revert t. induction vs as [|s vs IH]; intros t Hl Hk; simpl in *; [done|].
  destruct (Nat.leb_spec (length servers) t); [lia|]. split.
  - specialize (Hk 0%nat ltac:(lia)). by rewrite Nat.add_0_r in Hk.
  - apply IH; [lia|]. intros k Hk'. specialize (Hk (S k) ltac:(lia)). simpl in Hk.
    rewrite <- Hk. f_equal. lia.
Qed.

Lemma visits_app servers t vs vs' :
  (t + length vs = length servers)%nat -> visits servers t vs -> visits servers 0 vs' ->
  visits servers t (vs ++ vs').
Proof.
  revert t. induction vs as [|s vs IH]; intros t Hl Hv Hv'; simpl in *.
  - destruct vs' as [|s' vs']; [done|]. simpl in *.
    destruct (Nat.leb_spec (length servers) t); [|lia].
    by destruct (Nat.leb_spec (length servers) 0).
  - destruct (Nat.leb_spec (length servers) t); [lia|]. destruct Hv as [Hs Hv].
    split; [done|]. apply IH; [lia|done..].
Qed.

Lemma visits_turn servers t :
  (t <= length servers)%nat -> visits servers t (drop t servers ++ take t servers).
Proof.
  intros Ht. apply visits_app.
  - rewrite length_drop. lia.
  - apply visits_lookup; [rewrite length_drop; lia|]. intros k Hk. by rewrite lookup_drop.
  - apply visits_lookup; [rewrite length_take; lia|]. intros k Hk.
    rewrite length_take in Hk. by rewrite lookup_take_lt by lia.
Qed.

(** Past the end is the beginning. *)
Lemma visits_wrap servers t vs :
  (length servers <= t)%nat -> visits servers 0 vs -> visits servers t vs.
Proof.
  intros Ht. destruct vs; [done|]. simpl. destruct (Nat.leb_spec (length servers) t); [|lia].
  by destruct (Nat.leb_spec (length servers) 0).
Qed.

Lemma ch_walk_spec servers replcnt vs fuel t ret :
  visits servers t vs -> (length vs <= fuel)%nat -> Z.of_nat (length ret) <= replcnt ->
  replcnt <= Z.of_nat (length (foldl add_new ret vs)) ->
  ch_walk fuel servers replcnt t ret = Some (take (Z.to_nat replcnt) (foldl add_new ret vs)).
Proof.
  revert fuel t ret. induction vs as [|s vs IH]; intros fuel t ret Hv Hf Hr Hd.
  - simpl in *. replace (Z.to_nat replcnt) with (length ret) by lia. rewrite take_ge by lia.
    destruct fuel; simpl; by destruct (Z.ltb_spec (Z.of_nat (length ret)) replcnt); [lia|].
  - destruct (Z.ltb_spec (Z.of_nat (length ret)) replcnt) as [Hlt|Hge].
    + destruct fuel as [|fuel]; [simpl in *; lia|]. destruct Hv as [Hs Hv]. simpl in Hf.
      cbn [ch_walk foldl] in *. destruct (Z.ltb_spec (Z.of_nat (length ret)) replcnt); [|lia].
      rewrite Hs. unfold add_new at 2 in Hd. unfold add_new at 2.
      case_bool_decide; apply IH; try done; try lia. rewrite length_app. simpl. lia.
    + assert (Z.to_nat replcnt = length ret) as -> by lia.
      destruct (add_new_prefix (s :: vs) ret) as [k ->]. rewrite take_app_length.
      destruct fuel; simpl; by destruct (Z.ltb_spec (Z.of_nat (length ret)) replcnt); [lia|].
Qed.

(** Without enough distinct servers the loop never ends. *)
Lemma ch_walk_diverges servers replcnt fuel t ret :
  NoDup ret -> (forall x, x ∈ ret -> x ∈ servers) ->
  Z.of_nat (length (uniq servers)) < replcnt -> ch_walk fuel servers replcnt t ret = None.
Proof.
  revert t ret. induction fuel as [|fuel IH]; intros t ret Hnd Hsub Hlt.
  all: assert (length ret <= length (uniq servers))%nat as Hlen
    by (apply submseteq_length, NoDup_submseteq; [done|]; intros x Hx; apply elem_of_add_new; auto).
  all: cbn [ch_walk]; destruct (Z.ltb_spec (Z.of_nat (length ret)) replcnt); [|lia].
  { done. }
  destruct (servers !! _) as [s|] eqn:Es; [|done].
  case_bool_decide; apply IH; try done.
  - apply NoDup_app. set_solver by eauto using NoDup_singleton.
  - apply list_elem_of_lookup_2 in Es. set_solver.
Qed.

(** ** Search and walk together *)

(** Stopping at the first position not below [pos]. *)
Lemma clockwise_at_boundary l pos t :
  (forall k e, l !! k = Some e -> ((k < t)%nat <-> e_pos e < pos)) ->
  clockwise l pos = e_server <$> (drop t l ++ take t l).
Proof.
  intros Ht. unfold clockwise. do 2 f_equal.
  all: rewrite <- (take_drop t l) at 1; rewrite filter_app.
  - rewrite filter_none, filter_all; [done|..].
    + intros x (k & Hk & Hx)%elem_of_drop_lookup. specialize (Ht k x Hx). lia.
    + intros x (k & Hk & Hx)%elem_of_take_lookup. specialize (Ht k x Hx). lia.
  - rewrite filter_all, filter_none, app_nil_r; [done|..].
    + intros x (k & Hk & Hx)%elem_of_drop_lookup. specialize (Ht k x Hx). lia.
    + intros x (k & Hk & Hx)%elem_of_take_lookup. specialize (Ht k x Hx). lia.
Qed.

(** Dropping entries whose server has been collected changes nothing. *)
Lemma add_new_filter (P : ch_ring_entry -> Prop) `{!forall x, Decision (P x)} l acc :
  (forall x, x ∈ l -> ~ P x -> e_server x ∈ acc) ->
  foldl add_new acc (e_server <$> l) = foldl add_new acc (e_server <$> filter P l).
Proof.
  revert acc. induction l as [|x l IH]; intros acc Hl; [done|].
  destruct (decide (P x)) as [HP|HP].
  - rewrite filter_cons_True by done. cbn [fmap list_fmap foldl]. apply IH.
    intros y Hy HPy. unfold add_new. case_bool_decide; set_solver.
  - rewrite filter_cons_False by done. cbn [fmap list_fmap foldl].
    unfold add_new at 2. rewrite bool_decide_true by set_solver. apply IH. set_solver.
Qed.

(** Entries of one server in front of an entry of that server change nothing. *)
Lemma add_new_repeat l x l' :
  (forall y, y ∈ l -> e_server y = e_server x) ->
  uniq (e_server <$> (l ++ x :: l')) = uniq (e_server <$> (x :: l')).
Proof.
  intros Hl. unfold uniq. rewrite fmap_app, foldl_app. destruct l as [|y l]; [done|].
  cbn [fmap list_fmap foldl]. rewrite (Hl y) by set_solver.
  change (add_new [] (e_server x)) with [e_server x].
  rewrite (add_new_known (e_server <$> l)).
  - unfold add_new at 2. by rewrite bool_decide_true by set_solver.
  - intros z (w & -> & Hw)%list_elem_of_fmap. rewrite (Hl w); set_solver.
Qed.

(** Stopping at any entry whose position is [pos]. *)
Lemma uniq_clockwise_exact l pos t e :
  ring_ok l -> l !! t = Some e -> e_pos e = pos ->
  uniq (clockwise l pos) = uniq (e_server <$> (drop t l ++ take t l)).
Proof.
  intros [Hs Hd] He Hpos. unfold clockwise.
  assert (forall x, x ∈ drop t l -> pos <= e_pos x) as Hdrop.
  { intros x (k & Hk & Hx)%elem_of_drop_lookup. subst. by apply (sorted_lookup l t k). }
  assert (forall x, x ∈ take t l -> e_pos x <= pos) as Htake.
  { intros x (k & Hk & Hx)%elem_of_take_lookup. subst. apply (sorted_lookup l k t); auto with lia. }
  assert (forall x, x ∈ take t l -> pos <= e_pos x -> e_server x = e_server e) as Hsame.
  { intros x Hx Hle. apply Hd; [|by eapply list_elem_of_lookup_2|specialize (Htake x Hx); lia].
    apply elem_of_take_lookup in Hx as (k & _ & Hx). by eapply list_elem_of_lookup_2. }
  rewrite <- (take_drop t l) at 1 2. rewrite !filter_app.
  rewrite (filter_all _ (drop t l)) by done.
  rewrite (filter_none _ (drop t l)) by (intros x Hx; specialize (Hdrop x Hx); lia).
  rewrite app_nil_r, (drop_S l e t He), <- (assoc_L app), <- !app_comm_cons, add_new_repeat.
  2: { intros y Hy. apply list_elem_of_filter in Hy as [? ?]. auto. }
  unfold uniq. rewrite !app_comm_cons, !fmap_app, !foldl_app. symmetry.
  apply add_new_filter. intros x Hx Hn. apply elem_of_add_new. right.
  rewrite (Hsame x Hx) by lia. set_solver.
Qed.

Lemma elem_of_clockwise l pos x : x ∈ clockwise l pos <-> x ∈ e_server <$> l.
Proof.
  unfold clockwise. rewrite !list_elem_of_fmap.
  split; intros (e & -> & He); exists e; (split; [done|]); revert He;
    rewrite elem_of_app, !list_elem_of_filter; destruct (decide (pos <= e_pos e)); tauto.
Qed.

Lemma uniq_length l l' : (forall x, x ∈ l <-> x ∈ l') -> length (uniq l) = length (uniq l').
Proof.
  intros Hl. apply Permutation_length, NoDup_Permutation; [apply add_new_NoDup, NoDup_nil_2..|].
  intros x. unfold uniq. rewrite !elem_of_add_new. set_solver.
Qed.

Lemma ring_lookup_spec (ring : ch_ring) oob pos replcnt fuel :
  ring_ok (entrylist ring) -> (2 <= length (entrylist ring) <= fuel)%nat ->
  0 <= replcnt <= Z.of_nat (length (uniq (e_server <$> entrylist ring))) ->
  (t ← ch_search fuel (pos_at ring oob) pos 0 (length (entrylist ring));
   ch_walk fuel (e_server <$> entrylist ring) replcnt t [])
  = Some (take (Z.to_nat replcnt) (uniq (clockwise (entrylist ring) pos))).
Proof.
  intros Hok Hlen Hr. set (l := entrylist ring) in *. pose proof Hok as [Hs Hd].
  destruct (ch_search_spec l (pos_at ring oob) pos fuel 0 (length l)) as (t & -> & Ht); try lia; try done.
  { intros k e Hk. unfold pos_at. fold l. by rewrite Hk. }

  cbn [mbind option_bind].
  assert (uniq (clockwise l pos) = uniq (e_server <$> (drop t l ++ take t l))) as Hu.
  { destruct Ht as [(e & He & Hp)|Ht]; [by eapply uniq_clockwise_exact|].
    by rewrite (clockwise_at_boundary l pos t Ht). }
  rewrite Hu. unfold uniq. apply ch_walk_spec; simpl; try lia.
  - rewrite fmap_app, fmap_drop, fmap_take.
    destruct (Nat.le_gt_cases t (length l)).
    + apply visits_turn. rewrite length_fmap. lia.
    + apply visits_wrap; [rewrite length_fmap; lia|].
      rewrite drop_ge, take_ge, app_nil_l by (rewrite length_fmap; lia).
      pose proof (visits_turn (e_server <$> l) 0 ltac:(lia)) as Hv. by rewrite app_nil_r in Hv.
  - rewrite length_fmap, length_app, length_drop, length_take. lia.
  - rewrite (uniq_length (e_server <$> (drop t l ++ take t l)) (e_server <$> l)); [lia|].
    intros x. by rewrite (Permutation_app_comm (drop t l)), take_drop.
Qed.

(** ** Building a ring makes it ready for lookups *)

Lemma entrycmp_carbon_is_cmp : is_cmp entrycmp_carbon.
Proof.
  eapply is_cmp_ext; [|eapply lex_is_cmp; [exact (diff_is_cmp e_pos)|eapply lex_is_cmp;
    [exact (strcmp_is_cmp (fun e => server_ip (e_server e)))
    |exact (option_strcmp_is_cmp (fun e => server_instance (e_server e)))]]].
  intros x y. unfold entrycmp_carbon. cbn beta.
  destruct (Z.eqb_spec (e_pos x) (e_pos y)), (Z.eqb_spec (e_pos x - e_pos y) 0); lia || done.
Qed.

Lemma entrycmp_fnv1a_is_cmp : is_cmp entrycmp_fnv1a.
Proof.
  eapply is_cmp_ext; [|eapply lex_is_cmp; [exact (diff_is_cmp e_pos)|eapply lex_is_cmp;
    [exact (strcmp_is_cmp (fun e => server_ip (e_server e)))
    |exact (diff_is_cmp (fun e => server_port (e_server e)))]]].
  intros x y. unfold entrycmp_fnv1a. cbn beta.
  destruct (Z.eqb_spec (e_pos x) (e_pos y)), (Z.eqb_spec (e_pos x - e_pos y) 0); lia || done.
Qed.

(** The rings that are searched by position. *)
Definition is_ring_type (type : ch_type) : bool := negb (bool_decide (type = JUMP_FNV1a)).

Lemma entrycmp_ring type :
  is_ring_type type = true ->
  is_cmp (entrycmp type) /\ (forall x y, entrycmp type x y <= 0 -> e_pos x <= e_pos y).
Proof.
  destruct type; [intros _..|done]; split; [apply entrycmp_carbon_is_cmp| |apply entrycmp_fnv1a_is_cmp|].
  all: intros x y; cbn [entrycmp]; unfold entrycmp_carbon, entrycmp_fnv1a;
    destruct (Z.eqb_spec (e_pos x) (e_pos y)); simpl; lia.
Qed.

(** Ordered, and equal positions have equal servers. *)
Definition same_or_after (x y : ch_ring_entry) : Prop :=
  e_pos x <= e_pos y /\ (e_pos x = e_pos y -> e_server x = e_server y).

Lemma overwrite_after_sorted prev l :
  Sorted (fun x y => e_pos x <= e_pos y) (prev :: l) -> Sorted same_or_after (prev :: overwrite_after prev l).
Proof.
  revert prev. induction l as [|e l IH]; intros prev Hs; [by repeat constructor|].
  apply Sorted_inv in Hs as [Hs Hhd]. apply HdRel_inv in Hhd. cbn [overwrite_after].
  set (e' := if e_pos prev =? e_pos e then _ else e).
  assert (e_pos e' = e_pos e) as Hp by (unfold e'; by destruct (e_pos prev =? e_pos e)).
  constructor.
  - apply IH. apply Sorted_inv in Hs as [Hs Hhd']. constructor; [done|].
    destruct l; constructor. apply HdRel_inv in Hhd'. by rewrite Hp.
  - constructor. split; [lia|]. unfold e'. destruct (Z.eqb_spec (e_pos prev) (e_pos e)); [done|lia].
Qed.

Lemma same_or_after_ok l : Sorted same_or_after l -> ring_ok l.
Proof.
  intros Hs. apply Sorted_StronglySorted in Hs.
  2: { intros x y z [? H1] [? H2]. split; [lia|]. intros. rewrite H1 by lia. apply H2. lia. }
  split.
  - induction Hs as [|a l Hs IH Ha]; constructor; [done|]. eapply Forall_impl; [done|]. by intros ? [].
  - induction Hs as [|a l Hs IH Ha]; intros x y Hx Hy Hxy; [set_solver|].
    rewrite Forall_forall in Ha. apply elem_of_cons in Hx as [->|Hx], Hy as [->|Hy]; auto.
    + by apply Ha.
    + symmetry. by apply Ha.
Qed.

Lemma overwrite_dups_ok l :
  Sorted (fun x y => e_pos x <= e_pos y) l -> ring_ok (overwrite_dups l).
Proof.
  intros Hs. apply same_or_after_ok. destruct l as [|e l]; [constructor|].
  by apply overwrite_after_sorted.
Qed.

Lemma overwrite_dups_pos l : e_pos <$> overwrite_dups l = e_pos <$> l.
Proof.
  destruct l as [|e l]; [done|]. cbn [overwrite_dups fmap list_fmap]. f_equal.
  revert e. induction l as [|a l IH]; intros e; [done|].
  cbn [overwrite_after fmap list_fmap]. f_equal; [|apply IH]. by destruct (e_pos e =? e_pos a).
Qed.

Lemma overwrite_dups_servers l x :
  x ∈ e_server <$> overwrite_dups l -> x ∈ e_server <$> l.
Proof.
  destruct l as [|e l]; [done|]. cbn [overwrite_dups fmap list_fmap].
  assert (forall e0, x ∈ e_server <$> overwrite_after e0 l -> x = e_server e0 \/ x ∈ e_server <$> l) as Hin.
  2: { rewrite !elem_of_cons. intros [?|Hx]; [by left|]. destruct (Hin e Hx); auto. }
  induction l as [|a l IH]; intros e0; cbn [overwrite_after fmap list_fmap]; [set_solver|].
  rewrite !elem_of_cons. intros [->|Hx].
  - destruct (e_pos e0 =? e_pos a); auto.
  - destruct (IH _ Hx) as [->|?]; auto. destruct (e_pos e0 =? e_pos a); auto.
Qed.

Section Build.
Context `{Qsort ch_ring_entry}.

(** The calls src/router.c makes for a cluster: [ch_new], then [ch_addnode] per
    server; [None] is an out-of-bounds write. *)
Definition ch_build (type : ch_type) (ss : list server) : option (option ch_ring) :=
  foldl (fun r s => ring ← r; ch_addnode ring s) (Some (ch_new true true type (Z.of_nat (length ss)))) ss.

(** The entries of all servers, before sorting. *)
Definition raw_entries (type : ch_type) (ss : list server) : list ch_ring_entry :=
  s ← ss; node_entries (mkRing type HASH_REPLICAS [] 0) s.

Lemma node_entries_ring type n l sz s :
  is_ring_type type = true ->
  node_entries (mkRing type HASH_REPLICAS l n) s = node_entries (mkRing type HASH_REPLICAS [] sz) s.
Proof. by destruct type. Qed.

Lemma length_node_entries type n l s :
  is_ring_type type = true -> length (node_entries (mkRing type HASH_REPLICAS l n) s) = 100%nat.
Proof. destruct type; intros; try done; simpl; by rewrite length_fmap. Qed.

Lemma length_raw_entries type ss :
  is_ring_type type = true -> length (raw_entries type ss) = (100 * length ss)%nat.
Proof.
  intros Ht. induction ss as [|s ss IH]; [done|]. unfold raw_entries in *.
  rewrite bind_cons, length_app, IH, length_node_entries by done. simpl. lia.
Qed.

Lemma ch_build_prefix type n placed todo :
  is_ring_type type = true -> (length placed + length todo = n)%nat -> todo <> [] ->
  foldl (fun r s => ring ← r; ch_addnode ring s)
    (Some (Some (mkRing type HASH_REPLICAS (raw_entries type placed) (100 * Z.of_nat n)))) todo
  = Some (Some (mkRing type HASH_REPLICAS
      (overwrite_dups (qsort (entrycmp type) (raw_entries type (placed ++ todo)))) (100 * Z.of_nat n))).
Proof.
  intros Ht. revert placed. induction todo as [|s todo IH]; intros placed Hn Hne; [done|].
  cbn [foldl mbind option_bind]. unfold ch_addnode at 2. cbn [r_type hash_replicas entrylist entrysize].
  rewrite (node_entries_ring type _ _ 0 s Ht).
  assert (raw_entries type placed ++ node_entries (mkRing type HASH_REPLICAS [] 0) s
    = raw_entries type (placed ++ [s])) as ->.
  { unfold raw_entries. rewrite bind_app. simpl. by rewrite app_nil_r. }
  pose proof (length_raw_entries type (placed ++ [s]) Ht) as Hl. rewrite length_app in Hl. simpl in Hl, Hn.
  destruct (Z.ltb_spec (100 * Z.of_nat n) (Z.of_nat (length (raw_entries type (placed ++ [s]))))); [lia|].
  destruct todo as [|s' todo].
  - simpl in *. destruct (Z.eqb_spec (Z.of_nat (length (raw_entries type (placed ++ [s])))) (100 * Z.of_nat n)); [done|lia].
  - destruct (Z.eqb_spec (Z.of_nat (length (raw_entries type (placed ++ [s])))) (100 * Z.of_nat n)); [simpl in *; lia|].
    rewrite IH by (rewrite ?length_app; simpl in *; lia || done). by rewrite <- (assoc_L app).
Qed.


(** A ring of type carbon_ch or fnv1a_ch, once built. *)
Definition built_ring (type : ch_type) (ss : list server) : ch_ring :=
  mkRing type HASH_REPLICAS (overwrite_dups (qsort (entrycmp type) (raw_entries type ss)))
    (100 * Z.of_nat (length ss)).

Lemma ch_build_eq type ss :
  is_ring_type type = true -> (0 < length ss <= 64)%nat -> ch_build type ss = Some (Some (built_ring type ss)).
Proof.
  intros Ht Hss. unfold ch_build, ch_new, CONN_DESTS_SIZE.
  destruct (Z.ltb_spec 64 (Z.of_nat (length ss))) as [Hlt|_]; [lia|].
  pose proof (ch_build_prefix type (length ss) [] ss Ht eq_refl) as Hb. cbn [negb].
  destruct type; [..|done]; apply Hb; (destruct ss; simpl in *; [lia|done]).
Qed.

Lemma entrycmp_preorder type : is_ring_type type = true -> total_preorder (entrycmp type).
Proof.
  intros Ht. destruct (entrycmp_ring type Ht) as [Hc _]. split; [|apply (cmp_trans _ Hc)]. intros x y. by apply is_cmp_total.
Qed.
Lemma ring_perm type l : is_ring_type type = true -> Permutation (qsort (entrycmp type) l) l.
Proof. intros Ht. by apply qsort_perm, entrycmp_preorder. Qed.
Lemma qsort_raw_sorted type ss :
  is_ring_type type = true ->
  StronglySorted (fun x y => entrycmp type x y <= 0) (qsort (entrycmp type) (raw_entries type ss)).
Proof.
  intros Ht. destruct (entrycmp_ring type Ht) as [Hc _]. apply Sorted_StronglySorted.
  - intros x y z. apply (cmp_trans _ Hc).
  - by apply qsort_sorted, entrycmp_preorder.
Qed.

Lemma built_ring_ok type ss :
  is_ring_type type = true -> ring_ok (entrylist (built_ring type ss)).
Proof.
  intros Ht. destruct (entrycmp_ring type Ht) as [_ Hpos]. apply overwrite_dups_ok.
  eapply Sorted_weaken; [exact Hpos|]. by apply StronglySorted_Sorted, qsort_raw_sorted.
Qed.

Lemma built_ring_length type ss :
  is_ring_type type = true -> length (entrylist (built_ring type ss)) = (100 * length ss)%nat.
Proof.
  intros Ht. rewrite <- (length_raw_entries type ss Ht), <- (length_fmap e_pos). cbn [built_ring entrylist].
  rewrite overwrite_dups_pos, length_fmap. by apply Permutation_length, ring_perm.
Qed.

Lemma raw_entries_server type ss e : e ∈ raw_entries type ss -> e_server e ∈ ss.
Proof.
  intros He. unfold raw_entries in He. apply list_elem_of_bind in He as (s & He & Hin).
  assert (e_server e = s) as ->; [|done].
  destruct type; simpl in He; try (by apply list_elem_of_fmap in He as (? & -> & _)).
  by apply list_elem_of_singleton in He as ->.
Qed.

Lemma built_ring_servers type ss s : is_ring_type type = true -> s ∈ e_server <$> entrylist (built_ring type ss) -> s ∈ ss.
Proof.
  intros Ht Hs%overwrite_dups_servers. rewrite ring_perm in Hs by done.
  apply list_elem_of_fmap in Hs as (e & -> & He). by apply (raw_entries_server type).
Qed.

(** The position of a metric on a searched ring. *)
Definition hashpos (type : ch_type) (key : cstring) : Z :=
  match type with CARBON => carbon_hashpos key | _ => fnv1a_hashpos key end.

Lemma ch_get_nodes_built type ss oob key replcnt fuel :
  is_ring_type type = true -> (0 < length ss)%nat -> (100 * length ss <= fuel)%nat ->
  0 <= replcnt <= Z.of_nat (length (uniq (e_server <$> entrylist (built_ring type ss)))) ->
  ch_get_nodes fuel oob (built_ring type ss) replcnt key =
  Some (take (Z.to_nat replcnt) (uniq (clockwise (entrylist (built_ring type ss)) (hashpos type key)))).
Proof.
  intros Ht Hss Hf Hr. pose proof (built_ring_length type ss Ht) as Hl.
  rewrite <- (ring_lookup_spec (built_ring type ss) oob (hashpos type key) replcnt fuel);
    [|by apply built_ring_ok|lia|done].
  by destruct type.
Qed.

(** ** Which server is first *)

(** The entry that decides the first server for [pos]: least by the comparator
    among those at or after [pos], or among all of them when there is none. *)
Definition least_from (cmp : ch_ring_entry -> ch_ring_entry -> Z) (l : list ch_ring_entry) (pos : Z)
    (m : ch_ring_entry) : Prop :=
  m ∈ l /\
  ((pos <= e_pos m /\ forall x, x ∈ l -> pos <= e_pos x -> cmp m x <= 0) \/
   ((forall x, x ∈ l -> e_pos x < pos) /\ forall x, x ∈ l -> cmp m x <= 0)).

Lemma overwrite_after_head pos prev l :
  e_pos prev < pos ->
  head (filter (fun e => pos <= e_pos e) (overwrite_after prev l)) = head (filter (fun e => pos <= e_pos e) l).
Proof.
  revert prev. induction l as [|e l IH]; intros prev Hp; [done|]. cbn [overwrite_after].
  destruct (decide (pos <= e_pos e)) as [Hle|Hgt].
  - destruct (Z.eqb_spec (e_pos prev) (e_pos e)); [lia|]. by rewrite !filter_cons_True.
  - rewrite (filter_cons_False _ _ l), filter_cons_False by (try done; by destruct (_ =? _)).
    apply IH. destruct (_ =? _); simpl; lia.
Qed.

Lemma overwrite_dups_head pos l :
  head (filter (fun e => pos <= e_pos e) (overwrite_dups l)) = head (filter (fun e => pos <= e_pos e) l).
Proof.
  destruct l as [|e l]; [done|]. cbn [overwrite_dups].
  destruct (decide (pos <= e_pos e)); [by rewrite !filter_cons_True|].
  rewrite !filter_cons_False by done. apply overwrite_after_head. lia.
Qed.

Lemma head_app {A} (l l' : list A) : head (l ++ l') = match head l with Some x => Some x | None => head l' end.
Proof. by destruct l. Qed.

Lemma filter_head_least cmp (P : ch_ring_entry -> Prop) `{!forall x, Decision (P x)} l m :
  is_cmp cmp -> StronglySorted (fun x y => cmp x y <= 0) l -> head (filter P l) = Some m ->
  m ∈ l /\ P m /\ forall x, x ∈ l -> P x -> cmp m x <= 0.
Proof.
  intros Hc Hs. induction Hs as [|a l Hs IH Ha]; [done|]. destruct (decide (P a)) as [HP|HP].
  - rewrite filter_cons_True by done. intros [= <-]. rewrite Forall_forall in Ha.
    split_and!; [set_solver|done|]. intros x Hx HPx. apply elem_of_cons in Hx as [->|Hx]; [|auto].
    pose proof (cmp_antisym _ Hc a a). lia.
  - rewrite filter_cons_False by done. intros (? & ? & Hm)%IH. split_and!; [set_solver|done|].
    intros x Hx HPx. apply elem_of_cons in Hx as [->|Hx]; [done|auto].
Qed.

Lemma clockwise_head cmp l pos :
  is_cmp cmp -> StronglySorted (fun x y => cmp x y <= 0) l -> l <> [] ->
  exists m, head (uniq (clockwise (overwrite_dups l) pos)) = Some (e_server m) /\ least_from cmp l pos m.
Proof.
  intros Hc Hs Hl.
  assert (forall m, head (filter (fun e => pos <= e_pos e) (overwrite_dups l) ++
    filter (fun e => ~ pos <= e_pos e) (overwrite_dups l)) = Some m ->
    head (uniq (clockwise (overwrite_dups l) pos)) = Some (e_server m)) as Hhd.
  { intros m Hm. unfold clockwise. destruct (_ ++ _) as [|x k] eqn:E; [done|]. injection Hm as ->.
    unfold uniq. cbn [fmap list_fmap foldl].
    change (add_new [] (e_server m)) with [e_server m].
    destruct (add_new_prefix (e_server <$> k) [e_server m]) as [z Hz]. by rewrite Hz. }
  destruct (head (filter (fun e => pos <= e_pos e) l)) as [m|] eqn:E.
  - exists m. split; [apply Hhd; by rewrite head_app, overwrite_dups_head, E|].
    destruct (filter_head_least _ _ _ _ Hc Hs E) as (? & ? & ?). split; [done|]. left. eauto.
  - assert (forall x, x ∈ l -> e_pos x < pos) as Hall.
    { intros x Hx. destruct (Z.lt_ge_cases (e_pos x) pos); [done|].
      assert (x ∈ filter (fun e => pos <= e_pos e) l) as Hf by (by apply list_elem_of_filter).
      destruct (filter _ l); [set_solver|done]. }
    destruct l as [|m l]; [done|]. exists m. split.
    + apply Hhd. rewrite head_app, overwrite_dups_head, E. cbn [overwrite_dups].
      rewrite filter_cons_True; [done|]. specialize (Hall m ltac:(set_solver)). lia.
    + split; [set_solver|]. right. split; [done|]. intros x Hx.
      apply (filter_head_least cmp (fun _ => True) (m :: l) m Hc Hs); done.
Qed.

(** [least_from] under more entries: the old decision, or one of the new entries. *)
Lemma least_from_extend cmp l l' pos m m' :
  (forall x y, x ∈ l -> y ∈ l -> cmp x y = 0 -> e_server x = e_server y) -> is_cmp cmp -> l <> [] ->
  least_from cmp l pos m -> least_from cmp (l ++ l') pos m' ->
  e_server m' = e_server m \/ m' ∈ l'.
Proof.
  intros Hinj Hc Hl [Hm Hlm] [Hm' Hlm']. apply elem_of_app in Hm' as [Hm'|?]; [|by right]. left.
  apply Hinj; [done..|]. pose proof (cmp_antisym _ Hc m m') as Ha.
  assert (m ∈ l ++ l' /\ m' ∈ l ++ l') as [? ?] by set_solver.
  destruct Hlm as [[? Hlm]|[Hall Hlm]], Hlm' as [[? Hlm']|[Hall' Hlm']].
  - pose proof (Hlm m' ltac:(done) ltac:(done)). pose proof (Hlm' m ltac:(done) ltac:(done)). lia.
  - specialize (Hall' m ltac:(done)). lia.
  - specialize (Hall m' ltac:(done)). lia.
  - pose proof (Hlm m' ltac:(done)). pose proof (Hlm' m ltac:(done)). lia.
Qed.

(** No two servers compare as equal, as in a sane cluster. *)
Definition distinguishable (type : ch_type) (ss : list server) : Prop :=
  forall a b, a ∈ ss -> b ∈ ss -> entrycmp type (mkEntry 0 a) (mkEntry 0 b) = 0 -> a = b.

Lemma distinguishable_entries type ss x y :
  is_ring_type type = true -> distinguishable type ss ->
  x ∈ raw_entries type ss -> y ∈ raw_entries type ss -> entrycmp type x y = 0 -> e_server x = e_server y.
Proof.
  intros Ht Hd Hx%raw_entries_server Hy%raw_entries_server E. apply Hd; [done..|].
  destruct type; [..|done]; revert E; cbn [entrycmp]; unfold entrycmp_carbon, entrycmp_fnv1a;
    cbn [e_pos e_server]; destruct (Z.eqb_spec (e_pos x) (e_pos y)); simpl; lia || done.
Qed.

(** The first server of a lookup. *)
Lemma built_ring_first type ss oob key fuel :
  is_ring_type type = true -> (0 < length ss)%nat -> (100 * length ss <= fuel)%nat ->
  exists m, ch_get_nodes fuel oob (built_ring type ss) 1 key = Some [e_server m] /\
    least_from (entrycmp type) (raw_entries type ss) (hashpos type key) m.
Proof.
  intros Ht Hss Hf. pose proof (length_raw_entries type ss Ht) as Hraw.
  assert (raw_entries type ss <> []) as Hne by (intros E; rewrite E in Hraw; simpl in Hraw; lia).
  destruct (clockwise_head (entrycmp type) (qsort (entrycmp type) (raw_entries type ss)) (hashpos type key))
    as (m & Hm & Hleast).
  { by apply entrycmp_ring. } { by apply qsort_raw_sorted. }
  { intros E. apply (f_equal length) in E. rewrite (Permutation_length (ring_perm _ _ Ht)) in E.
    simpl in E. by destruct (raw_entries type ss). }
  exists m. split.
  - rewrite ch_get_nodes_built; [|done..|].
    + cbn [built_ring entrylist]. destruct (uniq (clockwise _ _)) as [|a l]; [done|].
      injection Hm as ->. done.
    + split; [lia|].
      rewrite <- (uniq_length (clockwise (entrylist (built_ring type ss)) (hashpos type key))).
      * cbn [built_ring entrylist]. destruct (uniq (clockwise _ _)); simpl in *; [done|lia].
      * intros x. apply elem_of_clockwise.
  - destruct Hleast as [Hin Hl]. setoid_rewrite (ring_perm _ _ Ht) in Hin. split; [done|].
    setoid_rewrite (ring_perm type (raw_entries type ss) Ht) in Hl. done.
Qed.

End Build.

(** ** The jump loop *)

(** Taking a bucket out and moving the last one into its place. *)
Lemma swap_remove_perm (l : list server) i j s last :
  length l = S i -> l !! j = Some s -> l !! i = Some last ->
  Permutation l (s :: take i (<[j := last]> l)) /\ length (take i (<[j := last]> l)) = i.
Proof.
  intros Hl Hs Hlast. pose proof (lookup_lt_Some _ _ _ Hs).
  split; [|rewrite length_take, length_insert; lia].
  assert (l = take i l ++ [last]) as E.
  { rewrite <- (take_S_r l i last Hlast). by rewrite take_ge by lia. }
  destruct (decide (j = i)) as [->|Hne].
  - assert (last = s) as -> by congruence. rewrite take_insert_ge by lia.
    rewrite E at 1. by rewrite Permutation_app_comm.
  - rewrite take_insert_lt by lia.
    assert (take i l !! j = Some s) as Hj by (rewrite lookup_take_lt; [done|lia]).
    rewrite E at 1. rewrite Permutation_app_comm. cbn [app].
    rewrite <- (take_drop_middle _ _ _ Hj) at 1. rewrite insert_take_drop by (rewrite length_take; lia).
    rewrite <- !Permutation_middle. apply perm_swap.
Qed.

Lemma jump_nodes_spec i bck hash pos ret :
  length bck = i -> Z.of_nat i <= 2 ^ 31 -> 1 <= pos < 65536 ->
  exists out, jump_nodes i bck hash pos ret = Some (ret ++ out) /\
    out ⊆+ bck /\ length out = Nat.min (Z.to_nat pos) i.
Proof.
  revert bck hash pos ret. induction i as [|i IH]; intros bck hash pos ret Hl Hi Hp.
  { exists []. rewrite app_nil_r. split_and!; [done|apply submseteq_nil_l|simpl; lia]. }
  cbn [jump_nodes].
  destruct (jump_bucketpos_total hash (Z.of_nat (S i)) ltac:(lia)) as (j & -> & Hj).
  destruct (lookup_lt_is_Some_2 bck (Z.to_nat j)) as [s Hs]; [lia|].
  destruct (lookup_lt_is_Some_2 bck i) as [last Hlast]; [lia|].
  cbn [mbind option_bind]. rewrite Hs, Hlast. cbn [mbind option_bind].
  destruct (swap_remove_perm bck i (Z.to_nat j) s last Hl Hs Hlast) as [Hperm Hlen].
  replace (u16 (pos - 1)) with (pos - 1) by (unfold u16; rewrite Z.mod_small; lia).
  destruct (Z.eqb_spec (pos - 1) 0) as [Hz|Hz].
  - exists [s]. split_and!; [done| |simpl; lia]. rewrite Hperm.
    apply submseteq_skip, submseteq_nil_l.
  - destruct (IH (take i (<[Z.to_nat j := last]> bck)) (xorshift hash) (pos - 1) (ret ++ [s]))
      as (out & E & Hsub & Hout); [done|lia..|].
    exists (s :: out). split_and!.
    + rewrite E. by rewrite <- (assoc_L app).
    + rewrite Hperm. by apply submseteq_skip.
    + simpl. rewrite Hout. lia.
Qed.

End Ring.

Arguments ch_ring_entry : clear implicits.
Arguments ch_ring : clear implicits.

(** ** A concrete server and sort, for evaluating the theorems *)

Record addr := mkAddr { a_ip : cstring; a_port : Z; a_instance : option cstring }.
#[export] Instance addr_eq_dec : EqDecision addr.
Proof. solve_decision. Defined.
#[export] Instance addr_info : ServerInfo addr :=
  {| server_ip := a_ip; server_port := a_port; server_instance := a_instance |}.

Fixpoint insert_by {A} (cmp : A -> A -> Z) (x : A) (l : list A) : list A :=
  match l with
  | [] => [x]
  | y :: l' => if cmp x y <=? 0 then x :: l else y :: insert_by cmp x l'
  end.
Definition isort {A} (cmp : A -> A -> Z) (l : list A) : list A := foldr (insert_by cmp) [] l.

Lemma insert_by_perm {A} (cmp : A -> A -> Z) x l : Permutation (insert_by cmp x l) (x :: l).
Proof.
  induction l as [|y l IH]; [done|]. simpl. destruct (cmp x y <=? 0); [done|].
  rewrite IH. apply perm_swap.
Qed.
Lemma isort_perm {A} (cmp : A -> A -> Z) l : Permutation (isort cmp l) l.
Proof. induction l as [|x l IH]; [done|]. simpl. by rewrite insert_by_perm, IH. Qed.
Lemma insert_by_sorted {A} (cmp : A -> A -> Z) x l :
  (forall x y, cmp x y <= 0 \/ cmp y x <= 0) ->
  Sorted (fun x y => cmp x y <= 0) l -> Sorted (fun x y => cmp x y <= 0) (insert_by cmp x l).
Proof.
  intros Ht Hs. induction Hs as [|y k Hk IHk Hhd]; simpl; [by repeat constructor|].
  destruct (Z.leb_spec (cmp x y) 0); [by repeat constructor|]. constructor; [done|].
  destruct (Ht x y); [lia|].
  destruct Hhd as [|z k Hyz]; simpl; [by constructor|]. by destruct (cmp x z <=? 0); constructor.
Qed.
Lemma isort_sorted {A} (cmp : A -> A -> Z) l :
  (forall x y, cmp x y <= 0 \/ cmp y x <= 0) ->
  (forall x y z, cmp x y <= 0 -> cmp y z <= 0 -> cmp x z <= 0) ->
  Sorted (fun x y => cmp x y <= 0) (isort cmp l).
Proof. intros Ht _. induction l as [|x l IH]; [constructor|]. by apply insert_by_sorted. Qed.
Definition isort_qsort {A} : Qsort A :=
  {| qsort := isort; qsort_perm := fun cmp l _ => isort_perm cmp l; qsort_sorted := fun cmp l H => isort_sorted cmp l (proj1 H) (proj2 H) |}.

Definition demo_servers : list addr :=
  [mkAddr (lit "10.0.0.1") 2003 None; mkAddr (lit "10.0.0.2") 2003 None; mkAddr (lit "10.0.0.3") 2003 (Some (lit "a"))].

(** ** Properties *)

(** C5: A carbon_ch or fnv1a_ch ring built from 1 to 64 servers answers every
    lookup with the consistent-hashing answer: the first [replcnt] distinct
    servers clockwise from the metric's position, wrapping around; they are
    servers of the cluster, without repetition, and the loops end within one pass
    over the ring.  The answer does not depend on the entry past the end of the
    array that the binary search reads ([oob]). *)
Theorem ch_get_nodes_clockwise {server : Type} `{EqDecision server} `{ServerInfo server}
    `{Qsort (ch_ring_entry server)} (type : ch_type) (ss : list server) :
  type <> JUMP_FNV1a -> (0 < length ss <= 64)%nat ->
  exists ring, ch_build type ss = Some (Some ring) /\
  forall oob key replcnt fuel,
    0 <= replcnt <= Z.of_nat (length (uniq (e_server <$> entrylist ring))) ->
    (100 * length ss <= fuel)%nat ->
    exists nodes, ch_get_nodes fuel oob ring replcnt key = Some nodes /\
      nodes = take (Z.to_nat replcnt) (uniq (clockwise (entrylist ring) (hashpos type key))) /\
      Z.of_nat (length nodes) = replcnt /\ NoDup nodes /\ (forall s, s ∈ nodes -> s ∈ ss).
Proof.
  intros Ht Hss. assert (is_ring_type type = true) as Ht' by (by destruct type).
  exists (built_ring type ss). split; [by apply ch_build_eq|]. intros oob key replcnt fuel Hr Hf.
  eexists. split; [apply ch_get_nodes_built; [done|lia|done..]|]. split; [done|].
  set (cw := clockwise _ _).
  assert (forall x, x ∈ cw <-> x ∈ e_server <$> entrylist (built_ring type ss)) as Hcw
    by (intros x; apply elem_of_clockwise).
  split_and!.
  - rewrite length_take, (uniq_length cw (e_server <$> entrylist (built_ring type ss)) Hcw). lia.
  - eapply sublist_NoDup; [|apply sublist_take]. apply add_new_NoDup, NoDup_nil_2.
  - intros s Hs. apply elem_of_take_lookup in Hs as (k & _ & Hs%list_elem_of_lookup_2).
    apply elem_of_add_new in Hs as [?|Hs]; [set_solver|]. by apply (built_ring_servers type), Hcw.
Qed.

Lemma ch_get_nodes_clockwise_witness :
  exists ring, ch_build (server := addr) (H1 := isort_qsort) FNV1a demo_servers = Some (Some ring) /\
    forall oob, exists nodes, ch_get_nodes 300 oob ring 2 (lit "sys.cpu.load") = Some nodes /\
      Z.of_nat (length nodes) = 2 /\ NoDup nodes.
Proof.
  destruct (ch_get_nodes_clockwise (H1 := isort_qsort) FNV1a demo_servers) as (ring & E & Hall);
    [discriminate|vm_compute; lia|].
  exists ring. split; [exact E|]. intros oob.
  destruct (Hall oob (lit "sys.cpu.load") 2 300%nat) as (nodes & ? & _ & ? & ? & _).
  - assert (Some (Some ring) = ch_build (H1 := isort_qsort) FNV1a demo_servers) as E' by done.
    rewrite ch_build_eq in E' by (reflexivity || (vm_compute; lia)). injection E' as ->.
    vm_compute. split; discriminate.
  - vm_compute. lia.
  - eauto.
Defined.

(** C6: Consistency of the rings: when a server is added to a cluster whose
    servers are distinguishable, the server a metric goes to stays the same or
    becomes the new one; no metric moves between old servers. *)
Theorem ring_consistent {server : Type} `{EqDecision server} `{ServerInfo server}
    `{Qsort (ch_ring_entry server)} (type : ch_type) (ss : list server) (s : server)
    (oob : Z) (key : cstring) (fuel : nat) :
  type <> JUMP_FNV1a -> (0 < length ss < 64)%nat -> distinguishable type ss ->
  (100 * (length ss + 1) <= fuel)%nat ->
  exists ring ring' a b,
    ch_build type ss = Some (Some ring) /\ ch_build type (ss ++ [s]) = Some (Some ring') /\
    ch_get_nodes fuel oob ring 1 key = Some [a] /\ ch_get_nodes fuel oob ring' 1 key = Some [b] /\
    a ∈ ss /\ (b = a \/ b = s).
Proof.
  intros Ht Hss Hd Hf. assert (is_ring_type type = true) as Ht' by (by destruct type).
  destruct (built_ring_first type ss oob key fuel Ht') as (m & Em & Hm); [lia..|].
  destruct (built_ring_first type (ss ++ [s]) oob key fuel Ht') as (m' & Em' & Hm'); [rewrite length_app; simpl; lia..|].
  exists (built_ring type ss), (built_ring type (ss ++ [s])), (e_server m), (e_server m').
  rewrite !ch_build_eq by (rewrite ?length_app; simpl; lia || done).
  split_and!; try done.
  - apply (raw_entries_server type), (proj1 Hm).
  - unfold raw_entries in Hm'. rewrite bind_app in Hm'.
    destruct (least_from_extend (entrycmp type) (raw_entries type ss) _ _ _ _
      (fun x y Hx Hy => distinguishable_entries type ss x y Ht' Hd Hx Hy)
      (proj1 (entrycmp_ring type Ht')) ltac:(pose proof (length_raw_entries type ss Ht') as Hl;
        intros E; rewrite E in Hl; simpl in Hl; lia) Hm Hm') as [E|E]; [by left|right].
    apply (raw_entries_server type [s]) in E. by apply list_elem_of_singleton in E.
Qed.

Lemma ring_consistent_witness :
  exists ring ring' a b,
    ch_build (H1 := isort_qsort) FNV1a demo_servers = Some (Some ring) /\
    ch_build (H1 := isort_qsort) FNV1a (demo_servers ++ [mkAddr (lit "10.0.0.4") 2003 None]) = Some (Some ring') /\
    ch_get_nodes 400 0 ring 1 (lit "sys.cpu.load") = Some [a] /\
    ch_get_nodes 400 0 ring' 1 (lit "sys.cpu.load") = Some [b] /\
    a ∈ demo_servers /\ (b = a \/ b = mkAddr (lit "10.0.0.4") 2003 None).
Proof.
  apply (ring_consistent (H1 := isort_qsort) FNV1a demo_servers (mkAddr (lit "10.0.0.4") 2003 None) 0
    (lit "sys.cpu.load") 400%nat); [discriminate|vm_compute; lia| |vm_compute; lia].
  intros a b Ha Hb. unfold demo_servers in Ha, Hb.
  repeat (apply elem_of_cons in Ha as [->|Ha]); [..|by apply not_elem_of_nil in Ha];
    repeat (apply elem_of_cons in Hb as [->|Hb]); try (by apply not_elem_of_nil in Hb);
    vm_compute; (reflexivity || discriminate).
Defined.

(** A lookup never returns when the ring has fewer distinct servers than the
    replication factor asks for: the fetch loop has no other exit.  Such a ring
    is accepted by the parser's check, which counts the servers listed, also
    when one server is listed twice. *)
Theorem ch_get_nodes_diverges {server : Type} `{EqDecision server} `{ServerInfo server}
    (ring : ch_ring server) (oob replcnt : Z) (key : cstring) (fuel : nat) :
  r_type ring <> JUMP_FNV1a ->
  Z.of_nat (length (uniq (e_server <$> entrylist ring))) < replcnt ->
  ch_get_nodes fuel oob ring replcnt key = None.
Proof.
  intros Ht Hlt. unfold ch_get_nodes. destruct (r_type ring); [..|done];
    (destruct (ch_search _ _ _ _ _); cbn [mbind option_bind]; [|done]);
    apply ch_walk_diverges; auto using NoDup_nil_2; set_solver.
Qed.

Lemma ch_get_nodes_diverges_witness :
  let a := mkAddr (lit "10.0.0.1") 2003 None in
  ch_build (H1 := isort_qsort) FNV1a [a; a] = Some (Some (built_ring (H1 := isort_qsort) FNV1a [a; a])) /\
  ch_get_nodes 1000 0 (built_ring (H1 := isort_qsort) FNV1a [a; a]) 2 (lit "sys.cpu.load") = None.
Proof.
  split.
  - apply ch_build_eq; [reflexivity|simpl; lia].
  - apply ch_get_nodes_diverges; [discriminate|]. vm_compute. reflexivity.
Defined.

(** On a jump_fnv1a_ch ring a lookup always returns, with [replcnt] servers or
    all of them when there are fewer, each ring entry used at most once. *)
Theorem ch_get_nodes_jump {server : Type} `{EqDecision server} `{ServerInfo server}
    (ring : ch_ring server) (oob replcnt : Z) (key : cstring) (fuel : nat) :
  r_type ring = JUMP_FNV1a -> 1 <= replcnt <= 127 -> entrycnt ring <= 2 ^ 31 ->
  exists nodes, ch_get_nodes fuel oob ring replcnt key = Some nodes /\
    nodes ⊆+ e_server <$> entrylist ring /\ Z.of_nat (length nodes) = Z.min replcnt (entrycnt ring).
Proof.
  intros Ht Hr Hn. unfold ch_get_nodes. rewrite Ht. unfold entrycnt in *.
  destruct (jump_nodes_spec (length (entrylist ring)) (e_server <$> entrylist ring) (fnv1a_64 key)
    (u16 replcnt) []) as (out & E & Hsub & Hlen).
  - by rewrite length_fmap.
  - done.
  - unfold u16. rewrite Z.mod_small; lia.
  - exists out. split_and!; [done..|]. rewrite Hlen. unfold u16. rewrite Z.mod_small by lia. lia.
Qed.

Lemma ch_get_nodes_jump_witness :
  let ring := mkRing JUMP_FNV1a 1 (imap (fun i a => mkEntry (Z.of_nat i) a) demo_servers) 3 in
  exists nodes, ch_get_nodes 0 0 ring 2 (lit "sys.cpu.load") = Some nodes /\
    nodes ⊆+ e_server <$> entrylist ring /\ Z.of_nat (length nodes) = 2.
Proof.
  apply (ch_get_nodes_jump (mkRing JUMP_FNV1a 1 (imap (fun i a => mkEntry (Z.of_nat i) a) demo_servers) 3)
    0 2 (lit "sys.cpu.load") 0); [reflexivity|lia|]. vm_compute. discriminate.
Defined.

(** The comparator of jump_fnv1a_ch rings is not an order: it compares two
    numeric instances as numbers and others as strings, so "2" < "10" < "1a" < "2"
    and the order [qsort] gives such a cluster is unspecified. *)
Theorem entrycmp_jump_cycle :
  let e i := mkEntry 0 (mkAddr (lit "10.0.0.1") 2003 (Some i)) in
  entrycmp_jump_fnv1a (e (lit "2")) (e (lit "10")) < 0 /\
  entrycmp_jump_fnv1a (e (lit "10")) (e (lit "1a")) < 0 /\
  entrycmp_jump_fnv1a (e (lit "1a")) (e (lit "2")) < 0.
Proof. vm_compute. done. Qed.
