(* ===== verification/Double.v ===== *)
(** * Doubles (the C type [double], for src/aggregator.c)

    IEEE 754 binary64 numbers are the [spec_float]s of the Standard Library at
    precision 53 and exponent 1024, rounded to nearest even.  The library functions
    the aggregator uses are here: [atof], [%f] of [printf], [sqrt], [pow(x, 2)]
    (taken to be correctly rounded) and the conversions from and to integers. *)
From Stdlib Require Import SpecFloat.
From S2P Require Import Prelude JumpHash.
#[local] Open Scope Z_scope.

Definition double := spec_float.
#[export] Instance double_eq_dec : EqDecision double.
Proof. solve_decision. Defined.

Definition dadd : double -> double -> double := SFadd 53 1024.
Definition dsub : double -> double -> double := SFsub 53 1024.
Definition dmul : double -> double -> double := SFmul 53 1024.
Definition ddiv : double -> double -> double := SFdiv 53 1024.
Definition dsqrt : double -> double := SFsqrt 53 1024.
Definition dltb : double -> double -> bool := SFltb.
Definition dsquare (x : double) : double := dmul x x.

(** [(double)n] *)
Definition double_of_Z (n : Z) : double := binary_normalize 53 1024 n 0 false.

(** [m * 10 ^ k], rounded once; [m] is not negative. *)
Definition decimal (neg : bool) (m k : Z) : double :=
  match m with
  | Zpos _ =>
      if 0 <=? k then binary_normalize 53 1024 (if neg then - (m * 10 ^ k) else m * 10 ^ k) 0 neg
      else let '(q, e, l) := SFdiv_core_binary 53 1024 m 0 (10 ^ (- k)) 0 in binary_round_aux 53 1024 neg q e l
  | _ => S754_zero neg
  end.

(** [(int)x]: toward zero; outside the range of [int] the value is undefined in C, and
    the least [int] on x86. *)
Definition int_of_double (x : double) : Z :=
  match x with
  | S754_finite s m e =>
      let n := if 0 <=? e then Z.pos m * 2 ^ e else Z.pos m / 2 ^ (- e) in
      let n := if s : bool then - n else n in
      if (- 2 ^ 31 <=? n) && (n <? 2 ^ 31) then n else - 2 ^ 31
  | S754_zero _ => 0
  | _ => - 2 ^ 31
  end.

(** ** [atof] *)

(** The longest prefix whose characters satisfy [p], and the rest. *)
Fixpoint span (p : cchar -> bool) (s : cstring) : cstring * cstring :=
  match s with
  | c :: s' => if p c then let '(a, b) := span p s' in (c :: a, b) else ([], s)
  | [] => ([], [])
  end.

Definition is_xdigit (c : cchar) : bool := is_digit c || ((97 <=? tolower c) && (tolower c <=? 102)).
Definition xdigit (c : cchar) : Z := if is_digit c then c - 48 else tolower c - 87.
Definition number (base : Z) (ds : cstring) : Z := foldl (fun n c => n * base + xdigit c) 0 ds.

(** A sign, if there is one. *)
Definition sign (s : cstring) : bool * cstring :=
  match s with
  | c :: s' => if c =? ch "-" then (true, s') else if c =? ch "+" then (false, s') else (false, s)
  | [] => (false, s)
  end.

(** An exponent introduced by [mark], else 0. *)
Definition exponent (mark : cchar) (s : cstring) : Z :=
  match s with
  | c :: s' =>
      if tolower c =? mark then
        let '(neg, t) := sign s' in let n := number 10 (span is_digit t).1 in if neg : bool then - n else n
      else 0
  | [] => 0
  end.

(** Digits before and after the point, and the rest. *)
Definition mantissa (p : cchar -> bool) (s : cstring) : cstring * cstring * cstring :=
  let '(i, r) := span p s in
  match r with
  | c :: r' => if c =? ch "." then let '(f, r) := span p r' in (i, f, r) else (i, [], r)
  | [] => (i, [], r)
  end.

Definition parse_decimal (neg : bool) (s : cstring) : double :=
  let '(i, f, r) := mantissa is_digit s in
  if bool_decide (i ++ f = []) then S754_zero false
  else decimal neg (number 10 (i ++ f)) (exponent (ch "e") r - Z.of_nat (length f)).

Definition parse_hex (neg : bool) (s : cstring) : double :=
  let '(i, f, r) := mantissa is_xdigit s in
  if bool_decide (i ++ f = []) then S754_zero neg
  else
    let n := number 16 (i ++ f) in
    binary_normalize 53 1024 (if neg then - n else n) (exponent (ch "p") r - 4 * Z.of_nat (length f)) neg.

(** Does [s] start with [t], in lower case? *)
Definition starts (t s : cstring) : bool := bool_decide (tolower <$> take (length t) s = t).

Definition atof (s : cstring) : double :=
  let '(neg, t) := sign (span is_space s).2 in
  if starts (lit "inf") t then S754_infinity neg
  else if starts (lit "nan") t then S754_nan
  else if starts (lit "0x") t then parse_hex neg (drop 2 t)
  else parse_decimal neg t.

(** ** [%f] *)

Definition pad6 (n : Z) : cstring := let s := show_nonneg n in replicate (6 - length s) (ch "0") ++ s.

(** Six decimals, rounded to nearest even. *)
Definition show_f (x : double) : cstring :=
  match x with
  | S754_nan => lit "nan"
  | S754_infinity s => (if s : bool then lit "-" else []) ++ lit "inf"
  | S754_zero s => (if s : bool then lit "-" else []) ++ lit "0.000000"
  | S754_finite s m e =>
      let n := if 0 <=? e then Z.pos m * 2 ^ e * 10 ^ 6 else round_ne (Z.pos m * 10 ^ 6) (2 ^ (- e)) in
      (if s : bool then lit "-" else []) ++ show_nonneg (n / 10 ^ 6) ++ lit "." ++ pad6 (n mod 10 ^ 6)
  end.

Example atof_tenth : atof (lit " 0.1 x") = S754_finite false 7205759403792794 (-56).
Proof. vm_compute. done. Qed.
Example show_sum : show_f (dadd (atof (lit "-1.5e2")) (atof (lit "0x1p-3"))) = lit "-149.875000".
Proof. vm_compute. done. Qed.
Example show_rounded :
  show_f <$> [atof (lit "2.0000005"); atof (lit "2.5e-7"); atof (lit "1e22"); atof (lit "-0.0000001"); ddiv (atof (lit "1")) (atof (lit "3"))] =
  [lit "2.000001"; lit "0.000000"; lit "10000000000000000000000.000000"; lit "-0.000000"; lit "0.333333"].
Proof. vm_compute. done. Qed.

(** ** Ordering *)

Definition is_nan (x : double) : bool := match x with S754_nan => true | _ => false end.

(** Is [x] at least [y]? *)
Definition dge (x y : double) : Prop := dltb x y = false.

Lemma dge_trans x y z : is_nan x = false -> is_nan y = false -> is_nan z = false -> dge x y -> dge y z -> dge x z.
Proof.
  unfold dge, dltb, SFltb, SFcompare. intros Hx Hy Hz.
  destruct x as [sx|sx| |sx mx ex], y as [sy|sy| |sy my ey], z as [sz|sz| |sz mz ez]; try done; clear Hx Hy Hz;
    repeat match goal with b : bool |- _ => destruct b end; try done.
  all: change (Pos.compare_cont Eq) with Pos.compare;
    destruct (Z.compare_spec ex ey), (Z.compare_spec ey ez), (Z.compare_spec ex ez); try done; try lia;
    destruct (Pos.compare_spec mx my), (Pos.compare_spec my mz), (Pos.compare_spec mx mz); cbn; try done; lia.
Qed.

Lemma dge_refl x : dge x x.
Proof.
  unfold dge, dltb, SFltb, SFcompare. destruct x as [[]|[]| |[] m e]; try done; rewrite Z.compare_refl;
    change (Pos.compare_cont Eq) with Pos.compare; by rewrite Pos.compare_refl.
Qed.

Lemma dltb_dge x y : dltb x y = true -> dge y x.
Proof.
  unfold dge, dltb, SFltb, SFcompare. destruct x as [[]|[]| |[] mx ex], y as [[]|[]| |[] my ey]; try done;
    change (Pos.compare_cont Eq) with Pos.compare; rewrite (Z.compare_antisym ex ey), (Pos.compare_antisym mx my);
    destruct (ex ?= ey), (mx ?= my)%positive; done.
Qed.
