(* ===== verification/Allocator.v ===== *)
(** * The region allocator (src/allocator.c)

    The router's configuration lives in regions from which [ra_malloc] hands out
    pieces and which [ra_free] returns at once.  A region is its size and the
    offset of [nextp]; a pointer is a region's index and an offset in it.  The
    outcomes of the successive calls of [malloc] are an argument, consumed in
    order. *)
From S2P Require Import Prelude.
#[local] Open Scope Z_scope.

Record region := mkRegion { ra_sz : Z; ra_off : Z }.

(** The size [ra_alloc] asks for, in [size_t]. *)
Definition ra_alloc_size (sz : Z) : Z :=
  let nsz := 256 * 1024 in
  if nsz <? sz then u64 (u64 (sz / 1024 + 1) * 1024) else nsz.

(** [ra_alloc]: [malloc] of the struct, then of the region. *)
Definition ra_alloc (mallocs : list bool) (sz : Z) : option (list bool * option region) :=
  match mallocs with
  | [] => None
  | false :: m => Some (m, None)
  | true :: [] => None
  | true :: false :: m => Some (m, None)
  | true :: true :: m => Some (m, Some (mkRegion (ra_alloc_size sz) 0))
  end.

Definition ra_new (mallocs : list bool) : option (list bool * option (list region)) :=
  match ra_alloc mallocs 0 with
  | None => None
  | Some (m, None) => Some (m, None)
  | Some (m, Some r) => Some (m, Some [r])
  end.

(** The size [nextp] moves by. *)
Definition ra_aligned (sz : Z) : Z :=
  let nsz := sz mod 8 in if negb (nsz =? 0) then u64 (sz + (8 - nsz)) else sz.

(** Does [sz] fit what is left of a region? *)
Definition ra_fits (r : region) (sz : Z) : bool := sz <=? u64 (ra_sz r - ra_off r).

(** [ra_malloc]: the first region with room, or a new one at the end.  The result
    is [None] while outcomes of [malloc] are missing, and else the rest of them, the
    regions and the pointer, [NULL] being [None]. *)
Fixpoint ra_grow (mallocs : list bool) (idx : nat) (sz : Z) : option (list bool * list region * option (nat * Z)) :=
  match mallocs with
  | [] => None
  | false :: m => Some (m, [], None)
  | true :: [] => None
  | true :: false :: m => Some (m, [], None)
  | true :: true :: m =>
      let r := mkRegion (ra_alloc_size sz) 0 in
      if ra_fits r sz then Some (m, [mkRegion (ra_sz r) (ra_off r + ra_aligned sz)], Some (idx, ra_off r))
      else '(m, rs, p) ← ra_grow m (S idx) sz; Some (m, r :: rs, p)
  end.

Fixpoint ra_walk (mallocs : list bool) (idx : nat) (rs : list region) (sz : Z) :
    option (list bool * list region * option (nat * Z)) :=
  match rs with
  | [] => ra_grow mallocs idx sz
  | r :: rs' =>
      if ra_fits r sz then
        Some (mallocs, mkRegion (ra_sz r) (ra_off r + ra_aligned sz) :: rs', Some (idx, ra_off r))
      else '(m, rs', p) ← ra_walk mallocs (S idx) rs' sz; Some (m, r :: rs', p)
  end.

Definition ra_malloc (mallocs : list bool) (ra : list region) (sz : Z) :
    option (list bool * list region * option (nat * Z)) :=
  match ra with [] => Some (mallocs, [], None) | _ => ra_walk mallocs 0 ra sz end.

(** [ra_strdup] copies the string and its terminator to a fresh piece: the bytes it
    stores, with the pointer. *)
Definition ra_strdup (mallocs : list bool) (ra : list region) (s : cstring) :
    option (list bool * list region * option (nat * Z * list Z)) :=
  match ra_malloc mallocs ra (Z.of_nat (length s) + 1) with
  | None => None
  | Some (m, ra, None) => Some (m, ra, None)
  | Some (m, ra, Some p) => Some (m, ra, Some (p, s ++ [NUL]))
  end.

(** [ra_free]: how many [free]s it makes. *)
Definition ra_free (ra : list region) : nat := (2 * length ra)%nat.

(** A sequence of requests, with the pieces they got. *)
Fixpoint ra_run (mallocs : list bool) (ra : list region) (reqs : list Z) :
    option (list region * list (option (nat * Z))) :=
  match reqs with
  | [] => Some (ra, [])
  | sz :: reqs' =>
      '(m, ra, p) ← ra_malloc mallocs ra sz;
      '(ra, ps) ← ra_run m ra reqs';
      Some (ra, p :: ps)
  end.

(** ** Invariant *)

(** A piece: its region, where it starts and its size. *)
Abbreviation piece := (nat * Z * Z)%type (only parsing).

Definition region_ok (r : region) : Prop :=
  0 <= ra_off r <= ra_sz r /\ ra_sz r < 2 ^ 64 /\ ra_sz r mod 8 = 0 /\ ra_off r mod 8 = 0.

(** A piece given out is below [nextp] of its region, at an aligned offset. *)
Definition piece_ok (ra : list region) (p : piece) : Prop :=
  let '(i, off, sz) := p in
  exists r, ra !! i = Some r /\ 0 <= off /\ off mod 8 = 0 /\ off + sz <= ra_off r.

Definition disjoint (p q : piece) : Prop :=
  let '(i, off, sz) := p in let '(i', off', sz') := q in
  i <> i' \/ off + sz <= off' \/ off' + sz' <= off.

(** From one state to a later one: regions stay and [nextp] only moves up. *)
Definition extends (ra ra' : list region) : Prop :=
  forall i r, ra !! i = Some r -> exists r', ra' !! i = Some r' /\ ra_off r <= ra_off r'.

(** What a request adds to the state. *)
Record gives (ra ra' : list region) (base : nat) (sz : Z) (p : option (nat * Z)) : Prop := {
  g_ok : Forall region_ok ra';
  g_ext : extends ra ra';
  g_piece : forall i off, p = Some (i, off) ->
    exists j r', i = (base + j)%nat /\ ra' !! j = Some r' /\ off mod 8 = 0 /\ 0 <= off /\ off + sz <= ra_off r' /\
      (forall r, ra !! j = Some r -> ra_off r <= off);
}.

Lemma ra_aligned_bounds sz :
  0 <= sz <= 2 ^ 64 - 8 -> sz <= ra_aligned sz < sz + 8 /\ ra_aligned sz mod 8 = 0.
Proof.
  intros Hsz. unfold ra_aligned. pose proof (Z.mod_pos_bound sz 8 ltac:(lia)).
  pose proof (Z.div_mod sz 8 ltac:(lia)).
  destruct (Z.eqb_spec (sz mod 8) 0); simpl; [lia|].
  rewrite (u64_small (sz + (8 - sz mod 8))) by lia. split; [lia|].
  replace (sz + (8 - sz mod 8)) with ((sz / 8 + 1) * 8) by lia. apply Z.mod_mul. lia.
Qed.

(** The rest of a region is a multiple of 8, so rounding up still fits. *)
Lemma ra_take_ok r sz :
  region_ok r -> 0 <= sz <= 2 ^ 64 - 8 -> ra_fits r sz = true ->
  region_ok (mkRegion (ra_sz r) (ra_off r + ra_aligned sz)) /\ ra_off r + sz <= ra_off r + ra_aligned sz.
Proof.
  intros (Hoff & Hlt & Hs8 & Ho8) Hsz Hfit. unfold ra_fits in Hfit. apply Z.leb_le in Hfit.
  rewrite (u64_small (ra_sz r - ra_off r)) in Hfit by lia.
  destruct (ra_aligned_bounds sz Hsz) as [Hb Ha8]. split; [|lia].
  unfold region_ok. cbn [ra_sz ra_off].
  rewrite Z.add_mod, Ho8, Ha8 by lia.
  assert (ra_off r + ra_aligned sz <= ra_sz r).
  { apply Z.mod_divide in Hs8 as [a ?], Ho8 as [b ?], Ha8 as [c ?]; lia. }
  split_and!; done || lia.
Qed.

Lemma ra_alloc_size_ok sz :
  0 <= sz -> region_ok (mkRegion (ra_alloc_size sz) 0).
Proof.
  intros Hsz. unfold region_ok, ra_alloc_size. cbn [ra_sz ra_off].
  destruct (256 * 1024 <? sz); [|split_and!; done || lia].
  pose proof (u64_range (u64 (sz / 1024 + 1) * 1024)). split_and!; try done; try lia.
  unfold u64 at 1. change (2 ^ 64) with (8 * 2 ^ 61).
  rewrite Z.rem_mul_r, (Z.mul_comm 8), Z.mod_add by lia.
  rewrite Z.mod_mod by lia. rewrite Z.mul_mod by lia. change (1024 mod 8) with 0. by rewrite Z.mul_0_r.
Qed.

Lemma ra_alloc_size_fits sz : 0 <= sz <= 2 ^ 64 - 2048 -> ra_fits (mkRegion (ra_alloc_size sz) 0) sz = true.
Proof.
  intros Hsz. unfold ra_fits, ra_alloc_size. cbn [ra_sz ra_off]. rewrite Z.sub_0_r. apply Z.leb_le.
  destruct (Z.ltb_spec (256 * 1024) sz); [|rewrite u64_small; lia].
  pose proof (Z.div_mod sz 1024 ltac:(lia)). pose proof (Z.mod_pos_bound sz 1024 ltac:(lia)).
  rewrite (u64_small (sz / 1024 + 1)), (u64_small (_ * 1024)), u64_small by lia. lia.
Qed.

(** ** Requests preserve it *)

Lemma extends_refl ra : extends ra ra.
Proof. intros i r Hi. exists r. split; [done|lia]. Qed.

Lemma ra_grow_gives m idx sz m' rs p :
  0 <= sz <= 2 ^ 64 - 2048 -> ra_grow m idx sz = Some (m', rs, p) -> gives [] rs idx sz p.
Proof.
  intros Hsz Hg. pose proof (ra_alloc_size_fits sz Hsz) as Hfit.
  destruct m as [|[|] [|[|] m]]; simpl in Hg; simplify_eq; try (by split; [constructor| |]).
  rewrite Hfit in Hg. simplify_eq.
  destruct (ra_take_ok (mkRegion (ra_alloc_size sz) 0) sz (ra_alloc_size_ok sz ltac:(lia)) ltac:(lia) Hfit)
    as [Hok Hle]. cbn [ra_sz ra_off] in *.
  split; [by apply Forall_singleton|by intros i r Hi|].
  intros i off [= <- <-]. exists 0%nat. eexists. split_and!; [lia|done|done|lia|done|by intros r].
Qed.

Lemma ra_walk_gives m idx rs sz m' rs' p :
  Forall region_ok rs -> 0 <= sz <= 2 ^ 64 - 2048 ->
  ra_walk m idx rs sz = Some (m', rs', p) -> gives rs rs' idx sz p.
Proof.
  intros Hok Hsz. revert idx rs' m' p. induction Hok as [|r rs Hr Hrs IH]; intros idx rs' m' p; cbn [ra_walk].
  { by apply ra_grow_gives. }
  destruct (ra_fits r sz) eqn:Hfit.
  - intros [= <- <- <-]. destruct (ra_take_ok r sz Hr ltac:(lia) Hfit) as [Hok Hle]. split.
    + by constructor.
    + intros [|i] r0 Hi; simplify_eq/=; [|exists r0; split; [done|lia]].
      eexists. split; [done|]. simpl. destruct (ra_aligned_bounds sz ltac:(lia)). lia.
    + intros i off [= <- <-]. exists 0%nat. eexists. destruct Hr as (? & ? & ? & ?).
      split_and!; [lia|done|done|lia|done|]. intros r0 [= ->]. lia.
  - destruct (ra_walk m (S idx) rs sz) as [[[m1 rs1] p1]|] eqn:E; cbn [mbind option_bind]; [|done].
    intros [= <- <- <-]. destruct (IH _ _ _ _ E) as [G1 G2 G3]. split.
    + by constructor.
    + intros [|i] r0 Hi; simplify_eq/=; [exists r0; split; [done|lia]|]. by apply G2.
    + intros i off Hp. destruct (G3 i off Hp) as (j & r' & ? & ? & ?). exists (S j), r'.
      split_and!; [lia|done|naive_solver..].
Qed.

Lemma ra_malloc_gives m ra sz m' ra' p :
  Forall region_ok ra -> 0 <= sz <= 2 ^ 64 - 2048 ->
  ra_malloc m ra sz = Some (m', ra', p) -> gives ra ra' 0 sz p.
Proof.
  intros Hok Hsz. destruct ra as [|r ra]; [|by apply ra_walk_gives].
  intros [= <- <- <-]. split; [done|apply extends_refl|done].
Qed.

Lemma piece_ok_extends ra ra' p : extends ra ra' -> piece_ok ra p -> piece_ok ra' p.
Proof.
  destruct p as [[i off] sz]. intros He (r & Hr & ? & ? & ?). destruct (He i r Hr) as (r' & ? & ?).
  exists r'. split_and!; done || lia.
Qed.

(** The pieces a sequence of requests got. *)
Fixpoint pieces (reqs : list Z) (ps : list (option (nat * Z))) : list piece :=
  match reqs, ps with
  | sz :: reqs', Some (i, off) :: ps' => (i, off, sz) :: pieces reqs' ps'
  | _ :: reqs', None :: ps' => pieces reqs' ps'
  | _, _ => []
  end.

(** Every two elements of a list are related. *)
Fixpoint pairwise {A} (R : A -> A -> Prop) (l : list A) : Prop :=
  match l with [] => True | x :: l' => (forall y, y ∈ l' -> R x y) /\ pairwise R l' end.

Definition piece_in (ra : list region) (p : piece) : Prop :=
  let '(i, off, sz) := p in
  exists r, ra !! i = Some r /\ 0 <= off /\ off mod 8 = 0 /\ off + sz <= ra_sz r.

Lemma piece_ok_in ra p : Forall region_ok ra -> piece_ok ra p -> piece_in ra p.
Proof.
  destruct p as [[i off] sz]. intros Hok (r & Hr & ? & ? & ?).
  pose proof (Forall_lookup_1 _ _ _ _ Hok Hr) as (? & _). exists r. split_and!; done || lia.
Qed.

Lemma ra_run_pieces m ra reqs ra' ps :
  Forall region_ok ra -> Forall (fun sz => 0 <= sz <= 2 ^ 64 - 2048) reqs ->
  ra_run m ra reqs = Some (ra', ps) ->
  Forall region_ok ra' /\ extends ra ra' /\ Forall (piece_ok ra') (pieces reqs ps) /\
  pairwise disjoint (pieces reqs ps) /\
  (forall h p, piece_ok ra h -> p ∈ pieces reqs ps -> disjoint h p).
Proof.
  intros Hok Hreqs. revert m ra ps Hok. induction Hreqs as [|sz reqs Hsz Hreqs IH]; intros m ra ps Hok; simpl.
  { intros [= <- <-]. split_and!; [done|apply extends_refl|constructor|done|set_solver]. }
  destruct (ra_malloc m ra sz) as [[[m1 ra1] p1]|] eqn:E1; cbn [mbind option_bind]; [|done].
  destruct (ra_malloc_gives _ _ _ _ _ _ Hok Hsz E1) as [G1 G2 G3].
  destruct (ra_run m1 ra1 reqs) as [[ra2 ps2]|] eqn:E2; cbn [mbind option_bind]; [|done]. intros [= <- <-].
  destruct (IH _ _ _ G1 E2) as (I1 & I2 & I3 & I4 & I5).
  assert (extends ra ra2) as Hext.
  { intros i r Hi. destruct (G2 i r Hi) as (r1 & Hr1 & ?). destruct (I2 i r1 Hr1) as (r2 & ? & ?).
    exists r2. split; [done|lia]. }
  destruct p1 as [[i off]|]; cbn [pieces].
  2: { split_and!; try done. intros h p Hh. apply I5. exact (piece_ok_extends _ _ _ G2 Hh). }
  destruct (G3 i off eq_refl) as (j & r' & -> & Hr' & ? & ? & ? & Hold). cbn [Nat.add] in *.
  assert (piece_ok ra1 (j, off, sz)) as Hp1 by (exists r'; split_and!; done).
  split_and!; [done|done| |split; [|done]|].
  - constructor; [exact (piece_ok_extends _ _ _ I2 Hp1)|done].
  - intros y Hy. by apply I5.
  - intros h p Hh Hp. apply elem_of_cons in Hp as [->|Hp]; [|apply I5; [exact (piece_ok_extends _ _ _ G2 Hh)|done]].
    destruct h as [[i' off'] sz']. destruct Hh as (r0 & Hr0 & ? & ? & ?). unfold disjoint.
    destruct (decide (i' = j)) as [->|]; [|by left]. specialize (Hold _ Hr0). right. left. lia.
Qed.

(** C38: The pieces any sequence of requests, of at most 2^64 - 2048 bytes each, gets from a new allocator are inside
    their regions, at offsets aligned to 8 bytes, and do not overlap, whichever calls of [malloc] fail. *)
Theorem ra_pieces_disjoint (m m' : list bool) (ra ra' : list region) (reqs : list Z)
    (ps : list (option (nat * Z))) :
  ra_new m = Some (m', Some ra) -> Forall (fun sz => 0 <= sz <= 2 ^ 64 - 2048) reqs ->
  ra_run m' ra reqs = Some (ra', ps) ->
  Forall (piece_in ra') (pieces reqs ps) /\ pairwise disjoint (pieces reqs ps).
Proof.
  intros Hn Hreqs Hrun.
  assert (Forall region_ok ra) as Hok.
  { unfold ra_new in Hn. destruct m as [|[|] [|[|] m]]; simplify_eq/=.
    apply Forall_singleton, (ra_alloc_size_ok 0). lia. }
  destruct (ra_run_pieces _ _ _ _ _ Hok Hreqs Hrun) as (H1 & _ & H2 & H3 & _).
  split; [|done]. eapply Forall_impl; [exact H2|]. intros p. by apply piece_ok_in.
Qed.

Lemma ra_pieces_disjoint_witness :
  let m := [true; true; true; true; true; true] in
  exists ra ra' ps, ra_new m = Some (drop 2 m, Some ra) /\
    ra_run (drop 2 m) ra [13; 262140; 300000; 8] = Some (ra', ps) /\
    ps = [Some (0%nat, 0); Some (1%nat, 0); Some (2%nat, 0); Some (0%nat, 16)] /\
    pairwise disjoint (pieces [13; 262140; 300000; 8] ps).
Proof.
  eexists _, _, _. split; [reflexivity|]. split; [vm_compute; reflexivity|]. split; [reflexivity|].
  eapply (ra_pieces_disjoint [true; true; true; true; true; true]); [reflexivity| |vm_compute; reflexivity].
  repeat constructor; vm_compute; discriminate.
Defined.
