(* ===== verification/Rewrite.v ===== *)
(** * Rewriting metrics (src/router.c, [router_rewrite_metric])

    The text between two offsets of the metric is replaced by a template with
    backreferences.  The state of the scanning loop is the record [rw]: the C
    variables [escape], [ref] and [rcase], and the characters written to
    [newmetric] ([s] is their number).  A metric is its name, up to [firstspace],
    and the rest of the line. *)
From S2P Require Import Prelude Relay.
#[local] Open Scope Z_scope.

Inductive rewrite_case := RETAIN | LOWER | UPPER | RETAIN_DOT | LOWER_DOT | UPPER_DOT.
#[export] Instance rewrite_case_eq_dec : EqDecision rewrite_case.
Proof. solve_decision. Defined.

(** A [regmatch_t]: [rm_so], [rm_eo]. *)
Abbreviation regmatch := (Z * Z)%type (only parsing).

Record rw := mkRw { escape : Z; ref : Z; rcase : rewrite_case; out : list Z }.

(** [s - *newmetric + n < sizeof( *newmetric)], in [size_t]. *)
Definition fits (o : list Z) (n : Z) : bool := u64 (Z.of_nat (length o) + n) <? METRIC_BUFSIZ.

(** The characters from offset [so] up to [eo]. *)
Definition slice (text : cstring) (so eo : Z) : cstring :=
  take (Z.to_nat (eo - so)) (drop (Z.to_nat so) text).

(** What the six copy loops do to a character. *)
Definition case_char (rc : rewrite_case) (c : cchar) : cchar :=
  match rc with
  | RETAIN => c
  | LOWER => s8 (tolower c)
  | UPPER => s8 (toupper c)
  | RETAIN_DOT => if c =? ch "." then ch "_" else c
  | LOWER_DOT => if c =? ch "." then ch "_" else s8 (tolower c)
  | UPPER_DOT => if c =? ch "." then ch "_" else s8 (toupper c)
  end.

(** Insert match group [ref] if it exists, took part in the match and fits. *)
Definition insert_match (text : cstring) (nmatch : Z) (pmatch : list regmatch) (st : rw) : list Z :=
  if (0 <? ref st) && (ref st <=? nmatch) then
    match pmatch !! Z.to_nat (ref st) with
    | Some (so, eo) =>
        if (0 <=? so) && fits (out st) (eo - so)
        then out st ++ (case_char (rcase st) <$> slice text so eo) else out st
    | None => out st
    end
  else out st.

(** One iteration of the loop over the template, on the character [*p]. *)
Definition rewrite_step (text : cstring) (nmatch : Z) (pmatch : list regmatch) (st : rw) (c : cchar) : rw :=
  if (c =? ch "\") && (escape st =? 0) then mkRw 1 (ref st) RETAIN (out st)
  else if (escape st =? 1) && bool_decide (rcase st = RETAIN) && (c =? ch "_") then
    mkRw (escape st) (ref st) LOWER (out st)
  else if (escape st =? 1) && bool_decide (rcase st = RETAIN) && (c =? ch "^") then
    mkRw (escape st) (ref st) UPPER (out st)
  else if (escape st =? 1) && (c =? ch ".") then
    mkRw (escape st) (ref st)
      (match rcase st with LOWER => LOWER_DOT | UPPER => UPPER_DOT | _ => RETAIN_DOT end) (out st)
  else if negb (escape st =? 0) && is_digit c then
    mkRw 2 (s32 (s32 (ref st * 10) + (c - 48))) (rcase st) (out st)
  else
    let st := if negb (escape st =? 0)
              then mkRw (escape st) 0 (rcase st) (insert_match text nmatch pmatch st) else st in
    if negb (c =? ch "\") then
      mkRw 0 (ref st) RETAIN (if fits (out st) 1 then out st ++ [c] else out st)
    else st.

(** [router_rewrite_metric]: the new line (without its terminator) and the offset
    of the new [firstspace]; [None] is the result 0. *)
Definition router_rewrite_metric (name rest replacement : cstring) (nmatch : Z) (pmatch : list regmatch) :
    option (cstring * nat) :=
  let text := name ++ rest in
  let '(so, eo) := default (0, 0) (pmatch !! 0%nat) in
  if negb (fits [] so) then None
  else
    let lead := slice text 0 so in
    let st := foldl (rewrite_step text nmatch pmatch) (mkRw 0 0 RETAIN lead) (replacement ++ [NUL]) in
    let o := removelast (out st) in
    let tail := slice text eo (Z.of_nat (length name)) in
    if negb (fits o (Z.of_nat (length name) - eo)) then None
    else
      let o := o ++ tail in
      let newfirstspace := length o in
      if fits o (Z.of_nat (length rest)) then Some (o ++ rest, newfirstspace) else None.

(** ** Specification: templates as tokens *)

(** Literal text, or a run of backreferences ["\1\2"] under one case modifier;
    each reference is its digits. *)
Inductive token := TLit (c : cchar) | TRefs (rc : rewrite_case) (refs : list (list cchar)).

Definition modifier (rc : rewrite_case) : cstring :=
  match rc with
  | RETAIN => [] | LOWER => lit "_" | UPPER => lit "^"
  | RETAIN_DOT => lit "." | LOWER_DOT => lit "_." | UPPER_DOT => lit "^."
  end.

Fixpoint render_refs (refs : list (list cchar)) : cstring :=
  match refs with [] => [] | d :: refs' => ch "\" :: d ++ render_refs refs' end.

(** The template text of a token. *)
Definition render (t : token) : cstring :=
  match t with
  | TLit c => [c]
  | TRefs rc refs => match refs with [] => [] | d :: refs' => ch "\" :: modifier rc ++ d ++ render_refs refs' end
  end.

Definition ref_value (d : list cchar) : Z := foldl (fun n c => n * 10 + (c - 48)) 0 d.

(** The text a reference stands for. *)
Definition expand_ref (text : cstring) (nmatch : Z) (pmatch : list regmatch) (rc : rewrite_case) (d : list cchar) :
    cstring :=
  let r := ref_value d in
  if (0 <? r) && (r <=? nmatch) then
    match pmatch !! Z.to_nat r with
    | Some (so, eo) => if 0 <=? so then case_char rc <$> slice text so eo else []
    | None => []
    end
  else [].

Definition expand (text : cstring) (nmatch : Z) (pmatch : list regmatch) (t : token) : cstring :=
  match t with
  | TLit c => [c]
  | TRefs rc refs => concat (expand_ref text nmatch pmatch rc <$> refs)
  end.

(** The digits of a reference: at least one, and few enough for an [int]. *)
Definition digits_ok (d : list cchar) : Prop :=
  d <> [] /\ Forall (fun c => is_digit c = true) d /\ (length d <= 9)%nat.

(** Templates whose tokens do not run into each other: references follow each other directly only without modifiers, so
    that each has the modifier that is written in it. *)
Fixpoint template_ok (ts : list token) : Prop :=
  match ts with
  | [] => True
  | TLit c :: ts' => c <> ch "\" /\ c <> NUL /\ template_ok ts'
  | TRefs rc refs :: ts' =>
      (refs <> [] /\ (rc = RETAIN \/ length refs = 1%nat)) /\ Forall digits_ok refs /\
      match ts' with [] => True | TLit c :: _ => is_digit c = false | TRefs _ _ :: _ => False end /\
      template_ok ts'
  end.

(** Match offsets inside the metric, as [regexec] reports them. *)
Definition match_ok (len : nat) (m : regmatch) : Prop :=
  let '(so, eo) := m in so = -1 \/ (0 <= so <= eo /\ eo <= Z.of_nat len).

(** ** The loop follows the tokens *)

Section Template.
Context (text : cstring) (nmatch : Z) (pmatch : list regmatch).
Context (Hpm : Forall (match_ok (length text)) pmatch).

Abbreviation step := (rewrite_step text nmatch pmatch).
Abbreviation idle o := (mkRw 0 0 RETAIN o).

Lemma fits_true o n :
  0 <= n -> Z.of_nat (length o) + n < METRIC_BUFSIZ -> fits o n = true.
Proof.
  intros ? Hl. unfold fits. unfold METRIC_BUFSIZ in *. apply Z.ltb_lt. rewrite u64_small; lia.
Qed.

Lemma length_slice so eo : 0 <= so <= eo -> eo <= Z.of_nat (length text) -> Z.of_nat (length (slice text so eo)) = eo - so.
Proof. intros. unfold slice. rewrite length_take, length_drop. lia. Qed.

(** A backreference that fits is expanded. *)
Lemma insert_match_expand rc d o :
  Z.of_nat (length (o ++ expand_ref text nmatch pmatch rc d)) < METRIC_BUFSIZ ->
  insert_match text nmatch pmatch (mkRw 2 (ref_value d) rc o) = o ++ expand_ref text nmatch pmatch rc d.
Proof.
  unfold insert_match, expand_ref. cbn [ref rcase out]. intros Hl.
  destruct ((0 <? ref_value d) && (ref_value d <=? nmatch)); [|by rewrite app_nil_r].
  destruct (pmatch !! Z.to_nat (ref_value d)) as [[so eo]|] eqn:E; [|by rewrite app_nil_r].
  destruct (Z.leb_spec 0 so); [|by rewrite app_nil_r]. cbn [andb].
  pose proof (Forall_lookup_1 _ _ _ _ Hpm E) as [?|[? ?]]; [lia|].
  rewrite fits_true; [done|lia|]. rewrite length_app, length_fmap in Hl.
  rewrite <- (length_slice so eo) by lia. lia.
Qed.

Lemma step_literal o c :
  c <> ch "\" -> Z.of_nat (length o) + 1 < METRIC_BUFSIZ -> step (idle o) c = idle (o ++ [c]).
Proof.
  intros Hc Hl. unfold rewrite_step. cbn [escape rcase ref out].
  change (0 =? 0) with true. change (0 =? 1) with false.
  destruct (Z.eqb_spec c (ch "\")); [done|]. cbn [andb negb ref out].
  by rewrite (fits_true o 1) by lia.
Qed.

Lemma digit_not_special c : is_digit c = true ->
  (c =? ch "\") = false /\ (c =? ch "_") = false /\ (c =? ch "^") = false /\ (c =? ch ".") = false.
Proof.
  unfold is_digit. intros [?%Z.leb_le ?%Z.leb_le]%andb_true_iff.
  split_and!; apply Z.eqb_neq; vm_compute (ch _); lia.
Qed.

Lemma step_digit e r rc o c :
  e = 1 \/ e = 2 -> is_digit c = true -> 0 <= r < 10 ^ 8 ->
  step (mkRw e r rc o) c = mkRw 2 (r * 10 + (c - 48)) rc o.
Proof.
  intros He Hc Hr. destruct (digit_not_special c Hc) as (E1 & E2 & E3 & E4).
  unfold rewrite_step. cbn [escape rcase ref out]. rewrite E1, E2, E3, E4, Hc.
  unfold is_digit in Hc. apply andb_true_iff in Hc as [?%Z.leb_le ?%Z.leb_le].
  rewrite !andb_false_r, !andb_true_r. destruct (Z.eqb_spec e 0); [lia|]. cbn [negb andb].
  f_equal. unfold s32. rewrite (Z.mod_small (r * 10 + 2 ^ 31)) by lia. rewrite Z.mod_small by lia. lia.
Qed.

Lemma steps_digits e rc o d : e = 1 \/ e = 2 -> digits_ok d ->
  foldl step (mkRw e 0 rc o) d = mkRw 2 (ref_value d) rc o.
Proof.
  intros He (Hne & Hd & Hlen). unfold ref_value.
  assert (forall n d e r, (length d <= 9 - n)%nat -> (n <= 9)%nat -> 0 <= r < 10 ^ Z.of_nat n -> Forall (fun c => is_digit c = true) d ->
    e = 1 \/ e = 2 -> d <> [] ->
    foldl step (mkRw e r rc o) d = mkRw 2 (foldl (fun n c => n * 10 + (c - 48)) r d) rc o) as Hall.
  2: { apply (Hall 0%nat); simpl; try done; lia. }
  clear. intros n d. revert n. induction d as [|c d IH]; intros n e r Hl Hn Hr Hd He Hne; [done|].
  apply Forall_cons in Hd as [Hc Hd]. cbn [foldl length] in *.
  assert (10 ^ Z.of_nat n <= 10 ^ 8) by (apply Z.pow_le_mono_r; lia).
  rewrite step_digit by (done || lia). destruct d as [|c' d]; [done|].
  apply (IH (S n)); auto; try lia. unfold is_digit in Hc. apply andb_true_iff in Hc as [?%Z.leb_le ?%Z.leb_le].
  rewrite Nat2Z.inj_succ, Z.pow_succ_r by lia. lia.
Qed.

Lemma steps_modifier rc o : foldl step (idle o) (ch "\" :: modifier rc) = mkRw 1 0 rc o.
Proof. by destruct rc. Qed.

(** Consecutive references: all but the last are inserted, and the last one is pending. *)
Lemma steps_refs rc refs d o :
  Forall digits_ok refs ->
  Z.of_nat (length (o ++ concat (expand_ref text nmatch pmatch rc <$> d :: refs))) < METRIC_BUFSIZ ->
  exists d' o', foldl step (mkRw 2 (ref_value d) rc o) (render_refs refs) = mkRw 2 (ref_value d') rc o' /\
    o' ++ expand_ref text nmatch pmatch rc d' = o ++ concat (expand_ref text nmatch pmatch rc <$> d :: refs).
Proof.
  revert d o. induction refs as [|d1 refs IH]; intros d o Hrefs Hl.
  { exists d, o. split; [done|]. cbn [fmap list_fmap concat]. by rewrite app_nil_r. }
  apply Forall_cons in Hrefs as [Hd1 Hrefs]. cbn [fmap list_fmap concat] in Hl. rewrite (assoc_L app) in Hl.
  cbn [render_refs foldl].
  assert (step (mkRw 2 (ref_value d) rc o) (ch "\") = mkRw 2 0 rc (o ++ expand_ref text nmatch pmatch rc d)) as ->.
  { unfold rewrite_step. cbn [escape rcase ref out]. change (2 =? 0) with false. change (2 =? 1) with false.
    rewrite !andb_false_r. cbn [andb negb]. change (is_digit (ch "\")) with false.
    rewrite Z.eqb_refl. cbn [andb negb]. rewrite insert_match_expand; [done|]. rewrite length_app in Hl. lia. }
  rewrite foldl_app, steps_digits by auto.
  destruct (IH d1 (o ++ expand_ref text nmatch pmatch rc d) Hrefs Hl) as (d' & o' & E & Ho).
  exists d', o'. split; [exact E|]. rewrite Ho. cbn [fmap list_fmap concat]. by rewrite <- !(assoc_L app).
Qed.

(** A character that ends a reference inserts the pending one first. *)
Lemma step_flush rc d o c :
  c <> ch "\" -> is_digit c = false ->
  Z.of_nat (length (o ++ expand_ref text nmatch pmatch rc d)) < METRIC_BUFSIZ ->
  step (mkRw 2 (ref_value d) rc o) c = step (idle (o ++ expand_ref text nmatch pmatch rc d)) c.
Proof.
  intros Hc Hd Hl. unfold rewrite_step. cbn [escape rcase ref out].
  change (2 =? 0) with false. change (2 =? 1) with false. change (0 =? 0) with true. change (0 =? 1) with false.
  rewrite Hd. destruct (Z.eqb_spec c (ch "\")); [done|]. cbn [andb negb ref out].
  by rewrite insert_match_expand.
Qed.

Lemma steps_template ts o :
  template_ok ts ->
  Z.of_nat (length (o ++ concat (expand text nmatch pmatch <$> ts))) + 1 < METRIC_BUFSIZ ->
  foldl step (idle o) (concat (render <$> ts) ++ [NUL])
  = idle (o ++ concat (expand text nmatch pmatch <$> ts) ++ [NUL]).
Proof.
  revert o. induction ts as [|t ts IH]; intros o Hok Hl.
  { cbn [fmap list_fmap concat app foldl] in *. rewrite app_nil_r in Hl. rewrite step_literal; [done|by vm_compute|lia]. }
  cbn [fmap list_fmap concat] in *. rewrite (assoc_L app) in Hl. rewrite <- !(assoc_L app).
  destruct t as [c|rc [|d refs]]; cbn [template_ok] in Hok.
  - destruct Hok as (Hc & _ & Hok). cbn [render expand app foldl] in *.
    rewrite step_literal; [|done|rewrite !length_app in Hl; simpl in Hl; lia].
    rewrite IH by done. by rewrite <- !(assoc_L app).
  - naive_solver.
  - destruct Hok as (_ & Hrefs & Hnext & Hok). apply Forall_cons in Hrefs as [Hd Hrefs].
    set (tl := concat (render <$> ts) ++ [NUL]) in *.
    assert (render (TRefs rc (d :: refs)) ++ tl = (ch "\" :: modifier rc) ++ d ++ render_refs refs ++ tl) as ->
      by (cbn [render]; by rewrite <- !app_comm_cons, <- !(assoc_L app)).
    cbn [expand] in *. rewrite foldl_app, steps_modifier, foldl_app, steps_digits, foldl_app by auto.
    destruct (steps_refs rc refs d o Hrefs) as (d' & o' & -> & Ho); [rewrite !length_app in Hl; rewrite length_app; lia|].
    specialize (IH _ Hok Hl). rewrite (assoc_L app o), <- Ho. rewrite <- Ho in IH, Hl.
    subst tl. destruct ts as [|[c|rc' refs'] ts]; cbn [fmap list_fmap concat render app] in *.
    + cbn [foldl] in *. rewrite step_flush; [|done..|rewrite !length_app in Hl; rewrite length_app; lia].
      exact IH.
    + cbn [foldl] in *. rewrite step_flush; [|naive_solver..|rewrite !length_app in Hl; rewrite length_app; lia].
      exact IH.
    + done.
Qed.

End Template.

(** ** Writes stay in the buffer *)

Lemma fits_inv o n : fits o n = true -> 0 <= n < 2 ^ 63 -> Z.of_nat (length o) < METRIC_BUFSIZ ->
  Z.of_nat (length o) + n < METRIC_BUFSIZ.
Proof.
  unfold fits. unfold METRIC_BUFSIZ. intros H%Z.ltb_lt ? ?. rewrite u64_small in H; lia.
Qed.

Lemma insert_match_bound text nmatch pmatch st :
  Forall (match_ok (length text)) pmatch -> Z.of_nat (length text) < 2 ^ 63 ->
  Z.of_nat (length (out st)) < METRIC_BUFSIZ ->
  Z.of_nat (length (insert_match text nmatch pmatch st)) < METRIC_BUFSIZ.
Proof.
  intros Hpm Ht Ho. unfold insert_match. destruct (_ && _); [|done].
  destruct (pmatch !! _) as [[so eo]|] eqn:E; [|done].
  pose proof (Forall_lookup_1 _ _ _ _ Hpm E) as Hm.
  destruct (Z.leb_spec 0 so); [|done]. destruct (fits (out st) (eo - so)) eqn:Hf; [|done]. cbn [andb].
  destruct Hm as [?|[? ?]]; [lia|]. apply fits_inv in Hf; [|lia|done].
  rewrite length_app, length_fmap, Nat2Z.inj_add, (length_slice text so eo) by lia. lia.
Qed.

Lemma rewrite_step_bound text nmatch pmatch st c :
  Forall (match_ok (length text)) pmatch -> Z.of_nat (length text) < 2 ^ 63 ->
  Z.of_nat (length (out st)) < METRIC_BUFSIZ ->
  Z.of_nat (length (out (rewrite_step text nmatch pmatch st c))) < METRIC_BUFSIZ.
Proof.
  intros Hpm Ht Ho. unfold rewrite_step. repeat (case_match; [done|]).
  set (st' := if negb (escape st =? 0) then _ else st).
  assert (Z.of_nat (length (out st')) < METRIC_BUFSIZ) as Ho'
    by (unfold st'; case_match; [by apply insert_match_bound|done]).
  destruct (negb (c =? ch "\")); [|done]. cbn [out]. destruct (fits (out st') 1) eqn:Hf; [|done].
  apply fits_inv in Hf; [|lia|done]. rewrite length_app. simpl. lia.
Qed.

Lemma rewrite_steps_bound text nmatch pmatch l st :
  Forall (match_ok (length text)) pmatch -> Z.of_nat (length text) < 2 ^ 63 ->
  Z.of_nat (length (out st)) < METRIC_BUFSIZ ->
  Z.of_nat (length (out (foldl (rewrite_step text nmatch pmatch) st l))) < METRIC_BUFSIZ.
Proof.
  intros Hpm Ht. revert st. induction l as [|c l IH]; intros st Ho; [done|].
  apply IH. by apply rewrite_step_bound.
Qed.

(** C16: Rewriting replaces the matched part of the name by the template, with each backreference standing for its
    group under the case modifier that is written in it, and keeps the rest of the line. That is for match offsets
    within the metric, results that fit the buffer, and templates in which references of at most nine digits stand
    alone, or follow each other directly only without modifiers: in adjacent references with modifiers only the first
    one's is honoured ([rewrite_adjacent_references]). *)
Theorem rewrite_expands_template (name rest : cstring) (ts : list token) (nmatch so eo : Z)
    (pmatch : list regmatch) :
  template_ok ts -> pmatch !! 0%nat = Some (so, eo) -> 0 <= so <= eo -> eo <= Z.of_nat (length name) ->
  Forall (match_ok (length (name ++ rest))) pmatch ->
  let new := take (Z.to_nat so) name ++ concat (expand (name ++ rest) nmatch pmatch <$> ts) ++
             drop (Z.to_nat eo) name in
  Z.of_nat (length (new ++ rest)) + 1 < METRIC_BUFSIZ ->
  router_rewrite_metric name rest (concat (render <$> ts)) nmatch pmatch = Some (new ++ rest, length new).
Proof.
  intros Hts Hp0 Hso Heo Hpm new Hl. unfold router_rewrite_metric. rewrite Hp0. cbn [from_option id]. cbv zeta.
  set (text := name ++ rest) in *.
  assert (slice text 0 so = take (Z.to_nat so) name) as ->.
  { unfold slice, text. rewrite Z.sub_0_r. rewrite drop_0. by rewrite take_app_le by lia. }
  assert (slice text eo (Z.of_nat (length name)) = drop (Z.to_nat eo) name) as ->.
  { unfold slice, text. rewrite drop_app_le by lia. rewrite take_app_le by (rewrite length_drop; lia).
    by rewrite take_ge by (rewrite length_drop; lia). }
  unfold new in Hl. rewrite !length_app in Hl.
  assert (Z.of_nat (length (take (Z.to_nat so) name)) = so) as Hso' by (rewrite length_take; lia).
  rewrite fits_true by (simpl; lia). cbn [negb].
  rewrite (steps_template text nmatch pmatch Hpm ts) by (done || rewrite length_app; lia).
  cbn [out]. rewrite (assoc_L app), removelast_last.
  rewrite length_drop in Hl. rewrite fits_true by (rewrite ?length_app; lia). cbn [negb].
  rewrite <- (assoc_L app). fold new.
  rewrite fits_true; [done|lia|]. unfold new. rewrite !length_app, length_drop. lia.
Qed.

Lemma rewrite_expands_template_witness :
  router_rewrite_metric (lit "servers.WEB1.cpu") (lit " 1 2") (lit "dc1.\_1.") 2 [(0, 13); (8, 12)]
  = Some (lit "dc1.web1.cpu 1 2", 12%nat).
Proof.
  assert (forall A (l : list A) P, foldr (fun x Q => P x /\ Q) True l -> Forall P l) as HF
    by (intros A l P; induction l; simpl; [constructor|intros []; constructor; auto]).
  apply (rewrite_expands_template (lit "servers.WEB1.cpu") (lit " 1 2")
    [TLit (ch "d"); TLit (ch "c"); TLit (ch "1"); TLit (ch "."); TRefs LOWER [lit "1"]; TLit (ch ".")]
    2 0 13 [(0, 13); (8, 12)]); [|reflexivity|lia|vm_compute; discriminate| |vm_compute; reflexivity].
  - cbn. split_and!; try done; [by right|]. apply HF. cbn. split; [|done].
    split_and!; [done|apply HF; vm_compute; done|simpl; lia].
  - apply HF. cbn. split_and!; [..|done]; right; vm_compute; repeat split; discriminate.
Defined.

(** C18: Whatever the template and the match offsets, rewriting never writes past
    the buffer: at every point of the loop the output is shorter than the
    buffer, and a line it returns has room for its terminator. *)
Theorem rewrite_in_bounds (name rest replacement : cstring) (nmatch so eo : Z) (pmatch : list regmatch) :
  pmatch !! 0%nat = Some (so, eo) -> 0 <= so <= eo -> eo <= Z.of_nat (length name) ->
  Forall (match_ok (length (name ++ rest))) pmatch -> Z.of_nat (length (name ++ rest)) < 2 ^ 63 ->
  fits [] so = true ->
  (forall k, Z.of_nat (length (out (foldl (rewrite_step (name ++ rest) nmatch pmatch)
      (mkRw 0 0 RETAIN (slice (name ++ rest) 0 so)) (take k (replacement ++ [NUL]))))) < METRIC_BUFSIZ) /\
  (forall line fs, router_rewrite_metric name rest replacement nmatch pmatch = Some (line, fs) ->
    Z.of_nat (length line) + 1 <= METRIC_BUFSIZ /\ (fs <= length line)%nat).
Proof.
  intros Hp0 Hso Heo Hpm Hlen Hf. rewrite length_app, Nat2Z.inj_add in Hlen.
  assert (Z.of_nat (length (slice (name ++ rest) 0 so)) < METRIC_BUFSIZ) as Hlead.
  { apply fits_inv in Hf; [|lia|done]. rewrite length_slice by (rewrite ?length_app; lia).
    simpl in Hf. lia. }
  split.
  - intros k. apply rewrite_steps_bound; [done|rewrite length_app; lia|done].
  - intros line fs. unfold router_rewrite_metric. rewrite Hp0. cbn [from_option id]. cbv zeta. rewrite Hf. cbn [negb].
    pose proof (rewrite_steps_bound (name ++ rest) nmatch pmatch (replacement ++ [NUL])
      (mkRw 0 0 RETAIN (slice (name ++ rest) 0 so)) Hpm ltac:(rewrite length_app; lia) Hlead) as Hb.
    set (st := foldl _ _ _) in *.
    assert (Z.of_nat (length (removelast (out st))) < METRIC_BUFSIZ) as Hr.
    { destruct (out st) as [|c l] eqn:E; [done|]. rewrite <- E in *.
      rewrite (app_removelast_last 0) in Hb by (rewrite E; done). rewrite length_app in Hb. lia. }
    destruct (fits (removelast (out st)) _) eqn:Hf1; [|done]. cbn [negb].
    apply fits_inv in Hf1; [|lia|done].
    destruct (fits (_ ++ _) _) eqn:Hf2; [|done]. intros [= <- <-].
    apply fits_inv in Hf2; [|lia|].
    + rewrite length_app, Nat2Z.inj_add. split; [lia|]. rewrite !length_app. lia.
    + rewrite length_app, Nat2Z.inj_add, length_slice by (rewrite ?length_app; lia). lia.
Qed.

Lemma rewrite_in_bounds_witness :
  exists line fs, router_rewrite_metric (lit "abc") (lit " 1 2") (lit "\1\9\\x") 1 [(1, 2); (1, 2)] = Some (line, fs) /\
    Z.of_nat (length line) + 1 <= METRIC_BUFSIZ /\ (fs <= length line)%nat.
Proof.
  eexists _, _. split; [vm_compute; reflexivity|].
  eapply (rewrite_in_bounds (lit "abc") (lit " 1 2") (lit "\1\9\\x") 1 1 2 [(1, 2); (1, 2)]);
    [reflexivity|lia|vm_compute; discriminate| |vm_compute; reflexivity|reflexivity|vm_compute; reflexivity].
  apply Forall_cons_2; [|apply Forall_singleton]; right; vm_compute; repeat split; discriminate.
Defined.

(** A case modifier is only honoured in the first of adjacent references: in
    ["\1\_2"] the second reference is not one (its text is kept literally), and in
    ["\_1\2"] the second group is lowercased too. *)
Theorem rewrite_adjacent_references :
  router_rewrite_metric (lit "Foo.Bar") (lit " 1 2") (lit "\1\_2") 3 [(0, 7); (0, 3); (4, 7)]
    = Some (lit "Foo_2 1 2", 5%nat) /\
  router_rewrite_metric (lit "Foo.Bar") (lit " 1 2") (lit "\_1\2") 3 [(0, 7); (0, 3); (4, 7)]
    = Some (lit "foobar 1 2", 6%nat).
Proof. vm_compute. done. Qed.
