(* ===== verification/Matching.v ===== *)
(** * Matching metrics (src/router.c, [determine_if_regex], [router_metric_matches])

    An expression that only needs a string comparison is recognised when the
    configuration is read, and compared instead of being given to the regex
    engine.  The engine (<regex.h>, PCRE, Oniguruma) is the class [Regex]; the
    one law used of it is its documented behaviour on patterns of plain
    characters, escaped special characters and anchors.  A metric is its [name], up to
    [firstspace], and the [rest] of the line; [before] is the memory in front of it. *)
From S2P Require Import Prelude Rewrite.
#[local] Open Scope Z_scope.

Inductive matchtype := MATCHALL | REGEX | CONTAINS | STARTS_WITH | ENDS_WITH | MATCHES.
#[export] Instance matchtype_eq_dec : EqDecision matchtype.
Proof. solve_decision. Defined.

Definition RE_MAX_MATCHES : Z := 64.
Definition PATBUF_SIZE : Z := 8192.

(** The POSIX regex interface: [regcomp(REG_EXTENDED)], [re_nsub], and [regexec],
    which gives the offsets of the match and of its groups. *)
Class Regex := {
  regex_t : Type;
  regcomp : cstring -> option regex_t;
  re_nsub : regex_t -> nat;
  regexec : regex_t -> cstring -> option (list regmatch);
}.

(** ** Classifying a pattern *)

(** Characters a pattern may hold unescaped, and those that need escaping. *)
Definition plain_char (c : cchar) : bool := (c =? ch "_") || (c =? ch "-") || is_alnum c.
Definition special_char (c : cchar) : bool :=
  (c =? ch ".") || (c =? ch "^") || (c =? ch "*") || (c =? ch "+").

(** The [switch] on the character [c] that is followed by [e']: the match type,
    [escape] and [patbuf]. *)
Definition scan_char (mt : matchtype) (escape : bool) (pb : cstring) (c : cchar) (e' : cstring) :
    matchtype * bool * cstring :=
  if c =? ch "\" then (mt, negb escape, if escape then pb ++ [c] else pb)
  else if special_char c then (if escape then mt else REGEX, false, pb ++ [c])
  else if c =? ch "$" then
    (if negb escape && bool_decide (e' = []) then
       (if bool_decide (mt = STARTS_WITH) then MATCHES else ENDS_WITH) else REGEX, false, pb)
  else if negb escape && plain_char c then (mt, false, pb ++ [c])
  else (REGEX, false, pb).

(** The loop over the pattern. *)
Fixpoint scan_pattern (mt : matchtype) (escape : bool) (pb : cstring) (e : cstring) : matchtype * bool * cstring :=
  match e with
  | [] => (mt, escape, pb)
  | c :: e' =>
      let '(mt, escape, pb) := scan_char mt escape pb c e' in
      let mt := if Z.of_nat (length pb) =? PATBUF_SIZE then REGEX else mt in
      if bool_decide (mt = REGEX) then (mt, escape, pb) else scan_pattern mt escape pb e'
  end.

Definition scan (pat : cstring) : matchtype * bool * cstring :=
  match pat with
  | c :: e => if c =? ch "^" then scan_pattern STARTS_WITH false [] e else scan_pattern CONTAINS false [] pat
  | [] => scan_pattern CONTAINS false [] pat
  end.

(** The part of a [route] that describes what it matches. *)
Record matcher `{Regex} := mkMatcher {
  m_pattern : cstring;
  m_rule : list regex_t;   (* one per dispatcher, only if REGEX *)
  m_nmatch : Z;
  m_strmatch : cstring;
  m_type : matchtype;
}.

Inductive regerr := REG_ESPACE | REG_COMP.

(** [determine_if_regex]; [alloc]: whether the [ra_malloc] of the rules succeeds. *)
Definition determine_if_regex `{Regex} (alloc : bool) (workercnt : nat) (pat : cstring) : matcher + regerr :=
  let '(mt, _, pb) := scan pat in
  if negb (bool_decide (mt = REGEX)) then inl (mkMatcher _ pat [] 0 pb mt)
  else if negb alloc then inr REG_ESPACE
  else match regcomp pat with
       | None => inr REG_COMP
       | Some rx =>
           let nmatch := if (0 <? re_nsub rx)%nat then Z.of_nat (re_nsub rx) + 1 else 0 in
           if RE_MAX_MATCHES <? nmatch then inr REG_ESPACE
           else inl (mkMatcher _ pat (replicate (workercnt + 1) rx) nmatch [] REGEX)
       end.

(** ** Matching *)

Definition prefixb (p s : cstring) : bool := bool_decide (take (length p) s = p).

(** [strstr]: the offset of the first occurrence. *)
Fixpoint strstr (hay needle : cstring) : option nat :=
  if prefixb needle hay then Some 0%nat
  else match hay with [] => None | _ :: hay' => S <$> strstr hay' needle end.

(** [regexec] stores the first [nmatch] offsets. *)
Definition store_match (nmatch : Z) (offs pmatch : list regmatch) : list regmatch :=
  take (Z.to_nat nmatch) offs ++ drop (Nat.min (Z.to_nat nmatch) (length offs)) pmatch.
Definition set_match0 (so len : Z) (pmatch : list regmatch) : list regmatch :=
  (so, so + len) :: tail pmatch.

(** [router_metric_matches]: the result and [pmatch] after it. *)
Definition router_metric_matches `{Regex} (r : matcher) (before name rest : cstring) (dispatcher_id : nat)
    (pmatch : list regmatch) : bool * list regmatch :=
  let len := Z.of_nat (length (m_strmatch r)) in
  match m_type r with
  | MATCHALL => (true, pmatch)
  | REGEX =>
      match (rx ← m_rule r !! dispatcher_id; regexec rx name) with
      | Some offs => (true, store_match (m_nmatch r) offs pmatch)
      | None => (false, pmatch)
      end
  | CONTAINS =>
      match strstr name (m_strmatch r) with
      | Some so => (true, set_match0 (Z.of_nat so) len pmatch)
      | None => (false, pmatch)
      end
  | STARTS_WITH =>
      (* strncmp goes on past firstspace *)
      if prefixb (m_strmatch r) (name ++ rest) then (true, set_match0 0 len pmatch) else (false, pmatch)
  | ENDS_WITH =>
      (* the characters at firstspace - len, which may lie in front of the metric *)
      if (len <=? Z.of_nat (length (before ++ name))) &&
         bool_decide (drop (length (before ++ name) - length (m_strmatch r)) (before ++ name) = m_strmatch r)
      then (true, set_match0 (Z.of_nat (length name) - len) len pmatch) else (false, pmatch)
  | MATCHES =>
      if bool_decide (name = m_strmatch r) then (true, set_match0 0 len pmatch) else (false, pmatch)
  end.

(** ** Simple patterns and what they mean *)

(** A literal text with optional anchors. *)
Record simple := mkSimple { s_start : bool; s_text : cstring; s_end : bool }.

Definition render_char (c : cchar) : cstring :=
  if special_char c || (c =? ch "\") then [ch "\"; c] else [c].
Definition render_text (l : cstring) : cstring := concat (render_char <$> l).
Definition render_simple (p : simple) : cstring :=
  (if s_start p then [ch "^"] else []) ++ render_text (s_text p) ++ (if s_end p then [ch "$"] else []).

Definition literal_char (c : cchar) : bool := plain_char c || special_char c || (c =? ch "\").

(** Where a simple pattern matches a string: the leftmost place it occurs. *)
Definition match_simple (p : simple) (s : cstring) : option (nat * nat) :=
  let l := s_text p in
  match s_start p, s_end p with
  | true, true => if bool_decide (s = l) then Some (0%nat, length s) else None
  | true, false => if prefixb l s then Some (0%nat, length l) else None
  | false, true =>
      if (length l <=? length s)%nat && bool_decide (drop (length s - length l) s = l)
      then Some ((length s - length l)%nat, length s) else None
  | false, false => (fun so => (so, so + length l)%nat) <$> strstr s l
  end.

(** The documented behaviour of the engine on such patterns: they compile, have no
    groups, and match where their text occurs. *)
Class RegexLiterals `{Regex} : Prop :=
  regex_literals : forall p, Forall (fun c => literal_char c = true) (s_text p) ->
    Z.of_nat (length (s_text p)) < PATBUF_SIZE ->
    exists rx, regcomp (render_simple p) = Some rx /\ re_nsub rx = 0%nat /\
      forall s, regexec rx s = (fun '(so, eo) => [(Z.of_nat so, Z.of_nat eo)]) <$> match_simple p s.

(** ** Classification and rendering are inverse *)

Lemma special_not_backslash c : special_char c = true -> (c =? ch "\") = false.
Proof.
  unfold special_char. rewrite !orb_true_iff, !Z.eqb_eq. intros Hc. apply Z.eqb_neq.
  destruct Hc as [[[->| ->]| ->]| ->]; by vm_compute.
Qed.

Lemma plain_not_special c :
  plain_char c = true -> (c =? ch "\") = false /\ special_char c = false /\ (c =? ch "$") = false.
Proof.
  unfold plain_char, is_alnum, is_lower, is_upper, is_digit, special_char.
  rewrite !orb_true_iff, !andb_true_iff, !Z.eqb_eq, !Z.leb_le.
  vm_compute (ch "\"); vm_compute (ch "_"); vm_compute (ch "-"); vm_compute (ch "$");
    vm_compute (ch "."); vm_compute (ch "^"); vm_compute (ch "*"); vm_compute (ch "+").
  intros Hc. rewrite !orb_false_iff, !Z.eqb_neq. lia.
Qed.

(** The types a string comparison ends with, as anchors. *)
Definition anchored_end (mt : matchtype) : bool := bool_decide (mt = ENDS_WITH \/ mt = MATCHES).
Definition anchored_start (mt : matchtype) : bool := bool_decide (mt = STARTS_WITH \/ mt = MATCHES).
Definition closed_by (mt : matchtype) : matchtype := if bool_decide (mt = STARTS_WITH) then MATCHES else ENDS_WITH.

(** The scan goes on only while the type is not [REGEX]. *)
Lemma scan_continues mt escape pb e mt' escape' pb' :
  (let mt2 := if Z.of_nat (length pb) =? PATBUF_SIZE then REGEX else mt in
   if bool_decide (mt2 = REGEX) then (mt2, escape, pb) else scan_pattern mt2 escape pb e) = (mt', escape', pb') ->
  mt' <> REGEX -> mt <> REGEX /\ scan_pattern mt escape pb e = (mt', escape', pb').
Proof.
  cbn zeta. case_bool_decide as Hr; [intros; simplify_eq; done|]. destruct (_ =? _); done.
Qed.

Lemma scan_pattern_sound e mt escape pb mt' pb' :
  mt = CONTAINS \/ mt = STARTS_WITH ->
  scan_pattern mt escape pb e = (mt', false, pb') -> mt' <> REGEX ->
  exists l, pb' = pb ++ l /\ Forall (fun c => literal_char c = true) l /\
    (if escape then ch "\" :: e else e) = render_text l ++ (if anchored_end mt' then [ch "$"] else []) /\
    (mt' = mt \/ mt' = closed_by mt).
Proof.
  intros Hmt. revert mt escape pb Hmt. induction e as [|c e IH]; intros mt escape pb Hmt Hs Hne.
  { simpl in Hs. simplify_eq. exists []. rewrite app_nil_r. split_and!; [done|done| |by left].
    by destruct Hmt as [->| ->]. }
  cbn [scan_pattern] in Hs. unfold scan_char in Hs.
  assert (forall mt1 esc1 pb1 x,
    (let mt2 := if Z.of_nat (length pb1) =? PATBUF_SIZE then REGEX else mt1 in
     if bool_decide (mt2 = REGEX) then (mt2, esc1, pb1) else scan_pattern mt2 esc1 pb1 e) = (mt', false, pb') ->
    mt1 = mt -> pb1 = pb ++ x -> Forall (fun c => literal_char c = true) x ->
    (if escape then ch "\" :: c :: e else c :: e) = render_text x ++ (if esc1 then ch "\" :: e else e) ->
    exists l, pb' = pb ++ l /\ Forall (fun c => literal_char c = true) l /\
      (if escape then ch "\" :: c :: e else c :: e) = render_text l ++ (if anchored_end mt' then [ch "$"] else []) /\
      (mt' = mt \/ mt' = closed_by mt)) as Hnext.
  { intros mt1 esc1 pb1 x [_ E]%scan_continues -> -> Hx Htxt; [|done]. destruct (IH _ _ _ Hmt E Hne) as (l & -> & Hl & Heq & Hmt').
    exists (x ++ l). rewrite (assoc_L app). split_and!; [done|by apply Forall_app|..|done].
    rewrite Htxt, Heq. unfold render_text. by rewrite fmap_app, concat_app, (assoc_L app). }
  destruct (c =? ch "\") eqn:Hbs.
  { apply Z.eqb_eq in Hbs as ->. destruct escape.
    - by apply (Hnext _ _ _ [ch "\"] Hs); try done; repeat constructor.
    - by apply (Hnext _ _ _ [] Hs); rewrite ?app_nil_r. }
  destruct (special_char c) eqn:Hsp.
  { destruct escape; [|by apply scan_continues in Hs as [? ?]].
    apply (Hnext _ _ _ [c] Hs); try done.
    - apply Forall_singleton. unfold literal_char. rewrite Hsp. by destruct (plain_char c).
    - unfold render_text. cbn [fmap list_fmap concat]. unfold render_char. by rewrite Hsp. }
  destruct (c =? ch "$") eqn:Hd.
  { apply Z.eqb_eq in Hd as ->.
    destruct (negb escape && bool_decide (e = [])) eqn:Hcond.
    2: { by apply scan_continues in Hs as [? ?]. }
    apply andb_true_iff in Hcond as [Hesc ->%bool_decide_eq_true]. destruct escape; [done|].
    fold (closed_by mt) in Hs. apply scan_continues in Hs as [_ Hs]; [|done]. simpl in Hs. simplify_eq.
    exists []. rewrite app_nil_r. split_and!; [done|done| |by right]. by destruct Hmt as [->| ->]. }
  destruct (negb escape && plain_char c) eqn:Hp.
  2: { by apply scan_continues in Hs as [? ?]. }
  apply andb_true_iff in Hp as [Hesc Hp]. destruct escape; [done|].
  apply (Hnext _ _ _ [c] Hs); try done.
  - apply Forall_singleton. unfold literal_char. by rewrite Hp.
  - unfold render_text. cbn [fmap list_fmap concat]. unfold render_char. by rewrite Hsp, Hbs.
Qed.

Lemma scan_cons mt escape pb c e mt1 escape1 pb1 :
  scan_char mt escape pb c e = (mt1, escape1, pb1) -> mt1 <> REGEX -> Z.of_nat (length pb1) < PATBUF_SIZE ->
  scan_pattern mt escape pb (c :: e) = scan_pattern mt1 escape1 pb1 e.
Proof.
  intros Hc Hmt Hl. cbn [scan_pattern]. rewrite Hc.
  destruct (Z.eqb_spec (Z.of_nat (length pb1)) PATBUF_SIZE); [lia|]. by rewrite bool_decide_false.
Qed.

Lemma scan_pattern_complete l mt pb (close : bool) :
  mt = CONTAINS \/ mt = STARTS_WITH -> Forall (fun c => literal_char c = true) l ->
  Z.of_nat (length (pb ++ l)) < PATBUF_SIZE ->
  scan_pattern mt false pb (render_text l ++ (if close then [ch "$"] else []))
  = (if close then closed_by mt else mt, false, pb ++ l).
Proof.
  intros Hmt Hl. assert (mt <> REGEX) as Hr by (by destruct Hmt as [->| ->]).
  revert pb. induction Hl as [|c l Hc Hl IH]; intros pb Hlen.
  { rewrite app_nil_r in *. destruct close; [|done].
    apply (scan_cons mt false pb (ch "$") [] (closed_by mt) false pb);
      [by destruct Hmt as [->| ->]|by destruct Hmt as [->| ->]|done]. }
  assert (Z.of_nat (length pb) < PATBUF_SIZE /\ Z.of_nat (length (pb ++ [c])) < PATBUF_SIZE) as [Hpb Hpb']
    by (rewrite !length_app in *; simpl in *; lia).
  specialize (IH (pb ++ [c])). rewrite <- (assoc_L app) in IH. specialize (IH Hlen). change (c :: l) with ([c] ++ l) at 2. rewrite <- IH. clear IH.
  unfold render_text. cbn [fmap list_fmap concat]. rewrite <- (assoc_L app). unfold render_char at 1.
  set (tl := concat (render_char <$> l) ++ _) in *.
  assert (scan_pattern mt false pb (ch "\" :: c :: tl) = scan_pattern mt true pb (c :: tl)) as Hesc
    by (by apply scan_cons).
  unfold literal_char in Hc. destruct (special_char c) eqn:Hs; [|destruct (c =? ch "\") eqn:Hb]; cbn [orb app].
  - rewrite Hesc. apply scan_cons; try done. unfold scan_char. by rewrite (special_not_backslash c Hs), Hs.
  - rewrite Hesc. apply scan_cons; try done. unfold scan_char. by rewrite Hb.
  - assert (plain_char c = true) as Hp by (by destruct (plain_char c)).
    destruct (plain_not_special c Hp) as (_ & _ & Hd).
    apply scan_cons; try done. unfold scan_char. by rewrite Hb, Hs, Hd, Hp.
Qed.

(** The simple pattern a classified route stands for. *)
Definition simple_of (mt : matchtype) (text : cstring) : simple :=
  mkSimple (anchored_start mt) text (anchored_end mt).

Lemma scan_pattern_length e mt escape pb mt' escape' pb' :
  Z.of_nat (length pb) < PATBUF_SIZE -> scan_pattern mt escape pb e = (mt', escape', pb') -> mt' <> REGEX ->
  Z.of_nat (length pb') < PATBUF_SIZE.
Proof.
  revert mt escape pb. induction e as [|c e IH]; intros mt escape pb Hl Hs Hne; [by simplify_eq/=|].
  cbn [scan_pattern] in Hs. destruct (scan_char mt escape pb c e) as [[mt1 esc1] pb1] eqn:Hc.
  assert (length pb1 <= length pb + 1)%nat as Hl1.
  { revert Hc. unfold scan_char. repeat case_match; intros; simplify_eq; rewrite ?length_app; simpl; lia. }
  destruct (Z.eqb_spec (Z.of_nat (length pb1)) PATBUF_SIZE); case_bool_decide; simplify_eq; try done.
  eapply IH; [|exact Hs|done]. lia.
Qed.

Lemma scan_sound pat mt pb :
  scan pat = (mt, false, pb) -> mt <> REGEX ->
  mt <> MATCHALL /\ Forall (fun c => literal_char c = true) pb /\ pat = render_simple (simple_of mt pb).
Proof.
  assert (forall e, scan_pattern CONTAINS false [] e = (mt, false, pb) -> mt <> REGEX ->
    mt <> MATCHALL /\ Forall (fun c => literal_char c = true) pb /\ e = render_simple (simple_of mt pb)) as Hc.
  { intros e Hs Hne. apply scan_pattern_sound in Hs as (l & -> & Hl & He & Hmt); [|by left|done].
    unfold render_simple, simple_of. cbn [s_start s_text s_end app].
    by destruct Hmt as [->| ->]. }
  unfold scan. destruct pat as [|c e]; [by apply Hc|].
  destruct (Z.eqb_spec c (ch "^")) as [->|]; [|by apply Hc].
  intros Hs Hne. apply scan_pattern_sound in Hs as (l & -> & Hl & He & Hmt); [|by right|done].
  unfold render_simple, simple_of. cbn [s_start s_text s_end app].
  destruct Hmt as [->| ->]; (split_and!; [done..|]); cbn [anchored_start]; by rewrite He.
Qed.

Lemma prefixb_app l s rest :
  prefixb l s = true -> prefixb l (s ++ rest) = true.
Proof.
  unfold prefixb. rewrite !bool_decide_eq_true. intros E.
  assert (length l <= length s)%nat by (rewrite <- E, length_take; lia).
  by rewrite take_app_le.
Qed.

Lemma prefixb_true p s : prefixb p s = true <-> exists b, s = p ++ b.
Proof.
  unfold prefixb. rewrite bool_decide_eq_true. split.
  - intros E. exists (drop (length p) s). rewrite <- E at 1. by rewrite take_drop.
  - intros [b ->]. apply take_app_length.
Qed.

Lemma strstr_Some hay needle so :
  strstr hay needle = Some so -> exists a b, hay = a ++ needle ++ b /\ length a = so.
Proof.
  revert so. induction hay as [|c hay IH]; intros so; cbn [strstr];
    (destruct (prefixb needle _) eqn:Hp; [apply prefixb_true in Hp as [b ->]; intros [= <-]; by exists [], b|]); [done|].
  destruct (strstr hay needle) as [k|]; [|done]. intros [= <-].
  destruct (IH k eq_refl) as (a & b & -> & <-). by exists (c :: a), b.
Qed.

(** Comparing past [firstspace] changes nothing when the separator cannot be in
    the text. *)
Lemma prefixb_stops l s c rest :
  Forall (fun c => literal_char c = true) l -> literal_char c = false ->
  prefixb l (s ++ c :: rest) = prefixb l s.
Proof.
  intros Hl Hc. destruct (prefixb l s) eqn:E; [by apply prefixb_app|].
  apply not_true_is_false. unfold prefixb in *. rewrite bool_decide_eq_true. intros Ht.
  apply bool_decide_eq_false in E. destruct (Nat.le_gt_cases (length l) (length s)) as [|Hgt].
  { rewrite take_app_le in Ht by done. done. }
  assert (l !! length s = Some c) as Hc'.
  { rewrite <- Ht, lookup_take_lt by done. by apply list_lookup_middle. }
  pose proof (Forall_lookup_1 _ _ _ _ Hl Hc'). simpl in *. congruence.
Qed.

Lemma scan_length pat mt escape pb :
  scan pat = (mt, escape, pb) -> mt <> REGEX -> Z.of_nat (length pb) < PATBUF_SIZE.
Proof.
  unfold scan. destruct pat as [|c e]; [|destruct (c =? ch "^")]; apply scan_pattern_length; done.
Qed.

Lemma scan_complete p :
  Forall (fun c => literal_char c = true) (s_text p) -> Z.of_nat (length (s_text p)) < PATBUF_SIZE ->
  exists mt, scan (render_simple p) = (mt, false, s_text p) /\ mt <> REGEX /\ simple_of mt (s_text p) = p.
Proof.
  destruct p as [st text en]. cbn [s_text]. intros Hl Hlen.
  exists (if en then closed_by (if st then STARTS_WITH else CONTAINS) else if st then STARTS_WITH else CONTAINS).
  split; [|by destruct st, en].
  pose proof (scan_pattern_complete text (if st then STARTS_WITH else CONTAINS) [] en
    ltac:(destruct st; auto) Hl Hlen) as Hs. cbn [app] in Hs.
  unfold render_simple. cbn [s_start s_text s_end]. destruct st; [exact Hs|]. cbn [app]. rewrite <- Hs.
  unfold scan. destruct Hl as [|c l Hc Hl]; [by destruct en|].
  unfold render_text. cbn [fmap list_fmap concat]. unfold render_char at 1 2.
  destruct (special_char c) eqn:Hsp; [done|]. destruct (c =? ch "\"); [done|]. cbn [orb app].
  destruct (Z.eqb_spec c (ch "^")) as [->|]; done.
Qed.

(** An engine for simple patterns only, to evaluate the theorems with. *)
Definition simple_engine : Regex := {|
  regex_t := simple;
  regcomp := fun pat => let '(mt, escape, pb) := scan pat in
    if bool_decide (mt = REGEX) || escape then None else Some (simple_of mt pb);
  re_nsub := fun _ => 0%nat;
  regexec := fun p s => (fun '(so, eo) => [(Z.of_nat so, Z.of_nat eo)]) <$> match_simple p s;
|}.

Lemma simple_engine_literals : @RegexLiterals simple_engine.
Proof.
  intros p Hl Hlen. exists p. split; [|done].
  destruct (scan_complete p Hl Hlen) as (mt & E & Hne & Hp). cbn [regcomp simple_engine]. rewrite E.
  rewrite bool_decide_false by done. cbn [orb]. by rewrite Hp.
Qed.

(** The comparison a classified route makes is the match of its simple pattern. *)
Lemma fast_match `{Regex} (r : matcher) before name c rest id pmatch :
  m_type r <> REGEX -> m_type r <> MATCHALL ->
  Forall (fun c => literal_char c = true) (m_strmatch r) -> literal_char c = false ->
  (m_type r = ENDS_WITH -> (length (m_strmatch r) <= length name)%nat) ->
  router_metric_matches r before name (c :: rest) id pmatch =
  match match_simple (simple_of (m_type r) (m_strmatch r)) name with
  | Some (so, eo) => (true, (Z.of_nat so, Z.of_nat eo) :: tail pmatch)
  | None => (false, pmatch)
  end.
Proof.
  intros Hr Ha Hl Hc Hend. unfold router_metric_matches, match_simple, simple_of, set_match0.
  cbn [s_text s_start s_end]. destruct (m_type r); try done; cbn.
  - destruct (strstr name (m_strmatch r)) as [so|]; [|done]. simpl. by rewrite Nat2Z.inj_add.
  - rewrite prefixb_stops by done. by destruct (prefixb (m_strmatch r) name).
  - specialize (Hend eq_refl). rewrite length_app.
    assert ((length (m_strmatch r) <=? length name)%nat = true) as -> by (by apply Nat.leb_le).
    assert ((Z.of_nat (length (m_strmatch r)) <=? Z.of_nat (length before + length name)) = true) as ->
      by (apply Z.leb_le; lia).
    assert (drop (length before + length name - length (m_strmatch r)) (before ++ name)
      = drop (length name - length (m_strmatch r)) name) as ->.
    { rewrite drop_app_ge by lia. f_equal. lia. }
    cbn [andb]. case_bool_decide; [|done]. do 3 f_equal; lia.
  - case_bool_decide as Hn; [|done]. do 3 f_equal. by rewrite Hn.
Qed.

(** ** Properties *)

(** C15: The fast path is the regex, for an engine that treats literal expressions as POSIX says ([RegexLiterals]),
    when [determine_if_regex] turns an expression without a dangling backslash into a string comparison: matching a
    metric with it then gives what the engine gives for the expression, the offsets included. For an ENDS_WITH
    comparison that is so on names that are not shorter than its text; on shorter ones the code reads in front of the
    metric ([ends_with_reads_before_metric]). *)
Theorem fast_match_is_regex `{Regex} (HR : RegexLiterals) (alloc : bool) (workers id : nat)
    (pat before name rest : cstring) (sep : cchar) (r : matcher) (pmatch : list regmatch) :
  determine_if_regex alloc workers pat = inl r -> m_type r <> REGEX -> (scan pat).1.2 = false ->
  literal_char sep = false ->
  (m_type r = ENDS_WITH -> (length (m_strmatch r) <= length name)%nat) ->
  exists rx, regcomp pat = Some rx /\
    router_metric_matches r before name (sep :: rest) id pmatch =
    match regexec rx name with
    | Some offs => (true, offs ++ tail pmatch)
    | None => (false, pmatch)
    end.
Proof.
  intros Hd Hne Hesc Hsep Hend. unfold determine_if_regex in Hd.
  destruct (scan pat) as [[mt escape] pb] eqn:Hs. cbn in Hesc. subst escape.
  case_bool_decide as Hr; cbn [negb] in Hd.
  { subst mt. destruct alloc; [|done]. cbn in Hd. destruct (regcomp pat); [|done].
    case_match; simplify_eq; done. }
  injection Hd as <-. cbn [m_type m_strmatch] in *.
  destruct (scan_sound _ _ _ Hs Hr) as (Hall & Hlit & Hpat).
  destruct (HR (simple_of mt pb) Hlit (scan_length _ _ _ _ Hs Hr)) as (rx & Hc & _ & Hx).
  exists rx. rewrite Hpat at 1. split; [done|]. rewrite Hx, fast_match by done. cbn [m_type m_strmatch].
  by destruct (match_simple _ _) as [[so eo]|].
Qed.

Lemma fast_match_is_regex_witness :
  exists rx, @regcomp simple_engine (lit "^sys\.cpu$") = Some rx /\
    @router_metric_matches simple_engine (mkMatcher simple_engine (lit "^sys\.cpu$") [] 0 (lit "sys.cpu") MATCHES)
      [] (lit "sys.cpu") (lit " 1 2") 1 [(0, 0)] =
    match @regexec simple_engine rx (lit "sys.cpu") with
    | Some offs => (true, offs ++ []) | None => (false, [(0, 0)])
    end.
Proof.
  apply (@fast_match_is_regex simple_engine simple_engine_literals true 2 1 (lit "^sys\.cpu$") []
    (lit "sys.cpu") (lit "1 2") (ch " ")); [reflexivity|discriminate|reflexivity|reflexivity|discriminate].
Defined.

(** Classification loses nothing and adds nothing: an expression that became a
    string comparison is the rendering of its text and anchors, and every text
    of ordinary and escaped characters is recognised as such. *)
Theorem classification_roundtrip (p : simple) (pat : cstring) (mt : matchtype) (text : cstring) :
  (Forall (fun c => literal_char c = true) (s_text p) -> Z.of_nat (length (s_text p)) < PATBUF_SIZE ->
   exists mt', scan (render_simple p) = (mt', false, s_text p) /\ mt' <> REGEX /\ simple_of mt' (s_text p) = p) /\
  (scan pat = (mt, false, text) -> mt <> REGEX -> render_simple (simple_of mt text) = pat).
Proof.
  split; [apply scan_complete|]. intros Hs Hr. by destruct (scan_sound _ _ _ Hs Hr) as (_ & _ & ->).
Qed.

Lemma classification_roundtrip_witness :
  (exists mt', scan (render_simple (mkSimple true (lit "a.b") false)) = (mt', false, lit "a.b") /\ mt' <> REGEX /\
     simple_of mt' (lit "a.b") = mkSimple true (lit "a.b") false) /\
  render_simple (simple_of ENDS_WITH (lit ".count")) = lit "\.count$".
Proof.
  split.
  - eapply (classification_roundtrip (mkSimple true (lit "a.b") false) [] REGEX []).
    + apply Forall_cons_2; [reflexivity|]. apply Forall_cons_2; [reflexivity|]. by apply Forall_singleton.
    + vm_compute. reflexivity.
  - eapply (classification_roundtrip (mkSimple true [] false) (lit "\.count$") ENDS_WITH (lit ".count"));
      [reflexivity|discriminate].
Defined.

(** A rule whose expression needs the regex engine and has no groups matches
    without storing offsets: [pmatch] keeps what it held before, although
    rewriting takes [pmatch[0]] as the part to replace. *)
Theorem match_without_groups_keeps_pmatch `{Regex} (alloc : bool) (workers id : nat)
    (pat before name rest : cstring) (r : matcher) (rx : regex_t) (pmatch : list regmatch) :
  determine_if_regex alloc workers pat = inl r -> m_type r = REGEX ->
  regcomp pat = Some rx -> re_nsub rx = 0%nat ->
  (router_metric_matches r before name rest id pmatch).2 = pmatch.
Proof.
  intros Hd Ht Hc Hn. unfold determine_if_regex in Hd. destruct (scan pat) as [[mt escape] pb].
  case_bool_decide as Hr; cbn [negb] in Hd; [|by simplify_eq/=].
  destruct alloc; [|done]. cbn in Hd. rewrite Hc, Hn in Hd. cbn in Hd. simplify_eq.
  unfold router_metric_matches. cbn [m_type m_rule m_nmatch]. by destruct (_ ≫= _).
Qed.

Lemma match_without_groups_keeps_pmatch_witness :
  let any := {| regex_t := unit; regcomp := fun _ => Some tt; re_nsub := fun _ => 0%nat;
                regexec := fun _ s => Some [(0, Z.of_nat (length s))] |} in
  exists r, @determine_if_regex any true 1 (lit "sys.*") = inl r /\
    (@router_metric_matches any r [] (lit "sys.cpu") (lit " 1 2") 1 [(7, 9)]).1 = true /\
    (@router_metric_matches any r [] (lit "sys.cpu") (lit " 1 2") 1 [(7, 9)]).2 = [(7, 9)].
Proof.
  eexists. split; [reflexivity|]. split; [reflexivity|].
  eapply (@match_without_groups_keeps_pmatch
    {| regex_t := unit; regcomp := fun _ => Some tt; re_nsub := fun _ => 0%nat;
       regexec := fun _ s => Some [(0, Z.of_nat (length s))] |} true 1 1 (lit "sys.*")); reflexivity.
Defined.

(** An ENDS_WITH comparison on a metric shorter than its text reads in front of
    the metric, and can match what lies there: with "foo." in front of it, the
    metric "bar" matches [foo\.bar$], at offset -4. *)
Theorem ends_with_reads_before_metric `{Regex} (id : nat) (rest : cstring) :
  router_metric_matches (mkMatcher _ (lit "foo\.bar$") [] 0 (lit "foo.bar") ENDS_WITH)
    (lit "foo.") (lit "bar") rest id [(0, 0)] = (true, [(-4, 3)]).
Proof. reflexivity. Qed.
