(* ===== verification/Router.v ===== *)
(** * Routing metrics (src/router.c, [router_route]; types of src/cluster.h)

    Routes are tried in order; the first dests that match get the metric, until a
    route says stop.  The routes form a tree: groups (made by the optimiser) and
    stubs (for aggregations and the collector) hold routes of their own.

    The line being routed is one buffer shared by all levels, [s_line]; a call
    works on the text from [off] (non-zero below a stub) with [firstspace] at
    [l_fs].  [rstate] is what the calls share, [locals] what one call keeps.
    [None] as a result is a lookup that does not return, or the failed assertion
    on an empty metric name; running out of destination slots is [Failed]. *)
From S2P Require Import Prelude Relay Fnv Md5 JumpHash ConsistentHash Rewrite Matching.
#[local] Open Scope Z_scope.

(** What routing needs to know of a server besides its address. *)
Class RouteServer (server : Type) := { server_is_syslog : server -> bool }.

Inductive validate_action := VAL_LOG | VAL_DROP.

Section Router.
Context {server : Type} `{EqDecision server} `{ServerInfo server} `{RouteServer server} `{Regex}.
Context {aggregator : Type}.

(** [enum clusttype] with the members of each type. *)
Inductive cluster :=
  | BLACKHOLE
  | GROUP (name : cstring) (routes : list route)
  | AGGRSTUB (routes : list route)
  | STATSTUB (routes : list route)
  | VALIDATION (rule : matcher) (action : validate_action)
  | FORWARD (srvs : list server)
  | FILELOG (srvs : list server)
  | FILELOGIP (srvs : list server)
  | CARBON_CH (repl_factor : nat) (ring : ch_ring server)
  | FNV1A_CH (repl_factor : nat) (ring : ch_ring server)
  | JUMP_CH (repl_factor : nat) (ring : ch_ring server)
  | ANYOF (srvs : list server)
  | FAILOVER (srvs : list server)
  | LB (srvs : list server)
  | AGGREGATION (a : aggregator)
  | REWRITE (replacement : cstring)
with route := mkRoute (m : matcher) (masq : option cstring) (stop : bool) (dests : list cluster).

Definition rt_match (w : route) : matcher := let 'mkRoute m _ _ _ := w in m.
Definition rt_masq (w : route) : option cstring := let 'mkRoute _ masq _ _ := w in masq.
Definition rt_stop (w : route) : bool := let 'mkRoute _ _ stop _ := w in stop.
Definition rt_dests (w : route) : list cluster := let 'mkRoute _ _ _ dests := w in dests.

(** What is copied for a destination: the length prefix and the text. *)
Record message := mkMsg { msg_len : Z; msg_text : cstring }.

(** A call of [aggregator_putmetric]. *)
Record aggr_call := mkCall { ac_aggr : aggregator; ac_name : cstring; ac_rest : cstring; ac_nmatch : Z; ac_pmatch : list regmatch }.

(** [*blackholed], [ret] (whose length is [*curlen]), the line, the calls. *)
Record rstate := mkSt {
  s_blackholed : bool;
  s_ret : list (server * message);
  s_line : cstring;
  s_calls : list aggr_call;
}.
Record locals := mkLoc { l_stop : bool; l_wassent : bool; l_fs : nat; l_pmatch : list regmatch }.

(** How a step ends: on to the next destination, past the remaining ones, or out
    of the whole function ([failif]). *)
Inductive control := Next | Skip | Failed.
Abbreviation result := (option (control * locals * rstate)) (only parsing).

(** The fixed arguments of a call: [retsize], [srcaddr], the time stamp of a syslog
    line, [dispatcher_id], the memory before the line, [pmatch] before it is set. *)
Record context := mkCtx {
  c_retsize : Z; c_srcaddr : cstring; c_now : cstring; c_dispatcher : nat;
  c_before : cstring; c_garbage : list regmatch;
}.
Context (cx : context).

(** ** Formatting *)

Definition router_format_linemode (metric : cstring) : message := mkMsg (Z.of_nat (length metric)) metric.
Definition snprintf_msg (text : cstring) : message :=
  mkMsg (Z.of_nat (length text)) (snprintf_trunc (Z.to_nat METRIC_BUFSIZ) text).
Definition router_format_linemodeip (metric : cstring) : message :=
  snprintf_msg (c_srcaddr cx ++ lit " " ++ metric).
Definition router_format_syslog (metric : cstring) : message :=
  snprintf_msg (lit "<30>1 " ++ c_now cx ++ lit " " ++ c_srcaddr cx ++ lit " carbon-c-relay - - - " ++ metric).

(** [produce_metric]. *)
Definition produce_metric (s : server) (metric : cstring) : message :=
  if server_is_syslog s then router_format_syslog metric else router_format_linemode metric.

(** ** Sending *)

Definition add_ret (st : rstate) (s : server) (m : message) : rstate :=
  mkSt (s_blackholed st) (s_ret st ++ [(s, m)]) (s_line st) (s_calls st).
Definition set_blackholed (st : rstate) : rstate :=
  mkSt true (s_ret st) (s_line st) (s_calls st).
Definition set_sent (lo : locals) : locals := mkLoc (l_stop lo) true (l_fs lo) (l_pmatch lo).

(** [failif(retsize, *curlen + n)]. *)
Definition no_slots (st : rstate) (n : Z) : bool := c_retsize cx <? Z.of_nat (length (s_ret st)) + n.

(** The loop over [members.forward]. *)
Fixpoint send_forward (fmt : server -> message) (srvs : list server) (lo : locals) (st : rstate) : result :=
  match srvs with
  | [] => Some (Next, set_sent lo, st)
  | s :: srvs' =>
      if no_slots st 1 then Some (Failed, lo, st)
      else send_forward fmt srvs' lo (add_ret st s (fmt s))
  end.

(** A single destination, [None] being a null dereference. *)
Definition send_one (s : option server) (metric : cstring) (lo : locals) (st : rstate) : result :=
  if no_slots st 1 then Some (Failed, lo, st)
  else match s with
       | None => None
       | Some s => Some (Next, set_sent lo, add_ret st s (produce_metric s metric))
       end.

(** The part of the line before and after [firstspace], from [off] on. *)
Definition metric_name (off : nat) (lo : locals) (st : rstate) : cstring :=
  take (l_fs lo - off) (drop off (s_line st)).
Definition metric_rest (lo : locals) (st : rstate) : cstring := drop (l_fs lo) (s_line st).
Definition metric_text (off : nat) (st : rstate) : cstring := drop off (s_line st).

(** The consistent-hash cases; [repl_factor] is an [unsigned char], passed as a [char]. *)
Definition send_ring (repl : nat) (ring : ch_ring server) (masq : option cstring) (nmatch : Z) (off : nat)
    (lo : locals) (st : rstate) : result :=
  let name := metric_name off lo st in
  if no_slots st (Z.of_nat repl) then Some (Failed, lo, st)
  else
    let key := match masq with
               | None => Some name
               | Some masq =>
                   match router_rewrite_metric name (metric_rest lo st) masq nmatch (l_pmatch lo) with
                   | None => None
                   | Some (new, fs) => Some (take fs new)
                   end
               end in
    match key with
    | None => Some (Next, lo, st)   (* logged, not sent *)
    | Some key =>
        match ch_get_nodes (length (entrylist ring)) 0 ring (s8 (Z.of_nat repl)) key with
        | None => None
        | Some nodes =>
            if (length nodes <? repl)%nat then None   (* uninitialised destinations *)
            else
              let new := (fun s => (s, produce_metric s (metric_text off st))) <$> take repl nodes in
              Some (Next, set_sent lo,
                    mkSt (s_blackholed st) (s_ret st ++ new) (s_line st) (s_calls st))
        end
    end.

(** [while (d->next != NULL) d = d->next]: the remaining dests are skipped. *)
Definition send_aggregation (a : aggregator) (nmatch : Z) (off : nat) (lo : locals) (st : rstate) : result :=
  Some (Skip, set_sent lo,
        mkSt (s_blackholed st) (s_ret st) (s_line st)
          (s_calls st ++ [mkCall a (metric_name off lo st) (metric_rest lo st) nmatch (l_pmatch lo)])).

Definition apply_rewrite (replacement : cstring) (nmatch : Z) (off : nat) (lo : locals) (st : rstate) : result :=
  match router_rewrite_metric (metric_name off lo st) (metric_rest lo st) replacement nmatch (l_pmatch lo) with
  | None => Some (Next, lo, st)
  | Some (new, fs) =>
      Some (Next, mkLoc (l_stop lo) (l_wassent lo) (off + fs) (l_pmatch lo),
            mkSt (s_blackholed st) (s_ret st) (take off (s_line st) ++ new) (s_calls st))
  end.

(** The data is what lies between [firstspace] and the last character of the line. *)
Definition run_validation (rule : matcher) (action : validate_action) (is_last : bool) (lo : locals) (st : rstate) :
    result :=
  let data := metric_rest lo st in
  let n := length data in
  let '(ok, pm) := router_metric_matches rule (c_before cx ++ take (l_fs lo + 1) (s_line st))
                     (take (n - 2) (drop 1 data)) (drop (n - 1) data) (c_dispatcher cx) (l_pmatch lo) in
  if ok then Some (Next, mkLoc (l_stop lo) (l_wassent lo) (l_fs lo) pm, st)
  else
    let wassent := match action with VAL_LOG => true | VAL_DROP => l_wassent lo end in
    Some (Skip, mkLoc (l_stop lo || is_last) wassent (l_fs lo) pm, st).

(** ** The group test *)

(** [pat] is stored in reverse; the metric name is read from its end. *)
Fixpoint group_scan (pat revname : cstring) : bool :=
  match revname with
  | [] => false
  | _ :: revname' => prefixb pat revname || group_scan pat revname'
  end.

(** ** Routing *)

(** What is common to the two kinds of stub: the pattern is stripped off and the
    rest is routed; [go] routes through the stub's routes. *)
Definition run_stub (go : nat -> nat -> rstate -> option (bool * rstate)) (pattern : cstring) (off : nat)
    (lo : locals) (st : rstate) : result :=
  match go (off + length pattern)%nat (l_fs lo) st with
  | None => None
  | Some (_, st) => Some (Next, if s_blackholed st then lo else set_sent lo, st)
  end.

(** The [switch] on the type of a destination's cluster; [go] routes through the
    routes of a stub, [rule]/[action] are those of the first dest. *)
Definition run_dest (go : list route -> nat -> nat -> rstate -> option (bool * rstate))
    (m : matcher) (masq : option cstring) (first : cluster) (off : nat)
    (d : cluster) (is_last : bool) (lo : locals) (st : rstate) : result :=
  let metric := metric_text off st in
  match d with
  | BLACKHOLE => Some (Next, lo, set_blackholed st)
  | FILELOGIP srvs => send_forward (fun _ => router_format_linemodeip metric) srvs lo st
  | FILELOG srvs | FORWARD srvs => send_forward (fun s => produce_metric s metric) srvs lo st
  | ANYOF srvs =>
      let hash := fnv1a_32 (metric_name off lo st) mod Z.of_nat (length srvs) in
      send_one (srvs !! Z.to_nat hash) metric lo st
  | FAILOVER srvs | LB srvs => send_one (srvs !! 0%nat) metric lo st
  | CARBON_CH repl ring | FNV1A_CH repl ring | JUMP_CH repl ring =>
      send_ring repl ring masq (m_nmatch m) off lo st
  | AGGREGATION a => send_aggregation a (m_nmatch m) off lo st
  | REWRITE replacement => apply_rewrite replacement (m_nmatch m) off lo st
  | AGGRSTUB _ | STATSTUB _ =>
      match first with
      | AGGRSTUB routes | STATSTUB routes | GROUP _ routes => run_stub (go routes) (m_pattern m) off lo st
      | _ => None
      end
  | VALIDATION _ _ =>
      match first with
      | VALIDATION rule action => run_validation rule action is_last lo st
      | _ => None
      end
  | GROUP _ _ => Some (Next, lo, st)
  end.

(** The loop over the dests of a route that matched. *)
Fixpoint run_dests (go : list route -> nat -> nat -> rstate -> option (bool * rstate))
    (m : matcher) (masq : option cstring) (first : cluster) (off : nat)
    (ds : list cluster) (lo : locals) (st : rstate) : option (bool * locals * rstate) :=
  match ds with
  | [] => Some (false, lo, st)
  | d :: ds' =>
      match run_dest go m masq first off d (bool_decide (length ds' = 0%nat)) lo st with
      | None => None
      | Some (Failed, lo, st) => Some (true, lo, st)
      | Some (Skip, lo, st) => Some (false, lo, st)
      | Some (Next, lo, st) => run_dests go m masq first off ds' lo st
      end
  end.

(** The loop over routes, given how one route is run: stop when one says so. *)
Fixpoint run_list (one : route -> nat -> locals -> rstate -> option (bool * locals * rstate))
    (rs : list route) (off : nat) (lo : locals) (st : rstate) : option (bool * locals * rstate) :=
  match rs with
  | [] => Some (false, lo, st)
  | w :: rs' =>
      match one w off lo st with
      | None => None
      | Some (true, lo, st) => Some (true, lo, st)
      | Some (false, lo, st) => if l_stop lo then Some (false, lo, st) else run_list one rs' off lo st
      end
  end.

(** A call of [router_route_intern]: the result [stop] and the state. *)
Definition run_call (one : route -> nat -> locals -> rstate -> option (bool * locals * rstate))
    (rs : list route) (off fs : nat) (st : rstate) : option (bool * rstate) :=
  match run_list one rs off (mkLoc false false fs (c_garbage cx)) st with
  | None => None
  | Some (true, _, st) => Some (true, st)
  | Some (false, lo, st) => Some (l_stop lo, if l_wassent lo then st else set_blackholed st)
  end.

(** One iteration of the loop over routes: whether [failif] returned, and the state. *)
Fixpoint run_route (w : route) (off : nat) (lo : locals) (st : rstate) {struct w} :
    option (bool * locals * rstate) :=
  match w with
  | mkRoute m masq stop dests =>
      match dests with
      | [] => None
      | GROUP name routes :: _ =>
          let revname := rev (metric_name off lo st) in
          match revname with
          | [] => None
          | _ =>
              if group_scan name revname then
                match run_call run_route routes off (l_fs lo) st with
                | None => None
                | Some (s, st) => Some (false, mkLoc s (l_wassent lo) (l_fs lo) (l_pmatch lo), st)
                end
              else Some (false, lo, st)
          end
      | first :: _ =>
          let '(ok, pm) := router_metric_matches m (c_before cx ++ take off (s_line st))
                             (metric_name off lo st) (metric_rest lo st) (c_dispatcher cx) (l_pmatch lo) in
          if ok then
            run_dests (fun rs => run_call run_route rs) m masq first off dests
              (mkLoc stop (l_wassent lo) (l_fs lo) pm) st
          else Some (false, mkLoc (l_stop lo) (l_wassent lo) (l_fs lo) pm, st)
      end
  end.

Definition router_route_intern (rs : list route) (off fs : nat) (st : rstate) : option (bool * rstate) :=
  run_call run_route rs off fs st.

(** [router_route]: the destinations, whether the metric was blackholed, and the
    calls of the aggregator. *)
Definition router_route (rs : list route) (line : cstring) (firstspace : nat) : option rstate :=
  snd <$> router_route_intern rs 0 firstspace (mkSt false [] line []).


(** ** Induction on the tree of routes *)

Definition sub_routes (d : cluster) : list route :=
  match d with GROUP _ rs | AGGRSTUB rs | STATSTUB rs => rs | _ => [] end.

Section Induction.
Context (P : route -> Prop).
Context (Hstep : forall m masq stop dests,
  Forall (fun d => Forall P (sub_routes d)) dests -> P (mkRoute m masq stop dests)).

Fixpoint route_tree_ind (w : route) : P w :=
  match w with
  | mkRoute m masq stop dests =>
      Hstep m masq stop dests
        ((fix on_dests (ds : list cluster) : Forall (fun d => Forall P (sub_routes d)) ds :=
            match ds with
            | [] => Forall_nil_2 _
            | d :: ds' =>
                Forall_cons_2 _ d ds'
                  (let on_routes := fix on_routes (rs : list route) : Forall P rs :=
                     match rs with
                     | [] => Forall_nil_2 _
                     | r :: rs' => Forall_cons_2 _ r rs' (route_tree_ind r) (on_routes rs')
                     end in
                   match d as d0 return Forall P (sub_routes d0) with
                   | GROUP _ rs | AGGRSTUB rs | STATSTUB rs => on_routes rs
                   | _ => Forall_nil_2 _
                   end)
                  (on_dests ds')
            end) dests)
  end.
End Induction.

(** ** Invariants of the shared state *)

Section Invariant.
(** [I] is kept by the four ways in which a call changes the state. *)
Context (I : rstate -> Prop).
Context (I_blackholed : forall st, I st -> I (set_blackholed st)).
Context (I_ret : forall st new, I st -> no_slots st (Z.of_nat (length new)) = false ->
  I (mkSt (s_blackholed st) (s_ret st ++ new) (s_line st) (s_calls st))).
Context (I_line : forall st line, I st -> I (mkSt (s_blackholed st) (s_ret st) line (s_calls st))).
Context (I_calls : forall st calls, I st -> I (mkSt (s_blackholed st) (s_ret st) (s_line st) calls)).

Lemma send_forward_inv fmt srvs lo st c lo' st' :
  send_forward fmt srvs lo st = Some (c, lo', st') -> I st -> I st'.
Proof.
  revert st. induction srvs as [|s srvs IH]; intros st; simpl; [by intros [= <- <- <-]|].
  destruct (no_slots st 1) eqn:E; [by intros [= <- <- <-]|]. intros Hs HI. eapply IH; [exact Hs|].
  by apply (I_ret st [(s, fmt s)]).
Qed.

Lemma send_one_inv s metric lo st c lo' st' :
  send_one s metric lo st = Some (c, lo', st') -> I st -> I st'.
Proof.
  unfold send_one. destruct (no_slots st 1) eqn:E; [by intros [= <- <- <-]|].
  destruct s as [s|]; [|done]. intros [= <- <- <-] HI. by apply (I_ret st [(s, _)]).
Qed.

Lemma send_ring_inv repl ring masq nmatch off lo st c lo' st' :
  send_ring repl ring masq nmatch off lo st = Some (c, lo', st') -> I st -> I st'.
Proof.
  unfold send_ring. destruct (no_slots st (Z.of_nat repl)) eqn:E; [by intros [= <- <- <-]|].
  destruct (match masq with Some _ => _ | None => _ end) as [key|]; [|by intros [= <- <- <-]].
  destruct (ch_get_nodes _ _ _ _ _) as [nodes|]; [|done].
  destruct (Nat.ltb_spec (length nodes) repl) as [|Hl]; [done|]. intros [= <- <- <-] HI.
  apply I_ret; [done|]. rewrite length_fmap, length_take. unfold no_slots in *.
  apply Z.ltb_ge. apply Z.ltb_ge in E. lia.
Qed.

Lemma run_dest_inv go m masq first off d is_last lo st c lo' st' :
  (forall rs off fs st s st', rs = sub_routes first -> go rs off fs st = Some (s, st') -> I st -> I st') ->
  run_dest go m masq first off d is_last lo st = Some (c, lo', st') -> I st -> I st'.
Proof.
  intros Hgo Hd HI.
  assert (forall rs, rs = sub_routes first -> run_stub (go rs) (m_pattern m) off lo st = Some (c, lo', st') -> I st') as Hstub.
  { intros rs Hrs. unfold run_stub. destruct (go rs _ _ _) as [[s st1]|] eqn:E; [|done].
    intros [= <- <- <-]. eauto. }
  destruct d; cbn [run_dest] in Hd;
    try (by eapply send_forward_inv); try (by eapply send_one_inv); try (by eapply send_ring_inv).
  - injection Hd as <- <- <-. auto.
  - by injection Hd as <- <- <-.
  - destruct first; try done; by eapply Hstub.
  - destruct first; try done; by eapply Hstub.
  - destruct first; try done. unfold run_validation in Hd. cbv zeta in Hd.
    destruct (router_metric_matches _ _ _ _ _ _) as [[|] pm]; injection Hd as <- <- <-; done.
  - unfold send_aggregation in Hd. injection Hd as <- <- <-. auto.
  - unfold apply_rewrite in Hd. destruct (router_rewrite_metric _ _ _ _ _) as [[new fs]|];
      injection Hd as <- <- <-; auto.
Qed.

Lemma run_dests_inv go m masq first off ds lo st b lo' st' :
  (forall rs off fs st s st', rs = sub_routes first -> go rs off fs st = Some (s, st') -> I st -> I st') ->
  run_dests go m masq first off ds lo st = Some (b, lo', st') -> I st -> I st'.
Proof.
  intros Hgo. revert lo st. induction ds as [|d ds IH]; intros lo st; simpl; [by intros [= <- <- <-]|].
  destruct (run_dest _ _ _ _ _ _ _ _ _) as [[[c lo1] st1]|] eqn:E; [|done]. intros Hr HI.
  assert (I st1) by (by eapply run_dest_inv).
  destruct c; [by eapply IH|by injection Hr as <- <- <-..].
Qed.

Lemma run_call_inv rs off fs st s st' :
  Forall (fun w => forall off lo st b lo' st', run_route w off lo st = Some (b, lo', st') -> I st -> I st') rs ->
  run_call run_route rs off fs st = Some (s, st') -> I st -> I st'.
Proof.
  intros Hrs. unfold run_call. generalize (mkLoc false false fs (c_garbage cx)) as lo.
  revert st. induction Hrs as [|w rs Hw Hrs IH]; intros st lo; cbn [run_list].
  { destruct (l_wassent lo); intros [= <- <-]; auto. }
  destruct (run_route w off lo st) as [[[[|] lo1] st1]|] eqn:E; [intros [= <- <-]; eauto| |done].
  destruct (l_stop lo1); [|intros Hr HI; eapply IH; eauto].
  destruct (l_wassent lo1); intros [= <- <-]; eauto.
Qed.

Lemma run_route_inv w off lo st b lo' st' :
  run_route w off lo st = Some (b, lo', st') -> I st -> I st'.
Proof.
  revert off lo st b lo' st'. induction w as [m masq stop dests Hsub] using route_tree_ind.
  intros off lo st b lo' st'. cbn [run_route]. destruct dests as [|first ds]; [done|].
  apply Forall_cons in Hsub as [Hfirst _].
  assert (forall b lo' st', (let '(ok, pm) := router_metric_matches m (c_before cx ++ take off (s_line st))
      (metric_name off lo st) (metric_rest lo st) (c_dispatcher cx) (l_pmatch lo) in
    if ok then run_dests (fun rs => run_call run_route rs) m masq first off (first :: ds)
      (mkLoc stop (l_wassent lo) (l_fs lo) pm) st
    else Some (false, mkLoc (l_stop lo) (l_wassent lo) (l_fs lo) pm, st)) = Some (b, lo', st') -> I st -> I st') as Hplain.
  { clear b lo' st'. intros b lo' st'. destruct (router_metric_matches _ _ _ _ _ _) as [[|] pm]; [|by intros [= <- <- <-]].
    intros Hr. eapply run_dests_inv; [|exact Hr].
    intros rs off' fs' st0 s st0' -> Hc. by eapply run_call_inv. }
  destruct first; try exact (Hplain b lo' st').
  destruct (rev _); [done|]. destruct (group_scan _ _); [|by intros [= <- <- <-]].
  destruct (run_call run_route routes off (l_fs lo) st) as [[s st1]|] eqn:E; [|done].
  intros [= <- <- <-]. by eapply run_call_inv.
Qed.

Lemma router_route_inv rs line fs st :
  I (mkSt false [] line []) -> router_route rs line fs = Some st -> I st.
Proof.
  intros HI. unfold router_route, router_route_intern.
  destruct (run_call _ _ _ _ _) as [[s st1]|] eqn:E; [|done]. intros [= <-].
  eapply run_call_inv; [|exact E|exact HI]. apply Forall_forall. intros w _. intros *. apply run_route_inv.
Qed.
End Invariant.

(** ** Plain routes *)

(** Destinations that only depend on the metric: no rewriting, aggregation,
    validation or stubs. *)
Definition plain_dest (d : cluster) : bool :=
  match d with
  | BLACKHOLE | FORWARD _ | FILELOG _ | FILELOGIP _ | CARBON_CH _ _ | FNV1A_CH _ _ | JUMP_CH _ _
  | ANYOF _ | FAILOVER _ | LB _ => true
  | _ => false
  end.
Definition plain_route (w : route) : Prop :=
  rt_masq w = None /\ rt_dests w <> [] /\ Forall (fun d => plain_dest d = true) (rt_dests w).

(** What routing does, apart from the blackholed statistic. *)
Definition obs (st : rstate) : list (server * message) * cstring * list aggr_call :=
  (s_ret st, s_line st, s_calls st).

(** Same outcome, with the same effect. *)
Definition same_run {X} (r r' : option (X * locals * rstate)) : Prop :=
  match r, r' with
  | None, None => True
  | Some (x, lo, st), Some (x', lo', st') =>
      x = x' /\ l_stop lo = l_stop lo' /\ l_fs lo = l_fs lo' /\ obs st = obs st'
  | _, _ => False
  end.

Definition same_in (lo lo' : locals) (st st' : rstate) : Prop :=
  l_stop lo = l_stop lo' /\ l_fs lo = l_fs lo' /\ obs st = obs st'.

Lemma same_in_eqs lo lo' st st' :
  same_in lo lo' st st' ->
  s_ret st = s_ret st' /\ s_line st = s_line st' /\ s_calls st = s_calls st' /\ l_fs lo = l_fs lo' /\
  l_stop lo = l_stop lo'.
Proof. intros (? & ? & [= ? ? ?]). done. Qed.

Lemma send_forward_same fmt srvs lo lo' st st' :
  same_in lo lo' st st' -> same_run (send_forward fmt srvs lo st) (send_forward fmt srvs lo' st').
Proof.
  revert st st'. induction srvs as [|s srvs IH]; intros st st' Hs; cbn [send_forward]; [done|].
  destruct (same_in_eqs _ _ _ _ Hs) as (E1 & E2 & E3 & E4 & E5). unfold no_slots. rewrite E1.
  destruct (_ <? _); [done|]. apply IH. split_and!; [done..|].
  unfold obs, add_ret. cbn [s_ret s_line s_calls]. by rewrite ?E1, ?E2, ?E3.
Qed.

Lemma send_one_same s metric lo lo' st st' :
  same_in lo lo' st st' -> same_run (send_one s metric lo st) (send_one s metric lo' st').
Proof.
  intros Hs. destruct (same_in_eqs _ _ _ _ Hs) as (E1 & E2 & E3 & E4 & E5).
  unfold send_one, no_slots. rewrite E1. destruct (_ <? _); [done|]. destruct s as [s|]; [|done].
  split_and!; [done..|]. unfold obs, add_ret. cbn [s_ret s_line s_calls]. by rewrite ?E1, ?E2, ?E3.
Qed.

Lemma send_ring_same repl ring nmatch off lo lo' st st' :
  same_in lo lo' st st' ->
  same_run (send_ring repl ring None nmatch off lo st) (send_ring repl ring None nmatch off lo' st').
Proof.
  intros Hs. destruct (same_in_eqs _ _ _ _ Hs) as (E1 & E2 & E3 & E4 & E5).
  unfold send_ring, no_slots, metric_name, metric_text. rewrite E1, E2, E4. destruct (_ <? _); [done|].
  destruct (ch_get_nodes _ _ _ _ _) as [nodes|]; [|done]. destruct (_ <? _)%nat; [done|].
  split_and!; [done..|]. unfold obs. cbn [s_ret s_line s_calls]. by rewrite ?E1, ?E2, ?E3.
Qed.

Lemma run_dest_same go go' m first first' off d last lo lo' st st' :
  plain_dest d = true -> same_in lo lo' st st' ->
  same_run (run_dest go m None first off d last lo st) (run_dest go' m None first' off d last lo' st').
Proof.
  intros Hd Hs. destruct (same_in_eqs _ _ _ _ Hs) as (E1 & E2 & E3 & E4 & E5).
  destruct d; try done; cbn [run_dest]; unfold metric_text, metric_name; rewrite ?E2, ?E4;
    auto using send_forward_same, send_one_same, send_ring_same.
Qed.

Lemma run_dests_same go go' m first first' off ds lo lo' st st' :
  Forall (fun d => plain_dest d = true) ds -> same_in lo lo' st st' ->
  same_run (run_dests go m None first off ds lo st) (run_dests go' m None first' off ds lo' st').
Proof.
  intros Hds. revert lo lo' st st'. induction Hds as [|d ds Hd Hds IH]; intros lo lo' st st' Hs; [done|].
  cbn [run_dests].
  pose proof (run_dest_same go go' m first first' off d (bool_decide (length ds = 0%nat)) _ _ _ _ Hd Hs) as Hr.
  destruct (run_dest go _ _ _ _ _ _ _ _) as [[[c lo1] st1]|], (run_dest go' _ _ _ _ _ _ _ _) as [[[c' lo1'] st1']|];
    try done. destruct Hr as (<- & Hr). destruct c; [by apply IH|done..].
Qed.

Lemma matches_bool (m : matcher) before name rest id pm pm' :
  (router_metric_matches m before name rest id pm).1 = (router_metric_matches m before name rest id pm').1.
Proof.
  unfold router_metric_matches. destruct (m_type m); try done; by repeat case_match.
Qed.

Lemma run_route_same w off lo lo' st st' :
  plain_route w -> same_in lo lo' st st' -> same_run (run_route w off lo st) (run_route w off lo' st').
Proof.
  destruct w as [m masq stop dests]. intros (Hmasq & Hne & Hds) Hs. cbn in *. subst masq.
  destruct (same_in_eqs _ _ _ _ Hs) as (E1 & E2 & E3 & E4 & E5).
  destruct dests as [|d ds]; [done|]. pose proof Hds as [Hd _]%Forall_cons.
  pose proof (matches_bool m (c_before cx ++ take off (s_line st)) (metric_name off lo st) (metric_rest lo st)
    (c_dispatcher cx) (l_pmatch lo) (l_pmatch lo')) as Hb.
  assert (same_run
    (let '(ok, pm) := router_metric_matches m (c_before cx ++ take off (s_line st)) (metric_name off lo st)
       (metric_rest lo st) (c_dispatcher cx) (l_pmatch lo) in
     if ok then run_dests (fun rs => run_call run_route rs) m None d off (d :: ds) (mkLoc stop (l_wassent lo) (l_fs lo) pm) st
     else Some (false, mkLoc (l_stop lo) (l_wassent lo) (l_fs lo) pm, st))
    (let '(ok, pm) := router_metric_matches m (c_before cx ++ take off (s_line st')) (metric_name off lo' st')
       (metric_rest lo' st') (c_dispatcher cx) (l_pmatch lo') in
     if ok then run_dests (fun rs => run_call run_route rs) m None d off (d :: ds) (mkLoc stop (l_wassent lo') (l_fs lo') pm) st'
     else Some (false, mkLoc (l_stop lo') (l_wassent lo') (l_fs lo') pm, st'))) as Hgoal.
  { unfold metric_name, metric_rest in *. rewrite <- E2, <- E4.
    destruct (router_metric_matches _ _ _ _ _ (l_pmatch lo)) as [ok pm],
      (router_metric_matches _ _ _ _ _ (l_pmatch lo')) as [ok' pm']. cbn in Hb. subst ok'.
    destruct Hs as (Hs1 & Hs2 & Hs3). destruct ok; [|split_and!; cbn; congruence]. apply run_dests_same; [done|]. by split_and!. }
  destruct d; try done; exact Hgoal.
Qed.

Lemma run_list_same rs off lo lo' st st' :
  Forall plain_route rs -> same_in lo lo' st st' ->
  same_run (run_list run_route rs off lo st) (run_list run_route rs off lo' st').
Proof.
  intros Hrs. revert lo lo' st st'. induction Hrs as [|w rs Hw Hrs IH]; intros lo lo' st st' Hs; [done|].
  cbn [run_list]. pose proof (run_route_same w off _ _ _ _ Hw Hs) as Hr.
  destruct (run_route w off lo st) as [[[b lo1] st1]|], (run_route w off lo' st') as [[[b' lo1'] st1']|]; try done.
  destruct Hr as (<- & Hr & Hfs & Ho). destruct b; [done|]. rewrite <- Hr.
  destruct (l_stop lo1) eqn:Estop; [split_and!; congruence|]. apply IH. split_and!; congruence.
Qed.

Lemma run_list_app rs1 rs2 off lo st :
  l_stop lo = false ->
  run_list run_route (rs1 ++ rs2) off lo st =
  match run_list run_route rs1 off lo st with
  | None => None
  | Some (true, lo, st) => Some (true, lo, st)
  | Some (false, lo, st) => if l_stop lo then Some (false, lo, st) else run_list run_route rs2 off lo st
  end.
Proof.
  revert lo st. induction rs1 as [|w rs1 IH]; intros lo st Hstop; cbn [run_list app]; [by rewrite Hstop|].
  destruct (run_route w off lo st) as [[[[|] lo1] st1]|]; try done.
  destruct (l_stop lo1) eqn:E; [by rewrite E|]. by apply IH.
Qed.

(** Plain routes leave the line and [firstspace] alone. *)
Lemma run_dest_fs go m first off d last lo st c lo' st' :
  plain_dest d = true -> run_dest go m None first off d last lo st = Some (c, lo', st') ->
  l_stop lo' = l_stop lo /\ l_fs lo' = l_fs lo /\ s_line st' = s_line st.
Proof.
  assert (forall fmt srvs lo st, send_forward fmt srvs lo st = Some (c, lo', st') ->
    l_stop lo' = l_stop lo /\ l_fs lo' = l_fs lo /\ s_line st' = s_line st) as Hf.
  { intros fmt srvs. induction srvs as [|s srvs IH]; intros lo0 st0; cbn [send_forward]; [by intros [= <- <- <-]|].
    destruct (no_slots st0 1); [by intros [= <- <- <-]|]. intros E. by apply IH in E. }
  intros Hd. destruct d; try done; cbn [run_dest]; try apply Hf; unfold send_one, send_ring;
    repeat case_match; intros; by simplify_eq.
Qed.

Lemma run_dests_fs go m first off ds lo st b lo' st' :
  Forall (fun d => plain_dest d = true) ds ->
  run_dests go m None first off ds lo st = Some (b, lo', st') ->
  l_stop lo' = l_stop lo /\ l_fs lo' = l_fs lo /\ s_line st' = s_line st.
Proof.
  intros Hds. revert lo st. induction Hds as [|d ds Hd Hds IH]; intros lo st; cbn [run_dests]; [by intros [= <- <- <-]|].
  destruct (run_dest _ _ _ _ _ _ _ _ _) as [[[c lo1] st1]|] eqn:E; [|done].
  apply run_dest_fs in E as (? & ? & ?); [|done]. destruct c; [|by intros [= <- <- <-]..].
  intros Hr. apply IH in Hr as (? & ? & ?). split_and!; congruence.
Qed.

Lemma run_list_fs rs off lo st b lo' st' :
  Forall plain_route rs -> run_list run_route rs off lo st = Some (b, lo', st') ->
  l_fs lo' = l_fs lo /\ s_line st' = s_line st.
Proof.
  intros Hrs. revert lo st. induction Hrs as [|w rs Hw Hrs IH]; intros lo st; cbn [run_list]; [by intros [= <- <- <-]|].
  destruct (run_route w off lo st) as [[[b1 lo1] st1]|] eqn:E; [|done].
  assert (l_fs lo1 = l_fs lo /\ s_line st1 = s_line st) as [Hfs Hline].
  { destruct w as [m masq stop dests], Hw as (Hm & Hne & Hds). cbn in Hm, Hne, Hds. subst masq.
    destruct dests as [|d ds]; [done|]. cbn [run_route] in E. pose proof Hds as [Hd _]%Forall_cons.
    destruct (router_metric_matches _ _ _ _ _ _) as [[|] pm], d; try done;
      first [by apply run_dests_fs in E as (_ & ? & ?) | by injection E as <- <- <-]. }
  destruct b1; [by intros [= <- <- <-]|]. destruct (l_stop lo1); [by intros [= <- <- <-]|].
  intros Hr. apply IH in Hr as [? ?]. split; congruence.
Qed.

(** ** Groups *)

(** A group for a text none of its routes matches the metric without, as the
    optimiser makes them from the tail of the routes' patterns; [name] is that text
    in reverse. *)
Definition group_covers (before nm rest name : cstring) (rs : list route) : Prop :=
  group_scan name (rev nm) = false ->
  Forall (fun w => forall pm, (router_metric_matches (rt_match w) before nm rest (c_dispatcher cx) pm).1 = false) rs.

Lemma run_list_unmatched name rs off lo st :
  Forall plain_route rs ->
  group_covers (c_before cx ++ take off (s_line st)) (metric_name off lo st) (metric_rest lo st) name rs ->
  group_scan name (rev (metric_name off lo st)) = false -> l_stop lo = false ->
  exists lo', run_list run_route rs off lo st = Some (false, lo', st) /\
    l_stop lo' = false /\ l_fs lo' = l_fs lo /\ l_wassent lo' = l_wassent lo.
Proof.
  intros Hp Hcov Hscan Hstop. specialize (Hcov Hscan). revert lo Hscan Hcov Hstop.
  induction rs as [|w rs IH]; intros lo Hscan Hcov Hstop.
  { exists lo. split_and!; done. }
  apply Forall_cons in Hp as [Hpw Hp]. apply Forall_cons in Hcov as [Hw Hcov]. cbn [run_list].
  destruct w as [m masq stop dests], Hpw as (_ & Hne & Hds). cbn [rt_match rt_dests] in *.
  specialize (Hw (l_pmatch lo)).
  destruct dests as [|d ds]; [done|]. apply Forall_cons in Hds as [Hd _].
  assert (exists pm, run_route (mkRoute m masq stop (d :: ds)) off lo st
    = Some (false, mkLoc (l_stop lo) (l_wassent lo) (l_fs lo) pm, st)) as [pm ->].
  { exists (router_metric_matches m (c_before cx ++ take off (s_line st)) (metric_name off lo st)
      (metric_rest lo st) (c_dispatcher cx) (l_pmatch lo)).2. cbn [run_route].
    destruct (router_metric_matches _ _ _ _ _ _) as [ok pm]. cbn in Hw. subst ok. by destruct d. }
  cbn [l_stop]. rewrite Hstop. apply (IH Hp (mkLoc false (l_wassent lo) (l_fs lo) pm)); done.
Qed.

(** Running a group and running its routes have the same effect; a failure inside
    the group comes back as a stop. *)
Lemma run_group name rs mg masq stop off lo st :
  Forall plain_route rs ->
  group_covers (c_before cx ++ take off (s_line st)) (metric_name off lo st) (metric_rest lo st) name rs ->
  metric_name off lo st <> [] -> l_stop lo = false ->
  match run_list run_route rs off lo st, run_route (mkRoute mg masq stop [GROUP name rs]) off lo st with
  | None, None => True
  | Some (fail, lo1, st1), Some (false, lo2, st2) =>
      obs st1 = obs st2 /\ l_stop lo2 = fail || l_stop lo1 /\ l_fs lo2 = l_fs lo /\ (fail = true \/ l_fs lo1 = l_fs lo)
  | _, _ => False
  end.
Proof.
  intros Hp Hc Hname Hstop. cbn [run_route].
  assert (exists c k, rev (metric_name off lo st) = c :: k) as (c & k & Hrev).
  { destruct (rev (metric_name off lo st)) eqn:E; [|eauto].
    apply (f_equal (@rev Z)) in E. by rewrite rev_involutive in E. }
  rewrite Hrev. rewrite <- Hrev. destruct (group_scan name (rev (metric_name off lo st))) eqn:Hscan.
  2: { destruct (run_list_unmatched name rs off lo st Hp Hc Hscan Hstop) as (lo' & -> & ? & ? & ?).
       split_and!; [done|cbn; congruence|done|by right]. }
  unfold run_call.
  pose proof (run_list_same rs off lo (mkLoc false false (l_fs lo) (c_garbage cx)) st st Hp
    ltac:(by split_and!)) as Hsame.
  pose proof (fun b lo1 st1 E => proj1 (run_list_fs rs off lo st b lo1 st1 Hp E)) as Hfs.
  destruct (run_list run_route rs off lo st) as [[[b lo1] st1]|] eqn:E1,
    (run_list run_route rs off (mkLoc _ _ _ _) st) as [[[b' lo1'] st1']|]; try done.
  destruct Hsame as (<- & Hstop1 & _ & Ho). destruct b; cbn [l_stop l_fs].
  - split_and!; [done|done|done|by left].
  - split_and!; [|by rewrite Hstop1|done|right; eauto].
    by destruct (l_wassent lo1').
Qed.


(** The effect of routing through a list of routes. *)
Definition route_effect (r : option (bool * rstate)) : option (bool * (list (server * message) * cstring * list aggr_call)) :=
  match r with None => None | Some (s, st) => Some (s, obs st) end.

Lemma run_call_effect rs off fs st :
  route_effect (run_call run_route rs off fs st) =
  match run_list run_route rs off (mkLoc false false fs (c_garbage cx)) st with
  | None => None
  | Some (fail, lo, st) => Some (fail || l_stop lo, obs st)
  end.
Proof.
  unfold run_call. destruct (run_list _ _ _ _ _) as [[[[|] lo] st1]|]; try done.
  cbn [route_effect orb]. by destruct (l_wassent lo).
Qed.

Lemma group_transparent_intern rs1 name rs rs2 mg masq stop off fs st :
  Forall plain_route rs1 -> Forall plain_route rs -> Forall plain_route rs2 ->
  group_covers (c_before cx ++ take off (s_line st)) (take (fs - off) (drop off (s_line st))) (drop fs (s_line st)) name rs ->
  take (fs - off) (drop off (s_line st)) <> [] ->
  route_effect (run_call run_route (rs1 ++ mkRoute mg masq stop [GROUP name rs] :: rs2) off fs st) =
  route_effect (run_call run_route (rs1 ++ rs ++ rs2) off fs st).
Proof.
  intros H1p Hp H2p Hc Hname. rewrite !run_call_effect, !run_list_app by done.
  destruct (run_list run_route rs1 off _ st) as [[[[|] lo1] st1]|] eqn:E1; [done| |done].
  destruct (l_stop lo1) eqn:Hstop; [done|].
  apply run_list_fs in E1 as [Hfs Hline]; [|done]. cbn [l_fs] in Hfs.
  rewrite run_list_app by done. cbn [run_list].
  assert (metric_name off lo1 st1 <> []) as Hname1 by (unfold metric_name; by rewrite Hfs, Hline).
  assert (group_covers (c_before cx ++ take off (s_line st1)) (metric_name off lo1 st1) (metric_rest lo1 st1) name rs)
    as Hc1 by (unfold metric_name, metric_rest; by rewrite Hfs, Hline).
  pose proof (run_group name rs mg masq stop off lo1 st1 Hp Hc1 Hname1 Hstop) as Hg.
  destruct (run_list run_route rs off lo1 st1) as [[[fail lo2] st2]|],
    (run_route _ off lo1 st1) as [[[[|] lo3] st3]|]; try done.
  destruct Hg as (Ho & Hs & Hf3 & Hf2). rewrite Hs.
  destruct fail; cbn [orb]; [by rewrite Ho, Hs|]. destruct Hf2 as [?|Hf2]; [done|].
  destruct (l_stop lo2) eqn:Hstop2; cbn [orb] in *; [by rewrite Hstop2, Ho, Hs|].
  pose proof (run_list_same rs2 off lo2 lo3 st2 st3 H2p ltac:(split_and!; congruence)) as Hr.
  destruct (run_list run_route rs2 off lo2 st2) as [[[b lo4] st4]|],
    (run_list run_route rs2 off lo3 st3) as [[[b' lo4'] st4']|]; try done.
  destruct Hr as (-> & Hr & _ & Ho4). by rewrite Hr, Ho4.
Qed.

(** The text of a group is found exactly when the metric contains it. *)
Lemma group_scan_contains pat nm :
  pat <> [] -> group_scan pat (rev nm) = true <-> exists a b, nm = a ++ rev pat ++ b.
Proof.
  intros Hpat. assert (forall rn, group_scan pat rn = true <-> exists a b, rn = a ++ pat ++ b) as Hrn.
  { induction rn as [|c rn IH]; cbn [group_scan].
    - split; [done|]. intros (a & b & E). destruct a, pat; done.
    - rewrite orb_true_iff, IH. unfold prefixb. rewrite bool_decide_eq_true. split.
      + intros [E|(a & b & ->)]; [|by exists (c :: a), b].
        exists [], (drop (length pat) (c :: rn)). cbn [app]. rewrite <- E at 1. by rewrite take_drop.
      + intros ([|x a] & b & E); [left|right; injection E as -> ->; eauto].
        cbn [app] in E. rewrite E. apply take_app_length. }
  rewrite Hrn. split; intros (a & b & E).
  - exists (rev b), (rev a). rewrite <- (rev_involutive nm), E, !rev_app_distr. by rewrite (assoc_L app).
  - exists (rev b), (rev a). rewrite E, !rev_app_distr, rev_involutive. by rewrite (assoc_L app).
Qed.

(** ** Routing always ends *)

(** Rings a lookup returns on: built ones, with enough servers for the factor. *)
Definition ring_wf (repl : nat) (ring : ch_ring server) : Prop :=
  (repl <= 127)%nat /\
  match r_type ring with
  | JUMP_FNV1a => (1 <= repl <= length (entrylist ring))%nat /\ entrycnt ring <= 2 ^ 31
  | _ => ring_ok (entrylist ring) /\ (2 <= length (entrylist ring))%nat /\
         (repl <= length (uniq (e_server <$> entrylist ring)))%nat
  end.

(** Destinations as the parser makes them, for a route whose first one is [first]. *)
Definition dest_wf (first d : cluster) : Prop :=
  match d with
  | ANYOF srvs | FAILOVER srvs | LB srvs => srvs <> []
  | CARBON_CH repl ring | FNV1A_CH repl ring | JUMP_CH repl ring => ring_wf repl ring
  | AGGRSTUB _ | STATSTUB _ => match first with AGGRSTUB _ | STATSTUB _ => True | _ => False end
  | VALIDATION _ _ => match first with VALIDATION _ _ => True | _ => False end
  | GROUP _ _ => False
  | _ => True
  end.

Inductive route_wf : route -> Prop :=
  route_wf_intro m masq stop d ds :
    Forall (dest_wf d) (d :: ds) -> Forall route_wf (sub_routes d) -> route_wf (mkRoute m masq stop (d :: ds)).

Lemma s8_small n : (n <= 127)%nat -> s8 (Z.of_nat n) = Z.of_nat n.
Proof. intros. unfold s8. rewrite Z.mod_small; lia. Qed.

Lemma send_ring_total repl ring masq nmatch off lo st :
  ring_wf repl ring -> exists r, send_ring repl ring masq nmatch off lo st = Some r.
Proof.
  intros [Hrepl Hring]. unfold send_ring. destruct (no_slots _ _); [eauto|].
  destruct (match masq with Some _ => _ | None => _ end) as [key|]; [|eauto].
  assert (exists nodes, ch_get_nodes (length (entrylist ring)) 0 ring (s8 (Z.of_nat repl)) key = Some nodes /\
    (repl <= length nodes)%nat) as (nodes & -> & Hl).
  2: { destruct (Nat.ltb_spec (length nodes) repl); [lia|eauto]. }
  rewrite s8_small by done.
  assert (forall pos, ring_ok (entrylist ring) /\ (2 <= length (entrylist ring))%nat /\
      (repl <= length (uniq (e_server <$> entrylist ring)))%nat ->
    exists nodes, (t ← ch_search (length (entrylist ring)) (pos_at ring 0) pos 0 (length (entrylist ring));
      ch_walk (length (entrylist ring)) (e_server <$> entrylist ring) (Z.of_nat repl) t []) = Some nodes /\
    (repl <= length nodes)%nat) as Hsearch.
  { intros pos (Hok & Hn & Hr). rewrite ring_lookup_spec by (done || lia). eexists. split; [done|].
    rewrite length_take.
    rewrite (uniq_length (clockwise (entrylist ring) pos) (e_server <$> entrylist ring)); [lia|].
    apply elem_of_clockwise. }
  unfold ch_get_nodes. destruct (r_type ring); [by apply Hsearch..|].
  destruct Hring as [? Hn]. unfold entrycnt in Hn.
  destruct (jump_nodes_spec (length (entrylist ring)) (e_server <$> entrylist ring) (fnv1a_64 key)
    (u16 (Z.of_nat repl)) []) as (out & E & _ & Hlen); [by rewrite length_fmap|done| |].
  - unfold u16. rewrite Z.mod_small; lia.
  - exists out. split; [done|]. rewrite Hlen. unfold u16. rewrite Z.mod_small by lia. lia.
Qed.

Lemma send_one_total s metric lo st : is_Some s -> exists r, send_one s metric lo st = Some r.
Proof. intros [x ->]. unfold send_one. destruct (no_slots _ _); eauto. Qed.

Lemma run_dest_total go m masq first off d last lo st :
  (forall off fs st, exists r, go (sub_routes first) off fs st = Some r) -> dest_wf first d ->
  exists r, run_dest go m masq first off d last lo st = Some r.
Proof.
  intros Hgo Hd.
  assert (forall fmt srvs lo st, exists r, send_forward fmt srvs lo st = Some r) as Hfwd.
  { intros fmt srvs. induction srvs as [|s srvs IH]; intros lo0 st0; cbn [send_forward]; [eauto|].
    destruct (no_slots _ _); eauto. }
  assert (forall pat, exists r, run_stub (go (sub_routes first)) pat off lo st = Some r) as Hstub.
  { intros pat. unfold run_stub. destruct (Hgo (off + length pat)%nat (l_fs lo) st) as [[b st'] ->]. eauto. }
  destruct d; cbn [run_dest dest_wf] in *; try done; try (by eauto); try (by apply send_ring_total).
  - destruct first; try done; apply Hstub.
  - destruct first; try done; apply Hstub.
  - destruct first; try done. unfold run_validation. cbv zeta.
    destruct (router_metric_matches _ _ _ _ _ _) as [[|] pm]; eauto.
  - apply send_one_total, lookup_lt_is_Some_2. destruct srvs as [|s srvs]; [done|].
    pose proof (Z.mod_pos_bound (fnv1a_32 (metric_name off lo st)) (Z.of_nat (length (s :: srvs))) ltac:(simpl; lia)).
    lia.
  - apply send_one_total. by destruct srvs.
  - apply send_one_total. by destruct srvs.
  - unfold apply_rewrite. destruct (router_rewrite_metric _ _ _ _ _) as [[? ?]|]; eauto.
Qed.

Lemma run_call_total rs off fs st :
  Forall (fun w => forall off lo st, exists r, run_route w off lo st = Some r) rs ->
  exists r, run_call run_route rs off fs st = Some r.
Proof.
  intros Hrs. unfold run_call. generalize (mkLoc false false fs (c_garbage cx)) as lo. revert st.
  induction Hrs as [|w rs Hw Hrs IH]; intros st lo; cbn [run_list]; [eauto|].
  destruct (Hw off lo st) as [[[[|] lo1] st1] ->]; [eauto|]. destruct (l_stop lo1); eauto.
Qed.

Lemma run_route_total w off lo st : route_wf w -> exists r, run_route w off lo st = Some r.
Proof.
  revert off lo st. induction w as [m masq stop dests IH] using route_tree_ind. intros off lo st Hw.
  inversion Hw as [m' masq' stop' d ds Hds Hsub]; subst. apply Forall_cons in IH as [IHd _].
  assert (forall off fs st, exists r, run_call run_route (sub_routes d) off fs st = Some r) as Hgo.
  { intros off' fs' st'. apply run_call_total. apply Forall_forall. intros w Hin off0 lo0 st0.
    rewrite Forall_forall in IHd, Hsub. auto. }
  assert (exists r, (let '(ok, pm) := router_metric_matches m (c_before cx ++ take off (s_line st))
      (metric_name off lo st) (metric_rest lo st) (c_dispatcher cx) (l_pmatch lo) in
    if ok then run_dests (fun rs => run_call run_route rs) m masq d off (d :: ds) (mkLoc stop (l_wassent lo) (l_fs lo) pm) st
    else Some (false, mkLoc (l_stop lo) (l_wassent lo) (l_fs lo) pm, st)) = Some r) as Hgoal.
  { destruct (router_metric_matches _ _ _ _ _ _) as [[|] pm]; [|eauto].
    generalize (mkLoc stop (l_wassent lo) (l_fs lo) pm) as lo1. clear Hw IHd Hsub lo. revert st.
    induction Hds as [|d' ds' Hd' Hds IHds]; intros st lo1; cbn [run_dests]; [eauto|].
    destruct (run_dest_total (fun rs => run_call run_route rs) m masq d off d'
      (bool_decide (length ds' = 0%nat)) lo1 st Hgo Hd') as [[[[| |] lo2] st2] ->]; eauto. }
  apply Forall_cons in Hds as [Hd _]. destruct d; try done; exact Hgoal.
Qed.

(** *** Groups *)

(** Routes that leave the line as it is: nowhere in their tree is a rewrite. *)
Inductive keeps_line : route -> Prop :=
  keeps_line_intro m masq stop d ds :
    Forall (fun d => match d with REWRITE _ => False | _ => True end) (d :: ds) -> Forall keeps_line (sub_routes d) ->
    keeps_line (mkRoute m masq stop (d :: ds)).
Definition kept (lo : locals) (st : rstate) (lo' : locals) (st' : rstate) : Prop :=
  l_fs lo' = l_fs lo /\ s_line st' = s_line st.

Lemma run_dest_keeps go m masq first off d last lo st c lo' st' :
  (forall off fs st b st', go (sub_routes first) off fs st = Some (b, st') -> s_line st' = s_line st) ->
  match d with REWRITE _ => False | _ => True end ->
  run_dest go m masq first off d last lo st = Some (c, lo', st') -> kept lo st lo' st'.
Proof.
  intros Hgo Hd.
  assert (forall fmt srvs lo st, send_forward fmt srvs lo st = Some (c, lo', st') -> kept lo st lo' st') as Hfwd.
  { intros fmt srvs. induction srvs as [|s srvs IH]; intros lo0 st0; cbn [send_forward]; [by intros [= <- <- <-]|].
    destruct (no_slots _ _); [by intros [= <- <- <-]|]. intros [? Hl]%IH. split; [done|]. exact Hl. }
  assert (run_stub (go (sub_routes first)) (m_pattern m) off lo st = Some (c, lo', st') -> kept lo st lo' st') as Hstub.
  { unfold run_stub. destruct (go _ _ _ _) as [[b st1]|] eqn:Eg; [|done]. apply Hgo in Eg. intros [= <- <- <-].
    split; [by destruct (s_blackholed st1)|done]. }
  destruct d; try done; cbn [run_dest]; try apply Hfwd; unfold send_one, send_ring, send_aggregation; cbv zeta.
  1, 2: by intros [= <- <- <-].
  1, 2: destruct first; try done; exact Hstub.
  { destruct first; try done. unfold run_validation. cbv zeta.
    destruct (router_metric_matches _ _ _ _ _ _) as [[|] pm]; by intros [= <- <- <-]. }
  all: repeat case_match; try done; by intros [= <- <- <-].
Qed.
Lemma run_dests_keep go m masq first off ds lo st b lo' st' :
  (forall off fs st b st', go (sub_routes first) off fs st = Some (b, st') -> s_line st' = s_line st) ->
  Forall (fun d => match d with REWRITE _ => False | _ => True end) ds ->
  run_dests go m masq first off ds lo st = Some (b, lo', st') -> kept lo st lo' st'.
Proof.
  intros Hgo Hds. revert lo st. induction Hds as [|d ds Hd Hds IH]; intros lo st; cbn [run_dests]; [by intros [= <- <- <-]|].
  destruct (run_dest _ _ _ _ _ _ _ _ _) as [[[c lo1] st1]|] eqn:E; [|done].
  apply run_dest_keeps in E as [Hf Hl]; [|done..]. destruct c; [|by intros [= <- <- <-]..].
  intros [? ?]%IH. split; congruence.
Qed.
Lemma run_call_keeps rs off fs st b st' :
  Forall (fun w => forall off lo st b lo' st', run_route w off lo st = Some (b, lo', st') -> kept lo st lo' st') rs ->
  run_call run_route rs off fs st = Some (b, st') -> s_line st' = s_line st.
Proof.
  intros Hrs. unfold run_call. generalize (mkLoc false false fs (c_garbage cx)) as lo.
  revert st. induction Hrs as [|w rs Hw Hrs IH]; intros st lo; cbn [run_list].
  { destruct (l_wassent lo); by intros [= <- <-]. }
  destruct (run_route w off lo st) as [[[[|] lo1] st1]|] eqn:E; [|apply Hw in E as [_ <-]|done].
  - apply Hw in E as [_ <-]. by intros [= <- <-].
  - destruct (l_stop lo1); [destruct (l_wassent lo1); by intros [= <- <-]|]. apply IH.
Qed.
Lemma run_route_keeps w off lo st b lo' st' :
  keeps_line w -> run_route w off lo st = Some (b, lo', st') -> kept lo st lo' st'.
Proof.
  revert off lo st b lo' st'. induction w as [m masq stop dests IH] using route_tree_ind. intros off lo st b lo' st' Hw.
  inversion Hw as [m' masq' stop' d ds Hds Hsub]; subst. apply Forall_cons in IH as [IHd _].
  assert (forall off fs st b st', run_call run_route (sub_routes d) off fs st = Some (b, st') -> s_line st' = s_line st) as Hgo.
  { intros off' fs' st0 b0 st0'. apply run_call_keeps. apply Forall_forall. intros w Hin off0 lo0 st1 b1 lo1 st2.
    rewrite Forall_forall in IHd, Hsub. eauto. }
  assert ((let '(ok, pm) := router_metric_matches m (c_before cx ++ take off (s_line st))
      (metric_name off lo st) (metric_rest lo st) (c_dispatcher cx) (l_pmatch lo) in
    if ok then run_dests (fun rs => run_call run_route rs) m masq d off (d :: ds) (mkLoc stop (l_wassent lo) (l_fs lo) pm) st
    else Some (false, mkLoc (l_stop lo) (l_wassent lo) (l_fs lo) pm, st)) = Some (b, lo', st') -> kept lo st lo' st') as Hgoal.
  { destruct (router_metric_matches _ _ _ _ _ _) as [[|] pm]; [|by intros [= <- <- <-]].
    intros Hr. eapply run_dests_keep in Hr; [exact Hr|exact Hgo|exact Hds]. }
  cbn [run_route]. destruct d; try exact Hgoal.
  destruct (rev _); [done|]. destruct (group_scan _ _); [|by intros [= <- <- <-]].
  destruct (run_call _ _ _ _ _) as [[s st1]|] eqn:E; [|done]. apply Hgo in E. by intros [= <- <- <-].
Qed.

(** Routes at the top: well-formed ones, and groups of them as the optimiser makes them. *)
Definition is_group (w : route) : bool := match rt_dests w with GROUP _ _ :: _ => true | _ => false end.
Definition top_wf (w : route) : Prop :=
  match rt_dests w with GROUP _ rs :: _ => Forall route_wf rs | _ => route_wf w end.

Lemma run_top_total w lo st :
  top_wf w -> (is_group w = true -> (0 < l_fs lo)%nat /\ s_line st <> []) -> exists r, run_route w 0 lo st = Some r.
Proof.
  destruct w as [m masq stop [|d ds]]; unfold top_wf, is_group; cbn [rt_dests].
  { intros Hw _. by apply run_route_total. }
  destruct d; try (intros Hw _; by apply run_route_total). intros Hrs Hne. destruct (Hne eq_refl) as [Hfs Hl].
  cbn [run_route]. unfold metric_name. rewrite drop_0, Nat.sub_0_r.
  destruct (rev (take (l_fs lo) (s_line st))) as [|c l] eqn:Er.
  { exfalso. apply (f_equal (@length _)) in Er. rewrite length_rev, length_take in Er. cbn in Er. destruct (s_line st); [done|]. cbn in Er. lia. }
  destruct (group_scan _ _); [|eauto].
  destruct (run_call_total routes 0 (l_fs lo) st) as [[s st1] ->]; [|eauto].
  eapply Forall_impl; [exact Hrs|]. intros w Hw off lo1 st1. by apply run_route_total.
Qed.
Lemma run_top_call_total rs fs st :
  Forall top_wf rs -> (existsb is_group rs = true -> Forall keeps_line rs /\ (0 < fs)%nat /\ s_line st <> []) ->
  exists r, run_call run_route rs 0 fs st = Some r.
Proof.
  intros Hrs. unfold run_call. change fs with (l_fs (mkLoc false false fs (c_garbage cx))) at 1.
  generalize (mkLoc false false fs (c_garbage cx)) as lo. revert st.
  induction Hrs as [|w rs Hw Hrs IH]; intros st lo Hg; cbn [run_list existsb] in *; [eauto|].
  destruct (run_top_total w lo st Hw) as [[[[|] lo1] st1] E].
  { intros Hgw. rewrite Hgw in Hg. by destruct (Hg eq_refl) as (_ & ? & ?). }
  { rewrite E. eauto. }
  rewrite E. destruct (l_stop lo1); [eauto|]. apply IH. intros Hgs. rewrite Hgs, orb_true_r in Hg.
  destruct (Hg eq_refl) as ([Hk Hks]%Forall_cons & Hf & Hl). apply run_route_keeps in E as [-> ->]; done.
Qed.

End Router.

Arguments cluster server {_} aggregator.
Arguments route server {_} aggregator.
Arguments rstate server aggregator : clear implicits.

(** ** A concrete configuration, for evaluating the theorems *)

#[export] Instance addr_route : RouteServer addr := {| server_is_syslog := fun _ => false |}.
Definition demo_cx : context := mkCtx 64 (lit "10.1.1.1") [] 1 [] [].
#[local] Existing Instance simple_engine.
Definition demo_match (mt : matchtype) (pat text : cstring) : matcher := mkMatcher _ pat [] 0 text mt.
Definition demo_forward (pat : cstring) (stop : bool) : route addr nat :=
  mkRoute (demo_match CONTAINS pat pat) None stop [FORWARD [mkAddr pat 2003 None]].
Definition demo_routes : list (route addr nat) :=
  [demo_forward (lit "cpu_load") false; demo_forward (lit "mem_load") false; demo_forward (lit "net_load") true].

(** ** Properties *)

(** C9: Routing never overruns the array of destinations: whatever the routes and
    the metric, at most [retsize] destinations are filled. *)
Theorem router_route_bounded {server : Type} `{EqDecision server} `{ServerInfo server} `{RouteServer server}
    `{Regex} {aggregator : Type} (cx : context) (rs : list (route server aggregator)) (line : cstring) (fs : nat)
    (st : rstate server aggregator) :
  0 <= c_retsize cx -> router_route cx rs line fs = Some st -> Z.of_nat (length (s_ret st)) <= c_retsize cx.
Proof.
  intros Hsz. apply (router_route_inv cx (fun st => Z.of_nat (length (s_ret st)) <= c_retsize cx)); cbn [s_ret set_blackholed]; try done.
  intros st0 new Hst Hslots. unfold no_slots in Hslots. apply Z.ltb_ge in Hslots. rewrite length_app. lia.
Qed.

Lemma router_route_bounded_witness :
  exists st, router_route demo_cx demo_routes (lit "a.net_load 1 2") 10 = Some st /\
    Z.of_nat (length (s_ret st)) <= 64.
Proof.
  eexists. split; [vm_compute; reflexivity|].
  eapply (router_route_bounded demo_cx demo_routes (lit "a.net_load 1 2") 10); [vm_compute; discriminate|vm_compute; reflexivity].
Defined.


Lemma demo_group_covers cx before nm rest : group_covers cx before nm rest (rev (lit "_load")) demo_routes.
Proof.
  intros Hnm.
  assert (forall t, group_scan (rev (lit "_load")) (rev t) = true ->
    forall pm, (router_metric_matches (demo_match CONTAINS t t) before nm rest (c_dispatcher cx) pm).1 = false) as Hc.
  { intros t Ht pm. unfold router_metric_matches. cbn.
    destruct (strstr nm t) as [so|] eqn:E; [|done]. exfalso.
    apply strstr_Some in E as (a & b & -> & _).
    apply group_scan_contains in Ht as (x & y & ->); [|done].
    assert (group_scan (rev (lit "_load")) (rev (a ++ (x ++ rev (rev (lit "_load")) ++ y) ++ b)) = true) as Hy.
    { apply group_scan_contains; [done|]. exists (a ++ x), (y ++ b). by rewrite <- !(assoc_L app). }
    congruence. }
  repeat apply Forall_cons_2; [by apply Hc..|apply Forall_nil_2].
Qed.

Lemma demo_routes_plain : Forall plain_route demo_routes.
Proof. repeat apply Forall_cons_2; [..|apply Forall_nil_2]; (split_and!; [done|done|by apply Forall_singleton]). Qed.


(** A metric sent from within a group is still counted as blackholed, since the
    group branch does not record that something was sent; the same routes
    outside a group are not. *)
Theorem group_counts_as_blackholed :
  let group := mkRoute (demo_match CONTAINS [] []) None false [GROUP (rev (lit "_load")) demo_routes] in
  let run rs := (fun st => (length (s_ret st), s_blackholed st)) <$> router_route demo_cx rs (lit "a.net_load 1 2") 10 in
  run [group] = Some (1%nat, true) /\ run demo_routes = Some (1%nat, false).
Proof. vm_compute. done. Qed.

(** C13: Routing a metric always ends and never uses a missing server, for routes that each have a destination (a [match]
    with none, which the grammar accepts, is dereferenced) and whose rings are built and have as many distinct servers as
    they send to, in stubs too; among them may be groups of such routes, as the optimiser makes them, when the metric has
    a name and no route rewrites it (a name rewritten to nothing would end in the [assert] of the group's search). *)
Theorem router_route_total {server : Type} `{EqDecision server} `{ServerInfo server} `{RouteServer server}
    `{Regex} {aggregator : Type} (cx : context) (rs : list (route server aggregator)) (line : cstring) (fs : nat) :
  Forall top_wf rs -> (existsb is_group rs = true -> Forall keeps_line rs /\ (0 < fs)%nat /\ line <> []) ->
  exists st, router_route cx rs line fs = Some st.
Proof.
  intros Hrs Hg. unfold router_route, router_route_intern.
  destruct (run_top_call_total cx rs fs (mkSt false [] line []) Hrs Hg) as [[b st] ->]. by exists st.
Qed.

Lemma router_route_total_witness :
  let group := mkRoute (demo_match CONTAINS [] []) None false [GROUP (rev (lit "_load")) demo_routes] in
  exists st, router_route demo_cx (demo_forward (lit "b.") false :: [group]) (lit "b.cpu_load 1 2") 10 = Some st.
Proof.
  intros group.
  assert (Forall route_wf demo_routes) as Hw
    by (repeat apply Forall_cons_2; [..|apply Forall_nil_2]; (apply route_wf_intro; [by apply Forall_singleton|apply Forall_nil_2])).
  assert (Forall keeps_line demo_routes) as Hk
    by (repeat apply Forall_cons_2; [..|apply Forall_nil_2]; (apply keeps_line_intro; [by apply Forall_singleton|apply Forall_nil_2])).
  apply (router_route_total demo_cx (demo_forward (lit "b.") false :: [group]) (lit "b.cpu_load 1 2") 10).
  - apply Forall_cons_2; [|by apply Forall_singleton]. apply route_wf_intro; [by apply Forall_singleton|apply Forall_nil_2].
  - intros _. split; [|by split; [lia|]]. apply Forall_cons_2; [|apply Forall_singleton].
    + apply keeps_line_intro; [by apply Forall_singleton|apply Forall_nil_2].
    + apply keeps_line_intro; [by apply Forall_singleton|exact Hk].
Defined.

(** A route that matches and says stop hides everything after it. *)
Theorem stop_hides_later_routes {server : Type} `{EqDecision server} `{ServerInfo server} `{RouteServer server}
    `{Regex} {aggregator : Type} (cx : context) (rs1 rs2 : list (route server aggregator)) (m : matcher)
    (d : cluster server aggregator) (ds : list (cluster server aggregator)) (line : cstring) (fs : nat) :
  Forall plain_route rs1 -> Forall (fun d => plain_dest d = true) (d :: ds) ->
  (forall pm, (router_metric_matches m (c_before cx) (take fs line) (drop fs line) (c_dispatcher cx) pm).1 = true) ->
  router_route cx (rs1 ++ mkRoute m None true (d :: ds) :: rs2) line fs =
  router_route cx (rs1 ++ [mkRoute m None true (d :: ds)]) line fs.
Proof.
  intros Hp1 Hd Hm. unfold router_route, router_route_intern, run_call. rewrite !run_list_app by done.
  destruct (run_list _ rs1 _ _ _) as [[[[|] lo1] st1]|] eqn:E1; [done| |done].
  destruct (l_stop lo1) eqn:Hstop; [done|]. apply run_list_fs in E1 as [Hfs Hline]; [|done].
  cbn [l_fs s_line] in Hfs, Hline. cbn [run_list].
  assert (forall b lo st, run_route cx (mkRoute m None true (d :: ds)) 0 lo1 st1 = Some (b, lo, st) ->
    b = true \/ l_stop lo = true) as Hs.
  2: { destruct (run_route cx _ 0 lo1 st1) as [[[[|] lo] st]|] eqn:E; try done.
       destruct (Hs _ _ _ eq_refl) as [?| ->]; done. }
  intros b lo st. pose proof (Hm (l_pmatch lo1)) as Hm1. pose proof Hd as [Hd1 _]%Forall_cons. cbn [run_route].
  unfold metric_name, metric_rest. rewrite Hfs, Hline, drop_0, take_0, app_nil_r, Nat.sub_0_r.
  destruct (router_metric_matches _ _ _ _ _ _) as [ok pm]. cbn in Hm1. subst ok.
  destruct d; try done; intros Hr; (apply run_dests_fs in Hr as [Hr _]; [|done]); auto.
Qed.

Lemma stop_hides_later_routes_witness :
  router_route demo_cx ([] ++ mkRoute (demo_match CONTAINS (lit "net") (lit "net")) None true [BLACKHOLE] :: demo_routes)
    (lit "a.net_load 1 2") 10 =
  router_route demo_cx ([] ++ [mkRoute (demo_match CONTAINS (lit "net") (lit "net")) None true [BLACKHOLE]])
    (lit "a.net_load 1 2") 10.
Proof.
  apply (stop_hides_later_routes demo_cx [] demo_routes (demo_match CONTAINS (lit "net") (lit "net")) BLACKHOLE []
    (lit "a.net_load 1 2") 10); [apply Forall_nil_2|by apply Forall_singleton|].
  intros pm. reflexivity.
Defined.
