(* ===== verification/Optimise.v ===== *)
(** * The optimiser of routes (src/router.c, [router_optimise])

    Routes whose patterns end in the same text are put in a group, which is skipped
    at once for a metric that does not contain the text.  A first loop sorts the
    routes into blocks, a second one turns blocks of three or more into groups.

    The chain of blocks is a list in the order of the links; [bstart] is a position
    in it.  The block that was moved to the end keeps a stale [prev], and its old
    neighbours too, but the code only follows [prev] of blocks behind [bstart],
    which is NULL from then until it is set to a newer block.  [mem] is the number of
    allocations that succeed.  [None] is undefined behaviour: a null pointer, or the
    write behind [pblock]. *)
From S2P Require Import Prelude Relay Fnv Rewrite Matching ConsistentHash Router.
#[local] Open Scope Z_scope.

(** ** The tail of a pattern *)

Definition tail_char (c : cchar) : bool := is_lower c || is_upper c || (c =? ch "_").

(** [for (--p; p > pattern && *p == '\\'; p--)]: how far it goes.  A position [p] is the
    text from it down to the start of the pattern. *)
Fixpoint backslashes (l : cstring) : nat :=
  match l with
  | c :: ((_ :: _) as l') => if c =? ch "\" then S (backslashes l') else 0%nat
  | _ => 0%nat
  end.

(** The loop that strips what cannot belong to a block, parentheses with what is in
    them; [skip] positions are passed over first. *)
Fixpoint strip (skip : nat) (bsum : Z) (l : cstring) : cstring :=
  match l with
  | c :: ((_ :: _) as l') =>
      match skip with
      | S skip => strip skip bsum l'
      | O =>
          if (0 <? bsum) || negb (tail_char c) then
            if (c =? ch ")") || (c =? ch "(") then
              let n := backslashes l' in
              strip n (if Nat.odd n then bsum else if c =? ch ")" then u64 (bsum + 1) else u64 (bsum - 1)) l'
            else strip 0 bsum l'
          else l
      end
  | _ => l
  end.

(** The loop that copies the block to [pblock], which has [room] cells. *)
Fixpoint copy_block (room : nat) (l : cstring) : cstring :=
  match room, l with
  | S room, c :: l' => if tail_char c then c :: copy_block room l' else []
  | _, _ => []
  end.

Definition PBLOCK_SIZE : nat := 64.

(** The tail of a pattern, in reverse; [None]: the pattern is unusable. *)
Definition pattern_tail (pattern : cstring) : option cstring :=
  let l := strip 0 0 (NUL :: rev pattern) in
  if (length l <=? 1)%nat then None else Some (copy_block PBLOCK_SIZE l).

(** ** Tails *)

Lemma tail_char_range c : tail_char c = true -> 65 <= c <= 122.
Proof.
  unfold tail_char, is_lower, is_upper. vm_compute (ch "_"). rewrite !orb_true_iff, !andb_true_iff, !Z.leb_le, Z.eqb_eq. lia.
Qed.

Lemma copy_block_prefix room l : exists b, l = copy_block room l ++ b.
Proof.
  revert room. induction l as [|c l IH]; intros [|room]; cbn [copy_block]; try by eexists.
  destruct (tail_char c); [|by eexists]. destruct (IH room) as [b Hb]. exists b. cbn [app]. by rewrite <- Hb.
Qed.
Lemma copy_block_tail room l : Forall (fun c => tail_char c = true) (copy_block room l).
Proof.
  revert room. induction l as [|c l IH]; intros [|room]; cbn [copy_block]; try apply Forall_nil_2.
  destruct (tail_char c) eqn:E; [by apply Forall_cons_2|apply Forall_nil_2].
Qed.
Lemma strip_cons skip bsum c c' l :
  strip skip bsum (c :: c' :: l) =
  match skip with
  | S skip => strip skip bsum (c' :: l)
  | O =>
      if (0 <? bsum) || negb (tail_char c) then
        if (c =? ch ")") || (c =? ch "(") then
          let n := backslashes (c' :: l) in
          strip n (if Nat.odd n then bsum else if c =? ch ")" then u64 (bsum + 1) else u64 (bsum - 1)) (c' :: l)
        else strip 0 bsum (c' :: l)
      else c :: c' :: l
  end.
Proof. by destruct skip. Qed.

Lemma strip_suffix skip bsum l : exists a, l = a ++ strip skip bsum l.
Proof.
  revert skip bsum. induction l as [|c [|c' l] IH]; intros skip bsum; [by exists []..|]. rewrite strip_cons.
  assert (forall skip bsum, exists a, c :: c' :: l = a ++ strip skip bsum (c' :: l)) as Hn.
  { intros skip' bsum'. destruct (IH skip' bsum') as [a Ha]. exists (c :: a). cbn [app]. by rewrite <- Ha. }
  destruct skip; [|apply Hn]. destruct ((0 <? bsum) || _); [|by exists []]. destruct ((c =? _) || _); apply Hn.
Qed.

(** The tail is a text of letters and underscores that occurs in the pattern. *)
Lemma pattern_tail_occurs pat b :
  pattern_tail pat = Some b -> Forall (fun c => tail_char c = true) b /\ exists x y, pat = x ++ rev b ++ y.
Proof.
  unfold pattern_tail. destruct (strip_suffix 0 0 (NUL :: rev pat)) as [a Ha].
  set (l := strip _ _ _) in *. destruct (_ <=? 1)%nat; [done|]. intros Hb. apply (inj Some) in Hb.
  destruct (copy_block_prefix PBLOCK_SIZE l) as [y Hy]. pose proof (copy_block_tail PBLOCK_SIZE l) as Ht.
  rewrite Hb in Hy, Ht. split; [done|]. clear Hb. clearbody l. subst l.
  destruct a as [|c a]; cbn [app] in Ha.
  { destruct b as [|c b]; cbn [app] in Ha.
    - exists pat, []. cbn. by rewrite app_nil_r.
    - apply Forall_cons in Ht as [Hc%tail_char_range _]. injection Ha as Ha _. subst c. unfold NUL in Hc. lia. }
  injection Ha as _ Ha. exists (rev y), (rev a).
  apply (f_equal (@rev Z)) in Ha. rewrite rev_involutive in Ha. rewrite Ha, !rev_app_distr. by rewrite <- (assoc_L app).
Qed.

Lemma tails_eq a b :
  Forall (fun c => tail_char c = true) a -> Forall (fun c => tail_char c = true) b -> strcmp a b = 0 -> a = b.
Proof.
  intros Ha Hb. apply strcmp_eq; (eapply Forall_impl; [eassumption|]; intros c Hc%tail_char_range; lia).
Qed.
Lemma tails_sum b : Forall (fun c => tail_char c = true) b -> (3 <= length b)%nat -> 0 < sumz b.
Proof.
  intros Hb Hl. assert (0 <= sumz b /\ (b <> [] -> 0 < sumz b)) as [_ Hs].
  { clear Hl. induction Hb as [|c b Hc%tail_char_range Hb [IH _]]; [done|]. rewrite sumz_cons. split; [lia|intros _; lia]. }
  apply Hs. intros ->. cbn in Hl. lia.
Qed.

Section Optimise.
Context {server : Type} `{EqDecision server} `{ServerInfo server} `{RouteServer server} `{Regex}.
Context {aggregator : Type}.
Implicit Types (w : route server aggregator) (rs : list (route server aggregator)).

(** ** Blocks *)

(** [struct _block]; [k_routes] is the chain from [firstroute] to [lastroute], [k_head]
    tells whether it begins with the route [r->routes] still points to. *)
Record oblock := mkBlk {
  k_pattern : option cstring; k_hash : Z; k_refcnt : nat; k_seqnr : nat;
  k_routes : list (route server aggregator); k_head : bool;
}.
Record ostate := mkO {
  o_mem : nat; o_blocks : list oblock; o_bstart : option nat;
  o_rlast : option (route server aggregator); o_seq : nat;
}.

Definition is_rewrite (d : cluster server aggregator) : bool := match d with REWRITE _ => true | _ => false end.

(** A block of its own for a route that cannot be in a group; [Some None]: no memory. *)
Definition add_single (st : ostate) w (head : bool) : option (option ostate) :=
  match o_mem st with
  | O => Some None
  | S mem =>
      let blocks := o_blocks st ++ [mkBlk None 0 1 (o_seq st) [w] head] in
      Some (Some (mkO mem blocks (Some (length blocks - 1)%nat) None (o_seq st + 1)))
  end.

(** A new block for tail [b]. *)
Definition add_group (st : ostate) w (head : bool) (b : cstring) (bsum : Z) : option (option ostate) :=
  match o_mem st with
  | O => Some None
  | S mem =>
      let '(pattern, mem) := match mem with O => (None, O) | S mem => (Some b, mem) end in   (* ra_strdup *)
      let blocks := o_blocks st ++ [mkBlk pattern bsum 1 (o_seq st) [w] head] in
      Some (Some (if rt_stop w then mkO mem blocks None None (o_seq st + 1)
                  else mkO mem blocks (o_bstart st) (o_rlast st) (o_seq st)))
  end.

(** The search for tail [b] among blocks [bs], the first one at position [i]. *)
Fixpoint find_block (bs : list oblock) (i : nat) (b : cstring) (bsum : Z) : option (option nat) :=
  match bs with
  | [] => Some None
  | k :: bs' =>
      if negb (k_hash k =? bsum) then find_block bs' (i + 1) b bsum
      else match k_pattern k with
           | None => None
           | Some p => if strcmp p b =? 0 then Some (Some i) else find_block bs' (i + 1) b bsum
           end
  end.

(** A route joins the block at position [i]. *)
Definition join_block (st : ostate) w (b : cstring) (i : nat) : option ostate :=
  k ← o_blocks st !! i;
  let k := mkBlk (k_pattern k) (k_hash k) (k_refcnt k + 1) (k_seqnr k) (k_routes k ++ [w]) (k_head k) in
  let blocks := <[i := k]> (o_blocks st) in
  if match o_rlast st with None => true | Some r => strcmp (m_pattern (rt_match r)) b =? 0 end then
    if rt_stop w then
      let blocks := if decide (i = length blocks - 1)%nat then blocks else delete i blocks ++ [k] in
      Some (mkO (o_mem st) blocks None (Some w) (o_seq st + 1))
    else Some (mkO (o_mem st) blocks (o_bstart st) (o_rlast st) (o_seq st))
  else Some (mkO (o_mem st) blocks (Some (length blocks - 1)%nat) None (o_seq st + 1)).

(** The body of the first loop. *)
Definition optimise_step (st : ostate) w (head : bool) : option (option ostate) :=
  d ← rt_dests w !! 0%nat;
  if bool_decide (m_type (rt_match w) = MATCHALL) || is_rewrite d then add_single st w head
  else match pattern_tail (m_pattern (rt_match w)) with
       | None => add_single st w head
       | Some b =>
           if (PBLOCK_SIZE <=? length b)%nat then None
           else if (length b <? 3)%nat then add_single st w head
           else
             let bsum := sumz b in
             found ← match o_bstart st with
                     | None => Some None
                     | Some i => find_block (drop i (o_blocks st)) i b bsum
                     end;
             match found with
             | None => add_group st w head b bsum
             | Some i => Some <$> join_block st w b i
             end
       end.

(** The first loop; [inl]: it ran out of memory, with the routes [r->routes] leads to. *)
Fixpoint optimise_loop (st : ostate) (rs : list (route server aggregator)) (head : bool) :
    option (list (route server aggregator) + ostate) :=
  match rs with
  | [] => Some (inr st)
  | w :: rs' =>
      st' ← optimise_step st w head;
      match st' with
      | None => Some (inl (if head then rs else concat (k_routes <$> filter (fun k => k_head k = true) (o_blocks st))))
      | Some st' => optimise_loop st' rs' false
      end
  end.

(** A group for a block: its route, its destinations, and its cluster with a name. *)
Definition make_group (mem : nat) (k : oblock) : option (nat * route server aggregator) :=
  if (mem <? 4)%nat then None
  else name ← k_pattern k;
       Some ((mem - 4)%nat, mkRoute (mkMatcher _ [] [] 0 [] CONTAINS) None false [GROUP name (k_routes k)]).

(** The second loop: the new [r->routes]. *)
Fixpoint reduce_blocks (fuel mem seq : nat) (bs : list oblock) : option (list (route server aggregator)) :=
  match fuel with
  | O => None
  | S fuel' =>
      match bs with
      | [] => Some []
      | k :: bs' =>
          if (seq <? k_seqnr k)%nat then reduce_blocks fuel' mem (seq + 1) bs
          else if (k_seqnr k <? seq)%nat then Some []   (* lost track *)
          else if (k_refcnt k =? 0)%nat then reduce_blocks fuel' mem seq bs'
          else if (k_refcnt k <? 3)%nat then
            rest ← reduce_blocks fuel' mem seq bs'; Some (k_routes k ++ rest)
          else
            '(mem, g) ← make_group mem k;
            rest ← reduce_blocks fuel' mem seq bs'; Some (g :: rest)
      end
  end.

Definition dummy_block (seq : nat) : oblock := mkBlk None 0 0 seq [] false.

(** [threshold] is compared as a [size_t]. *)
Definition router_optimise (mem : nat) (threshold : Z) (rs : list (route server aggregator)) :
    option (list (route server aggregator)) :=
  if Z.of_nat (length rs) <? u64 threshold then Some rs
  else match mem with
       | O => Some rs
       | S mem =>
           r ← optimise_loop (mkO mem [dummy_block 0] (Some 0%nat) None 1) rs true;
           match r with
           | inl rs' => Some rs'
           | inr st =>
               let blocks := tail (o_blocks st) ++ [dummy_block (o_seq st)] in
               reduce_blocks (o_seq st + length blocks + 1) (o_mem st) 1 blocks
           end
       end.

(** ** Reordering *)

(** Routes that do not stop may change places. *)
Inductive reorder : list (route server aggregator) -> list (route server aggregator) -> Prop :=
  | ro_nil : reorder [] []
  | ro_skip w rs rs' : reorder rs rs' -> reorder (w :: rs) (w :: rs')
  | ro_swap w w' rs : rt_stop w = false -> rt_stop w' = false -> reorder (w :: w' :: rs) (w' :: w :: rs)
  | ro_trans rs1 rs2 rs3 : reorder rs1 rs2 -> reorder rs2 rs3 -> reorder rs1 rs3.

Lemma reorder_refl rs : reorder rs rs.
Proof. induction rs; by constructor. Qed.
Lemma reorder_app_l rs rs1 rs2 : reorder rs1 rs2 -> reorder (rs ++ rs1) (rs ++ rs2).
Proof. induction rs; [done|]. intros. apply ro_skip. auto. Qed.
Lemma reorder_app_r rs1 rs2 rs : reorder rs1 rs2 -> reorder (rs1 ++ rs) (rs2 ++ rs).
Proof.
  induction 1; cbn [app]; [apply reorder_refl|by apply ro_skip|by apply ro_swap|by eapply ro_trans].
Qed.
Lemma reorder_perm rs1 rs2 : Forall (fun w => rt_stop w = false) rs1 -> rs1 ≡ₚ rs2 -> reorder rs1 rs2.
Proof.
  intros Hs Hp. induction Hp as [|w rs1 rs2 Hp IH|w w' rs|rs1 rs2 rs3 Hp1 IH1 Hp2 IH2]; rewrite ?Forall_cons in Hs.
  - apply ro_nil.
  - apply ro_skip, IH, Hs.
  - destruct Hs as (? & ? & ?). by apply ro_swap.
  - eapply ro_trans; [by apply IH1|]. apply IH2. by rewrite <- Hp1.
Qed.
Lemma reorder_Permutation rs1 rs2 : reorder rs1 rs2 -> rs1 ≡ₚ rs2.
Proof. induction 1; [done|by constructor|apply Permutation_swap|by etrans]. Qed.

(** ** The invariant of the first loop *)

Definition block_ok (k : oblock) : Prop :=
  k_refcnt k = length (k_routes k) /\ k_routes k <> [] /\
  match k_pattern k with
  | None => length (k_routes k) = 1%nat /\ k_hash k = 0
  | Some b => k_hash k <> 0 /\ (3 <= length b)%nat /\ Forall (fun c => tail_char c = true) b /\
              Forall (fun w => pattern_tail (m_pattern (rt_match w)) = Some b) (k_routes k)
  end.

Definition flat (bs : list oblock) : list (route server aggregator) := concat (k_routes <$> bs).

(** Behind [bstart] are the blocks of the section that a route may still join: none of
    their routes stops, and all have the current sequence number. *)
Definition joinable (seq : nat) (k : oblock) : Prop :=
  Forall (fun w => rt_stop w = false) (k_routes k) /\ k_seqnr k = seq.

Record opt_inv (seen : list (route server aggregator)) (st : ostate) : Prop := mkInv {
  inv_ok : Forall block_ok (tail (o_blocks st));
  inv_dummy : head (o_blocks st) = Some (dummy_block 0);
  inv_routes : reorder seen (flat (tail (o_blocks st)));
  inv_sorted : Sorted le (k_seqnr <$> tail (o_blocks st));
  inv_seqnr : Forall (fun n => 1 <= n <= o_seq st)%nat (k_seqnr <$> tail (o_blocks st));
  inv_seq : (1 <= o_seq st)%nat;
  inv_rlast : o_rlast st <> None -> o_bstart st = None;
  inv_bstart : forall i, o_bstart st = Some i ->
    (exists k, o_blocks st !! i = Some k /\ k_hash k = 0) /\ Forall (joinable (o_seq st)) (drop (S i) (o_blocks st));
}.

Lemma blocks_cons seen st : opt_inv seen st -> exists bs, o_blocks st = dummy_block 0 :: bs.
Proof. intros Hi. pose proof (inv_dummy _ _ Hi) as Hd. destruct (o_blocks st); simplify_eq/=. eauto. Qed.

Lemma flat_app bs bs' : flat (bs ++ bs') = flat bs ++ flat bs'.
Proof. unfold flat. by rewrite fmap_app, concat_app. Qed.

(** A new block at the end. *)
Lemma inv_grow seen st st' w k :
  opt_inv seen st -> o_blocks st' = o_blocks st ++ [k] ->
  block_ok k -> k_routes k = [w] -> k_seqnr k = o_seq st -> (o_seq st <= o_seq st')%nat ->
  (o_rlast st' <> None -> o_bstart st' = None) ->
  (forall i, o_bstart st' = Some i ->
    (exists k, o_blocks st' !! i = Some k /\ k_hash k = 0) /\ Forall (joinable (o_seq st')) (drop (S i) (o_blocks st'))) ->
  opt_inv (seen ++ [w]) st'.
Proof.
  intros Hi Hb Hok Hw Hseq Hle Hr Hs. destruct (blocks_cons _ _ Hi) as [bs Ebs].
  destruct Hi as [Iok Id Iro Iso Ise Iq Irl Ibs]. rewrite Ebs in *. cbn [tail app] in *.
  split; rewrite ?Hb; cbn [tail head]; try done; try lia.
  - apply Forall_app. split; [done|by apply Forall_singleton].
  - rewrite flat_app. unfold flat at 2. cbn. rewrite Hw. cbn. by apply reorder_app_r.
  - rewrite fmap_app. cbn. apply Sorted_snoc; [done|]. eapply Forall_impl; [exact Ise|]. cbn. lia.
  - rewrite fmap_app. apply Forall_app. split; [|apply Forall_singleton; lia].
    eapply Forall_impl; [exact Ise|]. cbn. lia.
  - by rewrite Hb in Hs.
Qed.

(** A route joins a block of the current section, which moves to the end if it stops. *)
Lemma inv_join seen st st' w k k' P S :
  opt_inv seen st -> o_blocks st = dummy_block 0 :: P ++ k :: S ->
  block_ok k' -> k_routes k' = k_routes k ++ [w] -> k_seqnr k' = k_seqnr k ->
  Forall (joinable (o_seq st)) (k :: S) -> (o_seq st <= o_seq st')%nat ->
  (o_rlast st' <> None -> o_bstart st' = None) ->
  (if rt_stop w then o_blocks st' = dummy_block 0 :: P ++ S ++ [k'] else o_blocks st' = dummy_block 0 :: P ++ k' :: S) ->
  (forall i, o_bstart st' = Some i ->
    (exists k, o_blocks st' !! i = Some k /\ k_hash k = 0) /\ Forall (joinable (o_seq st')) (drop (Datatypes.S i) (o_blocks st'))) ->
  opt_inv (seen ++ [w]) st'.
Proof.
  intros Hi Eb Hok Hw Hq Hj Hle Hr Hb' Hs. destruct Hi as [Iok Id Iro Iso Ise Iq Irl Ibs].
  rewrite Eb in *. cbn [tail] in *.
  assert (Forall (fun w => rt_stop w = false) (k_routes k ++ flat S)) as Hns.
  { apply Forall_app. apply Forall_cons in Hj as [[Hk _] Hj]. split; [done|]. unfold flat. apply Forall_concat, Forall_fmap.
    eapply Forall_impl; [exact Hj|]. by intros ? [? _]. }
  assert (k_seqnr <$> (P ++ S ++ [k']) = k_seqnr <$> (P ++ k :: S)) as Eseq.
  { rewrite !fmap_app. f_equal. cbn. rewrite Hq. apply Forall_cons in Hj as [[_ ->] Hj].
    clear -Hj. induction Hj as [|x S [_ Hx] Hj IH]; cbn; [done|]. by rewrite IH, Hx. }
  assert (k_seqnr <$> (P ++ k' :: S) = k_seqnr <$> (P ++ k :: S)) as Eseq'.
  { rewrite !fmap_app. cbn. by rewrite Hq. }
  rewrite !Forall_app, !Forall_cons in Iok. destruct Iok as (IP & Ik & IS).
  assert (reorder (seen ++ [w]) (flat P ++ (k_routes k ++ flat S) ++ [w])) as Hro.
  { eapply ro_trans; [by apply reorder_app_r|]. rewrite flat_app. unfold flat at 2. cbn. fold (flat S).
    rewrite <- !(assoc_L app). apply reorder_refl. }
  assert (Forall (fun n => 1 <= n <= o_seq st')%nat (k_seqnr <$> (P ++ k :: S))) as Ise'.
  { eapply Forall_impl; [exact Ise|]. cbn. lia. }
  destruct (rt_stop w) eqn:Hstop; (split; rewrite ?Hb'; cbn [tail head]; try done; try congruence; try lia).
  all: rewrite ?Eseq, ?Eseq'; try done.
  - rewrite !Forall_app. split_and!; [done|done|by apply Forall_singleton].
  - eapply ro_trans; [exact Hro|]. rewrite !flat_app. unfold flat at 4. cbn. rewrite Hw, app_nil_r. rewrite (assoc_L app (flat S)).
    apply reorder_app_l, reorder_app_r. apply reorder_perm; [done|]. by rewrite (comm app).
  - by rewrite Hb' in Hs.
  - rewrite Forall_app, Forall_cons. by split_and!.
  - eapply ro_trans; [exact Hro|]. rewrite flat_app. unfold flat at 3. cbn. fold (flat S). rewrite Hw.
    apply reorder_app_l, reorder_perm; [apply Forall_app; split; [done|by apply Forall_singleton]|].
    rewrite <- !(assoc_L app). f_equiv. by rewrite (comm app).
  - by rewrite Hb' in Hs.
Qed.

Lemma find_block_spec bs i b bsum :
  Forall block_ok bs -> Forall (fun c => tail_char c = true) b -> bsum <> 0 ->
  find_block bs i b bsum = Some None \/
  exists j k, find_block bs i b bsum = Some (Some (i + j)%nat) /\ bs !! j = Some k /\ k_pattern k = Some b.
Proof.
  intros Hok Hb Hs. revert i. induction Hok as [|k bs Hk Hok IH]; intros i; cbn [find_block]; [by left|].
  assert (find_block bs (i + 1) b bsum = Some None \/ exists j k', find_block bs (i + 1) b bsum = Some (Some (i + j)%nat) /\
    (k :: bs) !! j = Some k' /\ k_pattern k' = Some b) as Hnext.
  { destruct (IH (i + 1)%nat) as [?|(j & k' & ? & ? & ?)]; [by left|right]. exists (S j), k'.
    by replace (i + S j)%nat with (i + 1 + j)%nat by lia. }
  destruct Hk as (_ & _ & Hk). destruct (Z.eqb_spec (k_hash k) bsum) as [E|]; cbn [negb]; [|done].
  destruct (k_pattern k) as [p|] eqn:Ep; [|by destruct Hk as [_ ?]; congruence].
  destruct (Z.eqb_spec (strcmp p b) 0) as [Heq|]; [|done].
  right. exists 0%nat, k. rewrite Nat.add_0_r. split_and!; [done..|]. rewrite Ep. f_equal. apply tails_eq; naive_solver.
Qed.

(** What the parser guarantees of a route, and the room its tail has. *)
Definition optimisable w : Prop :=
  rt_dests w <> [] /\ forall b, pattern_tail (m_pattern (rt_match w)) = Some b -> (length b < PBLOCK_SIZE)%nat.

Lemma add_single_inv seen st w head :
  opt_inv seen st -> (2 <= o_mem st)%nat ->
  exists st', add_single st w head = Some (Some st') /\ opt_inv (seen ++ [w]) st' /\ (o_mem st <= o_mem st' + 2)%nat.
Proof.
  intros Hi Hm. unfold add_single. destruct (o_mem st) as [|mem] eqn:Em; [lia|].
  eexists. split; [done|]. split; [|cbn; lia].
  apply (inv_grow seen st _ w (mkBlk None 0 1 (o_seq st) [w] head)); cbn; try done; try lia.
  intros i [= <-]. rewrite length_app. cbn. replace (length (o_blocks st) + 1 - 1)%nat with (length (o_blocks st)) by lia. split.
  - eexists. split; [by apply list_lookup_middle|done].
  - rewrite drop_ge; [apply Forall_nil_2|]. rewrite length_app. cbn. lia.
Qed.

Lemma add_group_inv seen st w head b :
  opt_inv seen st -> (2 <= o_mem st)%nat -> (3 <= length b)%nat ->
  pattern_tail (m_pattern (rt_match w)) = Some b ->
  exists st', add_group st w head b (sumz b) = Some (Some st') /\ opt_inv (seen ++ [w]) st' /\ (o_mem st <= o_mem st' + 2)%nat.
Proof.
  intros Hi Hm Hb Ht. unfold add_group. destruct (o_mem st) as [|[|mem]] eqn:Em; [lia..|].
  eexists. split; [done|]. destruct (pattern_tail_occurs _ _ Ht) as [Hc _].
  assert (block_ok (mkBlk (Some b) (sumz b) 1 (o_seq st) [w] head)) as Hok.
  { split_and!; try done. cbn. pose proof (tails_sum b Hc Hb). split_and!; [lia|done..|]. by apply Forall_singleton. }
  split; [|destruct (rt_stop w); cbn; lia].
  destruct (rt_stop w) eqn:Hstop;
    (apply (inv_grow seen st _ w (mkBlk (Some b) (sumz b) 1 (o_seq st) [w] head)); cbn; try done; try lia).
  - apply (inv_rlast _ _ Hi).
  - intros i Hs. destruct (inv_bstart _ _ Hi i Hs) as ((k & Hk & Hh) & Hj).
    pose proof (lookup_lt_Some _ _ _ Hk). split; [exists k; split; [by apply lookup_app_l_Some|done]|].
    rewrite drop_app_le by lia. apply Forall_app. split; [done|]. apply Forall_singleton. split; [by apply Forall_singleton|done].
Qed.

Lemma join_block_inv seen st w b i j k :
  opt_inv seen st -> o_bstart st = Some i -> drop i (o_blocks st) !! j = Some k -> k_pattern k = Some b ->
  (3 <= length b)%nat -> pattern_tail (m_pattern (rt_match w)) = Some b ->
  exists st', join_block st w b (i + j)%nat = Some st' /\ opt_inv (seen ++ [w]) st' /\ o_mem st = o_mem st'.
Proof.
  intros Hi Hs Hk Hp Hb Ht. destruct (inv_bstart _ _ Hi i Hs) as ((k0 & Hk0 & Hh0) & Hj).
  destruct (blocks_cons _ _ Hi) as [bs Ebs].
  rewrite lookup_drop in Hk.
  assert (Forall block_ok bs) as Hok by (pose proof (inv_ok _ _ Hi) as Hok; by rewrite Ebs in Hok).
  destruct (i + j)%nat as [|m] eqn:Em.
  { rewrite Ebs in Hk. by simplify_eq/=. }
  rewrite Ebs in Hk. cbn in Hk. destruct (Forall_lookup_1 _ _ _ _ Hok Hk) as (Hrc & Hne & Hrs). rewrite Hp in Hrs.
  destruct Hrs as (Hhash & _ & Hbt & Hrs).
  assert (i <= m)%nat.
  { destruct j as [|j]; [|lia]. rewrite Nat.add_0_r in Em. subst i. rewrite Ebs in Hk0. cbn in Hk0. congruence. }
  assert (Forall (joinable (o_seq st)) (k :: drop (S m) bs)) as Hjk.
  { rewrite Ebs in Hj. cbn [drop] in Hj. rewrite <- (drop_S bs k m Hk). apply (Forall_drop _ (m - i)) in Hj.
    rewrite drop_drop in Hj. by replace (i + (m - i))%nat with m in Hj by lia. }
  set (k' := mkBlk (k_pattern k) (k_hash k) (k_refcnt k + 1) (k_seqnr k) (k_routes k ++ [w]) (k_head k)).
  assert (block_ok k') as Hok'.
  { unfold block_ok, k'. cbn. rewrite Hp, length_app, Hrc. split_and!; [done| |done..|].
    - by destruct (k_routes k).
    - apply Forall_app. split; [done|by apply Forall_singleton]. }
  assert (o_blocks st = dummy_block 0 :: take m bs ++ k :: drop (S m) bs) as Eb by (by rewrite Ebs, take_drop_middle).
  pose proof (lookup_lt_Some _ _ _ Hk) as Hm.
  assert (o_blocks st !! S m = Some k) as Hlk by (by rewrite Ebs).
  unfold join_block. rewrite Hlk. run_binds. fold k'.
  destruct (o_rlast st) eqn:Er; [by rewrite (inv_rlast _ _ Hi) in Hs; [|congruence]|].
  assert (<[S m := k']> (o_blocks st) = dummy_block 0 :: take m bs ++ k' :: drop (S m) bs) as Ei.
  { rewrite Ebs. cbn. f_equal. by apply insert_take_drop. }
  rewrite Ei.
  destruct (rt_stop w) eqn:Hstop; (eexists; split; [done|]); (split; [|done]).
  - eapply (inv_join seen st _ w k k' (take m bs) (drop (S m) bs)); cbn; try done; try lia. rewrite Hstop.
    rewrite length_app, length_take, length_cons, length_drop, Nat.min_l by lia.
    case_decide as Hlast.
    + by rewrite (drop_ge bs (S m)) by lia.
    + pose proof (delete_middle (take m bs) (drop (S m) bs) k') as Ed. rewrite length_take, Nat.min_l in Ed by lia.
      trans (dummy_block 0 :: delete m (take m bs ++ k' :: drop (S m) bs) ++ [k']); [done|].
      by rewrite Ed, <- (assoc_L app).
  - eapply (inv_join seen st _ w k k' (take m bs) (drop (S m) bs)); cbn; try done; try lia; [by rewrite Hstop|].
    intros i' Hs'. rewrite Hs in Hs'. injection Hs' as <-.
    split.
    + exists k0. split; [|done]. rewrite <- Ei, list_lookup_insert_ne by lia. done.
    + rewrite drop_app, length_take, Nat.min_l by lia.
      replace (i - m)%nat with 0%nat by lia. rewrite drop_0. rewrite Eb in Hj. cbn [drop] in Hj.
      rewrite drop_app, length_take, Nat.min_l in Hj by lia. replace (i - m)%nat with 0%nat in Hj by lia.
      rewrite drop_0 in Hj. rewrite Forall_app, Forall_cons in Hj. rewrite Forall_app, Forall_cons.
      destruct Hj as (? & [Hk1 Hk2] & ?). split_and!; [done| |done]. split; [|done]. cbn.
      apply Forall_app. split; [done|by apply Forall_singleton].
Qed.

Lemma optimise_step_inv seen st w head :
  opt_inv seen st -> optimisable w -> (2 <= o_mem st)%nat ->
  exists st', optimise_step st w head = Some (Some st') /\ opt_inv (seen ++ [w]) st' /\ (o_mem st <= o_mem st' + 2)%nat.
Proof.
  intros Hi [Hne Ht] Hm. unfold optimise_step. destruct (rt_dests w) as [|d ds]; [done|]. cbn [lookup list_lookup]. run_binds.
  destruct (_ || _); [by apply add_single_inv|].
  destruct (pattern_tail _) as [b|] eqn:Eb; [|by apply add_single_inv].
  specialize (Ht b eq_refl). rewrite (proj2 (Nat.leb_gt _ _)) by done.
  destruct (Nat.ltb_spec (length b) 3) as [|Hb]; [by apply add_single_inv|].
  destruct (o_bstart st) as [i|] eqn:Es; [|run_binds; by apply add_group_inv].
  destruct (inv_bstart _ _ Hi i Es) as ((k0 & Hk0 & Hh0) & _).
  destruct (blocks_cons _ _ Hi) as [bs Ebs].
  destruct (pattern_tail_occurs _ _ Eb) as [Hc _]. pose proof (tails_sum b Hc Hb) as Hsum.
  assert (find_block (drop i (o_blocks st)) i b (sumz b) = Some None \/
    exists j k, find_block (drop i (o_blocks st)) i b (sumz b) = Some (Some (i + j)%nat) /\
      drop i (o_blocks st) !! j = Some k /\ k_pattern k = Some b) as Hf.
  { rewrite (drop_S _ _ _ Hk0). cbn [find_block]. rewrite Hh0. destruct (Z.eqb_spec 0 (sumz b)); [lia|]. cbn [negb].
    destruct (find_block_spec (drop (S i) (o_blocks st)) (i + 1) b (sumz b)) as [?|(j & k & ? & ? & ?)]; [|done|lia|by left|].
    - rewrite Ebs. cbn [drop]. apply Forall_drop. pose proof (inv_ok _ _ Hi) as Hok. by rewrite Ebs in Hok.
    - right. exists (S j), k. by replace (i + S j)%nat with (i + 1 + j)%nat by lia. }
  destruct Hf as [->|(j & k & -> & Hk & Hp)]; run_binds; [by apply add_group_inv|].
  destruct (join_block_inv seen st w b i j k) as (st' & -> & ? & Hmem); try done. exists st'. split_and!; [done..|lia].
Qed.

Lemma optimise_loop_inv rs seen st head :
  opt_inv seen st -> Forall optimisable rs -> (2 * length rs <= o_mem st)%nat ->
  exists st', optimise_loop st rs head = Some (inr st') /\ opt_inv (seen ++ rs) st' /\
    (o_mem st <= o_mem st' + 2 * length rs)%nat.
Proof.
  intros Hi Hrs. revert seen st head Hi. induction Hrs as [|w rs Hw Hrs IH]; intros seen st head Hi Hm; cbn [optimise_loop length] in *.
  { exists st. rewrite app_nil_r. split_and!; [done..|lia]. }
  destruct (optimise_step_inv seen st w head Hi Hw) as (st1 & -> & Hi1 & Hm1); [lia|]. run_binds.
  destruct (IH _ _ false Hi1) as (st2 & -> & Hi2 & Hm2); [lia|]. exists st2.
  rewrite <- (assoc_L app) in Hi2. split_and!; [done..|lia].
Qed.

(** ** The second loop *)

Definition group_route (name : cstring) (rs : list (route server aggregator)) : route server aggregator :=
  mkRoute (mkMatcher _ [] [] 0 [] CONTAINS) None false [GROUP name rs].

(** What becomes of a block. *)
Definition emit (k : oblock) : list (route server aggregator) :=
  match k_pattern k with
  | Some b => if (length (k_routes k) <? 3)%nat then k_routes k else [group_route b (k_routes k)]
  | None => k_routes k
  end.

Lemma reduce_dummy fuel mem seq n :
  (seq <= n)%nat -> (n - seq + 2 <= fuel)%nat -> reduce_blocks fuel mem seq [dummy_block n] = Some [].
Proof.
  revert seq. induction fuel as [|fuel IH]; intros seq Hle Hf; [lia|]. cbn [reduce_blocks dummy_block k_seqnr k_refcnt].
  destruct (Nat.ltb_spec seq n); [apply IH; lia|]. destruct (Nat.ltb_spec n seq); [lia|].
  cbn [Nat.eqb]. by destruct fuel; [lia|].
Qed.

Lemma sorted_bounds q qs seq n :
  Sorted le (q :: qs) -> Forall (fun q => seq <= q <= n)%nat (q :: qs) ->
  (seq <= q <= n)%nat /\ Sorted le qs /\ Forall (fun x => q <= x <= n)%nat qs.
Proof.
  intros Hs [Hq Hqs]%Forall_cons. apply Sorted_StronglySorted in Hs; [|intros ? ? ?; lia].
  inversion Hs as [|? ? Hs' Hall]; subst. split_and!; [lia..|by apply StronglySorted_Sorted|].
  rewrite Forall_forall in *. intros x Hx. specialize (Hall x Hx). specialize (Hqs x Hx). lia.
Qed.

Lemma reduce_blocks_spec fuel mem seq bs n :
  Forall block_ok bs -> Sorted le (k_seqnr <$> bs) -> Forall (fun q => seq <= q <= n)%nat (k_seqnr <$> bs) ->
  (seq <= n)%nat -> (2 * length (flat bs) <= mem)%nat -> (n - seq + length bs + 2 <= fuel)%nat ->
  reduce_blocks fuel mem seq (bs ++ [dummy_block n]) = Some (concat (emit <$> bs)).
Proof.
  intros Hok. revert mem seq bs Hok. induction fuel as [|fuel IH]; intros mem seq bs Hok Hs Hq Hle Hm Hf; [lia|].
  destruct bs as [|k bs]; [by apply reduce_dummy; cbn in *; lia|].
  cbn [app reduce_blocks].
  rewrite fmap_cons in Hs, Hq. destruct (sorted_bounds _ _ _ _ Hs Hq) as (Hqk & Hs' & Hq').
  apply Forall_cons in Hok as [Hk Hok]. rewrite length_cons in Hf.
  destruct (Nat.ltb_spec seq (k_seqnr k)) as [Hlt|].
  { apply (IH mem (seq + 1)%nat (k :: bs)); rewrite ?fmap_cons, ?length_cons; try done; [by apply Forall_cons| |lia..].
    apply Forall_cons. split; [lia|]. eapply Forall_impl; [exact Hq'|]. cbn. lia. }
  destruct (Nat.ltb_spec (k_seqnr k) seq); [lia|]. destruct Hk as (Hrc & Hne & Hp). rewrite Hrc.
  assert (length (flat (k :: bs)) = length (k_routes k) + length (flat bs))%nat as Hl
    by (unfold flat; rewrite fmap_cons; cbn [concat]; by rewrite length_app).
  assert (k_seqnr k = seq) as Eseq by lia. rewrite Eseq in Hq'.
  destruct (k_routes k) as [|w ws] eqn:Er; [done|]. rewrite <- Er in *.
  assert (length (k_routes k) <> 0)%nat as Hnz by (by rewrite Er).
  rewrite (proj2 (Nat.eqb_neq _ _) Hnz). rewrite fmap_cons. cbn [concat]. unfold emit at 1.
  destruct (Nat.ltb_spec (length (k_routes k)) 3) as [Hl3|Hl3].
  - rewrite (IH mem seq bs) by (done || lia). run_binds. by destruct (k_pattern k).
  - destruct (k_pattern k) as [b|] eqn:Ep; [|lia].
    unfold make_group. destruct (Nat.ltb_spec mem 4); [lia|]. rewrite Ep. run_binds.
    rewrite (IH (mem - 4)%nat seq bs) by (done || lia). done.
Qed.

(** With enough memory the optimiser permutes routes that do not stop, and groups
    blocks of routes with the same tail. *)
Lemma router_optimise_spec mem threshold rs :
  Forall optimisable rs -> (4 * length rs + 1 <= mem)%nat ->
  router_optimise mem threshold rs = Some rs \/
  exists bs, router_optimise mem threshold rs = Some (concat (emit <$> bs)) /\ Forall block_ok bs /\ reorder rs (flat bs).
Proof.
  intros Hrs Hm. unfold router_optimise. destruct (_ <? _); [by left|]. destruct mem as [|mem]; [lia|]. right.
  destruct (optimise_loop_inv rs [] (mkO mem [dummy_block 0] (Some 0%nat) None 1) true) as (st & -> & Hi & Hm'); [|done|cbn; lia|].
  { split; cbn; try done; try apply ro_nil; try (by constructor); try lia.
    intros i [= <-]. split; [by eexists|apply Forall_nil_2]. }
  run_binds. cbn [o_mem] in Hm'. destruct (blocks_cons _ _ Hi) as [bs Ebs].
  destruct Hi as [Iok Id Iro Iso Ise Iq Irl Ibs]. rewrite Ebs in *. cbn [tail] in *.
  pose proof (Permutation_length (reorder_Permutation _ _ Iro)) as Hl. cbn [app] in Hl, Iro.
  exists bs. split_and!; [|done..]. rewrite length_app. cbn [length]. apply reduce_blocks_spec; try done; lia.
Qed.
End Optimise.

(** ** What plain routes send *)

Section Effect.
Context {server : Type} `{EqDecision server} `{ServerInfo server} `{RouteServer server} `{Regex}.
Context {aggregator : Type} (cx : context) (line : cstring) (fs : nat).
Implicit Types (w : route server aggregator) (rs : list (route server aggregator)) (d : cluster server aggregator).
Implicit Types (st : rstate server aggregator) (lo : locals).

Abbreviation sends := (list (server * message)) (only parsing).
Let name := take fs line.

Definition send_to (s : server) : server * message := (s, produce_metric cx s line).
Definition ring_out (repl : nat) (ring : ch_ring server) : option sends :=
  nodes ← ch_get_nodes (length (entrylist ring)) 0 ring (s8 (Z.of_nat repl)) name;
  if (length nodes <? repl)%nat then None else Some (send_to <$> take repl nodes).

(** What a destination gets of the metric; [None]: the lookup does not return. *)
Definition dest_out d : option sends :=
  match d with
  | BLACKHOLE => Some []
  | FILELOGIP srvs => Some ((fun s => (s, router_format_linemodeip cx line)) <$> srvs)
  | FILELOG srvs | FORWARD srvs => Some (send_to <$> srvs)
  | ANYOF srvs => s ← srvs !! Z.to_nat (fnv1a_32 name mod Z.of_nat (length srvs)); Some [send_to s]
  | FAILOVER srvs | LB srvs => s ← srvs !! 0%nat; Some [send_to s]
  | CARBON_CH repl ring | FNV1A_CH repl ring | JUMP_CH repl ring => ring_out repl ring
  | _ => None
  end.
Fixpoint dests_out (ds : list (cluster server aggregator)) : option sends :=
  match ds with
  | [] => Some []
  | d :: ds' => new ← dest_out d; rest ← dests_out ds'; Some (new ++ rest)
  end.

Definition matches w : bool :=
  (router_metric_matches (rt_match w) (c_before cx) name (drop fs line) (c_dispatcher cx) (c_garbage cx)).1.

(** The destinations of the routes that match, up to the first of them that stops. *)
Fixpoint routes_out rs : option sends :=
  match rs with
  | [] => Some []
  | w :: rs' =>
      if matches w then
        new ← dests_out (rt_dests w);
        if rt_stop w then Some new else rest ← routes_out rs'; Some (new ++ rest)
      else routes_out rs'
  end.

(** The slots routes may take. *)
Definition dest_slots d : nat :=
  match d with
  | FILELOGIP srvs | FILELOG srvs | FORWARD srvs => length srvs
  | ANYOF _ | FAILOVER _ | LB _ => 1
  | CARBON_CH repl _ | FNV1A_CH repl _ | JUMP_CH repl _ => repl
  | _ => 0
  end.
Definition dests_slots (ds : list (cluster server aggregator)) : nat := sum_list_with dest_slots ds.
Definition route_slots rs : nat := sum_list_with (fun w => dests_slots (rt_dests w)) rs.

Definition enough st (n : nat) : Prop := Z.of_nat (length (s_ret st)) + Z.of_nat n <= c_retsize cx.
Lemma enough_slots st n z : enough st n -> z <= Z.of_nat n -> no_slots cx st z = false.
Proof. intros Hr ?. unfold no_slots. unfold enough in Hr. apply Z.ltb_ge. lia. Qed.

(** The step from a state to one with more destinations. *)
Definition sent st (new : sends) st' : Prop := obs st' = (s_ret st ++ new, s_line st, s_calls st).

Lemma send_forward_out fmt srvs lo st :
  enough st (length srvs) ->
  exists lo' st', send_forward cx fmt srvs lo st = Some (Next, lo', st') /\
    l_stop lo' = l_stop lo /\ l_fs lo' = l_fs lo /\ sent st ((fun s => (s, fmt s)) <$> srvs) st'.
Proof.
  revert st. induction srvs as [|s srvs IH]; intros st Hr; cbn [send_forward].
  { exists (set_sent lo), st. split_and!; try done. unfold sent, obs. cbn. by rewrite app_nil_r. }
  cbn in Hr. rewrite (enough_slots st (S (length srvs))) by (done || lia).
  destruct (IH (add_ret st s (fmt s))) as (lo' & st' & -> & ? & ? & Ho).
  { unfold enough, add_ret in *. cbn. rewrite length_app. cbn. lia. }
  exists lo', st'. split_and!; try done. unfold sent in *. rewrite Ho. cbn. by rewrite <- (assoc_L app).
Qed.

(** A plain destination adds what it sends. *)
Lemma run_dest_out go m first d last lo st :
  plain_dest d = true -> s_line st = line -> l_fs lo = fs -> enough st (dest_slots d) ->
  match dest_out d with
  | None => run_dest cx go m None first 0 d last lo st = None
  | Some new => (length new <= dest_slots d)%nat /\ exists lo' st',
      run_dest cx go m None first 0 d last lo st = Some (Next, lo', st') /\
      l_stop lo' = l_stop lo /\ l_fs lo' = l_fs lo /\ sent st new st'
  end.
Proof.
  intros Hd Hl Hf Hr.
  assert (metric_text 0 st = line) as Ht by (unfold metric_text; by rewrite drop_0).
  assert (metric_name 0 lo st = name) as Hn by (unfold metric_name, name; by rewrite drop_0, Nat.sub_0_r, Hl, Hf).
  assert (forall s, 1 <= Z.of_nat (dest_slots d) -> match (s ← s; Some [send_to s]) with
    | None => send_one cx s line lo st = None
    | Some new => (length new <= 1)%nat /\ exists lo' st', send_one cx s line lo st = Some (Next, lo', st') /\
        l_stop lo' = l_stop lo /\ l_fs lo' = l_fs lo /\ sent st new st' end) as Hone.
  { intros s Hs. unfold send_one. rewrite (enough_slots st (dest_slots d)) by (done || lia).
    destruct s as [s|]; run_binds; [|done]. split; [done|]. by eexists _, _. }
  assert (forall fmt srvs, dest_slots d = length srvs ->
    (length ((fun s => (s, fmt s)) <$> srvs) <= length srvs)%nat /\ exists lo' st',
      send_forward cx fmt srvs lo st = Some (Next, lo', st') /\ l_stop lo' = l_stop lo /\ l_fs lo' = l_fs lo /\
      sent st ((fun s => (s, fmt s)) <$> srvs) st') as Hfw.
  { intros fmt srvs E. rewrite E in Hr. split; [by rewrite length_fmap|by apply send_forward_out]. }
  assert (forall repl ring, dest_slots d = repl -> match ring_out repl ring with
    | None => send_ring cx repl ring None (m_nmatch m) 0 lo st = None
    | Some new => (length new <= repl)%nat /\ exists lo' st',
        send_ring cx repl ring None (m_nmatch m) 0 lo st = Some (Next, lo', st') /\
        l_stop lo' = l_stop lo /\ l_fs lo' = l_fs lo /\ sent st new st' end) as Hring.
  { intros repl ring E. unfold ring_out, send_ring. rewrite Hn, Ht, (enough_slots st (dest_slots d)) by (done || lia).
    destruct (ch_get_nodes _ _ _ _ _) as [nodes|]; run_binds; [|done]. destruct (_ <? _)%nat; [done|].
    split; [rewrite length_fmap, length_take; lia|]. by eexists _, _. }
  destruct d; try done; cbn [run_dest dest_out]; rewrite ?Ht, ?Hn; try (by apply Hone); try (by apply Hfw); try (by apply Hring).
  split; [done|]. eexists _, _. split_and!; [done..|]. unfold sent, obs. cbn. by rewrite app_nil_r.
Qed.

Lemma run_dests_out go m first ds lo st :
  Forall (fun d => plain_dest d = true) ds -> s_line st = line -> l_fs lo = fs -> enough st (dests_slots ds) ->
  match dests_out ds with
  | None => run_dests cx go m None first 0 ds lo st = None
  | Some new => (length new <= dests_slots ds)%nat /\ exists lo' st',
      run_dests cx go m None first 0 ds lo st = Some (false, lo', st') /\
      l_stop lo' = l_stop lo /\ l_fs lo' = l_fs lo /\ sent st new st'
  end.
Proof.
  intros Hds. revert lo st. induction Hds as [|d ds Hd Hds IH]; intros lo st Hl Hf Hr; cbn [dests_out run_dests].
  { split; [done|]. exists lo, st. split_and!; try done. unfold sent, obs. by rewrite app_nil_r. }
  unfold dests_slots in Hr. cbn [sum_list_with] in Hr. fold (dests_slots ds) in Hr.
  pose proof (run_dest_out go m first d (bool_decide (length ds = 0%nat)) lo st Hd Hl Hf) as Hone.
  ospecialize (Hone _); [unfold enough in *; lia|].
  destruct (dest_out d) as [new|]; run_binds; [|by rewrite Hone].
  destruct Hone as (Hlen & lo1 & st1 & -> & Hs1 & Hf1 & Ho1). injection Ho1 as Er El Ec.
  specialize (IH lo1 st1 ltac:(congruence) ltac:(congruence)). ospecialize (IH _).
  { unfold enough in *. rewrite Er, length_app. lia. }
  destruct (dests_out ds) as [rest|]; run_binds; [|done].
  destruct IH as (Hlen2 & lo2 & st2 & -> & Hs2 & Hf2 & Ho2).
  split; [unfold dests_slots in *; cbn [sum_list_with]; rewrite length_app; lia|].
  exists lo2, st2. split_and!; [done|congruence..|]. unfold sent in *. rewrite Ho2, Er, El, Ec. by rewrite <- (assoc_L app).
Qed.

(** Plain routes send what [routes_out] says, when there are enough slots. *)
Lemma run_list_out rs lo st :
  Forall plain_route rs -> s_line st = line -> l_fs lo = fs -> l_stop lo = false -> enough st (route_slots rs) ->
  match routes_out rs with
  | None => run_list (run_route cx) rs 0 lo st = None
  | Some new => exists lo' st', run_list (run_route cx) rs 0 lo st = Some (false, lo', st') /\ sent st new st'
  end.
Proof.
  intros Hrs. revert lo st. induction Hrs as [|w rs Hw Hrs IH]; intros lo st Hl Hf Hs Hr; cbn [routes_out run_list].
  { exists lo, st. split; [done|]. unfold sent, obs. by rewrite app_nil_r. }
  unfold route_slots in Hr. cbn [sum_list_with] in Hr. fold (route_slots rs) in Hr.
  destruct w as [m masq stop dests], Hw as (Hm & Hne & Hds). cbn [rt_masq rt_dests] in *. subst masq.
  assert (run_route cx (mkRoute m None stop dests) 0 lo st =
    if matches (mkRoute m None stop dests) then
      run_dests cx (fun rs => run_call cx (run_route cx) rs) m None (default BLACKHOLE (head dests)) 0 dests
        (mkLoc stop (l_wassent lo) (l_fs lo)
          (router_metric_matches m (c_before cx) name (drop fs line) (c_dispatcher cx) (l_pmatch lo)).2) st
    else Some (false, mkLoc (l_stop lo) (l_wassent lo) (l_fs lo)
          (router_metric_matches m (c_before cx) name (drop fs line) (c_dispatcher cx) (l_pmatch lo)).2, st)) as Erun.
  { destruct dests as [|d ds]; [done|]. pose proof Hds as [Hd _]%Forall_cons. cbn [run_route head default].
    unfold matches, metric_name, metric_rest. cbn [rt_match].
    rewrite take_0, app_nil_r, drop_0, Nat.sub_0_r, Hl, Hf. fold name.
    rewrite (matches_bool m _ _ _ _ (c_garbage cx) (l_pmatch lo)).
    destruct (router_metric_matches _ _ _ _ _ (l_pmatch lo)) as [[|] pm]; by destruct d. }
  rewrite Erun. destruct (matches _).
  - pose proof (run_dests_out (fun rs => run_call cx (run_route cx) rs) m (default BLACKHOLE (head dests)) dests
      (mkLoc stop (l_wassent lo) (l_fs lo)
        (router_metric_matches m (c_before cx) name (drop fs line) (c_dispatcher cx) (l_pmatch lo)).2) st Hds Hl Hf) as Hd.
    ospecialize (Hd _); [unfold enough in *; cbn in Hr; lia|]. cbn [rt_dests rt_stop].
    destruct (dests_out dests) as [new|]; run_binds; [|by rewrite Hd].
    destruct Hd as (Hlen & lo1 & st1 & -> & Hs1 & Hf1 & Ho1). cbn [l_stop] in Hs1. rewrite Hs1.
    destruct stop; [eauto|]. injection Ho1 as Er El Ec.
    specialize (IH lo1 st1 ltac:(congruence) ltac:(cbn in Hf1; congruence) Hs1). ospecialize (IH _).
    { unfold enough in *. rewrite Er, length_app. cbn in Hr. lia. }
    destruct (routes_out rs) as [rest|]; run_binds; [|done]. destruct IH as (lo2 & st2 & -> & Ho2).
    exists lo2, st2. split; [done|]. unfold sent in *. rewrite Ho2, Er, El, Ec. by rewrite <- (assoc_L app).
  - cbn [l_stop]. rewrite Hs. apply IH; try done. unfold enough in *. cbn in Hr. lia.
Qed.

Lemma router_route_out rs :
  Forall plain_route rs -> Z.of_nat (route_slots rs) <= c_retsize cx ->
  obs <$> router_route cx rs line fs = (fun new => (new, line, [])) <$> routes_out rs.
Proof.
  intros Hrs Hr. unfold router_route, router_route_intern, run_call.
  pose proof (run_list_out rs (mkLoc false false fs (c_garbage cx)) (mkSt false [] line []) Hrs eq_refl eq_refl eq_refl) as Hl.
  ospecialize (Hl _); [unfold enough; cbn; lia|].
  destruct (routes_out rs) as [new|]; [|by rewrite Hl]. destruct Hl as (lo' & st' & -> & Ho). cbn.
  destruct (l_wassent lo'); cbn; f_equal; exact Ho.
Qed.

(** ** Reordered routes *)

(** The same destinations, in any order. *)
Definition same_out (o o' : option sends) : Prop :=
  match o, o' with Some l, Some l' => l ≡ₚ l' | None, None => True | _, _ => False end.
#[export] Instance same_out_equiv : Equivalence same_out.
Proof.
  split.
  - intros [l|]; by cbn.
  - intros [l|] [l'|]; by cbn.
  - intros [l1|] [l2|] [l3|]; cbn; try done. apply Permutation_trans.
Qed.

Lemma reorder_out rs rs' : reorder rs rs' -> same_out (routes_out rs) (routes_out rs').
Proof.
  induction 1 as [|w rs rs' Hr IH|w w' rs Hw Hw'|rs1 rs2 rs3 _ IH1 _ IH2]; cbn [routes_out].
  - done.
  - destruct (matches w); [|done]. destruct (dests_out _) as [new|]; run_binds; [|done]. destruct (rt_stop w); [done|].
    destruct (routes_out rs), (routes_out rs'); run_binds; cbn in *; try done. by f_equiv.
  - rewrite Hw, Hw'. destruct (matches w), (matches w'), (dests_out (rt_dests w)), (dests_out (rt_dests w')), (routes_out rs);
      run_binds; cbn; try done.
    rewrite !(assoc_L app). f_equiv. by rewrite (comm app).
  - by etrans.
Qed.

(** ** Grouped routes *)

(** The tail of a route's pattern is in the metric if it matches. *)
Definition tail_required w : Prop :=
  forall b, pattern_tail (m_pattern (rt_match w)) = Some b -> (3 <= length b)%nat -> group_scan b (rev name) = false ->
    forall pm, (router_metric_matches (rt_match w) (c_before cx) name (drop fs line) (c_dispatcher cx) pm).1 = false.

(** Two runs that end alike; a failure inside a group comes back as a stop. *)
Definition same_end (r r' : option (bool * locals * rstate server aggregator)) : Prop :=
  match r, r' with
  | None, None => True
  | Some (f, lo, st), Some (f', lo', st') =>
      f || l_stop lo = f' || l_stop lo' /\ obs st = obs st' /\ (f || l_stop lo = false -> l_fs lo = l_fs lo')
  | _, _ => False
  end.
#[local] Instance same_end_trans : Transitive same_end.
Proof.
  intros [[[f1 lo1] st1]|] [[[f2 lo2] st2]|] [[[f3 lo3] st3]|]; cbn; try done.
  intros (E1 & E2 & E3) (F1 & F2 & F3). split_and!; [congruence..|]. intros Hs. rewrite E3, F3; congruence.
Qed.
Lemma same_run_end r r' : same_run r r' -> same_end r r'.
Proof. destruct r as [[[f lo] st]|], r' as [[[f' lo'] st']|]; cbn; try done. intros (-> & -> & -> & ->). done. Qed.

Lemma run_emit k lo st :
  block_ok k -> Forall plain_route (k_routes k) -> Forall tail_required (k_routes k) ->
  name <> [] -> l_stop lo = false -> l_fs lo = fs -> s_line st = line ->
  same_end (run_list (run_route cx) (k_routes k) 0 lo st) (run_list (run_route cx) (emit k) 0 lo st).
Proof.
  intros (_ & _ & Hb) Hp Ht Hne Hs Hf Hl. unfold emit.
  assert (same_end (run_list (run_route cx) (k_routes k) 0 lo st) (run_list (run_route cx) (k_routes k) 0 lo st)) as Hsame.
  { by destruct (run_list _ _ _ _ _) as [[[? ?] ?]|]. }
  destruct (k_pattern k) as [b|]; [|done]. destruct (_ <? 3)%nat; [done|]. destruct Hb as (_ & Hl3 & _ & Hb).
  assert (metric_name 0 lo st = name) as En by (unfold metric_name, name; by rewrite drop_0, Nat.sub_0_r, Hl, Hf).
  assert (metric_rest lo st = drop fs line) as Er by (unfold metric_rest; by rewrite Hl, Hf).
  pose proof (run_group cx b (k_routes k) (mkMatcher _ [] [] 0 [] CONTAINS) None false 0 lo st Hp) as Hg.
  rewrite En, Er, take_0, app_nil_r in Hg. specialize (Hg ltac:(
    intros Hscan; rewrite Forall_forall in *; intros w Hw; exact (Ht w Hw b (Hb w Hw) Hl3 Hscan)) Hne Hs).
  change (mkRoute _ None false [GROUP b (k_routes k)]) with (group_route b (k_routes k)) in Hg. cbn [run_list].
  destruct (run_list _ _ _ _ _) as [[[f lo1] st1]|], (run_route _ (group_route _ _) _ _ _) as [[[[|] lo2] st2]|]; try done.
  destruct Hg as (Ho & Hstop & Hf2 & Hf1).
  destruct (l_stop lo2) eqn:E2; (split_and!; cbn [orb]; [congruence|done|]); intros Hfalse; destruct Hf1; try congruence.
  all: subst; done.
Qed.

Lemma run_emitted bs lo lo' st st' :
  Forall block_ok bs -> Forall plain_route (flat bs) -> Forall tail_required (flat bs) ->
  name <> [] -> same_in lo lo' st st' -> l_stop lo = false -> l_fs lo = fs -> s_line st = line ->
  same_end (run_list (run_route cx) (flat bs) 0 lo st) (run_list (run_route cx) (concat (emit <$> bs)) 0 lo' st').
Proof.
  intros Hok. revert lo lo' st st'. induction Hok as [|k bs Hk Hok IH]; intros lo lo' st st' Hp Ht Hne Hin Hs Hf Hl.
  { destruct Hin as (? & ? & ?). by apply same_run_end. }
  change (flat (k :: bs)) with (k_routes k ++ flat bs) in *. rewrite fmap_cons. cbn [concat].
  apply Forall_app in Hp as [Hpk Hp]. apply Forall_app in Ht as [Htk Ht].
  destruct (same_in_eqs _ _ _ _ Hin) as (E1 & E2 & E3 & E4 & E5).
  assert (same_end (run_list (run_route cx) (k_routes k) 0 lo st) (run_list (run_route cx) (emit k) 0 lo' st')) as Hsame.
  { etrans; [apply same_run_end, (run_list_same cx (k_routes k) 0 lo lo' st st' Hpk Hin)|].
    apply run_emit; try done; congruence. }
  rewrite !run_list_app by congruence.
  pose proof (fun f lo1 st1 => run_list_fs cx (k_routes k) 0 lo st f lo1 st1 Hpk) as Hfs.
  destruct (run_list _ (k_routes k) _ _ _) as [[[f lo1] st1]|], (run_list _ (emit k) _ _ _) as [[[f' lo1'] st1']|]; try done.
  destruct Hsame as (Hstop & Ho & Hf').
  destruct (Hfs _ _ _ eq_refl) as [Hf1 Hl1].
  destruct f, f'; cbn [orb] in *; [done|rewrite <- Hstop; by split_and!|rewrite Hstop; split_and!; cbn; by try congruence|rewrite <- Hstop].
  destruct (l_stop lo1) eqn:Es; [split_and!; cbn; by try congruence|].
  apply IH; try done; try congruence. split_and!; [congruence|auto|done].
Qed.

(** With groups or without, routing has the same effect. *)
Lemma router_route_emitted bs :
  Forall block_ok bs -> Forall plain_route (flat bs) -> Forall tail_required (flat bs) -> name <> [] ->
  obs <$> router_route cx (concat (emit <$> bs)) line fs = obs <$> router_route cx (flat bs) line fs.
Proof.
  intros Hok Hp Ht Hne. unfold router_route, router_route_intern, run_call.
  pose proof (run_emitted bs (mkLoc false false fs (c_garbage cx)) (mkLoc false false fs (c_garbage cx))
    (mkSt false [] line []) (mkSt false [] line []) Hok Hp Ht Hne ltac:(by split_and!) eq_refl eq_refl eq_refl) as Hs.
  destruct (run_list _ (flat bs) _ _ _) as [[[f lo1] st1]|], (run_list _ (concat _) _ _ _) as [[[f' lo1'] st1']|]; try done.
  destruct Hs as (_ & Ho & _). destruct f, f', (l_wassent lo1), (l_wassent lo1'); cbn; by f_equal.
Qed.
End Effect.

(** ** String comparisons require their tails *)

Lemma tail_not_escaped c : tail_char c = true -> special_char c || (c =? ch "\") = false /\ c <> ch "\" /\ c <> ch "$" /\ c <> ch "^".
Proof.
  unfold tail_char, special_char, is_lower, is_upper. vm_compute (ch "_"); vm_compute (ch "\"); vm_compute (ch "$");
    vm_compute (ch "."); vm_compute (ch "^"); vm_compute (ch "*"); vm_compute (ch "+").
  rewrite !orb_true_iff, !andb_true_iff, !Z.leb_le, Z.eqb_eq, !orb_false_iff, !Z.eqb_neq. lia.
Qed.

Section Literal.
(** What may follow the text in a pattern. *)
Context (e : cstring) (He : e = [] \/ e = [ch "$"]).

Lemma render_cons c text : render_text (c :: text) = render_char c ++ render_text text.
Proof. done. Qed.

(** Letters at the start of a rendered text are at the start of the text. *)
Lemma render_prefix t text y :
  Forall (fun c => tail_char c = true) t -> render_text text ++ e = t ++ y -> exists y', text = t ++ y'.
Proof.
  intros Ht. revert text. induction Ht as [|c t Hc Ht IH]; intros text E; [by exists text|].
  destruct (tail_not_escaped c Hc) as (Hn & Hb & Hd & _).
  destruct text as [|c' text]; [by destruct He; simplify_eq/=|]. rewrite render_cons in E. unfold render_char in E.
  destruct (special_char c' || (c' =? ch "\")) eqn:Hc'; cbn [app] in E; [by simplify_eq|].
  injection E as -> E. destruct (IH text E) as [y' ->]. by exists y'.
Qed.

(** Letters inside a rendered text are inside the text. *)
Lemma render_infix t text x y :
  Forall (fun c => tail_char c = true) t -> t <> [] -> render_text text ++ e = x ++ t ++ y -> exists x' y', text = x' ++ t ++ y'.
Proof.
  intros Ht Hne. revert x. induction text as [|c text IH]; intros x E.
  { exfalso. destruct t as [|c t]; [done|]. apply Forall_cons in Ht as [(_ & _ & Hd & _)%tail_not_escaped _].
    cbn in E. destruct He as [->| ->]; destruct x as [|? [|? x]]; by simplify_eq/=. }
  destruct x as [|c0 x].
  { destruct (render_prefix t (c :: text) y Ht E) as [y' ->]. by exists [], y'. }
  rewrite render_cons in E. unfold render_char in E.
  destruct (special_char c || (c =? ch "\")) eqn:Hc; cbn [app] in E.
  - injection E as <- E. destruct x as [|c1 x].
    + destruct t as [|c1 t]; [done|]. apply Forall_cons in Ht as [(Hn & _)%tail_not_escaped _]. simplify_eq/=. congruence.
    + injection E as <- E. destruct (IH x E) as (x' & y' & ->). by exists (c :: x'), y'.
  - injection E as <- E. destruct (IH x E) as (x' & y' & ->). by exists (c :: x'), y'.
Qed.
End Literal.

Lemma simple_tail mt text b :
  pattern_tail (render_simple (simple_of mt text)) = Some b -> b <> [] -> exists x y, text = x ++ rev b ++ y.
Proof.
  intros Hb Hne. destruct (pattern_tail_occurs _ _ Hb) as (Ht & x & y & E).
  apply Forall_rev in Ht. assert (rev b <> []) as Hr by (intros Hr; apply (f_equal (@rev Z)) in Hr; by rewrite rev_involutive in Hr).
  set (e := if s_end (simple_of mt text) then [ch "$"] else []).
  assert (e = [] \/ e = [ch "$"]) as He by (unfold e; destruct (s_end _); auto).
  unfold render_simple in E. fold e in E. destruct (s_start _); cbn [app] in E.
  - destruct x as [|c x].
    + exfalso. destruct (rev b) as [|c t]; [done|]. apply Forall_cons in Ht as [(_ & _ & _ & Hc)%tail_not_escaped _]. by simplify_eq/=.
    + injection E as _ E. by apply (render_infix e He) in E.
  - by apply (render_infix e He) in E.
Qed.

(** The text a classified route compares with is in every metric it matches. *)
Lemma matched_contains `{Regex} (r : matcher) before name sep rest id pm :
  m_type r <> REGEX -> m_type r <> MATCHALL ->
  Forall (fun c => literal_char c = true) (m_strmatch r) -> literal_char sep = false ->
  (m_type r = ENDS_WITH -> (length (m_strmatch r) <= length name)%nat) ->
  (router_metric_matches r before name (sep :: rest) id pm).1 = true -> exists x y, name = x ++ m_strmatch r ++ y.
Proof.
  intros Hr Ha Hl Hc Hend. rewrite fast_match by done. unfold match_simple, simple_of. cbn [s_start s_text s_end].
  destruct (anchored_start (m_type r)), (anchored_end (m_type r)).
  - case_bool_decide as E; [|done]. intros _. exists [], []. by rewrite E, app_nil_r.
  - destruct (prefixb _ _) eqn:E; [|done]. apply prefixb_true in E as [b ->]. intros _. by exists [], b.
  - destruct (_ <=? _)%nat; cbn [andb]; [|done]. case_bool_decide as E; [|done]. intros _.
    exists (take (length name - length (m_strmatch r)) name), []. rewrite app_nil_r. rewrite <- E at 2. by rewrite take_drop.
  - destruct (strstr _ _) as [so|] eqn:E; [|done]. apply strstr_Some in E as (a & b & -> & _). intros _. by exists a, b.
Qed.

(** ** Properties *)


(** A route that was classified as a string comparison requires the tail of its
    pattern in the metric, so that it may be in the optimiser's groups. *)
Theorem string_matches_require_tails {server : Type} `{EqDecision server} `{ServerInfo server} `{RouteServer server} `{Regex}
    {aggregator : Type} (cx : context) (alloc : bool) (workers : nat) (w : route server aggregator)
    (name rest : cstring) (sep : cchar) :
  determine_if_regex alloc workers (m_pattern (rt_match w)) = inl (rt_match w) ->
  m_type (rt_match w) <> REGEX -> (scan (m_pattern (rt_match w))).1.2 = false -> literal_char sep = false ->
  (m_type (rt_match w) = ENDS_WITH -> (length (m_strmatch (rt_match w)) <= length name)%nat) ->
  tail_required cx (name ++ sep :: rest) (length name) w.
Proof.
  intros Hd Hne Hesc Hsep Hend b Hb Hl3. rewrite take_app_length, drop_app_length. intros Hscan pm.
  set (m := rt_match w) in *. unfold determine_if_regex in Hd. destruct (scan (m_pattern m)) as [[mt escape] pb] eqn:Es.
  cbn in Hesc. subst escape. destruct (bool_decide_reflect (mt = REGEX)) as [->|Hmt]; cbn [negb] in Hd.
  { exfalso. repeat case_match; simplify_eq; by rewrite <- Hd in Hne. }
  apply (inj inl) in Hd. destruct (scan_sound _ _ _ Es Hmt) as (Hma & Hl & Hp).
  assert (m_type m = mt /\ m_strmatch m = pb) as [Et Ep] by (by rewrite <- Hd).
  apply not_true_is_false. intros Hm. apply matched_contains in Hm as (x & y & Hn); [|congruence..|done].
  rewrite Hp in Hb. assert (b <> []) as Hnb by (intros ->; cbn in Hl3; lia).
  destruct (simple_tail _ _ _ Hb Hnb) as (x' & y' & Htext).
  enough (group_scan b (rev name) = true) by congruence. apply group_scan_contains; [done|].
  exists (x ++ x'), (y' ++ y). rewrite Hn, Ep, Htext. by rewrite <- !(assoc_L app).
Qed.

(** ** Concrete routes *)

#[local] Existing Instance simple_engine.
Definition text_route (pat text : cstring) (stop : bool) (port : Z) : route addr nat :=
  mkRoute (demo_match CONTAINS pat text) None stop [FORWARD [mkAddr (lit "10.0.0.1") port None]].
Definition load_routes : list (route addr nat) :=
  [text_route (lit "cpu\.load") (lit "cpu.load") false 1; text_route (lit "disk\.free") (lit "disk.free") false 2;
   text_route (lit "net\.load") (lit "net.load") false 3; text_route (lit "a\.load") (lit "a.load") true 4;
   text_route (lit "mem\.load") (lit "mem.load") false 5].

(** Three of these routes end up in a group, behind the one with another tail. *)
Example load_routes_grouped :
  router_optimise 30 0 load_routes =
  Some [text_route (lit "disk\.free") (lit "disk.free") false 2;
        group_route (rev (lit "load")) [text_route (lit "cpu\.load") (lit "cpu.load") false 1;
          text_route (lit "net\.load") (lit "net.load") false 3; text_route (lit "a\.load") (lit "a.load") true 4];
        text_route (lit "mem\.load") (lit "mem.load") false 5].
Proof. vm_compute. reflexivity. Qed.

Lemma load_routes_required : Forall (tail_required demo_cx (lit "a.cpu.load 1 2") 10) load_routes.
Proof.
  repeat apply Forall_cons_2; [..|apply Forall_nil_2]; intros b Hb Hl Hs pm; vm_compute in Hb; injection Hb as <-;
    vm_compute in Hs; discriminate || reflexivity.
Qed.
Lemma load_routes_plain : Forall plain_route load_routes /\ Forall optimisable load_routes.
Proof.
  split; (repeat apply Forall_cons_2; [..|apply Forall_nil_2]).
  all: try (split_and!; [done|done|by apply Forall_singleton]).
  all: split; [done|]; intros b Hb; vm_compute in Hb; injection Hb as <-; vm_compute; lia.
Qed.


Lemma string_matches_require_tails_witness :
  tail_required demo_cx (lit "a.cpu.load 1") 10 (text_route (lit "cpu\.load") (lit "cpu.load") false 1).
Proof.
  apply (string_matches_require_tails demo_cx true 1 (text_route (lit "cpu\.load") (lit "cpu.load") false 1)
    (lit "a.cpu.load") (lit "1") (ch " ")); vm_compute; done.
Defined.

(** When memory runs out half way, the routes that are not in the block of the first
    one are lost: the chain of routes was taken apart before. *)
Example optimise_out_of_memory : router_optimise 3 0 load_routes = Some [text_route (lit "cpu\.load") (lit "cpu.load") false 1].
Proof. vm_compute. reflexivity. Qed.

(** An engine for texts whose last character is optional. *)
Definition optional_engine : Regex := {|
  regex_t := cstring;
  regcomp := fun pat => match rev pat with q :: c :: t => if q =? ch "?" then Some (rev t) else None | _ => None end;
  re_nsub := fun _ => 0%nat;
  regexec := fun t s => (fun so => [(Z.of_nat so, Z.of_nat (so + length t))]) <$> strstr s t;
|}.
Definition optional_route (pat : cstring) : option (@route addr optional_engine nat) :=
  match @determine_if_regex optional_engine true 1 pat with
  | inl m => Some (mkRoute m None false [FORWARD [mkAddr pat 2003 None]])
  | inr _ => None
  end.

(** A pattern that ends in an optional character does not require its tail: three
    such routes are put in a group that hides them from a metric the first matches. *)
Theorem optimise_hides_optional_tails :
  let rs := omap optional_route [lit "1load?"; lit "2load?"; lit "3load?"] in
  let sent rs := (fun st => length (s_ret st)) <$> router_route demo_cx rs (lit "1loa 5 6") 4 in
  length rs = 3%nat /\ sent rs = Some 1%nat /\ (rs' ← router_optimise 30 0 rs; sent rs') = Some 0%nat.
Proof. vm_compute. done. Qed.
