(* ===== verification/DispatchParse.v ===== *)
(** * Reading metrics from connections (src/dispatcher.c)

    How a dispatcher turns received bytes into metrics ([dispatch_received_metrics]),
    hands them to their destinations ([dispatch_process_dests]) and serves a
    connection ([dispatch_connection]).  The router, the servers' queues, the
    clock and the transport stream are operations on an environment [E]
    ([DispatchEnv]).  A connection's [buf] is the [buflen] bytes it holds. *)
From S2P Require Import Prelude Relay.
#[local] Open Scope Z_scope.

(** [errno] after a failed read, as far as it is looked at. *)
Inductive errno := EAGAIN | ENOMEM | EOTHER.
(** What a read gives: data, 0 for the end of file, -1 with its [errno], or another
    negative number, which [gzipread] may return. *)
Inductive read_result := ReadData (data : list Z) | ReadEOF | ReadErr (e : errno) | ReadNeg (e : errno).

(** The operations a dispatcher uses: [router_route], [server_send], [gettimeofday],
    [strmread] and, for compressed streams, [strmreadbuf]; a read is told how many
    bytes fit. *)
Class DispatchEnv (E D : Type) := {
  env_route : E -> cstring -> nat -> E * list D * bool;
  env_send : E -> D -> bool -> E * bool;
  env_time : E -> E * timeval;
  env_read : E -> Z -> E * read_result;
  env_readbuf : option (E -> Z -> E * read_result);
}.

(** [takenby] of a connection: [C_IN] is 0, else a worker's id. *)
Definition C_IN : Z := 0.

(** The part of a dispatcher the functions below use; [d_seed] is the thread's
    [rand2] seed. *)
Record dispatcher := mkDisp {
  d_id : Z;
  d_metrics : Z; d_blackholes : Z; d_discards : Z;
  d_allowed_chars : cstring;
  d_tags_supported : bool;
  d_maxinplen : Z; d_maxmetriclen : Z;
  d_seed : Z;
}.

Record connection (D : Type) := mkConn {
  c_takenby : Z;
  c_buf : list Z; c_bufsize : Z;
  c_dests : list D;
  c_lastwork : timeval; c_maxsenddelay : Z;
  c_needmore : bool; c_noexpire : bool; c_isaggr : bool; c_isudp : bool;
}.
Arguments mkConn {D}.
Arguments c_takenby {D}. Arguments c_buf {D}. Arguments c_bufsize {D}. Arguments c_dests {D}.
Arguments c_lastwork {D}. Arguments c_maxsenddelay {D}. Arguments c_needmore {D}.
Arguments c_noexpire {D}. Arguments c_isaggr {D}. Arguments c_isudp {D}.

Definition set_counts (d : dispatcher) (metrics blackholes discards seed : Z) : dispatcher :=
  mkDisp (d_id d) metrics blackholes discards (d_allowed_chars d) (d_tags_supported d)
    (d_maxinplen d) (d_maxmetriclen d) seed.

(** [dispatch_init], for the fields above. *)
Definition dispatch_init (d : dispatcher) (allowed_chars : cstring) (maxinplen maxmetriclen : Z) : dispatcher :=
  mkDisp (d_id d) (d_metrics d) (d_blackholes d) (d_discards d) allowed_chars
    (bool_decide (ch ";" ∉ allowed_chars)) maxinplen maxmetriclen (d_seed d).

(** ** Splitting and cleaning *)

(** The metric built so far in [conn->metric] (up to [q]), [firstspace] as an offset,
    and [search_tags]. *)
Record scan_state := mkScan { sc_q : list Z; sc_fs : option nat; sc_tags : bool }.

Definition last_is (q : list Z) (c : Z) : bool := bool_decide (list.last q = Some c).

(** A character other than a newline: the new scan state, the character as it is
    left in the buffer, and whether [lastnl] moves to it. *)
Definition scan_byte (d : dispatcher) (sc : scan_state) (c : cchar) : scan_state * cchar * bool :=
  let q := sc_q sc in
  if (c =? ch " ") || (c =? 9) || (c =? ch ".") then
    if bool_decide (q = []) then (sc, c, true)
    else
      let c := if c =? 9 then ch " " else c in
      if (c =? ch " ") && bool_decide (sc_fs sc = None) then
        let q := if last_is q (ch ".") then removelast q else q in
        (mkScan (q ++ [ch " "]) (Some (length q)) (sc_tags sc), c, false)
      else if negb (last_is q c) && negb (bool_decide (sc_fs sc = Some (length q - 1)%nat)) then
        (mkScan (q ++ [c]) (sc_fs sc) (sc_tags sc), c, false)
      else (sc, c, false)
  else if sc_tags sc && (c =? ch ";") then
    (mkScan (q ++ [c]) (Some (length q)) false, c, false)
  else if negb (c =? NUL) &&
          (negb (bool_decide (sc_fs sc = None)) || is_alnum c || bool_decide (c ∈ d_allowed_chars d)) then
    (mkScan (q ++ [c]) (sc_fs sc) (sc_tags sc), c, false)
  else (mkScan (q ++ [ch "_"]) (sc_fs sc) (sc_tags sc), c, false).

Definition is_newline (c : cchar) : bool := (c =? 10) || (c =? 13).

(** Is the metric that a newline ends dropped? *)
Definition is_discarded (d : dispatcher) (sc : scan_state) : bool :=
  match sc_fs sc with
  | None => true
  | Some fs =>
      bool_decide (sc_q sc = []) || (d_maxinplen d - 1 <? Z.of_nat (length (sc_q sc))) ||
      (d_maxmetriclen d <? Z.of_nat fs)
  end.

Section Dispatch.
Context {E D : Type} `{DispatchEnv E D}.

(** ** Sending *)

Definition rand2 (seed : Z) : Z * Z :=
  let seed := u32 (u32 (8253729 * seed) + 2396403) in (seed, seed mod 2147483647).

(** The loop over [dests]: what is left when a server refuses. *)
Fixpoint send_loop (e : E) (force : bool) (dests : list D) : E * list D :=
  match dests with
  | [] => (e, [])
  | x :: dests' =>
      let '(e, ok) := env_send e x force in
      if ok then send_loop e force dests' else (e, dests)
  end.

Definition dispatch_process_dests (conn : connection D) (self : dispatcher) (now : timeval) (e : E) :
    connection D * dispatcher * E * bool :=
  match c_dests conn with
  | [] => (conn, self, e, true)
  | _ =>
      let '(seed, delay) :=
        if c_maxsenddelay conn =? 0 then
          let '(seed, r) := rand2 (d_seed self) in (seed, (r mod 750 + 250) * 1000)
        else (d_seed self, c_maxsenddelay conn) in
      let self := set_counts self (d_metrics self) (d_blackholes self) (d_discards self) seed in
      let force := if c_isaggr conn then true else delay <? timediff (c_lastwork conn) now in
      let '(e, unsent) := send_loop e force (c_dests conn) in
      let lastwork := match unsent with [] => now | _ => c_lastwork conn end in
      (mkConn (c_takenby conn) (c_buf conn) (c_bufsize conn) unsent lastwork delay
         (c_needmore conn) (c_noexpire conn) (c_isaggr conn) (c_isudp conn), self, e,
       match unsent with [] => true | _ => false end)
  end.

(** ** Receiving *)

(** Routing and sending a complete line, as the end of a metric does. *)
Definition dispatch_line (conn : connection D) (self : dispatcher) (e : E) (line : cstring) (fs : nat) :
    connection D * dispatcher * E * bool :=
  let '(e, dests, blackholed) := env_route e line fs in
  let self := set_counts self (u64 (d_metrics self + 1))
                (u64 (d_blackholes self + (if blackholed : bool then 1 else 0))) (d_discards self) (d_seed self) in
  let '(e, now) := env_time e in
  let conn := mkConn (c_takenby conn) (c_buf conn) (c_bufsize conn) dests now 0
                (c_needmore conn) (c_noexpire conn) (c_isaggr conn) (c_isudp conn) in
  dispatch_process_dests conn self now e.

(** The loop over [buf]; [kept] are the bytes after [lastnl], as the loop left them.
    The result has the bytes that stay in the buffer and the final scan state. *)
Fixpoint receive_loop (conn : connection D) (self : dispatcher) (e : E) (sc : scan_state) (kept buf : list Z) :
    connection D * dispatcher * E * list Z * scan_state :=
  match buf with
  | [] => (conn, self, e, kept, sc)
  | c :: buf' =>
      if is_newline c then
        match sc_fs sc, is_discarded self sc with
        | Some fs, false =>
            let line := sc_q sc ++ [10] in
            let '(conn, self, e, go_on) := dispatch_line conn self e line fs in
            let sc := mkScan [] None (d_tags_supported self) in
            if go_on then receive_loop conn self e sc [] buf' else (conn, self, e, buf', sc)
        | _, _ =>
            let self := set_counts self (d_metrics self) (d_blackholes self) (u64 (d_discards self + 1)) (d_seed self) in
            receive_loop conn self e (mkScan [] None (sc_tags sc)) [] buf'
        end
      else
        let '(sc, c, skipped) := scan_byte self sc c in
        receive_loop conn self e sc (if skipped then [] else kept ++ [c]) buf'
  end.

Definition dispatch_received_metrics (conn : connection D) (self : dispatcher) (e : E) :
    connection D * dispatcher * E :=
  let '(conn, self, e, rest, sc) :=
    receive_loop conn self e (mkScan [] None (d_tags_supported self)) [] (c_buf conn) in
  (mkConn (c_takenby conn) rest (c_bufsize conn) (c_dests conn) (c_lastwork conn) (c_maxsenddelay conn)
     (negb (bool_decide (sc_q sc = []))) (c_noexpire conn) (c_isaggr conn) (c_isudp conn), self, e).

(** ** Serving a connection *)

Definition with_buf (conn : connection D) (buf : list Z) (needmore : bool) : connection D :=
  mkConn (c_takenby conn) buf (c_bufsize conn) (c_dests conn) (c_lastwork conn) (c_maxsenddelay conn)
    needmore (c_noexpire conn) (c_isaggr conn) (c_isudp conn).

(** [__sync_bool_compare_and_swap(&conn->takenby, self->id, C_IN)]. *)
Definition release (conn : connection D) (self : dispatcher) : connection D :=
  mkConn (if c_takenby conn =? d_id self then C_IN else c_takenby conn)
    (c_buf conn) (c_bufsize conn) (c_dests conn) (c_lastwork conn) (c_maxsenddelay conn)
    (c_needmore conn) (c_noexpire conn) (c_isaggr conn) (c_isudp conn).

Definition room (conn : connection D) : Z := c_bufsize conn - 1 - Z.of_nat (length (c_buf conn)).

(** The loop over [strmreadbuf]: the last result; [fuel] bounds the number of reads. *)
Fixpoint readbuf_loop (fuel : nat) (rd : E -> Z -> E * read_result) (conn : connection D) (self : dispatcher) (e : E) :
    option (connection D * dispatcher * E * read_result) :=
  match fuel with
  | O => None
  | S fuel' =>
      let '(e, r) := rd e (room conn) in
      match r with
      | ReadData (b :: bs) =>
          let '(conn, self, e) :=
            dispatch_received_metrics (with_buf conn (c_buf conn ++ b :: bs) (c_needmore conn)) self e in
          readbuf_loop fuel' rd conn self e
      | _ => Some (conn, self, e, r)
      end
  end.

(** The connection after the call, [None] when it was closed. *)
Inductive served := Open (conn : connection D) | Closed.

(** [len] of [dispatch_connection]: -2, -1 with its [errno], less, 0 or more. *)
Inductive len_t := LenNone | LenErr (e : errno) | LenNeg | LenEOF | LenData.

Definition dispatch_connection (fuel : nat) (conn : connection D) (self : dispatcher) (start : timeval) (e : E) :
    option (Z * served * dispatcher * E) :=
  let '(conn, self, e, ok) := dispatch_process_dests conn self start e in
  if negb ok then Some (0, Open (release conn self), self, e)
  else
    let '(e, len, conn) :=
      if negb (c_needmore conn) && negb (bool_decide (c_buf conn = [])) then (e, LenNone, conn)
      else
        let '(e, r) := env_read e (room conn) in
        match r with
        | ReadData [] | ReadEOF => (e, LenEOF, conn)
        | ReadData data => (e, LenData, with_buf conn (c_buf conn ++ data) (c_needmore conn))
        | ReadErr err => (e, LenErr err, conn)
        | ReadNeg _ => (e, LenNeg, conn)
        end in
    let work :=
      match len with
      | LenNone | LenData =>
          let '(conn, self, e) := dispatch_received_metrics conn self e in
          match env_readbuf with
          | None => Some (conn, self, e, len)
          | Some rd =>
              match readbuf_loop fuel rd conn self e with
              | None => None
              | Some (conn, self, e, (ReadErr ENOMEM | ReadNeg ENOMEM)) => Some (conn, self, e, LenErr ENOMEM)
              | Some (conn, self, e, _) => Some (conn, self, e, len)
              end
          end
      | _ => Some (conn, self, e, len)
      end in
    match work with
    | None => None
    | Some (conn, self, e, len) =>
        match len with
        | LenErr EAGAIN => Some (-1, Open (release conn self), self, e)
        | _ =>
            let ended := match len with LenErr _ | LenEOF => true | _ => c_isudp conn end in
            if ended && (c_isaggr conn || c_isudp conn) then
              Some (-1, Open (release (with_buf conn [] true) self), self, e)
            else if ended && bool_decide (c_dests conn = []) then Some (0, Closed, self, e)
            else Some (1, Open (release conn self), self, e)
        end
    end.

(** ** Sending keeps the order *)

Lemma send_loop_split e force ds :
  exists sent, ds = sent ++ (send_loop e force ds).2.
Proof.
  revert e. induction ds as [|x ds IH]; intros e; cbn [send_loop]; [by exists []|].
  destruct (env_send e x force) as [e' [|]]; [|by exists []].
  destruct (IH e') as [sent Hs]. exists (x :: sent). cbn. by rewrite <- Hs.
Qed.

(** ** What is routed is clean *)

Definition name_char (d : dispatcher) (c : cchar) : Prop :=
  is_alnum c = true \/ c ∈ d_allowed_chars d \/ c = ch "_" \/ c = ch ".".

(** A cleaned piece of name: permitted characters, not starting with a dot, no two
    dots in a row. *)
Record clean_part (d : dispatcher) (n : list Z) : Prop := {
  cp_chars : Forall (name_char d) n;
  cp_head : head n <> Some (ch ".");
  cp_dots : forall i, n !! i = Some (ch ".") -> n !! S i <> Some (ch ".");
}.

(** A metric's name, the first [k] characters of a line: clean, not empty, without a dot at its end, and before a space. *)
Definition clean_name (d : dispatcher) (line : list Z) (k : nat) : Prop :=
  clean_part d (take k line) /\ take k line <> [] /\ list.last (take k line) <> Some (ch ".") /\ line !! k = Some (ch " ").
(** The name as the router gets it.  Where tags are supported it may also end at a [;], and then be empty or end with a dot,
    or be a clean name with a space and more behind it. *)
Definition routed_name (d : dispatcher) (line : list Z) (fs : nat) : Prop :=
  clean_name d line fs \/
  (d_tags_supported d = true /\ line !! fs = Some (ch ";") /\
   (clean_part d (take fs line) \/ exists k, (k < fs)%nat /\ clean_name d line k)).
(** A line as the router gets it. *)
Record clean_line (d : dispatcher) (line : cstring) (fs : nat) : Prop := {
  cl_name : routed_name d line fs;
  cl_len : Z.of_nat (length line) <= d_maxinplen d /\ Z.of_nat fs <= d_maxmetriclen d;
  cl_newline : exists body, line = body ++ [10] /\ Forall (fun c => is_newline c = false /\ c <> NUL) body;
}.

(** The metric being built: tags are looked for only where they are supported, and not behind one. *)
Definition clean_scan (d : dispatcher) (sc : scan_state) : Prop :=
  (sc_tags sc = true -> d_tags_supported d = true) /\ Forall (fun c => is_newline c = false /\ c <> NUL) (sc_q sc) /\
  match sc_fs sc with
  | None => clean_part d (sc_q sc)
  | Some k => routed_name d (sc_q sc) k /\ (sc_tags sc = true -> clean_name d (sc_q sc) k)
  end.

Lemma clean_part_nil d : clean_part d [].
Proof. split; [constructor|done|]. intros i. by rewrite lookup_nil. Qed.

Lemma clean_part_snoc d q c :
  clean_part d q -> name_char d c -> (c = ch "." -> q <> [] /\ list.last q <> Some (ch ".")) ->
  clean_part d (q ++ [c]).
Proof.
  intros [Hc Hh Hd] Hn Hdot. split.
  - apply Forall_app. split; [done|]. by apply Forall_singleton.
  - destruct q as [|x q]; [|done]. cbn. intros [= ->]. by destruct (Hdot eq_refl).
  - intros i Hi HSi. destruct (decide (S i < length q)%nat).
    + rewrite lookup_app_l in Hi, HSi by lia. by apply (Hd i).
    + apply lookup_lt_Some in HSi as Hl. rewrite length_app in Hl. simpl in Hl.
      assert (S i = length q) as Eq by lia. rewrite Eq, lookup_app_r, Nat.sub_diag in HSi by lia.
      injection HSi as ->. destruct (Hdot eq_refl) as [_ Hlast]. apply Hlast.
      rewrite last_lookup, <- Eq. simpl. by rewrite lookup_app_l in Hi by lia.
Qed.

Lemma clean_part_prefix d q k : clean_part d q -> clean_part d (take k q).
Proof.
  intros [Hc Hh Hd]. split; [by apply Forall_take| |].
  - destruct k, q; done.
  - intros i Hi HSi. apply lookup_take_Some in Hi as [? _], HSi as [? _]. by apply (Hd i).
Qed.

Lemma last_is_spec q c : last_is q c = true <-> list.last q = Some c.
Proof. apply bool_decide_eq_true. Qed.

(** Dropping one trailing dot leaves a name that does not end in one. *)
Lemma clean_part_strip d q :
  clean_part d q -> q <> [] -> list.last q = Some (ch ".") ->
  removelast q <> [] /\ list.last (removelast q) <> Some (ch ".") /\ removelast q = take (length q - 1) q.
Proof.
  intros [Hc Hh Hd] Hq Hl. apply last_Some in Hl as [l ->]. rewrite removelast_last. split_and!.
  - by intros ->.
  - intros Hl. apply last_Some in Hl as [l' ->]. apply (Hd (length l')).
    + rewrite <- (assoc_L app). by apply list_lookup_middle.
    + rewrite lookup_app_r by (rewrite length_app; simpl; lia). rewrite length_app. simpl.
      by replace (S (length l') - (length l' + 1))%nat with 0%nat by lia.
  - rewrite length_app. simpl. rewrite Nat.add_sub. by rewrite take_app_length.
Qed.

(** Appending behind the name keeps it. *)
Lemma clean_name_app d q k l : clean_name d q k -> clean_name d (q ++ l) k.
Proof.
  intros (H1 & H2 & H3 & H4). pose proof (lookup_lt_Some _ _ _ H4). unfold clean_name. rewrite take_app_le by lia.
  split_and!; try done. by rewrite lookup_app_l by lia.
Qed.
Lemma routed_name_app d q k l : routed_name d q k -> routed_name d (q ++ l) k.
Proof.
  intros [Hn|(Ht & Hk & Hc)]; [left; by apply clean_name_app|right]. pose proof (lookup_lt_Some _ _ _ Hk).
  split; [done|]. split; [by rewrite lookup_app_l|]. destruct Hc as [Hc|(j & Hj & Hc)].
  - left. by rewrite take_app_le by lia.
  - right. exists j. split; [done|]. by apply clean_name_app.
Qed.
Lemma clean_scan_snoc d q k tags c :
  clean_scan d (mkScan q (Some k) tags) -> is_newline c = false -> c <> NUL -> clean_scan d (mkScan (q ++ [c]) (Some k) tags).
Proof.
  intros (Ht & Hq & Hn & Hc) Hl Hz. cbn [sc_q sc_fs sc_tags] in *.
  split; [done|]. split; [apply Forall_app; split; [done|by apply Forall_singleton]|].
  split; [by apply routed_name_app|]. intros Htag. by apply clean_name_app, Hc.
Qed.

Lemma scan_byte_clean d sc c sc' c' sk :
  clean_scan d sc -> is_newline c = false -> scan_byte d sc c = (sc', c', sk) -> clean_scan d sc'.
Proof.
  destruct sc as [q fs tags]. intros Hcl Hn. pose proof Hcl as (Ht & Hq & Hfs). cbn [sc_q sc_fs sc_tags] in *.
  unfold scan_byte. cbn [sc_q sc_fs sc_tags].
  destruct ((c =? ch " ") || (c =? 9) || (c =? ch ".")) eqn:Hsep.
  - case_bool_decide as Hnil; [by intros [= <- _ _]|].
    set (c1 := if c =? 9 then ch " " else c).
    assert (c1 = ch " " \/ c1 = ch ".") as Hc1.
    { unfold c1. destruct (Z.eqb_spec c 9); [by left|]. rewrite !orb_true_iff, !Z.eqb_eq in Hsep. naive_solver. }
    assert (is_newline c1 = false /\ c1 <> NUL) as [Hn1 Hz1] by (by destruct Hc1 as [-> | ->]).
    destruct ((c1 =? ch " ") && bool_decide (fs = None)) eqn:Hfirst.
    + apply andb_true_iff in Hfirst as [_ ->%bool_decide_eq_true].
      cbv zeta. assert (exists m, (if last_is q (ch ".") then removelast q else q) = take m q /\ take m q <> [] /\
        list.last (take m q) <> Some (ch ".")) as (m & -> & Hm1 & Hm2).
      { destruct (last_is q (ch ".")) eqn:Hl.
        - apply last_is_spec in Hl. destruct (clean_part_strip d q Hfs Hnil Hl) as (? & ? & Eq).
          exists (length q - 1)%nat. by rewrite <- Eq.
        - exists (length q). rewrite take_ge by done. split_and!; [done..|].
          intros Hl'. apply last_is_spec in Hl'. congruence. }
      intros [= <- _ _]. split; [done|]. cbn [sc_q sc_fs].
      split; [apply Forall_app; split; [by apply Forall_take|by apply Forall_singleton]|].
      assert (clean_name d (take m q ++ [ch " "]) (length (take m q))) as Hname.
      { unfold clean_name. rewrite take_app_length. split_and!; [by apply clean_part_prefix|done|done|by apply list_lookup_middle]. }
      split; [by left|done].
    + destruct (negb (last_is q c1) && negb (bool_decide (fs = Some (length q - 1)%nat))) eqn:Hadd;
        intros [= <- _ _]; [|done].
      apply andb_true_iff in Hadd as [Hl _]. apply negb_true_iff in Hl.
      destruct fs as [k|]; [by apply clean_scan_snoc|].
      assert (c1 = ch ".") as Hdot by (destruct Hc1 as [Hc1| ->]; [by rewrite Hc1 in Hfirst|done]).
      split; [done|]. split; [apply Forall_app; split; [done|by apply Forall_singleton]|]. cbn [sc_q sc_fs].
      apply clean_part_snoc; [done|right; right; by right|]. intros _. split; [done|].
      intros Hl'. apply last_is_spec in Hl'. rewrite Hdot in Hl. congruence.
  - assert (c <> ch ".") as Hnd by (intros ->; done).
    destruct (tags && (c =? ch ";")) eqn:Htag.
    { apply andb_true_iff in Htag as [-> ->%Z.eqb_eq]. intros [= <- _ _]. split; [done|].
      split; [apply Forall_app; split; [done|by apply Forall_singleton]|]. cbn [sc_q sc_fs sc_tags]. split; [|done].
      right. split; [by apply Ht|]. split; [by apply list_lookup_middle|]. rewrite take_app_length.
      destruct fs as [k|]; [|by left]. destruct Hfs as [_ Hc]. specialize (Hc eq_refl). right. exists k.
      split; [apply (lookup_lt_Some _ _ _ (proj2 (proj2 (proj2 Hc))))|by apply clean_name_app]. }
    destruct (negb (c =? NUL) && (negb (bool_decide (fs = None)) || is_alnum c || bool_decide (c ∈ d_allowed_chars d))) eqn:Hok;
      intros [= <- _ _].
    + apply andb_true_iff in Hok as [Hz Hok]. apply negb_true_iff, Z.eqb_neq in Hz.
      destruct fs as [k|]; [by apply clean_scan_snoc|]. cbn [negb orb] in Hok.
      split; [done|]. split; [apply Forall_app; split; [done|by apply Forall_singleton]|]. cbn [sc_q sc_fs].
      apply clean_part_snoc; [done| |done]. rewrite bool_decide_true in Hok by done. cbn [negb orb] in Hok.
      apply orb_true_iff in Hok as [?|?%bool_decide_eq_true]; [by left|right; by left].
    + destruct fs as [k|]; [by apply clean_scan_snoc|].
      split; [done|]. split; [apply Forall_app; split; [done|by apply Forall_singleton]|]. cbn [sc_q sc_fs].
      apply clean_part_snoc; [done|right; right; by left|done].
Qed.

Lemma clean_scan_line d sc fs :
  clean_scan d sc -> sc_fs sc = Some fs -> is_discarded d sc = false -> clean_line d (sc_q sc ++ [10]) fs.
Proof.
  intros (Ht & Hq & Hfs) Eq. rewrite Eq in Hfs. destruct Hfs as [Hn _].
  unfold is_discarded. rewrite Eq. rewrite !orb_false_iff, !Z.ltb_ge.
  intros [[_ ?] ?]. split; [by apply routed_name_app| |by exists (sc_q sc)].
  rewrite length_app. simpl. lia.
Qed.

(** An invariant of the environment that only needs clean lines to be routed. *)
Section Routed.
Context (d0 : dispatcher) (P : E -> Prop).
Context (P_route : forall e line fs, clean_line d0 line fs -> P e -> P (env_route e line fs).1.1).
Context (P_send : forall e x force, P e -> P (env_send e x force).1).
Context (P_time : forall e, P e -> P (env_time e).1).

Definition configured (d : dispatcher) : Prop :=
  d_allowed_chars d = d_allowed_chars d0 /\ d_tags_supported d = d_tags_supported d0 /\
  d_maxinplen d = d_maxinplen d0 /\ d_maxmetriclen d = d_maxmetriclen d0.
Lemma clean_scan_start tags : (tags = true -> d_tags_supported d0 = true) -> clean_scan d0 (mkScan [] None tags).
Proof. intros Ht. split; [done|]. split; [constructor|]. apply clean_part_nil. Qed.

Lemma configured_scan d sc c : configured d -> scan_byte d sc c = scan_byte d0 sc c.
Proof. intros (E1 & _). unfold scan_byte. by rewrite E1. Qed.
Lemma configured_discarded d sc : configured d -> is_discarded d sc = is_discarded d0 sc.
Proof. intros (_ & _ & E1 & E2). unfold is_discarded. by rewrite E1, E2. Qed.

Lemma send_loop_keeps e force ds : P e -> P (send_loop e force ds).1.
Proof.
  revert e. induction ds as [|x ds IH]; intros e He; cbn [send_loop]; [done|].
  pose proof (P_send e x force He) as Hs. destruct (env_send e x force) as [e' [|]]; [by apply IH|done].
Qed.

Lemma process_dests_keeps conn d now e :
  P e -> configured d ->
  P (dispatch_process_dests conn d now e).1.2 /\ configured (dispatch_process_dests conn d now e).1.1.2.
Proof.
  intros He Hd. unfold dispatch_process_dests. destruct (c_dests conn) as [|x ds]; [done|].
  destruct (if c_maxsenddelay conn =? 0 then _ else _) as [seed delay].
  pose proof (send_loop_keeps e (if c_isaggr conn then true else delay <? timediff (c_lastwork conn) now) (x :: ds) He) as Hs.
  destruct (send_loop _ _ _) as [e' unsent]. done.
Qed.

Lemma dispatch_line_keeps conn d e line fs :
  clean_line d0 line fs -> P e -> configured d ->
  P (dispatch_line conn d e line fs).1.2 /\ configured (dispatch_line conn d e line fs).1.1.2.
Proof.
  intros Hl He Hd. unfold dispatch_line. pose proof (P_route e line fs Hl He) as H1.
  destruct (env_route e line fs) as [[e1 ds] bh]. cbn in H1. pose proof (P_time e1 H1) as H2.
  destruct (env_time e1) as [e2 now]. cbn in H2. by apply process_dests_keeps.
Qed.

Lemma receive_loop_keeps conn d e sc kept buf :
  P e -> configured d -> clean_scan d0 sc ->
  P (receive_loop conn d e sc kept buf).1.1.2 /\ configured (receive_loop conn d e sc kept buf).1.1.1.2.
Proof.
  revert conn d e sc kept. induction buf as [|c buf IH]; intros conn d e sc kept He Hd Hsc; cbn [receive_loop]; [done|].
  destruct (is_newline c) eqn:Hn.
  - rewrite configured_discarded by done.
    destruct (sc_fs sc) as [fs|] eqn:Hfs, (is_discarded d0 sc) eqn:Hdis;
      try (apply IH; [done|done|apply clean_scan_start, (proj1 Hsc)]).
    pose proof (dispatch_line_keeps conn d e (sc_q sc ++ [10]) fs (clean_scan_line d0 sc fs Hsc Hfs Hdis) He Hd) as [H1 H2].
    destruct (dispatch_line conn d e (sc_q sc ++ [10]) fs) as [[[conn1 d1] e1] [|]]; cbn in H1, H2; [|done].
    apply IH; [done..|]. apply clean_scan_start. by destruct H2 as (_ & -> & _).
  - rewrite configured_scan by done. destruct (scan_byte d0 sc c) as [[sc1 c1] sk] eqn:Hs.
    apply IH; [done..|]. exact (scan_byte_clean d0 sc c sc1 c1 sk Hsc Hn Hs).
Qed.

Lemma received_keeps conn d e :
  P e -> configured d -> P (dispatch_received_metrics conn d e).2.
Proof.
  intros He Hd. unfold dispatch_received_metrics.
  pose proof (receive_loop_keeps conn d e (mkScan [] None (d_tags_supported d)) [] (c_buf conn) He Hd) as Hk.
  destruct (receive_loop _ _ _ _ _ _) as [[[[conn1 d1] e1] k1] sc1]. apply Hk.
  apply clean_scan_start. by destruct Hd as (_ & -> & _).
Qed.
End Routed.

(** ** Splitting the input differently changes nothing *)

(** The configuration a scan depends on. *)
Definition same_config (d d' : dispatcher) : Prop :=
  d_allowed_chars d = d_allowed_chars d' /\ d_tags_supported d = d_tags_supported d' /\
  d_maxinplen d = d_maxinplen d' /\ d_maxmetriclen d = d_maxmetriclen d'.

Lemma scan_byte_config d d' sc c : same_config d d' -> scan_byte d sc c = scan_byte d' sc c.
Proof. intros (E1 & _). unfold scan_byte. by rewrite E1. Qed.

(** Between lines, and while a line is built: at its beginning, tags are looked for if they are supported. *)
Definition scan_init (d : dispatcher) : scan_state := mkScan [] None (d_tags_supported d).
Definition scan_ok (d : dispatcher) (sc : scan_state) : Prop := sc_q sc = [] -> sc = scan_init d.

(** Does no line that is dropped leave the search for tags switched off? *)
Fixpoint tags_kept (d : dispatcher) (sc : scan_state) (buf : list Z) : bool :=
  match buf with
  | [] => true
  | c :: buf' =>
      if is_newline c then (negb (is_discarded d sc) || Bool.eqb (sc_tags sc) (d_tags_supported d)) && tags_kept d (scan_init d) buf'
      else tags_kept d (scan_byte d sc c).1.1 buf'
  end.
Lemma scan_byte_no_tags d sc c : sc_tags sc = false -> sc_tags (scan_byte d sc c).1.1 = false.
Proof. intros Ht. unfold scan_byte. rewrite Ht. cbn [andb]. by repeat case_match. Qed.
(** Where tags are not supported, the search is never on. *)
Lemma tags_kept_off d sc buf : d_tags_supported d = false -> sc_tags sc = false -> tags_kept d sc buf = true.
Proof.
  intros Hd. revert sc. induction buf as [|c buf IH]; intros sc Ht; cbn [tags_kept]; [done|]. destruct (is_newline c).
  - rewrite Ht, Hd, orb_true_r. by apply IH.
  - by apply IH, scan_byte_no_tags.
Qed.

(** Scanning bytes without a newline among them. *)
Fixpoint replay (d : dispatcher) (sc : scan_state) (kept l : list Z) : option (scan_state * list Z) :=
  match l with
  | [] => Some (sc, kept)
  | c :: l' =>
      if is_newline c then None
      else let '(sc, c, skipped) := scan_byte d sc c in replay d sc (if skipped then [] else kept ++ [c]) l'
  end.

(** The bytes kept in the buffer lead back to the state the scan is in. *)
Definition resumes (d : dispatcher) (sc : scan_state) (kept : list Z) : Prop :=
  replay d (scan_init d) [] kept = Some (sc, kept).

Lemma replay_app d sc kept l1 l2 :
  replay d sc kept (l1 ++ l2) =
  match replay d sc kept l1 with None => None | Some (sc, kept) => replay d sc kept l2 end.
Proof.
  revert sc kept. induction l1 as [|c l1 IH]; intros sc kept; cbn [replay app]; [done|].
  destruct (is_newline c); [done|]. destruct (scan_byte d sc c) as [[sc1 c1] sk]. apply IH.
Qed.

(** A scanned byte is left in a form that scans the same way. *)
Lemma scan_byte_again d sc c sc' c' :
  is_newline c = false -> scan_byte d sc c = (sc', c', false) ->
  is_newline c' = false /\ scan_byte d sc c' = (sc', c', false).
Proof.
  intros Hn. destruct (decide (c = 9)) as [->|Hc].
  - unfold scan_byte. change ((9 =? ch " ") || (9 =? 9) || (9 =? ch ".")) with true.
    change ((ch " " =? ch " ") || (ch " " =? 9) || (ch " " =? ch ".")) with true. cbv iota.
    case_bool_decide; [done|]. change (9 =? 9) with true. cbv iota. intros Hs.
    assert (c' = ch " ") as -> by (revert Hs; repeat case_match; intros; by simplify_eq).
    split; [done|]. change ((ch " " =? ch " ") || (ch " " =? 9) || (ch " " =? ch ".")) with true. cbv iota.
    by change (ch " " =? 9) with false.
  - intros Hs. assert (c' = c) as ->; [|done].
    revert Hs. unfold scan_byte. destruct (Z.eqb_spec c 9); [done|].
    repeat case_match; intros; by simplify_eq.
Qed.

Lemma scan_byte_ok d sc c sc' c' sk : scan_ok d sc -> scan_byte d sc c = (sc', c', sk) -> scan_ok d sc'.
Proof.
  intros Hq. unfold scan_byte, scan_ok in *. repeat case_match; intros; simplify_eq; try (by apply Hq);
    match goal with H : sc_q _ = [] |- _ => cbn [sc_q] in H; by apply app_eq_nil in H as [_ ?] end.
Qed.

Lemma scan_byte_skipped d sc c sc' c' : scan_byte d sc c = (sc', c', true) -> sc' = sc /\ sc_q sc = [].
Proof.
  unfold scan_byte. repeat case_match; intros; simplify_eq; split; try done.
  by eapply bool_decide_eq_true_1.
Qed.

Lemma resumes_step d sc kept c sc' c' sk :
  scan_ok d sc -> resumes d sc kept -> is_newline c = false -> scan_byte d sc c = (sc', c', sk) ->
  resumes d sc' (if sk then [] else kept ++ [c']).
Proof.
  intros Hok Hr Hn Hs. destruct sk.
  - apply scan_byte_skipped in Hs as [-> Hq]. unfold resumes. cbn [replay]. by rewrite (Hok Hq).
  - destruct (scan_byte_again _ _ _ _ _ Hn Hs) as [Hn' Hs']. unfold resumes. rewrite replay_app, Hr.
    cbn [replay]. by rewrite Hn', Hs'.
Qed.

Lemma replay_receive d sc kept l sc' kept' conn self e b :
  same_config self d -> replay d sc kept l = Some (sc', kept') ->
  receive_loop conn self e sc kept (l ++ b) = receive_loop conn self e sc' kept' b.
Proof.
  intros Hc. revert sc kept. induction l as [|c l IH]; intros sc kept; cbn [replay]; [by intros [= <- <-]|].
  destruct (is_newline c) eqn:Hn; [done|]. intros Hr. cbn [app receive_loop]. rewrite Hn.
  rewrite (scan_byte_config self d) by done. destruct (scan_byte d sc c) as [[sc1 c1] sk]. by apply IH.
Qed.

(** Servers that take everything they are given. *)
Context (Hsend : forall e x force, (env_send e x force).2 = true).

Lemma send_loop_all e force ds : (send_loop e force ds).2 = [].
Proof.
  revert e. induction ds as [|x ds IH]; intros e; cbn [send_loop]; [done|].
  specialize (Hsend e x force). destruct (env_send e x force) as [e' ok]. cbn in Hsend. subst ok. apply IH.
Qed.

Lemma dispatch_line_all conn self e line fs :
  (dispatch_line conn self e line fs).2 = true /\ same_config (dispatch_line conn self e line fs).1.1.2 self.
Proof.
  unfold dispatch_line, dispatch_process_dests.
  destruct (env_route e line fs) as [[e1 ds] bh], (env_time e1) as [e2 now]. cbn [c_dests c_maxsenddelay].
  destruct ds as [|x ds]; [done|]. change (0 =? 0) with true. cbn [d_seed set_counts].
  destruct (rand2 (d_seed self)) as [seed r]. cbn [c_isaggr c_lastwork].
  pose proof (send_loop_all e2 (if c_isaggr conn then true else (r mod 750 + 250) * 1000 <? timediff now now) (x :: ds)) as Hl.
  destruct (send_loop _ _ _) as [e3 unsent]. cbn in Hl. by subst unsent.
Qed.

Lemma receive_loop_app conn self e sc kept b1 b2 :
  receive_loop conn self e sc kept (b1 ++ b2) =
  let '(conn, self, e, kept, sc) := receive_loop conn self e sc kept b1 in
  receive_loop conn self e sc kept b2.
Proof.
  revert conn self e sc kept. induction b1 as [|c b1 IH]; intros conn self e sc kept; [done|].
  cbn [receive_loop app]. destruct (is_newline c).
  - destruct (sc_fs sc) as [fs|], (is_discarded self sc); try apply IH.
    pose proof (proj1 (dispatch_line_all conn self e (sc_q sc ++ [10]) fs)) as Hgo.
    destruct (dispatch_line conn self e (sc_q sc ++ [10]) fs) as [[[conn1 self1] e1] go]. cbn in Hgo. subst go. apply IH.
  - destruct (scan_byte self sc c) as [[sc1 c1] sk]. apply IH.
Qed.

(** What a pass over the buffer leaves can be resumed. *)
Lemma scan_init_config d d' : same_config d d' -> scan_init d = scan_init d'.
Proof. intros (_ & E2 & _). unfold scan_init. by rewrite E2. Qed.
Lemma discarded_config d d' sc : same_config d d' -> is_discarded d sc = is_discarded d' sc.
Proof. intros (_ & _ & E3 & E4). unfold is_discarded. by rewrite E3, E4. Qed.
Lemma receive_loop_resumes d conn self e sc kept b conn' self' e' kept' sc' :
  same_config self d -> scan_ok d sc -> resumes d sc kept -> tags_kept d sc b = true ->
  receive_loop conn self e sc kept b = (conn', self', e', kept', sc') ->
  same_config self' d /\ scan_ok d sc' /\ resumes d sc' kept'.
Proof.
  revert conn self e sc kept. induction b as [|c b IH]; intros conn self e sc kept Hc Hok Hr; cbn [receive_loop tags_kept].
  { by intros _ [= <- <- <- <- <-]. }
  assert (scan_ok d (scan_init d) /\ resumes d (scan_init d) []) as [Hok0 Hr0] by done.
  destruct (is_newline c) eqn:Hn.
  - intros [Hdis Htk]%andb_true_iff. rewrite <- (discarded_config self d) in Hdis by done.
    destruct (sc_fs sc) as [fs|] eqn:Efs, (is_discarded self sc) eqn:Ed.
    2: { pose proof (dispatch_line_all conn self e (sc_q sc ++ [10]) fs) as [Hgo Hc1].
         destruct (dispatch_line conn self e (sc_q sc ++ [10]) fs) as [[[conn1 self1] e1] go]. cbn in Hgo, Hc1. subst go.
         assert (same_config self1 d) as Hc2.
         { destruct Hc1 as (? & ? & ? & ?), Hc as (? & ? & ? & ?); split_and!; congruence. }
         change (mkScan [] None (d_tags_supported self1)) with (scan_init self1). rewrite (scan_init_config self1 d) by done.
         by apply IH. }
    all: cbn [negb orb] in Hdis; try (unfold is_discarded in Ed; rewrite Efs in Ed; discriminate).
    all: apply eqb_prop in Hdis; rewrite Hdis; fold (scan_init d); by apply IH.
  - intros Htk. rewrite (scan_byte_config self d) by done.
    destruct (scan_byte d sc c) as [[sc1 c1] sk] eqn:Hs. cbn [fst] in Htk. apply IH; [done|exact (scan_byte_ok _ _ _ _ _ _ Hok Hs)| |done].
    exact (resumes_step _ _ _ _ _ _ _ Hok Hr Hn Hs).
Qed.

(** The loop does not look at the fields it sets at the end. *)
Lemma dispatch_line_with_buf conn b n self e line fs :
  dispatch_line (with_buf conn b n) self e line fs =
  let '(conn, self, e, go) := dispatch_line conn self e line fs in (with_buf conn b n, self, e, go).
Proof.
  unfold dispatch_line, dispatch_process_dests.
  destruct (env_route e line fs) as [[e1 ds] bh], (env_time e1) as [e2 now]. cbn [c_dests c_maxsenddelay].
  destruct ds as [|x ds]; [done|]. change (0 =? 0) with true. cbn [d_seed set_counts].
  destruct (rand2 (d_seed self)) as [seed r]. cbn [c_isaggr c_lastwork with_buf].
  by destruct (send_loop _ _ _) as [e3 unsent].
Qed.

Lemma receive_loop_with_buf conn b n self e sc kept buf :
  receive_loop (with_buf conn b n) self e sc kept buf =
  let '(conn, self, e, kept, sc) := receive_loop conn self e sc kept buf in (with_buf conn b n, self, e, kept, sc).
Proof.
  revert conn self e sc kept. induction buf as [|c buf IH]; intros conn self e sc kept; [done|].
  cbn [receive_loop]. destruct (is_newline c).
  - destruct (sc_fs sc) as [fs|], (is_discarded self sc); try apply IH.
    rewrite dispatch_line_with_buf.
    destruct (dispatch_line conn self e (sc_q sc ++ [10]) fs) as [[[conn1 self1] e1] [|]]; [apply IH|done].
  - destruct (scan_byte self sc c) as [[sc1 c1] sk]. apply IH.
Qed.

Lemma received_eq conn self e b n :
  dispatch_received_metrics (with_buf conn b n) self e =
  let '(conn, self, e, rest, sc) := receive_loop conn self e (mkScan [] None (d_tags_supported self)) [] b in
  (with_buf conn rest (negb (bool_decide (sc_q sc = []))), self, e).
Proof.
  unfold dispatch_received_metrics. change (c_buf (with_buf conn b n)) with b. rewrite receive_loop_with_buf.
  by destruct (receive_loop _ _ _ _ _ _) as [[[[conn1 self1] e1] kept1] sc1].
Qed.

Lemma received_split conn self e b1 b2 n :
  tags_kept self (scan_init self) b1 = true ->
  dispatch_received_metrics (with_buf conn (b1 ++ b2) n) self e =
  let '(conn, self, e) := dispatch_received_metrics (with_buf conn b1 n) self e in
  dispatch_received_metrics (with_buf conn (c_buf conn ++ b2) (c_needmore conn)) self e.
Proof.
  intros Ht. rewrite !received_eq. fold (scan_init self). rewrite receive_loop_app.
  destruct (receive_loop conn self e (scan_init self) [] b1) as [[[[conn1 self1] e1] kept1] sc1] eqn:E1.
  destruct (receive_loop_resumes self conn self e (scan_init self) [] b1 conn1 self1 e1 kept1 sc1)
    as (Hc & Hok & Hr); [by split_and!|done..|].
  rewrite received_eq. change (c_buf (with_buf conn1 kept1 _)) with kept1. rewrite receive_loop_with_buf.
  fold (scan_init self1). rewrite (scan_init_config self1 self) by done.
  rewrite (replay_receive self (scan_init self) [] kept1 sc1 kept1 conn1 self1 e1 b2 Hc Hr).
  by destruct (receive_loop conn1 self1 e1 sc1 kept1 b2) as [[[[conn2 self2] e2] kept2] sc2].
Qed.

(** A connection that is served comes back free, unless it is closed. *)
Lemma process_dests_takenby conn self now e :
  let '(conn', self', _, _) := dispatch_process_dests conn self now e in
  c_takenby conn' = c_takenby conn /\ d_id self' = d_id self.
Proof.
  unfold dispatch_process_dests. destruct (c_dests conn) as [|x ds]; [done|].
  destruct (if c_maxsenddelay conn =? 0 then _ else _) as [seed delay].
  by destruct (send_loop _ _ _) as [e1 unsent].
Qed.

Lemma receive_loop_takenby conn self e sc kept buf :
  let '(conn', self', _, _, _) := receive_loop conn self e sc kept buf in
  c_takenby conn' = c_takenby conn /\ d_id self' = d_id self.
Proof.
  revert conn self e sc kept. induction buf as [|c buf IH]; intros conn self e sc kept; cbn [receive_loop]; [done|].
  destruct (is_newline c); [destruct (sc_fs sc) as [fs|], (is_discarded self sc)|].
  1, 3, 4: match goal with |- context [receive_loop ?a ?b ?c ?d ?f ?l] => exact (IH a b c d f) end.
  - unfold dispatch_line. destruct (env_route e _ fs) as [[e1 ds] bh], (env_time e1) as [e2 now].
    match goal with |- context [dispatch_process_dests ?a ?b ?c ?d] =>
      pose proof (process_dests_takenby a b c d) as H1; destruct (dispatch_process_dests a b c d) as [[[conn1 self1] e3] go] end.
    cbn in H1. destruct H1 as [H1 H2]. destruct go; [|done].
    match goal with |- context [receive_loop ?a ?b ?c ?d ?f buf] => pose proof (IH a b c d f) as H3;
      destruct (receive_loop a b c d f buf) as [[[[conn2 self2] e4] k2] sc2] end.
    destruct H3. split; congruence.
  - destruct (scan_byte self sc c) as [[sc1 c1] sk].
    match goal with |- context [receive_loop ?a ?b ?c ?d ?f buf] => exact (IH a b c d f) end.
Qed.

Lemma received_takenby conn self e :
  let '(conn', self', _) := dispatch_received_metrics conn self e in
  c_takenby conn' = c_takenby conn /\ d_id self' = d_id self.
Proof.
  unfold dispatch_received_metrics.
  pose proof (receive_loop_takenby conn self e (mkScan [] None (d_tags_supported self)) [] (c_buf conn)) as H1.
  by destruct (receive_loop _ _ _ _ _ _) as [[[[conn1 self1] e1] k1] sc1].
Qed.

Lemma readbuf_takenby fuel rd conn self e conn' self' e' r :
  readbuf_loop fuel rd conn self e = Some (conn', self', e', r) ->
  c_takenby conn' = c_takenby conn /\ d_id self' = d_id self.
Proof.
  revert conn self e. induction fuel as [|fuel IH]; intros conn self e; cbn [readbuf_loop]; [done|].
  destruct (rd e (room conn)) as [e1 [[|b bs]| |err|err]]; try by intros [= <- <- <- <-].
  pose proof (received_takenby (with_buf conn (c_buf conn ++ b :: bs) (c_needmore conn)) self e1) as H1.
  destruct (dispatch_received_metrics _ _ _) as [[conn1 self1] e2]. intros H2%IH. cbn in H1. destruct H1, H2. split; congruence.
Qed.

Lemma dispatch_connection_releases fuel conn self start e ret conn' self' e' :
  c_takenby conn = d_id self ->
  dispatch_connection fuel conn self start e = Some (ret, Open conn', self', e') -> c_takenby conn' = C_IN.
Proof.
  assert (forall conn self, c_takenby conn = d_id self -> c_takenby (release conn self) = C_IN) as Hrel.
  { intros c s Heq. cbn. by rewrite Heq, Z.eqb_refl. }
  intros Hid. unfold dispatch_connection.
  pose proof (process_dests_takenby conn self start e) as H1.
  destruct (dispatch_process_dests conn self start e) as [[[conn1 self1] e1] ok]. destruct H1 as [H1 H1'].
  assert (c_takenby conn1 = d_id self1) as Hid1 by congruence. clear H1 H1' Hid conn self.
  destruct ok; cbn [negb]; [|by intros [= <- <- <- <-]; apply Hrel].
  destruct (if negb (c_needmore conn1) && _ then _ else _) as [[e2 len] conn2] eqn:Er.
  assert (c_takenby conn2 = d_id self1) as Hid2.
  { revert Er. case_match; [by intros [= <- <- <-]|].
    destruct (env_read e1 (room conn1)) as [e3 [[|b bs]| |err|err]]; by intros [= <- <- <-]. }
  assert (forall w, (forall c s e l, w = Some (c, s, e, l) -> c_takenby c = d_id s) ->
    match w with
    | None => None
    | Some (conn, self, e, len) =>
        match len with
        | LenErr EAGAIN => Some (-1, Open (release conn self), self, e)
        | _ =>
            let ended := match len with LenErr _ | LenEOF => true | _ => c_isudp conn end in
            if ended && (c_isaggr conn || c_isudp conn) then
              Some (-1, Open (release (with_buf conn [] true) self), self, e)
            else if ended && bool_decide (c_dests conn = []) then Some (0, Closed, self, e)
            else Some (1, Open (release conn self), self, e)
        end
    end = Some (ret, Open conn', self', e') -> c_takenby conn' = C_IN) as Hfin.
  { intros [[[[c s] e3] l]|]; [|done]. intros Hw. specialize (Hw c s e3 l eq_refl). cbv zeta.
    assert (c_takenby (with_buf c [] true) = d_id s) as Hw' by done.
    destruct l as [|[]| | |]; try (by intros [= <- <- <- <-]; apply Hrel);
      repeat case_match; intros [= <- <- <- <-]; by apply Hrel. }
  apply Hfin. clear Hfin. intros c s e3 l. clear Er.
  destruct len as [|err| | |]; try by intros [= <- <- <- <-].
  all: pose proof (received_takenby conn2 self1 e2) as H2;
    destruct (dispatch_received_metrics conn2 self1 e2) as [[conn3 self2] e4]; destruct H2 as [H2 H2'];
    destruct env_readbuf as [rd|]; [|intros [= <- <- <- <-]; congruence].
  all: destruct (readbuf_loop fuel rd conn3 self2 e4) as [[[[conn4 self3] e5] r]|] eqn:Eb; [|done];
    apply readbuf_takenby in Eb as [H3 H3'];
    destruct r as [| |[]|[]]; intros [= <- <- <- <-]; congruence.
Qed.


End Dispatch.

(** ** A concrete environment, for evaluating the theorems *)

(** The lines routed, the copies taken by the one server, and the input to read. *)
Record demo_env := mkDemo { de_lines : list (cstring * nat); de_taken : list cstring; de_input : list (list Z) }.
Definition demo_read (e : demo_env) (n : Z) : demo_env * read_result :=
  match de_input e with
  | [] => (e, ReadErr EAGAIN)
  | x :: xs => (mkDemo (de_lines e) (de_taken e) xs, ReadData x)
  end.
(** [accepts]: whether the server takes a metric; [buffered]: has the stream a
    buffer of its own? *)
Definition demo_ops (accepts : demo_env -> bool) (buffered : bool) : DispatchEnv demo_env cstring := {|
  env_route := fun e line fs => (mkDemo (de_lines e ++ [(line, fs)]) (de_taken e) (de_input e), [line], false);
  env_send := fun e x _ => if accepts e then (mkDemo (de_lines e) (de_taken e ++ [x]) (de_input e), true) else (e, false);
  env_time := fun e => (e, mkTv 0 0);
  env_read := demo_read;
  env_readbuf := if buffered then Some demo_read else None;
|}.
(** A dispatcher as it is started: with the default characters, which turns tags on, or with [;] among them. *)
Definition demo_disp (tags : bool) : dispatcher :=
  dispatch_init (mkDisp 1 0 0 0 [] false 0 0 4541) (if tags then lit "-_:#" else lit "-_:#;") 2048 1024.
Definition demo_conn (buf : list Z) : connection cstring :=
  mkConn 1 buf 32768 [] (mkTv 0 0) 0 false false false false.
Definition empty_env (input : list (list Z)) : demo_env := mkDemo [] [] input.

(** ** Properties *)

(** C22: However the bytes of a connection are split over reads, the result is the same: processing a buffer is processing
    its first part and then what that left over together with the rest.  The connection, the dispatcher's counters and
    everything routed and sent agree.  That is for servers that take what they are sent, and as long as no line of the
    first part that was dropped had a tag ([tags_kept]): such a line leaves the search for tags switched off until the
    end of the buffer ([discarded_line_disables_tags]).  Without tag support ([;] being an allowed character) there is
    no such line ([tags_kept_off]). *)
Theorem received_independent_of_reads {E D : Type} `{DispatchEnv E D}
    (conn : connection D) (self : dispatcher) (e : E) (b1 b2 : list Z) (n : bool) :
  (forall e x force, (env_send e x force).2 = true) -> tags_kept self (scan_init self) b1 = true ->
  dispatch_received_metrics (with_buf conn (b1 ++ b2) n) self e =
  let '(conn, self, e) := dispatch_received_metrics (with_buf conn b1 n) self e in
  dispatch_received_metrics (with_buf conn (c_buf conn ++ b2) (c_needmore conn)) self e.
Proof. intros Hsend Ht. by apply received_split. Qed.

Lemma received_independent_of_reads_witness :
  let ops := demo_ops (fun _ => true) false in
  let run b e := @dispatch_received_metrics _ _ ops (with_buf (demo_conn []) b false) (demo_disp true) e in
  (de_lines (run (lit "a..b;t=1 1 2" ++ [10] ++ lit "c!d	3 4" ++ [10]) (empty_env [])).2 =
     [(lit "a.b;t=1 1 2" ++ [10], 3%nat); (lit "c_d 3 4" ++ [10], 3%nat)]) /\
  run (lit "a..b;t=1 1 2" ++ [10] ++ lit "c!d	3 4" ++ [10]) (empty_env []) =
  let '(conn, self, e) := run (lit "a..b;") (empty_env []) in
  @dispatch_received_metrics _ _ ops
    (with_buf conn (c_buf conn ++ lit "t=1 1 2" ++ [10] ++ lit "c!d	3 4" ++ [10]) (c_needmore conn)) self e.
Proof.
  split; [vm_compute; reflexivity|].
  apply (@received_independent_of_reads _ _ (demo_ops (fun _ => true) false) (demo_conn []) (demo_disp true)
    (empty_env []) (lit "a..b;") (lit "t=1 1 2" ++ [10] ++ lit "c!d	3 4" ++ [10]) false); reflexivity.
Defined.

(** C32: Only clean lines are routed, whatever a client sends: a line respects both length limits, ends with its only
    newline and has no terminator in it.  Without tag support ([;] being an allowed character) its name is not empty,
    holds only letters, digits, allowed characters, dots and underscores, neither starts nor ends with a dot, has no two
    dots in a row, and is followed by a space.  With tag support, the default, the name may instead end at a [;]: then
    it is such a name that may be empty or end with a dot, or, when the [;] came behind the first space, such a name
    with that space and anything behind it.  Stated for any property [P] of the environment that routing a clean line,
    sending and asking for the time keep. *)
Theorem received_lines_clean {E D : Type} `{DispatchEnv E D} (P : E -> Prop)
    (conn : connection D) (self : dispatcher) (e : E) :
  (forall e line fs, clean_line self line fs -> P e -> P (env_route e line fs).1.1) ->
  (forall e x force, P e -> P (env_send e x force).1) -> (forall e, P e -> P (env_time e).1) ->
  P e -> P (dispatch_received_metrics conn self e).2.
Proof. intros Hr Hs Ht He. apply (received_keeps self P Hr Hs Ht); [done|]. by split_and!. Qed.

Lemma received_lines_clean_witness :
  let clean tags := Forall (fun '(line, fs) => clean_line (demo_disp tags) line fs)
    (de_lines (@dispatch_received_metrics _ _ (demo_ops (fun _ => true) false)
      (demo_conn (lit "..a.?.b..  1 2" ++ [10] ++ lit "a b;c 1 2" ++ [10])) (demo_disp tags) (empty_env [])).2) in
  clean true /\ clean false.
Proof.
  split.
  all: apply (@received_lines_clean _ _ (demo_ops (fun _ => true) false)
    (fun e => Forall (fun '(line, fs) => clean_line (demo_disp _) line fs) (de_lines e)));
    [intros e line fs Hl He; apply Forall_app; split; [exact He|]; by apply Forall_singleton|..|apply Forall_nil_2];
    intros; assumption.
Defined.

(** A metric's destinations are served in order and none is lost when a server
    refuses: what was sent is a prefix, the rest stays with the connection, and
    the call reports success exactly when nothing is left. *)
Theorem process_dests_in_order {E D : Type} `{DispatchEnv E D}
    (conn conn' : connection D) (self self' : dispatcher) (now : timeval) (e e' : E) (ok : bool) :
  dispatch_process_dests conn self now e = (conn', self', e', ok) ->
  (exists sent, c_dests conn = sent ++ c_dests conn') /\ (ok = true <-> c_dests conn' = []) /\
  c_buf conn' = c_buf conn.
Proof.
  unfold dispatch_process_dests. destruct (c_dests conn) as [|x ds] eqn:Eds.
  { intros [= <- <- <- <-]. rewrite Eds. split_and!; [by exists []|done|done]. }
  destruct (if c_maxsenddelay conn =? 0 then _ else _) as [seed delay].
  destruct (send_loop_split e (if c_isaggr conn then true else delay <? timediff (c_lastwork conn) now) (x :: ds)) as [sent Hs].
  destruct (send_loop _ _ _) as [e1 unsent]. cbn in Hs. intros [= <- <- <- <-]. cbn [c_dests c_buf].
  split_and!; [by exists sent|by destruct unsent|done].
Qed.

Lemma eta4 {A B C D} (r : A * B * C * D) : r = (r.1.1.1, r.1.1.2, r.1.2, r.2).
Proof. by destruct r as [[[? ?] ?] ?]. Qed.

Lemma process_dests_in_order_witness :
  let ops := demo_ops (fun e => bool_decide (length (de_taken e) < 1)%nat) false in
  let conn := mkConn 1 [] 32768 [lit "a"; lit "b"] (mkTv 0 0) 0 false false false false in
  let r := @dispatch_process_dests _ _ ops conn (demo_disp false) (mkTv 0 0) (empty_env []) in
  r.2 = false /\ c_dests r.1.1.1 = [lit "b"] /\ (exists sent, c_dests conn = sent ++ c_dests r.1.1.1).
Proof.
  intros ops conn r. split; [vm_compute; reflexivity|]. split; [vm_compute; reflexivity|].
  exact (proj1 (@process_dests_in_order _ _ ops conn r.1.1.1 (demo_disp false) r.1.1.2 (mkTv 0 0) (empty_env [])
    r.1.2 r.2 (eta4 r))).
Defined.

(** On a stream that buffers (gzip, lz4, snappy, SSL) a refused metric is lost:
    after the pass that left it with the connection, the buffered data is still
    processed, and routing the next line overwrites the pending destinations. *)
Theorem buffered_read_loses_pending :
  let ops := demo_ops (fun _ => false) true in
  match @dispatch_connection _ _ ops 3 (demo_conn []) (demo_disp false) (mkTv 0 0)
          (empty_env [lit "a.b 1 2" ++ [10]; lit "c.d 3 4" ++ [10]]) with
  | Some (r, Open conn, self, e) =>
      d_metrics self = 2 /\ de_taken e = [] /\ c_buf conn = [] /\ c_dests conn = [lit "c.d 3 4" ++ [10]]
  | _ => False
  end.
Proof. vm_compute. done. Qed.

(** With tag support, a dropped line changes how the next one is read: the flag
    that looks for tags is not set again, so the same second line is routed with
    its tags after an accepted line, and with [;] replaced after a dropped one. *)
Theorem discarded_line_disables_tags :
  let ops := demo_ops (fun _ => true) false in
  let routed b := (fun '(line, fs) => take fs line) <$>
    de_lines (@dispatch_received_metrics _ _ ops (demo_conn b) (demo_disp true) (empty_env [])).2 in
  routed (lit "x;t=1 1 2" ++ [10] ++ lit "a.b;t=1 1 2" ++ [10]) = [lit "x"; lit "a.b"] /\
  routed (lit ";" ++ lit "x" ++ [10] ++ lit "a.b;t=1 1 2" ++ [10]) = [lit ""; lit "a.b"] /\
  routed (lit "x;" ++ replicate 2100 (ch "y") ++ [10] ++ lit "a.b;t=1 1 2" ++ [10]) = [lit "a.b_t_1"].
Proof. vm_compute. done. Qed.
