(* ===== verification/Transport.v ===== *)
(** * Transport streams of the dispatcher (src/dispatcher.c, [z_strm])

    A connection is read through a stream: a socket, UDP socket or SSL session,
    possibly behind a decompressor with an input buffer of its own.  [DispatchParse]
    takes [strmread] and [strmreadbuf] from its environment; here they are, with
    [connection_strm_new], which builds the chain for a listener's transport.

    zlib, LZ4, snappy, the system calls and memory allocation are the classes
    [Decompressors] and [WireEnv].  [errno] of a call that does not set it is what
    the environment has.  Closing, which frees the
    chain and closes the socket, is in [DispatchStop]. *)
From S2P Require Import Prelude Relay DispatchParse.
#[local] Open Scope Z_scope.

(** ** Libraries and system calls *)

(** What [inflate] returns. *)
Inductive inflate_ret := Z_OK | Z_STREAM_END | Z_DATA_ERROR | Z_MEM_ERROR | Z_BUF_ERROR | Z_OTHER.
Inductive flush_mode := Z_SYNC_FLUSH | Z_FINISH.
Inductive snappy_ret := SNAPPY_OK (out : list Z) | SNAPPY_BUFFER_TOO_SMALL | SNAPPY_INVALID_INPUT.

(** [inflate] gives how much of the input it took, and the output; [inflateSync]
    skips input.  [LZ4F_decompress] gives the same, or an error. *)
Class Decompressors := {
  infl_state : Type;
  inflate : infl_state -> flush_mode -> list Z -> Z -> infl_state * inflate_ret * nat * list Z;
  inflateSync : infl_state -> list Z -> infl_state * nat;
  lz_state : Type;
  LZ4F_decompress : lz_state -> list Z -> Z -> lz_state * option (nat * list Z);
  LZ4F_resetDecompressionContext : lz_state -> lz_state;
  LZ4F_compressBound : Z -> Z;
  snappy_uncompress : list Z -> Z -> snappy_ret;
}.

(** Reads are given the room; [recvfrom] also gives the sender's address as text,
    when it is of the internet families. *)
Class WireEnv (E : Type) `{Decompressors} := {
  wire_read : E -> Z -> E * read_result;
  wire_ssl_read : E -> Z -> E * read_result;
  wire_recvfrom : E -> Z -> E * read_result * option cstring;
  wire_errno : E -> errno;
  wire_malloc : E -> E * bool;
  wire_inflateInit : E -> E * option infl_state;
  wire_lz4_create : E -> E * option lz_state;
  wire_ssl_new : E -> E * bool;
}.

Section Transport.
Context {E : Type} `{Decompressors} `{!WireEnv E}.

(** ** Streams *)

(** The streams at the end of a chain; a UDP socket has the buffer for the address. *)
Inductive bottom := InSock | InUdp (srcaddr : cstring) | InSsl.
(** An input buffer: [off] bytes that were taken, and [inb] that are left, of the
    [ipos] bytes in it; [next_in] and [iloc] point behind the first. *)
Record inbuf := mkIn { off : nat; inb : list Z; isize : Z; closing : bool }.
Definition ipos (i : inbuf) : Z := Z.of_nat (off i + length (inb i)).
Inductive instrm :=
  | InDirect (b : bottom)
  | InGzip (z : infl_state) (mode : flush_mode) (i : inbuf) (b : bottom)
  | InLz4 (lz : lz_state) (i : inbuf) (b : bottom)
  | InSnappy (i : inbuf) (b : bottom).

Definition took (i : inbuf) (n : nat) : inbuf := mkIn (off i + n) (drop n (inb i)) (isize i) (closing i).
(** The [memmove] to the front of the buffer. *)
Definition to_front (i : inbuf) : inbuf := mkIn 0 (inb i) (isize i) (closing i).
Definition appended (i : inbuf) (d : list Z) (c : bool) : inbuf := mkIn (off i) (inb i ++ d) (isize i) c.

(** A number of bytes read: none at all is 0. *)
Definition byte_count (out : list Z) : read_result := match out with [] => ReadEOF | _ => ReadData out end.

Definition connection_ended (r : read_result) : bool :=
  match r with
  | ReadData (_ :: _) => false
  | ReadData [] | ReadEOF => true
  | ReadErr EAGAIN | ReadNeg EAGAIN => false
  | ReadErr _ | ReadNeg _ => true
  end.

(** [udpsockread]: [srcaddrlen] is the size of a pointer; [inet_ntop] writes nothing
    when the address does not fit. *)
Definition srcaddrlen : Z := 8.
Definition udpsockread (e : E) (srcaddr : cstring) (sze : Z) : E * cstring * read_result :=
  let '(e, r, text) := wire_recvfrom e sze in
  match r with
  | ReadData (_ :: _) =>
      let addr := match text with Some t => if Z.of_nat (length t) <? srcaddrlen then t else [] | None => [] end in
      (e, addr, r)
  | _ => (e, srcaddr, r)
  end.

Definition bottom_read (e : E) (b : bottom) (sze : Z) : E * bottom * read_result :=
  match b with
  | InSock => let '(e, r) := wire_read e sze in (e, b, r)
  | InSsl => let '(e, r) := wire_ssl_read e sze in (e, b, r)
  | InUdp srcaddr => let '(e, srcaddr, r) := udpsockread e srcaddr sze in (e, InUdp srcaddr, r)
  end.
(** [errno] after a read. *)
Definition errno_after (e : E) (r : read_result) : errno :=
  match r with ReadErr err | ReadNeg err => err | _ => wire_errno e end.

(** [gzipreadbuf], with [errno] before it. *)
Definition gzipreadbuf (err : errno) (z : infl_state) (mode : flush_mode) (i : inbuf) (sze : Z) :
    infl_state * inbuf * read_result :=
  let '(z, iret, n, out) := inflate z mode (inb i) sze in
  let i := took i n in
  let err0 err := if ipos i =? isize i then EOTHER else if negb (closing i) then EAGAIN else err in
  match iret with
  | Z_OK | Z_STREAM_END => (z, i, byte_count out)
  | Z_DATA_ERROR => let '(z, n) := inflateSync z (inb i) in (z, took i n, ReadErr (err0 err))
  | Z_MEM_ERROR => (z, i, ReadErr ENOMEM)
  | Z_BUF_ERROR => (z, i, ReadNeg (err0 EAGAIN))
  | Z_OTHER => (z, i, ReadErr (err0 err))
  end.

Definition gzipread (e : E) (z : infl_state) (mode : flush_mode) (i : inbuf) (b : bottom) (sze : Z) : E * instrm * read_result :=
  if isize i <=? Z.of_nat (length (inb i)) + 1 then (e, InGzip z mode i b, ReadErr EOTHER)
  else
    let i := to_front i in
    let '(e, b, r) := bottom_read e b (isize i - ipos i) in
    let c := connection_ended r in
    let buffered i mode :=
      let '(z, i, res) := gzipreadbuf (errno_after e r) z mode i sze in (e, InGzip z mode i b, res) in
    match r with
    | ReadData ((_ :: _) as d) => buffered (appended i d c) mode
    | ReadData [] | ReadEOF => (e, InGzip z Z_FINISH (appended i [] c) b, ReadEOF)
    | ReadErr EAGAIN | ReadNeg EAGAIN => buffered (appended i [] c) mode
    | ReadErr _ | ReadNeg _ => buffered (appended i [] c) Z_FINISH
    end.

Definition lzreadbuf (lz : lz_state) (i : inbuf) (sze : Z) : lz_state * inbuf * read_result :=
  match inb i with
  | [] => (lz, i, ReadEOF)
  | _ =>
      let '(lz, r) := LZ4F_decompress lz (inb i) sze in
      match r with
      | None =>
          (LZ4F_resetDecompressionContext lz, i,
           ReadErr (if bool_decide (off i = 0%nat) && (ipos i =? isize i) then EOTHER else if closing i then EOTHER else EAGAIN))
      | Some (n, []) => (lz, i, if closing i then ReadEOF else ReadErr EAGAIN)
      | Some (n, out) => (lz, took i n, ReadData out)
      end
  end.

Definition lzread (e : E) (lz : lz_state) (i : inbuf) (b : bottom) (sze : Z) : E * instrm * read_result :=
  if bool_decide (off i = 0%nat) && (isize i <=? ipos i) then (e, InLz4 lz i b, ReadErr EOTHER)
  else
    let i := to_front i in
    let '(e, b, r) := bottom_read e b (isize i - ipos i) in
    let c := connection_ended r in
    let buffered i := let '(lz, i, res) := lzreadbuf lz i sze in (e, InLz4 lz i b, res) in
    match r with
    | ReadData ((_ :: _) as d) => buffered (appended i d c)
    | ReadData [] | ReadEOF => if ipos i =? 0 then (e, InLz4 lz (appended i [] c) b, ReadEOF) else buffered (appended i [] c)
    | ReadErr err | ReadNeg err => if ipos i =? 0 then (e, InLz4 lz (appended i [] c) b, ReadErr err) else buffered (appended i [] c)
    end.

(** [snappyread]; the input buffer is always at the front.  The number of bytes that
    came out is subtracted from those that were in: [None] when that is less than
    zero, and [memmove] gets a length near [SIZE_MAX]. *)
Definition snappyread (e : E) (i : inbuf) (b : bottom) (sze : Z) : option (E * instrm * read_result) :=
  let '(e, b, r) := bottom_read e b (isize i - ipos i) in
  let c := connection_ended r in
  match r with
  | ReadData ((_ :: _) as d) =>
      let i := appended i d c in
      match snappy_uncompress (inb i) sze with
      | SNAPPY_OK out =>
          if (length (inb i) <? length out)%nat then None
          else Some (e, InSnappy (mkIn 0 (drop (length out) (inb i)) (isize i) c) b, byte_count out)
      | SNAPPY_BUFFER_TOO_SMALL => Some (e, InSnappy (mkIn 0 [] (isize i) c) b, ReadErr (wire_errno e))
      | SNAPPY_INVALID_INPUT => Some (e, InSnappy i b, ReadErr (wire_errno e))
      end
  | ReadData [] | ReadEOF => Some (e, InSnappy (appended i [] c) b, ReadEOF)
  | ReadErr err | ReadNeg err => Some (e, InSnappy (appended i [] c) b, ReadErr err)
  end.

(** [strmread] and [strmreadbuf] of a chain. *)
Definition strmread (e : E) (s : instrm) (sze : Z) : option (E * instrm * read_result) :=
  match s with
  | InDirect b => let '(e, b, r) := bottom_read e b sze in Some (e, InDirect b, r)
  | InGzip z mode i b => Some (gzipread e z mode i b sze)
  | InLz4 lz i b => Some (lzread e lz i b sze)
  | InSnappy i b => snappyread e i b sze
  end.
Definition strmreadbuf (e : E) (s : instrm) (sze : Z) : instrm * read_result :=
  match s with
  | InDirect b => (s, ReadEOF)   (* the pointer is NULL, and not called *)
  | InGzip z mode i b => let '(z, i, r) := gzipreadbuf (wire_errno e) z mode i sze in (InGzip z mode i b, r)
  | InLz4 lz i b => let '(lz, i, r) := lzreadbuf lz i sze in (InLz4 lz i b, r)
  | InSnappy i b => (s, ReadEOF)
  end.

(** ** New streams *)

Definition new_inbuf (size : Z) : inbuf := mkIn 0 [] size false.

(** The stream and the size for the connection's buffer, or [None]. *)
Definition gzipnew (e : E) (size : Z) (b : bottom) : E * option (instrm * Z) :=
  let '(e, ok) := wire_malloc e in
  if negb ok then (e, None)
  else
    let '(e, ok) := wire_malloc e in
    if negb ok then (e, None)
    else
      let '(e, z) := wire_inflateInit e in
      match z with
      | None => (e, None)
      | Some z => (e, Some (InGzip z Z_SYNC_FLUSH (new_inbuf size) b, size))
      end.
Definition lznew (e : E) (size : Z) (b : bottom) : E * option (instrm * Z) :=
  let '(e, ok) := wire_malloc e in
  if negb ok then (e, None)
  else
    let '(e, lz) := wire_lz4_create e in
    match lz with
    | None => (e, None)
    | Some lz =>
        let size := if 65536 <? size then size else 65536 in
        let '(e, ok) := wire_malloc e in
        if ok then (e, Some (InLz4 lz (new_inbuf size) b, LZ4F_compressBound size)) else (e, None)
    end.
Definition snappynew (e : E) (size : Z) (b : bottom) : E * option (instrm * Z) :=
  let '(e, ok) := wire_malloc e in
  if negb ok then (e, None)
  else
    let '(e, ok) := wire_malloc e in
    if ok then (e, Some (InSnappy (new_inbuf size) b, size)) else (e, None).

Definition connection_strm_new (e : E) (srcaddr : cstring) (ctype : con_proto) (transport : Z) : E * option (instrm * Z) :=
  let compress_type := Z.land transport 65535 in
  let '(e, ok) := wire_malloc e in
  if negb ok then (e, None)
  else
    let '(e, b) :=
      if negb (Z.ldiff transport 65535 =? W_SSL) then
        (e, Some (match ctype with CON_UDP => InUdp srcaddr | _ => InSock end))
      else let '(e, ok) := wire_ssl_new e in (e, if ok : bool then Some InSsl else None) in
    match b with
    | None => (e, None)
    | Some b =>
        let '(e, s) :=
          if compress_type =? W_GZIP then gzipnew e METRIC_BUFSIZ b
          else if compress_type =? W_LZ4 then lznew e METRIC_BUFSIZ b
          else if compress_type =? W_SNAPPY then snappynew e METRIC_BUFSIZ b
          else (e, Some (InDirect b, METRIC_BUFSIZ)) in
        match s with
        | None => (e, None)
        | Some s => let '(e, ok) := wire_malloc e in (e, if ok : bool then Some s else None)
        end
    end.

(** [strmerror], which a decompressor leaves to the stream behind it: the text, and the buffer for SSL's. *)
Definition strmerror (s : instrm) (sslbuf : cstring) (ssl_err : Z) (strerror queued : cstring) : cstring * cstring :=
  let b := match s with InDirect b | InGzip _ _ _ b | InLz4 _ _ b | InSnappy _ b => b end in
  match b with
  | InSsl => let t := sslerror sslbuf ssl_err strerror queued in (t, t)
  | InSock | InUdp _ => (strerror, sslbuf)
  end.

End Transport.

(** ** Streams as the dispatcher's environment *)

(** The operations of a dispatcher whose connection is read through a stream: [None]
    when the process is gone.  [buffered] tells whether the stream has [strmreadbuf]. *)
Definition transport_ops {E D : Type} `{Decompressors} `{!WireEnv E} (ops : DispatchEnv E D) (buffered : bool) :
    DispatchEnv (option (E * instrm)) D := {|
  env_route := fun o m n =>
    match o with Some (e, s) => let '(e, ds, b) := env_route e m n in (Some (e, s), ds, b) | None => (None, [], false) end;
  env_send := fun o x force =>
    match o with Some (e, s) => let '(e, b) := env_send e x force in (Some (e, s), b) | None => (None, false) end;
  env_time := fun o =>
    match o with Some (e, s) => let '(e, t) := env_time e in (Some (e, s), t) | None => (None, mkTv 0 0) end;
  env_read := fun o sze =>
    match o with
    | Some (e, s) => match strmread e s sze with Some (e, s, r) => (Some (e, s), r) | None => (None, ReadEOF) end
    | None => (None, ReadEOF)
    end;
  env_readbuf :=
    if buffered then Some (fun o sze =>
      match o with Some (e, s) => let '(s, r) := strmreadbuf e s sze in (Some (e, s), r) | None => (None, ReadEOF) end)
    else None;
|}.

(** A read that gives nothing closes the connection. *)
Lemma eof_closes {E D : Type} `{DispatchEnv E D} fuel conn self start e e1 :
  c_dests conn = [] -> c_buf conn = [] -> c_isaggr conn = false -> c_isudp conn = false ->
  env_read e (room conn) = (e1, ReadEOF) -> dispatch_connection fuel conn self start e = Some (0, Closed, self, e1).
Proof.
  intros Hd Hb Ha Hu Hr. unfold dispatch_connection, dispatch_process_dests. rewrite Hd, Hb. cbn [negb].
  rewrite (bool_decide_eq_true_2 (([] : list Z) = [])) by done. cbn [negb]. rewrite andb_false_r, Hr, Ha, Hu. cbn [andb orb].
  rewrite Hd. by rewrite bool_decide_eq_true_2.
Qed.

(** ** What the libraries promise *)

(** [decode z inp] is all that an inflater in state [z] makes of the rest [inp] of
    its stream, when that is valid. *)
Definition inflate_laws `{Decompressors} (decode : infl_state -> list Z -> option (list Z)) : Prop :=
  forall z inp sze more d z' r n out,
    inflate z Z_SYNC_FLUSH inp sze = (z', r, n, out) -> decode z (inp ++ more) = Some d ->
    (n <= length inp)%nat /\
    match r with
    | Z_OK | Z_STREAM_END => exists d', d = out ++ d' /\ decode z' (drop n inp ++ more) = Some d'
    | Z_BUF_ERROR => n = 0%nat /\ decode z' (inp ++ more) = Some d   (* no progress was possible *)
    | Z_MEM_ERROR => True
    | Z_DATA_ERROR | Z_OTHER => False
    end.

(** The libraries stay within the buffers they are given. *)
Record library_bounds `{Decompressors} : Prop := {
  lb_inflate z mode inp sze z' r n out :
    inflate z mode inp sze = (z', r, n, out) -> 0 <= sze -> (n <= length inp)%nat /\ Z.of_nat (length out) <= sze;
  lb_sync z inp : ((inflateSync z inp).2 <= length inp)%nat;
  lb_lz4 lz inp sze lz' n out :
    LZ4F_decompress lz inp sze = (lz', Some (n, out)) -> 0 <= sze -> (n <= length inp)%nat /\ Z.of_nat (length out) <= sze;
  lb_snappy inp sze out : snappy_uncompress inp sze = SNAPPY_OK out -> 0 <= sze -> Z.of_nat (length out) <= sze;
}.

(** [recv] is what was received, and a read gets no more than there is room for. *)
Definition one_read {E : Type} (recv : E -> list Z) (e : E) (n : Z) (e' : E) (r : read_result) : Prop :=
  match r with
  | ReadData d => recv e' = recv e ++ d /\ (0 <= n -> Z.of_nat (length d) <= n)
  | _ => recv e' = recv e
  end.
Record receives {E : Type} `{Decompressors} `{!WireEnv E} (recv : E -> list Z) : Prop := {
  rc_read e n : one_read recv e n (wire_read e n).1 (wire_read e n).2;
  rc_ssl e n : one_read recv e n (wire_ssl_read e n).1 (wire_ssl_read e n).2;
  rc_from e n : one_read recv e n (wire_recvfrom e n).1.1 (wire_recvfrom e n).1.2;
}.

Section Reading.
Context {E : Type} `{Decompressors} `{!WireEnv E}.

Lemma bottom_read_receives recv e b sze e' b' r :
  receives recv -> bottom_read e b sze = (e', b', r) -> one_read recv e sze e' r.
Proof.
  intros Hr. destruct b as [|a|]; cbn [bottom_read].
  - pose proof (rc_read _ Hr e sze) as H1. destruct (wire_read e sze). by intros [= <- <- <-].
  - unfold udpsockread. pose proof (rc_from _ Hr e sze) as H1. destruct (wire_recvfrom e sze) as [[e1 r1] t].
    destruct r1 as [[|c d]| |err|err]; by intros [= <- <- <-].
  - pose proof (rc_ssl _ Hr e sze) as H1. destruct (wire_ssl_read e sze). by intros [= <- <- <-].
Qed.

(** ** Sequences of calls *)

Inductive call := Read (sze : Z) | ReadBuf (sze : Z).
Definition strm_call (c : call) (e : E) (s : instrm) : option (E * instrm * read_result) :=
  match c with
  | Read sze => strmread e s sze
  | ReadBuf sze => let '(s, r) := strmreadbuf e s sze in Some (e, s, r)
  end.
Fixpoint strm_calls (cs : list call) (e : E) (s : instrm) : option (E * instrm * list read_result) :=
  match cs with
  | [] => Some (e, s, [])
  | c :: cs' =>
      '(e, s, r) ← strm_call c e s;
      '(e, s, rs) ← strm_calls cs' e s;
      Some (e, s, r :: rs)
  end.
Definition data_of (r : read_result) : list Z := match r with ReadData d => d | _ => [] end.
Definition delivered (rs : list read_result) : list Z := concat (data_of <$> rs).

Lemma data_byte_count out : data_of (byte_count out) = out.
Proof. by destruct out. Qed.

(** ** Gzip *)

Lemma gzipreadbuf_decodes decode err z i sze z' i' r more d :
  inflate_laws decode -> gzipreadbuf err z Z_SYNC_FLUSH i sze = (z', i', r) -> r <> ReadErr ENOMEM ->
  decode z (inb i ++ more) = Some d -> exists d', d = data_of r ++ d' /\ decode z' (inb i' ++ more) = Some d'.
Proof.
  intros Hl. unfold gzipreadbuf. destruct (inflate z Z_SYNC_FLUSH (inb i) sze) as [[[z1 iret] n] out] eqn:Ei.
  intros Hb Hm Hd. destruct (Hl _ _ _ _ _ _ _ _ _ Ei Hd) as [Hn Hr]. destruct iret; try done.
  - injection Hb as <- <- <-. rewrite data_byte_count. exact Hr.
  - injection Hb as <- <- <-. rewrite data_byte_count. exact Hr.
  - by injection Hb as <- <- <-.
  - injection Hb as <- <- <-. destruct Hr as [-> Hr]. by exists d.
Qed.

(** What one call does to a gzip stream that stays in its first mode. *)
Lemma gzip_call_decodes decode recv c e z i b e' z' i' b' r :
  inflate_laws decode -> receives recv ->
  strm_call c e (InGzip z Z_SYNC_FLUSH i b) = Some (e', InGzip z' Z_SYNC_FLUSH i' b', r) -> r <> ReadErr ENOMEM ->
  exists w, recv e' = recv e ++ w /\ forall more d, decode z (inb i ++ w ++ more) = Some d ->
    exists d', d = data_of r ++ d' /\ decode z' (inb i' ++ more) = Some d'.
Proof.
  intros Hl Hr. destruct c as [sze|sze]; cbn [strm_call strmread strmreadbuf].
  2: { destruct (gzipreadbuf _ z Z_SYNC_FLUSH i sze) as [[z1 i1] r1] eqn:Eg. intros [= <- <- <- <- <-] Hm.
    exists []. rewrite app_nil_r. split; [done|]. intros more d. by apply (gzipreadbuf_decodes _ _ _ _ _ _ _ _ _ _ Hl Eg Hm). }
  unfold gzipread. destruct (_ <=? _).
  { intros [= <- <- <- <- <-] Hm. exists []. rewrite app_nil_r. split; [done|]. intros more d Hd. by exists d. }
  destruct (bottom_read e b _) as [[e1 b1] r0] eqn:Eb. apply (bottom_read_receives _ _ _ _ _ _ _ Hr) in Eb. cbv zeta.
  assert (forall d0 c0, (let '(z2, i2, res) := gzipreadbuf (errno_after e1 r0) z Z_SYNC_FLUSH (appended (to_front i) d0 c0) sze in
      (e1, InGzip z2 Z_SYNC_FLUSH i2 b1, res)) = (e', InGzip z' Z_SYNC_FLUSH i' b', r) -> recv e1 = recv e ++ d0 -> r <> ReadErr ENOMEM ->
    exists w, recv e' = recv e ++ w /\ forall more d, decode z (inb i ++ w ++ more) = Some d ->
    exists d', d = data_of r ++ d' /\ decode z' (inb i' ++ more) = Some d') as Hb.
  { intros d0 c0 Hg Hw Hm. destruct (gzipreadbuf _ _ _ _ _) as [[z2 i2] res] eqn:Eg. injection Hg as <- <- <- <- <-.
    exists d0. split; [done|]. intros more d Hd. apply (gzipreadbuf_decodes _ _ _ _ _ _ _ _ _ _ Hl Eg Hm). cbn. by rewrite <- app_assoc. }
  assert (recv e1 = recv e -> recv e1 = recv e ++ []) as Hnil by (by rewrite app_nil_r).
  destruct r0 as [[|c0 d0]| |err|err]; cbn in Eb; intros [= Hs].
  - apply (Hb (c0 :: d0) false Hs (proj1 Eb)).
  - destruct err; [apply (Hb [] false Hs); auto| |];
      by destruct (gzipreadbuf _ z Z_FINISH _ sze) as [[? ?] ?].
  - destruct err; [apply (Hb [] false Hs); auto| |];
      by destruct (gzipreadbuf _ z Z_FINISH _ sze) as [[? ?] ?].
Qed.

(** Once finishing, a stream stays so. *)
Lemma gzip_call_shape c e z mode i b e' s' r :
  strm_call c e (InGzip z mode i b) = Some (e', s', r) ->
  exists z' mode' i' b', s' = InGzip z' mode' i' b' /\ (mode = Z_FINISH -> mode' = Z_FINISH).
Proof.
  destruct c as [sze|sze]; cbn [strm_call strmread strmreadbuf].
  2: { destruct (gzipreadbuf _ z mode i sze) as [[z1 i1] r1]. intros [= <- <- <-]. eauto 10. }
  unfold gzipread. destruct (_ <=? _); [intros [= <- <- <-]; eauto 10|].
  destruct (bottom_read e b _) as [[e1 b1] r0]. cbv zeta.
  destruct r0 as [[|c0 d0]| |[]|[]]; try (destruct (gzipreadbuf _ _ _ _ _) as [[? ?] ?]); intros [= <- <- <-]; eauto 10.
Qed.
Lemma gzip_calls_shape cs e z mode i b e' s' rs :
  strm_calls cs e (InGzip z mode i b) = Some (e', s', rs) ->
  exists z' mode' i' b', s' = InGzip z' mode' i' b' /\ (mode = Z_FINISH -> mode' = Z_FINISH).
Proof.
  revert e z mode i b rs. induction cs as [|c cs IH]; intros e z mode i b rs; cbn [strm_calls].
  { intros [= <- <- <-]. eauto 10. }
  destruct (strm_call c e _) as [[[e1 s1] r]|] eqn:Ec; [|done]. run_binds.
  apply gzip_call_shape in Ec as (z1 & m1 & i1 & b1 & -> & Hm1).
  destruct (strm_calls cs e1 _) as [[[e2 s2] rs2]|] eqn:Es; [|done]. run_binds. intros [= <- <- <-].
  apply IH in Es as (z2 & m2 & i2 & b2 & -> & Hm2). exists z2, m2, i2, b2. auto.
Qed.

Lemma gzip_calls_decode decode recv cs e z i b e' z' i' b' rs :
  inflate_laws decode -> receives recv ->
  strm_calls cs e (InGzip z Z_SYNC_FLUSH i b) = Some (e', InGzip z' Z_SYNC_FLUSH i' b', rs) -> ReadErr ENOMEM ∉ rs ->
  exists w, recv e' = recv e ++ w /\ forall more d, decode z (inb i ++ w ++ more) = Some d ->
    exists d', d = delivered rs ++ d' /\ decode z' (inb i' ++ more) = Some d'.
Proof.
  intros Hl Hr. revert e z i b rs. induction cs as [|c cs IH]; intros e z i b rs; cbn [strm_calls].
  { intros [= <- <- <- <- <-] _. exists []. rewrite app_nil_r. split; [done|]. intros more d Hd. by exists d. }
  destruct (strm_call c e _) as [[[e1 s1] r]|] eqn:Ec; [|done]. run_binds.
  destruct (gzip_call_shape _ _ _ _ _ _ _ _ _ Ec) as (z1 & m1 & i1 & b1 & -> & _).
  destruct (strm_calls cs e1 _) as [[[e2 s2] rs2]|] eqn:Es; [|done]. run_binds. intros [= -> -> <-] Hm.
  destruct (gzip_calls_shape _ _ _ _ _ _ _ _ _ Es) as (z2 & m2 & i2 & b2 & [= <- <- <- <-] & Hm2).
  destruct m1; [|by specialize (Hm2 eq_refl)].
  destruct (gzip_call_decodes _ _ _ _ _ _ _ _ _ _ _ _ Hl Hr Ec ltac:(set_solver)) as (w1 & Hw1 & Hd1).
  destruct (IH _ _ _ _ _ Es ltac:(set_solver)) as (w2 & Hw2 & Hd2).
  exists (w1 ++ w2). split; [by rewrite Hw2, Hw1, app_assoc|]. intros more d Hd.
  rewrite <- app_assoc in Hd. destruct (Hd1 _ _ Hd) as (d1 & -> & Hd').
  destruct (Hd2 _ _ Hd') as (d2 & -> & Hd3). exists d2. split; [|done]. unfold delivered. cbn. by rewrite <- app_assoc.
Qed.

(** ** The buffers *)

(** The bytes of an input buffer are within it. *)
Definition in_bounds (i : inbuf) : Prop := ipos i <= isize i.
Definition strm_ok (s : instrm) : Prop :=
  match s with
  | InDirect _ => True
  | InGzip _ _ i _ | InLz4 _ i _ => in_bounds i
  | InSnappy i _ => off i = 0%nat /\ in_bounds i
  end.
Definition fits_in (sze : Z) (r : read_result) : Prop := Z.of_nat (length (data_of r)) <= sze.

Lemma took_bounds i n : (n <= length (inb i))%nat -> ipos (took i n) = ipos i.
Proof. intros Hn. unfold ipos, took. cbn. rewrite length_drop. lia. Qed.
Lemma appended_bounds i d c : Z.of_nat (length d) <= isize i - ipos (to_front i) -> in_bounds (appended (to_front i) d c).
Proof. unfold in_bounds, ipos, to_front, appended. cbn. rewrite length_app. lia. Qed.
Lemma to_front_bounds i : in_bounds i -> in_bounds (to_front i).
Proof. unfold in_bounds, ipos, to_front. cbn. lia. Qed.
Lemma fits_none sze r : 0 <= sze -> data_of r = [] -> fits_in sze r.
Proof. unfold fits_in. by intros ? ->. Qed.

Lemma gzipreadbuf_bounds err z mode i sze z' i' r :
  library_bounds -> 0 <= sze -> gzipreadbuf err z mode i sze = (z', i', r) ->
  ipos i' = ipos i /\ isize i' = isize i /\ fits_in sze r.
Proof.
  intros Hl Hs. unfold gzipreadbuf. destruct (inflate z mode (inb i) sze) as [[[z1 iret] n] out] eqn:Ei.
  destruct (lb_inflate Hl _ _ _ _ _ _ _ _ Ei Hs) as [Hn Ho].
  destruct iret; try (intros [= <- <- <-]; rewrite took_bounds by done; split_and!; [done|done|]; unfold fits_in; rewrite ?data_byte_count; by cbn).
  pose proof (lb_sync Hl z1 (inb (took i n))) as Hy. destruct (inflateSync z1 _) as [z2 m]. intros [= <- <- <-].
  rewrite !took_bounds by done. split_and!; [done|done|]. by apply fits_none.
Qed.

Lemma lzreadbuf_bounds lz i sze lz' i' r :
  library_bounds -> 0 <= sze -> lzreadbuf lz i sze = (lz', i', r) ->
  ipos i' = ipos i /\ isize i' = isize i /\ fits_in sze r.
Proof.
  intros Hl Hs. unfold lzreadbuf. destruct (inb i) as [|c0 d0] eqn:Ei; [intros [= <- <- <-]; by split_and!|].
  destruct (LZ4F_decompress lz (c0 :: d0) sze) as [lz1 [[n [|o out]]|]] eqn:El; intros [= <- <- <-].
  - split_and!; [done|done|]. apply fits_none; [done|]. by destruct (closing i).
  - destruct (lb_lz4 Hl _ _ _ _ _ _ El Hs). rewrite took_bounds by (by rewrite Ei). by split_and!.
  - split_and!; [done|done|]. by apply fits_none.
Qed.

Lemma gzipread_bounds recv e z mode i b sze e' s' r :
  library_bounds -> receives recv -> 0 <= sze -> in_bounds i -> gzipread e z mode i b sze = (e', s', r) ->
  strm_ok s' /\ fits_in sze r.
Proof.
  intros Hl Hr Hs Hi. unfold gzipread. destruct (_ <=? _); [intros [= <- <- <-]; split; [done|by apply fits_none]|].
  destruct (bottom_read e b _) as [[e1 b1] r0] eqn:Eb. apply (bottom_read_receives _ _ _ _ _ _ _ Hr) in Eb. cbv zeta.
  pose proof (to_front_bounds i Hi) as Hf.
  assert (forall d c m err, in_bounds (appended (to_front i) d c) ->
    (let '(z, i, res) := gzipreadbuf err z m (appended (to_front i) d c) sze in (e1, InGzip z m i b1, res)) = (e', s', r) ->
    strm_ok s' /\ fits_in sze r) as Hb.
  { intros d c m err Hd. destruct (gzipreadbuf _ _ _ _ _) as [[z2 i2] res] eqn:Eg. intros [= <- <- <-].
    destruct (gzipreadbuf_bounds _ _ _ _ _ _ _ _ Hl Hs Eg) as (Hp & Hz & Hr2). split; [|done]. cbn. unfold in_bounds in *. lia. }
  assert (forall c, in_bounds (appended (to_front i) [] c)) as Hnil by (intros c; apply appended_bounds; unfold in_bounds in Hf; cbn in *; lia).
  destruct r0 as [[|c0 d0]| |[]|[]]; cbn in Eb; try (by apply Hb); try (intros [= <- <- <-]; split; [apply Hnil|by apply fits_none]).
  destruct Eb as [_ Hd]. apply Hb, appended_bounds. apply Hd. unfold in_bounds in Hf. cbn in *. lia.
Qed.

Lemma lzread_bounds recv e lz i b sze e' s' r :
  library_bounds -> receives recv -> 0 <= sze -> in_bounds i -> lzread e lz i b sze = (e', s', r) ->
  strm_ok s' /\ fits_in sze r.
Proof.
  intros Hl Hr Hs Hi. unfold lzread. destruct (_ && _); [intros [= <- <- <-]; split; [done|by apply fits_none]|].
  destruct (bottom_read e b _) as [[e1 b1] r0] eqn:Eb. apply (bottom_read_receives _ _ _ _ _ _ _ Hr) in Eb. cbv zeta.
  pose proof (to_front_bounds i Hi) as Hf.
  assert (forall d c, in_bounds (appended (to_front i) d c) ->
    (let '(lz, i, res) := lzreadbuf lz (appended (to_front i) d c) sze in (e1, InLz4 lz i b1, res)) = (e', s', r) ->
    strm_ok s' /\ fits_in sze r) as Hb.
  { intros d c Hd. destruct (lzreadbuf _ _ _) as [[z2 i2] res] eqn:Eg. intros [= <- <- <-].
    destruct (lzreadbuf_bounds _ _ _ _ _ _ Hl Hs Eg) as (Hp & Hz & Hr2). split; [|done]. cbn. unfold in_bounds in *. lia. }
  assert (forall c, in_bounds (appended (to_front i) [] c)) as Hnil by (intros c; apply appended_bounds; unfold in_bounds in Hf; cbn in *; lia).
  destruct r0 as [[|c0 d0]| |err|err]; cbn in Eb;
    try (destruct (ipos _ =? 0); [intros [= <- <- <-]; split; [apply Hnil|by apply fits_none]|by apply Hb]).
  destruct Eb as [_ Hd]. apply Hb, appended_bounds. apply Hd. unfold in_bounds in Hf. cbn in *. lia.
Qed.

Lemma snappyread_bounds recv e i b sze e' s' r :
  library_bounds -> receives recv -> 0 <= sze -> strm_ok (InSnappy i b) -> snappyread e i b sze = Some (e', s', r) ->
  strm_ok s' /\ fits_in sze r.
Proof.
  intros Hl Hr Hs [Ho Hi]. unfold snappyread.
  destruct (bottom_read e b _) as [[e1 b1] r0] eqn:Eb. apply (bottom_read_receives _ _ _ _ _ _ _ Hr) in Eb. cbv zeta.
  unfold in_bounds, ipos in *. destruct r0 as [[|c0 d0]| |err|err]; cbn in Eb;
    try (intros [= <- <- <-]; split; [split; [done|unfold in_bounds, ipos; cbn; by rewrite app_nil_r]|by apply fits_none]).
  destruct Eb as [_ Hd]. specialize (Hd ltac:(lia)). cbn [connection_ended].
  destruct (snappy_uncompress _ sze) as [out| |] eqn:Es; [destruct (Nat.ltb_spec (length (inb (appended i (c0 :: d0) false))) (length out)); [discriminate|]| |];
    intros [= <- <- <-]; cbn [strm_ok off]; unfold in_bounds, ipos; cbn [off inb isize appended] in *; rewrite ?length_drop, ?length_app in *; cbn [length] in *.
  - split; [split; [done|lia]|]. unfold fits_in. rewrite data_byte_count. by eapply lb_snappy.
  - split; [split; [done|lia]|by apply fits_none].
  - split; [split; [done|lia]|by apply fits_none].
Qed.

Lemma call_bounds recv c e s e' s' r :
  library_bounds -> receives recv -> 0 <= match c with Read sze | ReadBuf sze => sze end -> strm_ok s ->
  strm_call c e s = Some (e', s', r) ->
  strm_ok s' /\ fits_in (match c with Read sze | ReadBuf sze => sze end) r.
Proof.
  intros Hl Hr Hs Hok. destruct c as [sze|sze]; cbn [strm_call].
  - destruct s as [b|z mode i b|lz i b|i b]; cbn [strmread].
    + destruct (bottom_read e b sze) as [[e1 b1] r1] eqn:Eb. apply (bottom_read_receives _ _ _ _ _ _ _ Hr) in Eb. intros [= <- <- <-].
      split; [done|]. destruct r1 as [d| |err|err]; try by apply fits_none. destruct Eb as [_ Hd]. by apply Hd.
    + intros [= Hg]. by apply (gzipread_bounds recv) in Hg.
    + intros [= Hg]. by apply (lzread_bounds recv) in Hg.
    + by apply (snappyread_bounds recv).
  - destruct s as [b|z mode i b|lz i b|i b]; cbn [strmreadbuf].
    + intros [= <- <- <-]. split; [done|by apply fits_none].
    + destruct (gzipreadbuf _ z mode i sze) as [[z1 i1] r1] eqn:Eg. intros [= <- <- <-].
      destruct (gzipreadbuf_bounds _ _ _ _ _ _ _ _ Hl Hs Eg) as (Hp & Hz & Hr2). split; [|done]. cbn in *. unfold in_bounds in *. lia.
    + destruct (lzreadbuf lz i sze) as [[z1 i1] r1] eqn:Eg. intros [= <- <- <-].
      destruct (lzreadbuf_bounds _ _ _ _ _ _ Hl Hs Eg) as (Hp & Hz & Hr2). split; [|done]. cbn in *. unfold in_bounds in *. lia.
    + intros [= <- <- <-]. split; [done|by apply fits_none].
Qed.

Lemma new_strm_ok e srcaddr ctype transport e' s osize :
  connection_strm_new e srcaddr ctype transport = (e', Some (s, osize)) -> strm_ok s.
Proof.
  unfold connection_strm_new, gzipnew, lznew, snappynew, METRIC_BUFSIZ. repeat case_match; intros; simplify_eq; try done.
  all: repeat split; unfold in_bounds, ipos; cbn; try lia; case_match; lia.
Qed.
End Reading.

(** ** A concrete wire, for evaluating the theorems *)

(** What is to be read, a failing read where there is [None], and what was received.
    The demonstration codecs only put a byte, 31 or 4, in front. *)
Record demo_wire := mkWire { wi_todo : list (option (list Z)); wi_recv : list Z }.
Definition demo_wire_read (e : demo_wire) (n : Z) : demo_wire * read_result :=
  match wi_todo e with
  | Some d :: todo =>
      let d := take (Z.to_nat n) d in
      match d with [] => (mkWire todo (wi_recv e), ReadEOF) | _ => (mkWire todo (wi_recv e ++ d), ReadData d) end
  | None :: todo => (mkWire todo (wi_recv e), ReadErr EOTHER)
  | [] => (e, ReadErr EAGAIN)
  end.
Definition demo_out (h : Z) (st : bool) (inp : list Z) (sze : Z) : bool * option (nat * list Z) :=
  match st, inp with
  | true, _ => (true, Some (length (take (Z.to_nat sze) inp), take (Z.to_nat sze) inp))
  | false, [] => (false, Some (0%nat, []))
  | false, c :: inp => if c =? h then (true, Some (S (length (take (Z.to_nat sze) inp)), take (Z.to_nat sze) inp)) else (false, None)
  end.
#[local] Instance demo_decompressors : Decompressors := {|
  infl_state := bool;
  inflate := fun st _ inp sze =>
    match demo_out 31 st inp sze with
    | (st', Some (0%nat, _)) => (st, Z_BUF_ERROR, 0%nat, [])
    | (st', Some (n, out)) => (st', Z_OK, n, out)
    | (st', None) => (st', Z_DATA_ERROR, 0%nat, [])
    end;
  inflateSync := fun st inp => (st, length inp);
  lz_state := bool;
  LZ4F_decompress := fun st inp sze => demo_out 4 st inp sze;
  LZ4F_resetDecompressionContext := fun _ => false;
  LZ4F_compressBound := fun n => n;
  snappy_uncompress := fun inp sze =>
    match inp with
    | [n; c] => if n <=? sze then SNAPPY_OK (replicate (Z.to_nat n) c) else SNAPPY_BUFFER_TOO_SMALL
    | _ => SNAPPY_INVALID_INPUT
    end;
|}.
#[local] Instance demo_wire_env : WireEnv demo_wire := {|
  wire_read := demo_wire_read;
  wire_ssl_read := demo_wire_read;
  wire_recvfrom := fun e n => (demo_wire_read e n, Some (lit "192.0.2.1"));
  wire_errno := fun _ => EAGAIN;
  wire_malloc := fun e => (e, true);
  wire_inflateInit := fun e => (e, Some false);
  wire_lz4_create := fun e => (e, Some false);
  wire_ssl_new := fun e => (e, true);
|}.
Definition demo_decode (st : bool) (inp : list Z) : option (list Z) :=
  match st, inp with true, _ | false, [] => Some inp | false, c :: inp => if c =? 31 then Some inp else None end.

Lemma demo_out_bounds h st inp sze st' n out :
  demo_out h st inp sze = (st', Some (n, out)) -> 0 <= sze -> (n <= length inp)%nat /\ Z.of_nat (length out) <= sze.
Proof.
  assert (forall l : list Z, 0 <= sze -> Z.of_nat (length (take (Z.to_nat sze) l)) <= sze) as Ht by (intros; rewrite length_take; lia).
  assert (forall l : list Z, (length (take (Z.to_nat sze) l) <= length l)%nat) as Hl by (intros; rewrite length_take; lia).
  destruct st; cbn; [intros [= <- <- <-]; auto|]. destruct inp as [|c inp]; cbn; [intros [= <- <- <-]; cbn; auto with lia|].
  destruct (c =? h); intros [= <- <- <-]. specialize (Hl inp). split; [lia|auto].
Qed.
Lemma demo_inflate_laws : inflate_laws demo_decode.
Proof.
  intros st inp sze more d st' r n out. cbn. destruct st; cbn.
  - set (o := take (Z.to_nat sze) inp). destruct (length o) as [|k] eqn:El.
    + intros [= <- <- <- <-] [= <-]. cbn. auto with lia.
    + intros [= <- <- <- <-] [= <-]. rewrite <- El. unfold o. split; [rewrite length_take; lia|].
      exists (drop (length (take (Z.to_nat sze) inp)) inp ++ more). split; [|done].
      rewrite length_take, app_assoc. f_equal. rewrite <- (take_drop (Z.to_nat sze) inp) at 1. f_equal.
      destruct (Nat.le_gt_cases (Z.to_nat sze) (length inp)); [by rewrite Nat.min_l|rewrite Nat.min_r, !drop_ge by lia; done].
  - destruct inp as [|c inp]; cbn; [intros [= <- <- <- <-] Hd; auto with lia|]. destruct (c =? 31); [|done].
    intros [= <- <- <- <-] [= <-]. split; [rewrite length_take; lia|].
    exists (drop (length (take (Z.to_nat sze) inp)) inp ++ more). split; [|done].
    rewrite length_take, app_assoc. f_equal. rewrite <- (take_drop (Z.to_nat sze) inp) at 1. f_equal.
    destruct (Nat.le_gt_cases (Z.to_nat sze) (length inp)); [by rewrite Nat.min_l|rewrite Nat.min_r, !drop_ge by lia; done].
Qed.
Lemma demo_library_bounds : library_bounds.
Proof.
  split.
  - intros st mode inp sze st' r n out. cbn. destruct (demo_out 31 st inp sze) as [st1 [[[|k] o]|]] eqn:Eo; intros [= <- <- <- <-] Hs.
    + cbn. lia.
    + by apply (demo_out_bounds _ _ _ _ _ _ _ Eo).
    + cbn. lia.
  - done.
  - intros lz inp sze lz' n out. cbn. apply demo_out_bounds.
  - intros inp sze out. cbn. repeat case_match; intros [= <-] Hs. rewrite length_replicate. lia.
Qed.
Lemma demo_receives : receives wi_recv.
Proof.
  assert (forall e n, one_read wi_recv e n (demo_wire_read e n).1 (demo_wire_read e n).2) as Hr.
  { intros e n. unfold demo_wire_read. destruct (wi_todo e) as [|[d|] todo]; [done| |done].
    destruct (take (Z.to_nat n) d) as [|c l] eqn:Ed; [done|]. cbn [fst snd one_read wi_recv]. split; [done|].
    intros Hn. rewrite <- Ed, length_take. lia. }
  split; intros; apply Hr.
Qed.
Definition demo_in (inb : list Z) : inbuf := mkIn 0 inb METRIC_BUFSIZ false.

(** ** Properties *)

(** Reading a gzip connection gives back what was compressed: whatever sequence of [strmread] and [strmreadbuf] calls,
    with whatever sizes, and however the bytes were split on the way, the data delivered so far is the beginning of what
    the stream decodes to, and the rest is what the inflater and the input buffer still hold together with the bytes to
    come; nothing is lost, repeated or reordered while no read fails and memory lasts. *)
Theorem gzip_reads_decode {E : Type} `{Decompressors} `{!WireEnv E} (decode : infl_state -> list Z -> option (list Z))
    (recv : E -> list Z) (cs : list call) (e e' : E) (z z' : infl_state) (i i' : inbuf) (b b' : bottom) (rs : list read_result)
    (more d : list Z) :
  inflate_laws decode -> receives recv -> recv e = [] -> inb i = [] ->
  strm_calls cs e (InGzip z Z_SYNC_FLUSH i b) = Some (e', InGzip z' Z_SYNC_FLUSH i' b', rs) -> ReadErr ENOMEM ∉ rs ->
  decode z (recv e' ++ more) = Some d ->
  exists d', d = delivered rs ++ d' /\ decode z' (inb i' ++ more) = Some d'.
Proof.
  intros Hl Hr He Hi Hc Hm Hd. destruct (gzip_calls_decode _ _ _ _ _ _ _ _ _ _ _ _ Hl Hr Hc Hm) as (w & Hw & Hdec).
  apply (Hdec more). rewrite Hi. rewrite Hw, He in Hd. exact Hd.
Qed.

Lemma gzip_reads_decode_witness :
  let e := mkWire [Some (31 :: lit "ab"); Some (lit "c")] [] in
  exists e' s' rs, strm_calls [Read 1; ReadBuf 5; Read 9] e (InGzip (false : @infl_state demo_decompressors) Z_SYNC_FLUSH (demo_in []) InSock) = Some (e', s', rs) /\
    wi_recv e' = 31 :: lit "abc" /\ lit "abc" = delivered rs.
Proof.
  intros e. set (e' := mkWire [] (31 :: lit "abc")). set (i' := mkIn 1 [] METRIC_BUFSIZ false).
  set (rs := [ReadData (lit "a"); ReadData (lit "b"); ReadData (lit "c")]).
  destruct (@gzip_reads_decode demo_wire demo_decompressors demo_wire_env demo_decode wi_recv [Read 1; ReadBuf 5; Read 9] e e' false true (demo_in []) i' InSock InSock rs [] (lit "abc")
    demo_inflate_laws demo_receives eq_refl eq_refl eq_refl) as (d' & Hd & Hd').
  - unfold rs. set_solver.
  - reflexivity.
  - exists e', (InGzip (true : @infl_state demo_decompressors) Z_SYNC_FLUSH i' InSock), rs. split; [reflexivity|]. split; [reflexivity|].
    injection Hd' as <-. rewrite app_nil_r in Hd. exact Hd.
Defined.

(** A read with no result at all is of a snappy stream, whose data came out longer than it went in. *)
Definition is_snappy `{Decompressors} (s : instrm) : bool := match s with InSnappy _ _ => true | _ => false end.
Definition grows `{Decompressors} : Prop :=
  exists inp sze out, snappy_uncompress inp sze = SNAPPY_OK out /\ (length inp < length out)%nat.
Lemma strm_call_snappy {E : Type} `{Decompressors} `{!WireEnv E} c (e : E) s :
  match strm_call c e s with
  | Some (_, s', _) => is_snappy s' = is_snappy s
  | None => is_snappy s = true /\ grows
  end.
Proof.
  destruct c as [sze|sze], s as [b|z mode i b|lz i b|i b]; cbn [strm_call strmread strmreadbuf].
  - by destruct (bottom_read e b sze) as [[e1 b1] r].
  - unfold gzipread. destruct (_ <=? _); [done|]. destruct (bottom_read e b _) as [[e1 b1] r0]. cbv zeta.
    destruct r0 as [[|c0 d0]| |[]|[]]; try (destruct (gzipreadbuf _ _ _ _ _) as [[? ?] ?]); done.
  - unfold lzread. destruct (_ && _); [done|]. destruct (bottom_read e b _) as [[e1 b1] r0]. cbv zeta.
    destruct r0 as [[|c0 d0]| |[]|[]]; try destruct (_ =? 0); try (destruct (lzreadbuf _ _ _) as [[? ?] ?]); done.
  - unfold snappyread. destruct (bottom_read e b _) as [[e1 b1] r0]. destruct r0 as [[|c0 d0]| |err|err]; try done. cbv zeta.
    destruct (snappy_uncompress _ sze) as [out| |] eqn:Eu; try done. destruct (Nat.ltb_spec (length (inb (appended i (c0 :: d0) (connection_ended (ReadData (c0 :: d0)))))) (length out)); [|done].
    split; [done|]. by do 3 eexists.
  - done.
  - by destruct (gzipreadbuf _ z mode i sze) as [[? ?] ?].
  - by destruct (lzreadbuf lz i sze) as [[? ?] ?].
  - done.
Qed.

(** C33: The transport streams keep to their buffers, for decompressors and reads that do: a new stream's input buffer is
    within bounds, and any sequence of reads from it, of any non-negative sizes, for any transport and whatever the
    network sends, has a result, leaves the buffer within bounds and delivers at most the bytes asked for each time.
    There is one exception, with which the code goes out of bounds: a snappy stream whose data grows on decompression,
    where the length of a [memmove] is negative ([snappy_input_length_underflows]). *)
Theorem transport_in_bounds {E : Type} `{Decompressors} `{!WireEnv E} (recv : E -> list Z) (e : E) (srcaddr : cstring)
    (ctype : con_proto) (transport : Z) (e0 : E) (s0 : instrm) (osize : Z) (cs : list call) :
  library_bounds -> receives recv -> connection_strm_new e srcaddr ctype transport = (e0, Some (s0, osize)) ->
  Forall (fun c => 0 <= match c with Read sze | ReadBuf sze => sze end) cs ->
  match strm_calls cs e0 s0 with
  | Some (e', s', rs) => strm_ok s' /\ Forall2 (fun c r => fits_in (match c with Read sze | ReadBuf sze => sze end) r) cs rs
  | None => is_snappy s0 = true /\ grows
  end.
Proof.
  intros Hl Hr Hn%new_strm_ok Hs. revert e0 s0 Hn. induction Hs as [|c cs Hc Hs IH]; intros e0 s0 Hok; cbn [strm_calls]; [done|].
  pose proof (strm_call_snappy c e0 s0) as Hsn.
  destruct (strm_call c e0 s0) as [[[e1 s1] r]|] eqn:Ec; [|exact Hsn]. run_binds.
  destruct (call_bounds recv _ _ _ _ _ _ Hl Hr Hc Hok Ec) as [Hok1 Hf]. specialize (IH e1 s1 Hok1).
  destruct (strm_calls cs e1 s1) as [[[e2 s2] rs2]|]; run_binds.
  - destruct IH. auto.
  - by rewrite <- Hsn.
Qed.

Lemma transport_in_bounds_witness :
  let e := mkWire [Some (4 :: lit "ab"); Some (lit "c")] [] in
  exists s' rs, strm_calls [Read 1; ReadBuf 5; Read 9] e (InLz4 (false : @lz_state demo_decompressors) (new_inbuf 65536) InSsl) = Some (mkWire [] (4 :: lit "abc"), s', rs) /\ strm_ok s'.
Proof.
  intros e. set (s' := InLz4 (true : @lz_state demo_decompressors) (mkIn 1 [] 65536 false) InSsl). set (rs := [ReadData (lit "a"); ReadData (lit "b"); ReadData (lit "c")]).
  exists s', rs. split; [reflexivity|].
  refine (proj1 (transport_in_bounds wi_recv e [] CON_TCP (Z.lor W_SSL W_LZ4) e (InLz4 (false : @lz_state demo_decompressors) (new_inbuf 65536) InSsl) 65536
    [Read 1; ReadBuf 5; Read 9] demo_library_bounds demo_receives eq_refl _)). repeat constructor; lia.
Defined.

(** A gzip client whose first bytes give no output yet, such as the header alone, is disconnected: [inflate] made
    progress, but the number of bytes is 0, which [dispatch_connection] takes for the end of the connection. *)
Theorem gzip_without_output_closes {E D : Type} `{Decompressors} `{!WireEnv E} (ops : DispatchEnv E D) (fuel : nat)
    (conn : connection D) (self : dispatcher) (start : timeval) (e e1 : E) (z z' : infl_state) (i : inbuf) (d : list Z) (n : nat) :
  c_dests conn = [] -> c_buf conn = [] -> c_isaggr conn = false -> c_isudp conn = false ->
  Z.of_nat (length (inb i)) + 1 < isize i ->
  wire_read e (isize i - Z.of_nat (length (inb i))) = (e1, ReadData d) -> d <> [] ->
  inflate z Z_SYNC_FLUSH (inb i ++ d) (room conn) = (z', Z_OK, n, []) ->
  exists s', @dispatch_connection _ _ (transport_ops ops true) fuel conn self start (Some (e, InGzip z Z_SYNC_FLUSH i InSock)) =
    Some (0, Closed, self, Some (e1, s')).
Proof.
  intros Hd Hb Ha Hu Hi Hr Hne Hz. destruct d as [|c d]; [done|].
  eexists. apply eof_closes; [done..|].
  cbn [env_read transport_ops strmread]. unfold gzipread. destruct (Z.leb_spec (isize i) (Z.of_nat (length (inb i)) + 1)); [lia|].
  cbn [to_front isize bottom_read]. change (ipos (to_front i)) with (Z.of_nat (length (inb i))). rewrite Hr. cbv zeta. unfold gzipreadbuf.
  cbn [appended inb to_front connection_ended]. rewrite Hz. reflexivity.
Qed.

Lemma gzip_without_output_closes_witness :
  let e := mkWire [Some [31]; Some (lit "a.b 1 2" ++ [10])] [] in
  let conn := mkConn 1 [] METRIC_BUFSIZ [] (mkTv 0 0) 0 true false false false in
  let ops : DispatchEnv demo_wire nat := {| env_route := fun e _ _ => (e, [], true); env_send := fun e _ _ => (e, true);
    env_time := fun e => (e, mkTv 0 0); env_read := demo_wire_read; env_readbuf := None |} in
  exists e' s', @dispatch_connection _ _ (transport_ops ops true) 9 conn (demo_disp false) (mkTv 0 0)
    (Some (e, InGzip false Z_SYNC_FLUSH (demo_in []) InSock)) = Some (0, Closed, demo_disp false, Some (e', s')).
Proof.
  intros e conn ops. eexists.
  eapply (@gzip_without_output_closes demo_wire nat demo_decompressors demo_wire_env ops 9 conn (demo_disp false) (mkTv 0 0) e _ false true (demo_in []) [31] 1);
    first [reflexivity | discriminate].
Defined.

(** An LZ4 connection may be fed its input twice: when the decompressor took input without giving output, as it does
    with a frame's header, the input stays in the buffer and is in front of the next bytes when it is called again,
    while the decompressor has moved on. *)
Theorem lz4_replays_input {E : Type} `{Decompressors} `{!WireEnv E} (e e1 : E) (lz lz' : lz_state) (i : inbuf) (b b1 : bottom)
    (sze sze2 : Z) (n : nat) (d : list Z) :
  off i = 0%nat -> inb i <> [] -> ipos i < isize i -> closing i = false -> LZ4F_decompress lz (inb i) sze = (lz', Some (n, [])) ->
  bottom_read e b (isize i - ipos i) = (e1, b1, ReadData d) -> d <> [] ->
  strmreadbuf e (InLz4 lz i b) sze = (InLz4 lz' i b, ReadErr EAGAIN) /\
  strmread e (InLz4 lz' i b) sze2 =
    Some (let '(lz2, i2, r) := lzreadbuf lz' (appended i d false) sze2 in (e1, InLz4 lz2 i2 b1, r)) /\ inb (appended i d false) = inb i ++ d.
Proof.
  intros Ho Hne Hi Hc Hl Hr Hd. split_and!; [| |done].
  - cbn [strmreadbuf]. unfold lzreadbuf. destruct (inb i) as [|c l] eqn:Ei; [done|]. by rewrite Hl, Hc.
  - cbn [strmread]. unfold lzread. destruct (Z.leb_spec (isize i) (ipos i)); [lia|]. rewrite andb_false_r.
    assert (to_front i = i) as -> by (destruct i; cbn in *; by subst). rewrite Hr. destruct d as [|c d]; [done|]. cbn [connection_ended].
    by destruct (lzreadbuf _ _ _) as [[? ?] ?].
Qed.

Lemma lz4_replays_input_witness :
  let e := mkWire [Some (lit "a")] [] in
  exists s', strmreadbuf e (InLz4 (false : @lz_state demo_decompressors) (demo_in [4]) InSock) 9 = (s', ReadErr EAGAIN) /\
    snd <$> strmread e s' 9 = Some (ReadData (4 :: lit "a")).
Proof.
  intros e. destruct (@lz4_replays_input demo_wire demo_decompressors demo_wire_env e (mkWire [] (lit "a")) false true (demo_in [4]) InSock InSock 9 9 1 (lit "a")) as (H1 & H2 & _);
    [reflexivity|discriminate|reflexivity|reflexivity|reflexivity|reflexivity|discriminate|].
  exists (InLz4 (true : @lz_state demo_decompressors) (demo_in [4]) InSock). split; [exact H1|]. rewrite H2. reflexivity.
Defined.

(** A snappy block that decompresses to more bytes than it has, as a block that is compressed does, ends the process:
    the length of the output is taken for the length of the input, and [memmove] is called with a length below zero. *)
Theorem snappy_input_length_underflows {E : Type} `{Decompressors} `{!WireEnv E} (e e1 : E) (i : inbuf) (b b1 : bottom) (sze : Z)
    (d out : list Z) :
  bottom_read e b (isize i - ipos i) = (e1, b1, ReadData d) -> d <> [] -> snappy_uncompress (inb i ++ d) sze = SNAPPY_OK out ->
  (length (inb i ++ d) < length out)%nat -> strmread e (InSnappy i b) sze = None.
Proof.
  intros Hr Hd Hs Hl. cbn [strmread]. unfold snappyread. rewrite Hr. destruct d as [|c d]; [done|]. cbn [connection_ended appended inb].
  rewrite Hs. by destruct (Nat.ltb_spec (length (inb i ++ c :: d)) (length out)); [|lia].
Qed.

Lemma snappy_input_length_underflows_witness : strmread (mkWire [Some [5; 65]] []) (InSnappy (demo_in []) InSock) 100 = None.
Proof.
  apply (snappy_input_length_underflows (mkWire [Some [5; 65]] []) (mkWire [] [5; 65]) (demo_in []) InSock InSock 100 [5; 65] (replicate 5 65));
    [reflexivity|discriminate|reflexivity|cbn; lia].
Defined.

(** The sender of a datagram is only known when its address has at most seven characters: the size given to [inet_ntop]
    is that of the pointer to the buffer, and any other address leaves it empty. *)
Theorem udp_source_lost {E : Type} `{Decompressors} `{!WireEnv E} (e e1 : E) (srcaddr addr : cstring) (sze : Z) (d : list Z) :
  wire_recvfrom e sze = (e1, ReadData d, Some addr) -> d <> [] -> (8 <= length addr)%nat ->
  strmread e (InDirect (InUdp srcaddr)) sze = Some (e1, InDirect (InUdp []), ReadData d).
Proof.
  intros Hr Hd Ha. cbn [strmread bottom_read]. unfold udpsockread. rewrite Hr. destruct d as [|c d]; [done|]. unfold srcaddrlen.
  by destruct (Z.ltb_spec (Z.of_nat (length addr)) 8); [lia|].
Qed.

Lemma udp_source_lost_witness :
  strmread (mkWire [Some (lit "a 1 2")] []) (InDirect (InUdp [])) 100 = Some (mkWire [] (lit "a 1 2"), InDirect (InUdp []), ReadData (lit "a 1 2")).
Proof. apply (udp_source_lost _ _ [] (lit "192.0.2.1")); [reflexivity|discriminate|cbn; lia]. Defined.
