(* ===== verification/Dispatcher.v ===== *)
(** * Workers, listeners and connections (src/dispatcher.c)

    The part of dispatcher.c around the reading of metrics ([DispatchParse]): the
    workers with their statistics and their reloads, the table of listeners, the
    table of connections, and the callbacks that libevent makes.

    The state [state] is the file's static variables and the objects they point
    to.  Functions that dereference NULL or a missing worker have no defined
    behaviour: they return [None].  What the operating system and [malloc] answer
    is an argument.  The rwlocks make each access to a table atomic; the one place
    where a lock is given up and taken again inside a function has the other
    threads' effect as an argument ([dispatch_addconnection]). *)
From S2P Require Import Prelude Relay DispatchParse.
#[local] Open Scope Z_scope.

Definition CONNGROWSZ : nat := 1024.
Definition MAX_LISTENERS : nat := 32.
(** [takenby] while a connection is being set up. *)
Definition C_SETUP : Z := -2.

Inductive conntype := LISTENER | CONNECTION.

Section Dispatcher.
(** [R]: routers; [D]: pending destinations; [E]: the environment. *)
Context {R D E : Type}.

(** ** The structures *)

(** The [prev*] fields of a dispatcher. *)
Record prevs := mkPrevs {
  p_metrics : Z; p_blackholes : Z; p_discards : Z; p_ticks : Z; p_sleeps : Z;
}.

(** A dispatcher: the fields of [DispatchParse.dispatcher] and the others. *)
Record worker := mkWorker {
  w_disp : dispatcher;
  w_type : conntype;
  w_running : bool;
  w_keep_running : bool;
  w_connections : Z;
  w_ticks : Z; w_sleeps : Z;
  w_prev : prevs;
  w_rtr : option R; w_pending_rtr : option R;
  w_route_refresh_pending : bool; w_hold : bool;
  w_stop : timeval;
}.

(** A connection's entry in the table: its socket, its dispatcher, whether it has an
    event, and the fields of [DispatchParse.connection]. *)
Record conn_entry := mkEntry {
  ce_sock : nat; ce_d : nat; ce_ev : bool; ce_conn : connection D;
}.

(** [ev_io_sock]: the socket, its dispatcher and the worker whose event base has
    its accept event. *)
Record ev_io_sock := mkLsock { ls_sock : nat; ls_d : nat; ls_evbase : option nat }.

(** A listener; [l_socks] is the array up to the terminating -1. *)
Record listener := mkListener {
  l_transport : Z; l_ctype : con_proto; l_socks : list ev_io_sock; l_saddrs : bool;
}.

(** The static variables.  A listener is referred to by its address, a key of
    [listener_at]; [open_fds] are the descriptors the process has open. *)
Record state := mkState {
  workers : list worker;
  listener_at : gmap nat listener;
  listeners : list (option nat);
  connections : list (option conn_entry);
  acceptedconnections : Z; closedconnections : Z; errorsconnections : Z;
  open_fds : gset nat;
}.

(** Updates of single fields. *)
Definition set_workers (st : state) ws :=
  mkState ws (listener_at st) (listeners st) (connections st) (acceptedconnections st)
    (closedconnections st) (errorsconnections st) (open_fds st).
Definition set_connections (st : state) cs :=
  mkState (workers st) (listener_at st) (listeners st) cs (acceptedconnections st)
    (closedconnections st) (errorsconnections st) (open_fds st).
Definition set_listeners (st : state) la ls :=
  mkState (workers st) la ls (connections st) (acceptedconnections st)
    (closedconnections st) (errorsconnections st) (open_fds st).
Definition set_stats (st : state) acc clo err :=
  mkState (workers st) (listener_at st) (listeners st) (connections st) acc clo err (open_fds st).
Definition set_fds (st : state) fds :=
  mkState (workers st) (listener_at st) (listeners st) (connections st) (acceptedconnections st)
    (closedconnections st) (errorsconnections st) fds.
Definition close_fd (st : state) (fd : nat) : state := set_fds st (open_fds st ∖ {[fd]}).

Definition w_with_conns (w : worker) (n : Z) : worker :=
  mkWorker (w_disp w) (w_type w) (w_running w) (w_keep_running w) n (w_ticks w) (w_sleeps w) (w_prev w)
    (w_rtr w) (w_pending_rtr w) (w_route_refresh_pending w) (w_hold w) (w_stop w).
Definition w_with_disp (w : worker) (d : dispatcher) : worker :=
  mkWorker d (w_type w) (w_running w) (w_keep_running w) (w_connections w) (w_ticks w) (w_sleeps w) (w_prev w)
    (w_rtr w) (w_pending_rtr w) (w_route_refresh_pending w) (w_hold w) (w_stop w).
Definition w_with_routes (w : worker) (rtr pending : option R) (refresh hold : bool) : worker :=
  mkWorker (w_disp w) (w_type w) (w_running w) (w_keep_running w) (w_connections w) (w_ticks w) (w_sleeps w) (w_prev w)
    rtr pending refresh hold (w_stop w).
Definition w_with_times (w : worker) (ticks sleeps : Z) (stop : timeval) : worker :=
  mkWorker (w_disp w) (w_type w) (w_running w) (w_keep_running w) (w_connections w) ticks sleeps (w_prev w)
    (w_rtr w) (w_pending_rtr w) (w_route_refresh_pending w) (w_hold w) stop.
Definition w_with_prev (w : worker) (p : prevs) : worker :=
  mkWorker (w_disp w) (w_type w) (w_running w) (w_keep_running w) (w_connections w) (w_ticks w) (w_sleeps w) p
    (w_rtr w) (w_pending_rtr w) (w_route_refresh_pending w) (w_hold w) (w_stop w).
Definition w_with_run (w : worker) (running keep_running : bool) : worker :=
  mkWorker (w_disp w) (w_type w) running keep_running (w_connections w) (w_ticks w) (w_sleeps w) (w_prev w)
    (w_rtr w) (w_pending_rtr w) (w_route_refresh_pending w) (w_hold w) (w_stop w).

(** [__sync_add_and_fetch(&d->connections, n)] *)
Definition add_connections (st : state) (d : nat) (n : Z) : state :=
  set_workers st (alter (fun w => w_with_conns w (u64 (w_connections w + n))) d (workers st)).

(** ** Workers *)

(** [dispatch_new]: [alloc], [base], [pipe] and [event] say which of its four
    allocations succeed; [mem] is what the allocated memory holds before, which
    the function does not overwrite everywhere; [now] is the clock. *)
Definition dispatch_new (alloc base pipe event : bool) (mem : worker) (id : Z) (type : conntype) (now : timeval) :
    option worker :=
  if alloc && base && pipe && event then
    let d := w_disp mem in
    Some (mkWorker
      (mkDisp (s8 id) 0 0 0 (d_allowed_chars d) (d_tags_supported d) (d_maxinplen d) (d_maxmetriclen d) (d_seed d))
      type false true 0 0 0 (mkPrevs 0 0 (p_discards (w_prev mem)) 0 0)
      (w_rtr mem) (w_pending_rtr mem) false false now)
  else None.

(** The loop of [dispatch_workers_alloc] over the ids from [id] on. *)
Fixpoint alloc_loop (new : Z -> conntype -> option worker) (n : nat) (id : Z) (ws : list worker) : list worker * bool :=
  match n with
  | O => (ws, true)
  | S n' =>
      match new id CONNECTION with
      | None => (ws, false)
      | Some w => alloc_loop new n' (id + 1) (ws ++ [w])
      end
  end.

(** [dispatch_workers_alloc]: the workers, [workercnt] and the returned value. *)
Definition dispatch_workers_alloc (alloc : bool) (new : Z -> conntype -> option worker) (count : nat) :
    list worker * Z * Z :=
  if alloc then
    match new 0 LISTENER with
    | None => ([], 0, -1)
    | Some w0 =>
        let '(ws, ok) := alloc_loop new count 1 [w0] in
        if ok then (ws, u8 (Z.of_nat count), s8 (u8 (Z.of_nat count))) else (ws, 0, -1)
    end
  else ([], u8 (-1), s8 (u8 (-1))).

(** [dispatch_start], up to the creation of the thread, which [thread] says succeeds. *)
Definition dispatch_start (thread : bool) (w : worker) (r : option R) (allowed_chars : cstring)
    (maxinplen maxmetriclen : Z) : worker * Z :=
  match w_type w, r with
  | CONNECTION, None => (w, -1)
  | _, _ =>
      let w := w_with_disp w (dispatch_init (w_disp w) allowed_chars maxinplen maxmetriclen) in
      (w_with_routes w r (w_pending_rtr w) (w_route_refresh_pending w) (w_hold w), if thread then 0 else -1)
  end.

(** [dispatch_worker_with_low_connections]: the loop from worker [i] on. *)
Fixpoint low_loop (ws : list worker) (i : nat) (d : nat) (min : Z) : nat :=
  match ws with
  | [] => d
  | w :: ws' =>
      if w_connections w <? min then low_loop ws' (S i) i (w_connections w) else low_loop ws' (S i) d min
  end.
Definition dispatch_worker_with_low_connections (st : state) : option (nat * state) :=
  match drop 1 (workers st) with
  | [] => None
  | w :: ws =>
      let d := low_loop ws 2 1 (w_connections w) in
      Some (d, add_connections st d 1)
  end.

(** ** Connections *)

(** [dispatch_releaseconnection] *)
Definition dispatch_releaseconnection (st : state) (sock : nat) : state :=
  close_fd (set_connections st (<[sock := None]> (connections st))) sock.

(** [dispatch_closeconnection], of the connection [c]. *)
Definition dispatch_closeconnection (st : state) (d : nat) (c : conn_entry) : state :=
  let st := add_connections st d (-1) in
  let st := set_stats st (acceptedconnections st) (closedconnections st + 1) (errorsconnections st) in
  let st := set_connections st (<[ce_sock c := None]> (connections st)) in
  let st := close_fd st (ce_sock c) in
  set_stats st (acceptedconnections st) (closedconnections st + 1) (errorsconnections st).

(** What the system answers while a connection is added: are [connection_new] and
    [realloc] given memory, the size of the buffer the stream comes with when there
    is one, is there an event, the clock; and what the memory of the connection
    holds before. *)
Record add_answers := mkAnswers {
  an_conn : bool; an_realloc : bool; an_strm : option Z; an_event : bool; an_now : timeval;
  an_mem : connection D;
}.

(** The slot of [sock]: taken, or the table with a new connection in it, which
    may be NULL. *)
Inductive slot := Existing | NoMemory (st : state) | NullConn | Slot (st : state).

(** The first part of [dispatch_addconnection], which finds a slot.  [gaps] are the
    numbers of slots other dispatchers add each time the lock is given up. *)
Fixpoint find_slot (gaps : list nat) (st : state) (sock : nat) (d : nat) (ans : add_answers) (fresh : conn_entry) : slot :=
  if decide (sock < length (connections st))%nat then
    match connections st !! sock with
    | Some None =>
        if an_conn ans then Slot (set_connections st (<[sock := Some fresh]> (connections st))) else NullConn
    | _ => Existing
    end
  else
    let grow (st : state) :=
      if an_realloc ans then
        let cs := connections st ++ replicate (sock + CONNGROWSZ - length (connections st)) None in
        if an_conn ans then Slot (set_connections st (<[sock := Some fresh]> cs))
        else NoMemory (add_connections (set_connections st cs) d (-1))
      else NoMemory (close_fd (add_connections st d (-1)) sock) in
    match gaps with
    | [] => grow st
    | n :: gaps' =>
        let st := set_connections st (connections st ++ replicate n None) in
        if decide (sock < length (connections st))%nat then find_slot gaps' st sock d ans fresh else grow st
    end.

(** [dispatch_connection_to_worker]; [ev]: is there an event? *)
Definition dispatch_connection_to_worker (ev : bool) (d : nat) (c : conn_entry) : conn_entry * Z :=
  if ev then (mkEntry (ce_sock c) d true (ce_conn c), 0) else (mkEntry (ce_sock c) (ce_d c) false (ce_conn c), -1).

(** [dispatch_addconnection]: the new state and the socket of the connection, when
    there is one. *)
Definition dispatch_addconnection (gaps : list nat) (ans : add_answers) (st : state) (sock : nat)
    (lsnr : option listener) (d : nat) (is_aggr no_expire : bool) : option (state * option nat) :=
  let m := an_mem ans in
  let c0 := mkConn C_SETUP (c_buf m) (c_bufsize m) (c_dests m) (c_lastwork m) (c_maxsenddelay m)
              (c_needmore m) (c_noexpire m) (c_isaggr m) (c_isudp m) in
  match find_slot gaps st sock d ans (mkEntry sock d false c0) with
  | Existing => Some (st, None)
  | NoMemory st => Some (st, None)
  | NullConn => None
  | Slot st =>
      match an_strm ans with
      | None => Some (add_connections (dispatch_releaseconnection st sock) d (-1), None)
      | Some bufsize =>
          let isudp := match lsnr with None => false | Some l => bool_decide (l_ctype l = CON_UDP) end in
          let takenby := if c_takenby c0 =? C_SETUP then C_IN else c_takenby c0 in
          let conn := mkConn takenby [] bufsize [] (an_now ans) (c_maxsenddelay c0) false no_expire is_aggr isudp in
          let '(c, ok) := dispatch_connection_to_worker (an_event ans) d (mkEntry sock d false conn) in
          let st := set_connections st (<[sock := Some c]> (connections st)) in
          if ok =? -1 then
            let st := dispatch_closeconnection st d c in
            let st := set_stats st (acceptedconnections st) (closedconnections st) (errorsconnections st + 1) in
            Some (add_connections st d (-1), None)
          else
            Some (set_stats st (acceptedconnections st + 1) (closedconnections st) (errorsconnections st), Some sock)
      end
  end.

(** [dispatch_addconnection_aggr] *)
Definition dispatch_addconnection_aggr (gaps : list nat) (ans : add_answers) (st : state) (sock : nat) :
    option (state * option nat) :=
  match dispatch_worker_with_low_connections st with
  | None => None
  | Some (d, st) =>
      match dispatch_addconnection gaps ans st sock None d true true with
      | Some (st, Some s) =>
          Some (set_stats st (acceptedconnections st - 1) (closedconnections st) (errorsconnections st), Some s)
      | r => r
      end
  end.

(** ** Listeners *)

(** The UDP branch of [__dispatch_addlistener]: a connection per socket.  [ans]
    answers for each socket. *)
Fixpoint add_udp (ans : nat -> add_answers) (l : listener) (todo : list ev_io_sock) (done : list ev_io_sock) (st : state) :
    option (state * list ev_io_sock * Z) :=
  match todo with
  | [] => Some (st, done, 0)
  | s :: todo' =>
      match dispatch_worker_with_low_connections st with
      | None => None
      | Some (d, st) =>
          match dispatch_addconnection [] (ans (ls_sock s)) st (ls_sock s) (Some l) d false true with
          | None => None
          | Some (st, None) => Some (st, done ++ s :: todo', 1)
          | Some (st, Some _) =>
              let st := set_stats st (acceptedconnections st - 1) (closedconnections st) (errorsconnections st) in
              add_udp ans l todo' (done ++ [mkLsock (ls_sock s) d (Some d)]) st
          end
      end
  end.

(** The sockets that get their accept event on worker [d]'s base, up to the first
    for which there is no event. *)
Fixpoint add_events (ev : nat -> bool) (d : nat) (socks : list ev_io_sock) : list ev_io_sock * bool :=
  match socks with
  | [] => ([], true)
  | s :: socks' =>
      if ev (ls_sock s) then
        let '(socks', ok) := add_events ev d socks' in (mkLsock (ls_sock s) d (Some d) :: socks', ok)
      else (mkLsock (ls_sock s) d None :: socks', false)
  end.

Definition with_socks (l : listener) (socks : list ev_io_sock) (saddrs : bool) : listener :=
  mkListener (l_transport l) (l_ctype l) socks saddrs.

(** The first free slot of the listener table. *)
Definition free_slot (ls : list (option nat)) : option nat := fst <$> list_find (fun x => x = None) ls.
(** The slot that holds a listener. *)
Definition slot_of (ls : list (option nat)) (a : nat) : option nat := fst <$> list_find (fun x => x = Some a) ls.

(** [dispatch_addlistener] of the listener at address [a], on worker 0. *)
Definition dispatch_addlistener (ans : nat -> add_answers) (ev : nat -> bool) (st : state) (a : nat) : option (state * Z) :=
  match listener_at st !! a with
  | None => None
  | Some l =>
      if decide (l_ctype l = CON_UDP) then
        match add_udp ans l (l_socks l) [] st with
        | None => None
        | Some (st, socks, r) =>
            Some (set_listeners st (<[a := with_socks l socks (l_saddrs l)]> (listener_at st)) (listeners st), r)
        end
      else
        match free_slot (listeners st) with
        | None => Some (st, 1)
        | Some c =>
            let '(socks, ok) := add_events ev 0 (l_socks l) in
            Some (set_listeners st (<[a := with_socks l socks (l_saddrs l)]> (listener_at st))
                    (<[c := Some a]> (listeners st)), if ok : bool then 0 else 1)
        end
  end.

(** The sockets of a listener that is removed. *)
Fixpoint remove_socks (udp : bool) (socks : list ev_io_sock) (st : state) : option state :=
  match socks with
  | [] => Some st
  | s :: socks' =>
      if udp then
        match connections st !! ls_sock s with
        | Some (Some c) => remove_socks udp socks' (dispatch_closeconnection st 0 c)
        | _ => None
        end
      else remove_socks udp socks' (close_fd st (ls_sock s))
  end.

(** [dispatch_removelistener], with the listener worker as the dispatcher; writing
    -1 over the sockets empties [l_socks]. *)
Definition dispatch_removelistener (st : state) (a : nat) : option (state * Z) :=
  match listener_at st !! a with
  | None => None
  | Some l =>
      let cleanup st udp :=
        st ← remove_socks udp (l_socks l) st;
        Some (set_listeners st (<[a := with_socks l [] false]> (listener_at st)) (listeners st), 0) in
      if decide (l_ctype l = CON_UDP) then cleanup st true
      else
        match slot_of (listeners st) a with
        | None => Some (st, 0)
        | Some c => cleanup (set_listeners st (listener_at st) (<[c := None]> (listeners st))) false
        end
  end.

(** [router_transplant_listener_socks]: the sockets are copied. *)
Definition router_transplant_listener_socks (ol nl : listener) : listener := with_socks nl (l_socks ol) (l_saddrs nl).

(** [dispatch_transplantlistener] *)
Definition dispatch_transplantlistener (st : state) (oa na : nat) : option (state * Z) :=
  match slot_of (listeners st) oa with
  | None => Some (st, 0)
  | Some c =>
      match listener_at st !! oa, listener_at st !! na with
      | Some ol, Some nl =>
          let la := <[na := router_transplant_listener_socks ol nl]> (listener_at st) in
          let la := alter (fun l => with_socks l (l_socks l) false) oa la in
          Some (set_listeners st la (<[c := Some na]> (listeners st)), 0)
      | _, _ => None
      end
  end.

(** ** Reloading *)

(** The loop of [dispatch_reload] over the listeners: their events move to the base
    of worker [d]. *)
Definition move_events (d : nat) (ls : list (option nat)) (la : gmap nat listener) : gmap nat listener :=
  foldl (fun la x => match x with
                     | None => la
                     | Some a => alter (fun l => with_socks l ((fun s => mkLsock (ls_sock s) (ls_d s) (Some d)) <$> l_socks l) (l_saddrs l)) a la
                     end) la ls.

Definition dispatch_reload (st : state) (d : nat) : state :=
  match workers st !! d with
  | Some w =>
      if w_route_refresh_pending w then
        let w := w_with_routes w (w_pending_rtr w) None false false in
        set_listeners (set_workers st (<[d := w]> (workers st))) (move_events d (listeners st) (listener_at st)) (listeners st)
      else st
  | None => st
  end.

Definition dispatch_hold (w : worker) : worker :=
  w_with_routes w (w_rtr w) (w_pending_rtr w) (w_route_refresh_pending w) true.

(** [dispatch_schedulereload], of worker [d]. *)
Definition dispatch_schedulereload (r : R) (st : state) (d : nat) : state :=
  let st := set_workers st (alter (fun w => w_with_routes w (w_rtr w) (Some r) true (w_hold w)) d (workers st)) in
  dispatch_reload st d.

(** The workers 1 to [workercnt]. *)
Definition conn_workers (st : state) : list nat := seq 1 (length (workers st) - 1).

Definition dispatchs_hold (st : state) : state :=
  foldl (fun st d => set_workers st (alter dispatch_hold d (workers st))) st (conn_workers st).
Definition dispatchs_schedulereload (st : state) (r : R) : state :=
  foldl (dispatch_schedulereload r) st (conn_workers st).

Definition dispatch_reloadcomplete (w : worker) : bool := negb (w_route_refresh_pending w).

(** ** Callbacks *)

(** [ops r sock]: what the dispatcher uses when it serves socket [sock] with router
    [r]; [clock] is [gettimeofday]. *)
Context (ops : R -> nat -> DispatchEnv E D) (clock : E -> E * timeval).

(** Adding the time since [start] to [ticks] and remembering the time, at the end
    of a callback. *)
Definition end_callback (st : state) (d : nat) (start : timeval) (e : E) : state * E :=
  let '(e, stop) := clock e in
  (set_workers st (alter (fun w => w_with_times w (u64 (w_ticks w + timediff start stop)) (w_sleeps w) stop) d (workers st)), e).

Definition begin_callback (st : state) (d : nat) (start : timeval) : state :=
  set_workers st (alter (fun w => w_with_times w (w_ticks w) (u64 (w_sleeps w + timediff (w_stop w) start)) (w_stop w)) d (workers st)).

Definition with_takenby (c : conn_entry) (t : Z) : conn_entry :=
  let k := ce_conn c in
  mkEntry (ce_sock c) (ce_d c) (ce_ev c)
    (mkConn t (c_buf k) (c_bufsize k) (c_dests k) (c_lastwork k) (c_maxsenddelay k)
       (c_needmore k) (c_noexpire k) (c_isaggr k) (c_isudp k)).

Definition set_entry (st : state) (c : conn_entry) : state :=
  set_connections st (<[ce_sock c := Some c]> (connections st)).

(** [dispatch_read_cb] for the connection of socket [sock]; [fuel] is that of
    [dispatch_connection]. *)
Definition dispatch_read_cb (fuel : nat) (timeout : bool) (st : state) (sock : nat) (e : E) : option (state * E) :=
  match connections st !! sock with
  | Some (Some c) =>
      let d := ce_d c in
      match workers st !! d with
      | None => None
      | Some w =>
          let '(e, start) := clock e in
          let st := begin_callback st d start in
          let id := d_id (w_disp w) in
          if timeout then
            Some (end_callback (dispatch_closeconnection st d (with_takenby c id)) d start e)
          else if negb (c_takenby (ce_conn c) =? C_IN) then Some (st, e)
          else
            let c := with_takenby c id in
            if w_hold w && negb (c_isaggr (ce_conn c)) then
              Some (set_entry st (with_takenby c (if c_takenby (ce_conn c) =? id then C_IN else c_takenby (ce_conn c))), e)
            else
              match w_rtr w with
              | None => None
              | Some r =>
                  match @dispatch_connection E D (ops r sock) fuel (ce_conn c) (w_disp w) start e with
                  | None => None
                  | Some (_, res, self, e) =>
                      let st := set_workers st (alter (fun w => w_with_disp w self) d (workers st)) in
                      let st := match res with
                                | Open conn => set_entry st (mkEntry (ce_sock c) d (ce_ev c) conn)
                                | Closed => dispatch_closeconnection st d c
                                end in
                      Some (end_callback st d start e)
                  end
              end
      end
  | _ => None
  end.

(** [dispatch_accept_cb] on a socket of listener [l]: [client] is what [accept]
    returns. *)
Definition dispatch_accept_cb (gaps : list nat) (ans : add_answers) (client : option nat) (st : state)
    (s : ev_io_sock) (l : listener) (e : E) : option (state * E) :=
  let '(e, start) := clock e in
  match workers st !! ls_d s with
  | None => None
  | Some w =>
      let st := begin_callback st (ls_d s) start in
      match client with
      | None => Some (set_stats st (acceptedconnections st) (closedconnections st) (errorsconnections st + 1), e)
      | Some fd =>
          let st := set_fds st (open_fds st ∪ {[fd]}) in
          if w_running w then
            match dispatch_worker_with_low_connections st with
            | None => None
            | Some (d, st) =>
                match dispatch_addconnection gaps ans st fd (Some l) d false false with
                | None => None
                | Some (st, _) => Some (end_callback st (ls_d s) start e)
                end
            end
          else Some (end_callback (close_fd st fd) (ls_d s) start e)
      end
  end.

(** ** Statistics *)

Definition dispatch_get_ticks_sub (w : worker) : worker * Z :=
  let p := w_prev w in let '(v, d) := counter_sub (w_ticks w) (p_ticks p) in
  (w_with_prev w (mkPrevs (p_metrics p) (p_blackholes p) (p_discards p) v (p_sleeps p)), d).
Definition dispatch_get_sleeps_sub (w : worker) : worker * Z :=
  let p := w_prev w in let '(v, d) := counter_sub (w_sleeps w) (p_sleeps p) in
  (w_with_prev w (mkPrevs (p_metrics p) (p_blackholes p) (p_discards p) (p_ticks p) v), d).
Definition dispatch_get_metrics_sub (w : worker) : worker * Z :=
  let p := w_prev w in let '(v, d) := counter_sub (d_metrics (w_disp w)) (p_metrics p) in
  (w_with_prev w (mkPrevs v (p_blackholes p) (p_discards p) (p_ticks p) (p_sleeps p)), d).
Definition dispatch_get_blackholes_sub (w : worker) : worker * Z :=
  let p := w_prev w in let '(v, d) := counter_sub (d_blackholes (w_disp w)) (p_blackholes p) in
  (w_with_prev w (mkPrevs (p_metrics p) v (p_discards p) (p_ticks p) (p_sleeps p)), d).
Definition dispatch_get_discards_sub (w : worker) : worker * Z :=
  let p := w_prev w in let '(v, d) := counter_sub (d_discards (w_disp w)) (p_discards p) in
  (w_with_prev w (mkPrevs (p_metrics p) (p_blackholes p) v (p_ticks p) (p_sleeps p)), d).

End Dispatcher.

Arguments worker : clear implicits.
Arguments conn_entry : clear implicits.
Arguments state : clear implicits.
Arguments add_answers : clear implicits.

Section Balance.
Context {R D E : Type}.

(** ** The connections of a worker *)

Definition delta (d d' : nat) : Z := if decide (d = d') then 1 else 0.
Definition on (d : nat) (x : option (conn_entry D)) : Z := match x with Some c => delta d (ce_d c) | None => 0 end.
Definition live (x : option (conn_entry D)) : Z := match x with Some _ => 1 | None => 0 end.

(** The connections worker [d] has, and those it was picked for ([picks]). *)
Definition load (st : state R D) (picks : list nat) (d : nat) : Z :=
  sumz (on d <$> connections st) + sumz (delta d <$> picks).

Definition entries_ok (cs : list (option (conn_entry D))) : Prop :=
  forall i c, cs !! i = Some (Some c) -> ce_sock c = i.

(** What the counters stand for besides the table: the workers that [dispatch_worker_with_low_connections] returned for a
    connection that is not yet added; those whose counter an error path has left one too high, and one too low; and the
    connections that are not among the accepted ones, though they were there. *)
Record ledger := mkLedger { g_picks : list nat; g_over : list nat; g_under : list nat; g_unaccepted : Z }.
Definition new_ledger : ledger := mkLedger [] [] [] 0.
Definition with_picks (g : ledger) (picks : list nat) : ledger := mkLedger picks (g_over g) (g_under g) (g_unaccepted g).
Definition times (d : nat) (ds : list nat) : Z := sumz (delta d <$> ds).
Definition count (st : state R D) (g : ledger) (d : nat) : Z := load st (g_picks g) d + times d (g_over g) - times d (g_under g).
Lemma times_cons d d' ds : times d (d' :: ds) = delta d d' + times d ds.
Proof. unfold times. by rewrite fmap_cons, sumz_cons. Qed.

(** The counters agree with the table and the ledger. *)
Record balanced (st : state R D) (g : ledger) : Prop := {
  bal_load : forall d w, workers st !! d = Some w -> w_connections w = u64 (count st g d);
  bal_entries : entries_ok (connections st);
  bal_stats : closedconnections st = 2 * (acceptedconnections st + g_unaccepted g - sumz (live <$> connections st));
}.

Lemma workers_add_connections (st : state R D) d n d' :
  workers (add_connections st d n) !! d' =
  (fun w => if decide (d = d') then w_with_conns w (u64 (w_connections w + n)) else w) <$> workers st !! d'.
Proof.
  unfold add_connections. cbn. destruct (decide (d = d')) as [->|Hne].
  - by rewrite list_lookup_alter_eq.
  - rewrite list_lookup_alter_ne by done. by destruct (workers st !! d').
Qed.

(** Adding to a worker's counter what its load grew by. *)
Lemma load_add_connections (st st' : state R D) g g' d n :
  workers st' = workers (add_connections st d n) ->
  (forall d', count st' g' d' = count st g d' + n * delta d' d) ->
  (forall d w, workers st !! d = Some w -> w_connections w = u64 (count st g d)) ->
  forall d w, workers st' !! d = Some w -> w_connections w = u64 (count st' g' d).
Proof.
  intros Hw Hl Hb d' w'. rewrite Hw, workers_add_connections. destruct (workers st !! d') as [w|] eqn:Ew; [|done].
  cbn. intros [= <-]. rewrite Hl. specialize (Hb d' w Ew). unfold delta.
  destruct (decide (d = d')) as [->|]; case_decide; try congruence; cbn.
  - rewrite Hb, u64_add_l. f_equal. lia.
  - rewrite Hb. f_equal. lia.
Qed.

Lemma on_replicate (f : option (conn_entry D) -> Z) cs k :
  f None = 0 -> sumz (f <$> cs ++ replicate k None) = sumz (f <$> cs).
Proof. intros Hf. rewrite fmap_app, sumz_app, fmap_replicate, Hf, sumz_replicate. lia. Qed.

Lemma entries_ok_insert cs i x :
  entries_ok cs -> (forall c, x = Some c -> ce_sock c = i) -> entries_ok (<[i := x]> cs).
Proof.
  intros Hc Hx j c. destruct (decide (i = j)) as [->|].
  - destruct (decide (j < length cs)%nat).
    + rewrite list_lookup_insert_eq by done. intros [= ->]. by apply Hx.
    + rewrite list_insert_ge by lia. apply Hc.
  - rewrite list_lookup_insert_ne by done. apply Hc.
Qed.

Lemma entries_ok_grow cs k : entries_ok cs -> entries_ok (cs ++ replicate k None).
Proof.
  intros Hc i c Hi. destruct (decide (i < length cs)%nat).
  - rewrite lookup_app_l in Hi by done. by apply Hc.
  - rewrite lookup_app_r in Hi by lia. apply lookup_replicate in Hi as [? _]. done.
Qed.

(** Is there room for [sock]? *)
Definition slot_free (st : state R D) (sock : nat) : Prop := forall c, connections st !! sock <> Some (Some c).

Lemma find_slot_spec gaps (st : state R D) sock d (ans : add_answers D) fresh :
  slot_free st sock ->
  match find_slot gaps st sock d ans fresh with
  | Existing => False
  | NullConn => an_conn ans = false
  | NoMemory st' => exists k fds, st' = set_fds (set_connections (add_connections st d (-1)) (connections st ++ replicate k None)) fds
  | Slot st' => exists k, st' = set_connections st (<[sock := Some fresh]> (connections st ++ replicate k None)) /\
                  (connections st ++ replicate k None) !! sock = Some None
  end.
Proof.
  revert st. induction gaps as [|n gaps IH]; intros st Hf; cbn [find_slot]; destruct (decide _) as [Hlt|Hge].
  1, 3: destruct (connections st !! sock) as [[c|]|] eqn:Es; [by destruct (Hf c)| |apply lookup_ge_None in Es; lia];
    destruct (an_conn ans) eqn:Ec; [|done]; exists 0%nat; cbn; by rewrite app_nil_r.
  - destruct (an_realloc ans); [destruct (an_conn ans) eqn:Ec|].
    + eexists. split; [done|]. rewrite lookup_app_r by lia. apply lookup_replicate. unfold CONNGROWSZ. split; [done|lia].
    + eexists _, (open_fds st). by destruct st.
    + exists 0%nat, (open_fds st ∖ {[sock]}). cbn. rewrite app_nil_r. by destruct st.
  - set (st1 := set_connections st (connections st ++ replicate n None)).
    assert (slot_free st1 sock) as Hf1.
    { intros c. cbn. rewrite lookup_app_r by lia. intros [? _]%lookup_replicate. done. }
    assert (forall k, connections st1 ++ replicate k None = connections st ++ replicate (n + k) None) as Hk.
    { intros k. cbn. by rewrite replicate_add, (assoc_L (++)). }
    destruct (decide _) as [Hlt1|Hge1].
    + specialize (IH st1 Hf1). destruct (find_slot gaps st1 sock d ans fresh) as [|st2| |st2]; [done| |done|].
      * destruct IH as (k & fds & ->). exists (n + k)%nat, fds. rewrite Hk. done.
      * destruct IH as (k & -> & Hs). exists (n + k)%nat. rewrite Hk in Hs |- *. done.
    + destruct (an_realloc ans); [destruct (an_conn ans) eqn:Ec|].
      * eexists. rewrite Hk. split; [done|]. rewrite <- Hk, lookup_app_r by lia. apply lookup_replicate.
        unfold CONNGROWSZ. split; [done|lia].
      * eexists _, (open_fds st). rewrite Hk. by destruct st.
      * exists n, (open_fds st ∖ {[sock]}). by destruct st.
Qed.

(** Closing a connection on behalf of worker [d]. *)
Lemma close_balanced_for (st : state R D) g sock d c c0 :
  balanced st g -> connections st !! sock = Some (Some c0) -> ce_sock c = ce_sock c0 ->
  balanced (dispatch_closeconnection st d c) (mkLedger (g_picks g) (ce_d c0 :: g_over g) (d :: g_under g) (g_unaccepted g)).
Proof.
  intros [Hl He Hs] Hc Hk. pose proof (He _ _ Hc) as Hsock. rewrite <- Hk in Hsock. subst sock. split.
  - apply (load_add_connections st _ g _ d (-1)); [done| |done].
    intros d'. unfold count, load. cbn [g_picks g_over g_under]. rewrite !times_cons. cbn. rewrite (sumz_insert _ _ _ _ _ Hc). cbn. lia.
  - by apply entries_ok_insert.
  - cbn. rewrite (sumz_insert _ _ _ _ _ Hc). cbn. lia.
Qed.
Lemma close_balanced (st : state R D) g sock c c0 :
  balanced st g -> connections st !! sock = Some (Some c0) -> ce_d c = ce_d c0 -> ce_sock c = ce_sock c0 ->
  balanced (dispatch_closeconnection st (ce_d c) c) g.
Proof.
  intros Hb Hc Hd Hk. destruct (close_balanced_for st g sock (ce_d c) c c0 Hb Hc Hk) as [Hl He Hs]. split; [|done|done].
  intros d w Hw. rewrite (Hl d w Hw). f_equal. unfold count. cbn [g_picks g_over g_under]. rewrite !times_cons, Hd. lia.
Qed.

Lemma pick_balanced (st st' : state R D) g d :
  balanced st g -> dispatch_worker_with_low_connections st = Some (d, st') -> balanced st' (with_picks g (d :: g_picks g)).
Proof.
  intros [Hl He Hs]. unfold dispatch_worker_with_low_connections. destruct (drop 1 (workers st)) as [|w ws]; [done|].
  intros [= <- <-]. set (d := low_loop _ _ _ _). split; [|done..].
  apply (load_add_connections st _ g _ d 1); [done| |done].
  intros d'. unfold count, load. cbn [g_picks g_over g_under with_picks]. rewrite fmap_cons, sumz_cons.
  cbn [connections add_connections set_workers]. lia.
Qed.

(** Dropping a pick. *)
Lemma count_picked (st : state R D) g d picks' d' :
  g_picks g ≡ₚ d :: picks' -> count st g d' = count st (with_picks g picks') d' + delta d' d.
Proof. intros Hp. unfold count, load. rewrite Hp. cbn [g_picks g_over g_under with_picks]. rewrite fmap_cons, sumz_cons. lia. Qed.
(** Only the table matters. *)
Lemma count_table (st st' : state R D) g d :
  sumz (on d <$> connections st') = sumz (on d <$> connections st) -> count st' g d = count st g d.
Proof. intros Hs. unfold count, load. by rewrite Hs. Qed.

Lemma addconnection_balanced gaps (ans : add_answers D) (st st' : state R D) sock lsnr d aggr noexp r g picks' :
  balanced st g -> g_picks g ≡ₚ d :: picks' -> slot_free st sock -> an_event ans = true ->
  dispatch_addconnection gaps ans st sock lsnr d aggr noexp = Some (st', r) -> balanced st' (with_picks g picks').
Proof.
  intros [Hl He Hs] Hp Hf Hev. unfold dispatch_addconnection. cbv zeta.
  match goal with |- context [find_slot _ _ _ _ _ ?fr] => set (fresh := fr) end.
  pose proof (find_slot_spec gaps st sock d ans fresh Hf) as Hslot.
  pose proof (fun d' => count_picked st g d picks' d' Hp) as Hpick.
  destruct (find_slot _ _ _ _ _ _) as [|st1| |st1]; [done| |done|].
  - intros [= <- <-]. destruct Hslot as (k & fds & ->). split.
    + apply (load_add_connections st _ g _ d (-1)); [done| |done].
      intros d'. rewrite Hpick, (count_table st); [lia|]. cbn. by rewrite on_replicate.
    + by apply entries_ok_grow.
    + cbn. rewrite on_replicate by done. done.
  - destruct Hslot as (k & -> & Hk). destruct (an_strm ans) as [bufsize|].
    + rewrite Hev. cbn [dispatch_connection_to_worker]. change (0 =? -1) with false. cbv iota. intros [= <- <-].
      split; cbn; rewrite ?list_insert_insert_eq.
      * intros d' w Hw. rewrite (Hl d' w Hw), Hpick. unfold count, load. cbn.
        rewrite (sumz_insert _ _ _ _ _ Hk), on_replicate by done. cbn. f_equal. lia.
      * apply entries_ok_insert; [by apply entries_ok_grow|]. by intros c [= <-].
      * rewrite (sumz_insert _ _ _ _ _ Hk), on_replicate by done. cbn. lia.
    + intros [= <- <-]. split.
      * apply (load_add_connections st _ g _ d (-1)); [done| |done].
        intros d'. rewrite Hpick, (count_table st); [lia|]. cbn. rewrite list_insert_insert_eq, (sumz_insert _ _ _ _ _ Hk), on_replicate by done. cbn. lia.
      * cbn. rewrite list_insert_insert_eq. apply entries_ok_insert; [by apply entries_ok_grow|done].
      * cbn. rewrite list_insert_insert_eq, (sumz_insert _ _ _ _ _ Hk), on_replicate by done. cbn. lia.
Qed.

(** A socket whose slot is taken: nothing is added, and the counter stays. *)
Lemma addconnection_taken gaps (ans : add_answers D) (st st' : state R D) sock lsnr d aggr noexp r c :
  connections st !! sock = Some (Some c) -> dispatch_addconnection gaps ans st sock lsnr d aggr noexp = Some (st', r) -> st' = st /\ r = None.
Proof.
  intros Hc. unfold dispatch_addconnection. cbv zeta.
  match goal with |- context [find_slot _ _ _ _ _ ?fr] => assert (find_slot gaps st sock d ans fr = Existing) as -> end; [|by intros [= <- <-]].
  destruct gaps; cbn [find_slot]; rewrite Hc; (destruct (decide _) as [|Hge]; [done|]); apply lookup_lt_Some in Hc; lia.
Qed.
Lemma taken_balanced (st : state R D) g d picks' :
  balanced st g -> g_picks g ≡ₚ d :: picks' -> balanced st (mkLedger picks' (d :: g_over g) (g_under g) (g_unaccepted g)).
Proof.
  intros [Hl He Hs] Hp. split; [|done|done]. intros d' w Hw. rewrite (Hl d' w Hw), (count_picked st g d picks' d' Hp). f_equal.
  unfold count. cbn [g_picks g_over g_under with_picks]. rewrite times_cons. lia.
Qed.

(** A connection without event: it is closed, and the counter lowered once more. *)
Lemma find_slot_found gaps (st : state R D) sock d (ans : add_answers D) fresh :
  an_conn ans = true -> an_realloc ans = true -> slot_free st sock -> exists st1, find_slot gaps st sock d ans fresh = Slot st1.
Proof.
  intros Hc Hr Hf. revert st Hf. induction gaps as [|n gaps IH]; intros st Hf; cbn [find_slot]; rewrite Hc, Hr;
    (destruct (decide _) as [Hlt|Hge]; [destruct (connections st !! sock) as [[c|]|] eqn:Es; [by destruct (Hf c)|eauto|apply lookup_ge_None in Es; lia]|]); [eauto|].
  case_decide; [|eauto]. apply IH. intros c. cbn. rewrite lookup_app_r by lia. by intros [? _]%lookup_replicate.
Qed.
Lemma no_event_balanced gaps (ans : add_answers D) (st st' : state R D) sock lsnr d aggr noexp r g picks' bufsize :
  balanced st g -> g_picks g ≡ₚ d :: picks' -> slot_free st sock -> an_conn ans = true -> an_realloc ans = true ->
  an_strm ans = Some bufsize -> an_event ans = false -> dispatch_addconnection gaps ans st sock lsnr d aggr noexp = Some (st', r) ->
  r = None /\ balanced st' (mkLedger picks' (g_over g) (d :: g_under g) (g_unaccepted g + 1)).
Proof.
  intros [Hl He Hs] Hp Hf Hc Hr Hst Hev. unfold dispatch_addconnection. cbv zeta.
  match goal with |- context [find_slot _ _ _ _ _ ?fr] => set (fresh := fr) end.
  pose proof (find_slot_spec gaps st sock d ans fresh Hf) as Hslot.
  destruct (find_slot_found gaps st sock d ans fresh Hc Hr Hf) as [st1 Efs]. rewrite Efs in Hslot |- *.
  destruct Hslot as (k & -> & Hk). rewrite Hst, Hev. cbn [dispatch_connection_to_worker]. change (-1 =? -1) with true. cbv iota.
  intros [= <- <-]. split; [done|].
  match goal with |- context [dispatch_closeconnection ?s ?d ?c] => set (st1 := dispatch_closeconnection s d c) end.
  assert (forall d', sumz (on d' <$> connections st1) = sumz (on d' <$> connections st)) as Hon.
  { intros d'. subst st1. cbn. rewrite !list_insert_insert_eq, (sumz_insert _ _ _ _ _ Hk), on_replicate by done. cbn. lia. }
  split.
  - apply (load_add_connections (set_stats st1 (acceptedconnections st1) (closedconnections st1) (errorsconnections st1 + 1)) _
      (with_picks g picks') _ d (-1)); [done| |].
    + intros d'. unfold count. cbn [g_picks g_over g_under with_picks]. rewrite times_cons. unfold load. cbn [connections add_connections set_workers set_stats]. lia.
    + apply (load_add_connections st _ g _ d (-1)); [done| |done].
      intros d'. rewrite (count_picked st g d picks' d' Hp), (count_table st); [lia|]. exact (Hon d').
  - cbn. rewrite !list_insert_insert_eq. apply entries_ok_insert; [by apply entries_ok_grow|done].
  - cbn. rewrite !list_insert_insert_eq, (sumz_insert _ _ _ _ _ Hk), on_replicate by done. cbn. lia.
Qed.

(** Steps that leave the counters and the table's owners alone. *)
Lemma balanced_same (st st' : state R D) g :
  (forall d, w_connections <$> workers st' !! d = w_connections <$> workers st !! d) ->
  (forall d, sumz (on d <$> connections st') = sumz (on d <$> connections st)) ->
  sumz (live <$> connections st') = sumz (live <$> connections st) -> entries_ok (connections st') ->
  closedconnections st' = closedconnections st -> acceptedconnections st' = acceptedconnections st ->
  balanced st g -> balanced st' g.
Proof.
  intros Hw Ho Hv He Hc Ha [Hl _ Hs]. split; [|done|].
  - intros d w Ew. specialize (Hw d). rewrite Ew in Hw. cbn in Hw.
    destruct (workers st !! d) as [w0|] eqn:E0; [|done]. injection Hw as ->.
    rewrite (Hl _ _ E0). f_equal. symmetry. by apply count_table.
  - by rewrite Hc, Ha, Hv.
Qed.

(** Changes of workers that keep the number of connections. *)
Lemma balanced_alter (st : state R D) g f d :
  (forall w, w_connections (f w) = w_connections w) ->
  balanced st g -> balanced (set_workers st (alter f d (workers st))) g.
Proof.
  intros Hf Hb. apply (balanced_same st); try done; [|apply Hb].
  intros d'. cbn. destruct (decide (d = d')) as [->|].
  - rewrite list_lookup_alter_eq. destruct (workers st !! d'); cbn; [by rewrite Hf|done].
  - by rewrite list_lookup_alter_ne.
Qed.

Lemma balanced_entry (st : state R D) g c c0 :
  balanced st g -> connections st !! ce_sock c = Some (Some c0) -> ce_d c = ce_d c0 ->
  balanced (set_entry st c) g.
Proof.
  intros Hb Hc Hd. apply (balanced_same st); try done; cbn.
  - intros d. rewrite (sumz_insert _ _ _ _ _ Hc). cbn. rewrite Hd. lia.
  - rewrite (sumz_insert _ _ _ _ _ Hc). cbn. lia.
  - apply entries_ok_insert; [apply Hb|]. by intros ? [= <-].
Qed.

Section Callbacks.
Context (ops : R -> nat -> DispatchEnv E D) (clock : E -> E * timeval).

Lemma end_callback_balanced (st : state R D) g d start e st' e' :
  end_callback clock st d start e = (st', e') -> balanced st g -> balanced st' g.
Proof. unfold end_callback. destruct (clock e) as [e1 stop]. intros [= <- <-]. by apply balanced_alter. Qed.

Lemma read_cb_balanced fuel timeout (st st' : state R D) sock e e' g :
  balanced st g -> dispatch_read_cb ops clock fuel timeout st sock e = Some (st', e') -> balanced st' g.
Proof.
  intros Hb. unfold dispatch_read_cb.
  destruct (connections st !! sock) as [[c|]|] eqn:Hc; [|done..]. cbv zeta.
  destruct (workers st !! ce_d c) as [w|]; [|done]. destruct (clock e) as [e1 start].
  assert (balanced (begin_callback st (ce_d c) start) g) as Hb1 by by apply balanced_alter.
  pose proof (bal_entries _ _ Hb _ _ Hc) as Hk.
  set (st1 := begin_callback st (ce_d c) start) in *.
  assert (connections st1 !! sock = Some (Some c)) as Hc1 by done. clearbody st1. clear Hb Hc.
  destruct timeout.
  { intros [= He]. subst sock. eapply end_callback_balanced; [exact He|].
    by apply (close_balanced st1 g (ce_sock c) (with_takenby c _) c). }
  destruct (negb _); [by intros [= <- <-]|].
  destruct (w_hold w && _).
  { intros [= <- <-]. apply (balanced_entry st1 g _ c); [done| |done]. cbn. congruence. }
  destruct (w_rtr w) as [r|]; [|done].
  destruct (dispatch_connection _ _ _ _ _) as [[[[ret res] self] e2]|]; [|done].
  intros [= He]. eapply end_callback_balanced; [exact He|]. clear He.
  match goal with |- context [set_workers st1 (alter ?f ?d _)] => pose proof (balanced_alter st1 g f d (fun _ => eq_refl) Hb1) as Hb2 end.
  destruct res as [conn|].
  - apply (balanced_entry _ g _ c); [done| |done]. cbn. by rewrite Hk.
  - exact (close_balanced _ g sock (with_takenby c (d_id (w_disp w))) c Hb2 Hc1 eq_refl eq_refl).
Qed.

(** ** Reachable states *)

(** What the workers and the accepting thread do, one atomic step at a time, and what it does to the ledger.  The errors
    while a connection is added are those of [dispatch_addconnection]: no memory or no stream, a socket whose slot is
    taken, and, when there is a stream, no event. *)
Inductive step : state R D * ledger -> state R D * ledger -> Prop :=
  | step_pick st st' d g :
      dispatch_worker_with_low_connections st = Some (d, st') -> step (st, g) (st', with_picks g (d :: g_picks g))
  | step_add gaps ans st st' sock lsnr d aggr noexp r g picks' :
      g_picks g ≡ₚ d :: picks' -> slot_free st sock -> an_event ans = true ->
      dispatch_addconnection gaps ans st sock lsnr d aggr noexp = Some (st', r) -> step (st, g) (st', with_picks g picks')
  | step_add_taken gaps ans st st' sock lsnr d aggr noexp r g picks' c :
      g_picks g ≡ₚ d :: picks' -> connections st !! sock = Some (Some c) ->
      dispatch_addconnection gaps ans st sock lsnr d aggr noexp = Some (st', r) ->
      step (st, g) (st', mkLedger picks' (d :: g_over g) (g_under g) (g_unaccepted g))
  | step_add_no_event gaps ans st st' sock lsnr d aggr noexp r g picks' bufsize :
      g_picks g ≡ₚ d :: picks' -> slot_free st sock -> an_conn ans = true -> an_realloc ans = true ->
      an_strm ans = Some bufsize -> an_event ans = false ->
      dispatch_addconnection gaps ans st sock lsnr d aggr noexp = Some (st', r) ->
      step (st, g) (st', mkLedger picks' (g_over g) (d :: g_under g) (g_unaccepted g + 1))
  (* after an aggregator's or a UDP socket's connection was added *)
  | step_unaccept st g :
      step (st, g) (set_stats st (acceptedconnections st - 1) (closedconnections st) (errorsconnections st),
                    mkLedger (g_picks g) (g_over g) (g_under g) (g_unaccepted g + 1))
  | step_read fuel timeout st st' sock e e' g :
      dispatch_read_cb ops clock fuel timeout st sock e = Some (st', e') -> step (st, g) (st', g)
  | step_close st sock c g :
      connections st !! sock = Some (Some c) -> step (st, g) (dispatch_closeconnection st (ce_d c) c, g)
  (* [dispatch_removelistener], for a UDP socket *)
  | step_close_udp st sock c g :
      connections st !! sock = Some (Some c) ->
      step (st, g) (dispatch_closeconnection st 0 c, mkLedger (g_picks g) (ce_d c :: g_over g) (0%nat :: g_under g) (g_unaccepted g))
  | step_hold st d g :
      step (st, g) (set_workers st (alter dispatch_hold d (workers st)), g)
  | step_reload st d r g : step (st, g) (dispatch_schedulereload r st d, g)
  (* the rest of [dispatch_accept_cb] *)
  | step_begin st d start g : step (st, g) (begin_callback st d start, g)
  | step_end st d start e g : step (st, g) ((end_callback clock st d start e).1, g)
  | step_accepted st fd g : step (st, g) (set_fds st (open_fds st ∪ {[fd]}), g)
  | step_not_running st fd g : step (st, g) (close_fd st fd, g)
  | step_error st g : step (st, g) (set_stats st (acceptedconnections st) (closedconnections st) (errorsconnections st + 1), g).

Lemma reload_balanced r (st : state R D) d g : balanced st g -> balanced (dispatch_schedulereload r st d) g.
Proof.
  intros Hb. unfold dispatch_schedulereload.
  assert (forall st : state R D, balanced st g -> balanced (dispatch_reload st d) g) as H1.
  { intros s Hs. unfold dispatch_reload. destruct (workers s !! d) as [w|] eqn:Ew; [|done].
    destruct (w_route_refresh_pending w); [|done].
    apply (balanced_same s); try done; [|apply Hs]. intros d'. cbn. destruct (decide (d = d')) as [->|].
    - rewrite list_lookup_insert_eq by by eapply lookup_lt_Some. by rewrite Ew.
    - by rewrite list_lookup_insert_ne. }
  by apply H1, balanced_alter.
Qed.

Lemma step_balanced s s' : step s s' -> balanced s.1 s.2 -> balanced s'.1 s'.2.
Proof.
  intros Hs. destruct Hs as [| |gaps ans st st' sock lsnr d aggr noexp r g picks' c Hp Hc Ha| | | | |st sock c g Hc| | | | | | |]; cbn [fst snd]; intros Hb.
  - by eapply pick_balanced.
  - by eapply addconnection_balanced.
  - destruct (addconnection_taken _ _ _ _ _ _ _ _ _ _ _ Hc Ha) as [-> _]. by apply taken_balanced.
  - by eapply no_event_balanced.
  - destruct Hb as [Hl He Hst]. split; [done|done|]. cbn [closedconnections acceptedconnections connections set_stats g_unaccepted]. rewrite Hst. f_equal. lia.
  - by eapply read_cb_balanced.
  - by eapply close_balanced.
  - by apply (close_balanced_for st g sock 0%nat c c).
  - by apply balanced_alter.
  - by apply reload_balanced.
  - by apply balanced_alter.
  - unfold end_callback. destruct (clock e) as [e1 stop]. by apply balanced_alter.
  - by apply (balanced_same st); [..|apply Hb| | |].
  - by apply (balanced_same st); [..|apply Hb| | |].
  - by apply (balanced_same st); [..|apply Hb| | |].
Qed.

End Callbacks.

(** The state before anything is connected. *)
Definition initial (ws : list (worker R)) : state R D := mkState ws ∅ (replicate MAX_LISTENERS None) [] 0 0 0 ∅.

Lemma initial_balanced ws : Forall (fun w => w_connections w = 0) ws -> balanced (initial ws) new_ledger.
Proof.
  intros Hw. split; [|by intros [|i] c|done].
  intros d w Hd. rewrite Forall_lookup in Hw. by rewrite (Hw d w Hd).
Qed.

Lemma reachable_balanced (ops : R -> nat -> DispatchEnv E D) clock ws s :
  Forall (fun w => w_connections w = 0) ws -> rtc (step ops clock) (initial ws, new_ledger) s -> balanced s.1 s.2.
Proof.
  intros Hw Hs. apply initial_balanced in Hw. revert Hw.
  change (initial ws) with ((initial ws, new_ledger).1) at 1. change new_ledger with ((initial ws, new_ledger).2) at 2.
  induction Hs as [s|s1 s2 s3 H12 H23 IH]; [done|]. intros Hb. apply IH. by eapply step_balanced.
Qed.

(** ** The worker picked *)

Lemma low_loop_least ws i d min :
  exists m, (forall k w, ws !! k = Some w -> m <= w_connections w) /\ m <= min /\
    (low_loop (R := R) ws i d min = d /\ m = min \/
     exists k w, ws !! k = Some w /\ low_loop ws i d min = (i + k)%nat /\ m = w_connections w).
Proof.
  revert i d min. induction ws as [|w ws IH]; intros i d min; cbn [low_loop].
  { exists min. split; [by intros k w; rewrite lookup_nil|]. split; [lia|]. by left. }
  assert (forall m, (forall k x, ws !! k = Some x -> m <= w_connections x) -> m <= w_connections w ->
    forall k x, (w :: ws) !! k = Some x -> m <= w_connections x) as Hall.
  { intros m Hm Hw [|k] x; cbn; [by intros [= <-]|apply Hm]. }
  destruct (Z.ltb_spec (w_connections w) min).
  - destruct (IH (S i) i (w_connections w)) as (m & Hm & Hle & Hr). exists m.
    split; [by apply Hall|]. split; [lia|]. right. destruct Hr as [[-> ->]|(k & x & Hk & -> & ->)].
    + exists 0%nat, w. split_and!; [done|lia|done].
    + exists (S k), x. split_and!; [done|lia|done].
  - destruct (IH (S i) d min) as (m & Hm & Hle & Hr). exists m.
    split; [apply Hall; [done|lia]|]. split; [done|]. destruct Hr as [[-> ->]|(k & x & Hk & -> & ->)]; [by left|].
    right. exists (S k), x. split_and!; [done|lia|done].
Qed.

Lemma low_connections_least (st st' : state R D) d :
  dispatch_worker_with_low_connections st = Some (d, st') ->
  exists w, (0 < d)%nat /\ workers st !! d = Some w /\
    forall d' w', (0 < d')%nat -> workers st !! d' = Some w' -> w_connections w <= w_connections w'.
Proof.
  unfold dispatch_worker_with_low_connections. destruct (workers st) as [|w0 [|w1 ws]]; cbn [drop skipn]; [done..|].
  change (drop 0 (w1 :: ws)) with (w1 :: ws). intros [= <- _].
  destruct (low_loop_least ws 2 1 (w_connections w1)) as (m & Hm & Hle & Hr).
  assert (forall d' w', (0 < d')%nat -> (w0 :: w1 :: ws) !! d' = Some w' -> m <= w_connections w') as Hall.
  { intros [|[|d']] w' Hd'; [lia|cbn; by intros [= <-]|cbn; apply Hm]. }
  destruct Hr as [[-> ->]|(k & w & Hk & -> & ->)].
  - exists w1. split_and!; [lia|done|done].
  - exists w. split_and!; [lia|done|done].
Qed.

Lemma load_bound (st : state R D) picks d :
  0 <= load st picks d <= Z.of_nat (length (connections st) + length picks).
Proof.
  assert (forall {A} (f : A -> Z) l, (forall x, 0 <= f x <= 1) -> 0 <= sumz (f <$> l) <= Z.of_nat (length l)) as H1.
  { intros A f l Hf. induction l as [|x l IH]; [cbn; lia|]. rewrite fmap_cons, sumz_cons. specialize (Hf x). cbn [length]. lia. }
  unfold load.
  pose proof (H1 _ (on d) (connections st)). pose proof (H1 _ (delta d) picks).
  assert (forall x, 0 <= delta d x <= 1) by (intros x; unfold delta; case_decide; lia).
  assert (forall x, 0 <= on d x <= 1) by (intros [x|]; cbn; [done|lia]).
  specialize (H ltac:(done)). specialize (H0 ltac:(done)). lia.
Qed.

(** ** Who serves a connection *)

Section Serving.
Context (ops : R -> nat -> DispatchEnv E D) (clock : E -> E * timeval).

Lemma end_callback_connections (st : state R D) d start e :
  connections (end_callback clock st d start e).1 = connections st.
Proof. unfold end_callback. by destruct (clock e). Qed.

Lemma read_cb_connections fuel timeout (st st' : state R D) sock e e' c :
  entries_ok (connections st) -> connections st !! sock = Some (Some c) ->
  dispatch_read_cb ops clock fuel timeout st sock e = Some (st', e') ->
  exists x, connections st' = <[sock := x]> (connections st) /\
    (timeout = true -> x = None) /\
    (timeout = false -> c_takenby (ce_conn c) <> C_IN -> x = Some c /\ e' = (clock e).1) /\
    (timeout = false -> c_takenby (ce_conn c) = C_IN ->
       exists w, workers st !! ce_d c = Some w /\
       if w_hold w && negb (c_isaggr (ce_conn c)) then x = Some c /\ e' = (clock e).1
       else exists r ret res self e2,
         w_rtr w = Some r /\
         @dispatch_connection E D (ops r sock) fuel (ce_conn (with_takenby c (d_id (w_disp w)))) (w_disp w) (clock e).2 (clock e).1 = Some (ret, res, self, e2) /\
         x = match res with Open conn => Some (mkEntry sock (ce_d c) (ce_ev c) conn) | Closed => None end /\
         forall conn, res = Open conn -> c_takenby conn = C_IN).
Proof.
  intros He Hc. pose proof (He _ _ Hc) as <-. unfold dispatch_read_cb. rewrite Hc. cbv zeta.
  destruct (workers st !! ce_d c) as [w|] eqn:Ew; [|done]. destruct (clock e) as [e1 start]. cbn [fst snd].
  destruct timeout.
  { intros [= Hend]. exists None. split_and!; [|done..]. apply (f_equal fst) in Hend. cbn in Hend. rewrite <- Hend.
    by rewrite end_callback_connections. }
  destruct (Z.eqb_spec (c_takenby (ce_conn c)) C_IN) as [Ht|Ht]; cbn [negb].
  2: { intros [= <- <-]. exists (Some c). split_and!; try done. cbn. by rewrite list_insert_id. }
  change (c_isaggr (ce_conn (with_takenby c (d_id (w_disp w))))) with (c_isaggr (ce_conn c)).
  destruct (w_hold w && negb (c_isaggr (ce_conn c))) eqn:Eh.
  { intros [= <- <-]. exists (Some c). split_and!; try done; [|intros _ _; exists w; by rewrite Eh]. cbn. rewrite Z.eqb_refl. f_equal. f_equal.
    destruct c as [s d ev []]. unfold with_takenby. cbn in *. by rewrite <- Ht. }
  destruct (w_rtr w) as [r|] eqn:Er; [|done].
  destruct (dispatch_connection _ _ _ _ _) as [[[[ret res] self] e2]|] eqn:Ed; [|done].
  intros [= Hend]. apply (f_equal fst) in Hend. cbn in Hend.
  exists (match res with Open conn => Some (mkEntry (ce_sock c) (ce_d c) (ce_ev c) conn) | Closed => None end).
  split_and!; [|done|done|].
  - rewrite <- Hend, end_callback_connections. by destruct res.
  - intros _ _. exists w. rewrite Eh. split; [done|]. exists r, ret, res, self, e2. split_and!; [done|exact Ed|done|].
    intros conn ->. eapply (@dispatch_connection_releases E D (ops r (ce_sock c))); [|exact Ed]. done.
Qed.
End Serving.

(** ** Holding and reloading *)

Definition move_listener (d : nat) (l : listener) : listener :=
  with_socks l ((fun s => mkLsock (ls_sock s) (ls_d s) (Some d)) <$> l_socks l) (l_saddrs l).

Lemma move_listener_again d d' l : move_listener d' (move_listener d l) = move_listener d' l.
Proof. unfold move_listener. cbn. f_equal. rewrite <- list_fmap_compose. by apply list_fmap_ext. Qed.

Lemma move_events_lookup d ls la a :
  move_events d ls la !! a = (if decide (Some a ∈ ls) then move_listener d else id) <$> la !! a.
Proof.
  unfold move_events. revert la. induction ls as [|x ls IH]; intros la; cbn [foldl].
  { rewrite decide_False by apply not_elem_of_nil. by rewrite option_fmap_id. }
  rewrite IH. destruct x as [b|].
  - destruct (decide (b = a)) as [->|Hne].
    + rewrite lookup_alter_eq. rewrite (decide_True (P := Some a ∈ Some a :: ls)) by constructor.
      destruct (la !! a) as [l|]; [|done]. cbn. fold (move_listener d l).
      destruct (decide (Some a ∈ ls)); [by rewrite move_listener_again|done].
    + rewrite lookup_alter_ne by done.
      destruct (decide (Some a ∈ ls)), (decide (Some a ∈ Some b :: ls)); try done; exfalso; set_solver.
  - destruct (decide (Some a ∈ ls)), (decide (Some a ∈ None :: ls)); try done; exfalso; set_solver.
Qed.

Definition reloaded (r : R) (w : worker R) : worker R := w_with_routes w (Some r) None false false.

Lemma schedulereload_state r (st : state R D) d w :
  workers st !! d = Some w ->
  dispatch_schedulereload r st d =
  set_listeners (set_workers st (alter (reloaded r) d (workers st))) (move_events d (listeners st) (listener_at st)) (listeners st).
Proof.
  intros Hw. unfold dispatch_schedulereload, dispatch_reload. cbn. rewrite list_lookup_alter_eq, Hw. cbn.
  unfold set_listeners, set_workers. cbn. f_equal. apply list_eq. intros i. destruct (decide (d = i)) as [->|Hne].
  - rewrite list_lookup_insert_eq by (rewrite length_alter; by eapply lookup_lt_Some). by rewrite list_lookup_alter_eq, Hw.
  - by rewrite list_lookup_insert_ne, !list_lookup_alter_ne.
Qed.

(** What a sequence of reloads leaves. *)
Lemma schedulereloads_state r ds (st : state R D) :
  NoDup ds -> Forall (fun d => (d < length (workers st))%nat) ds ->
  let st' := foldl (dispatch_schedulereload r) st ds in
  (forall d, workers st' !! d = (if decide (d ∈ ds) then reloaded r else id) <$> workers st !! d) /\
  listeners st' = listeners st /\ connections st' = connections st /\
  (forall d a l, list.last ds = Some d -> Some a ∈ listeners st -> listener_at st !! a = Some l ->
     listener_at st' !! a = Some (move_listener d l)).
Proof.
  revert st. induction ds as [|d ds IH]; intros st Hnd Hlen; cbv zeta; cbn [foldl].
  { split_and!; try done. intros d. by rewrite decide_False, option_fmap_id by apply not_elem_of_nil. }
  apply NoDup_cons in Hnd as [Hd Hnd]. apply Forall_cons in Hlen as [Hdl Hlen].
  destruct (lookup_lt_is_Some_2 _ _ Hdl) as [w Hw]. rewrite (schedulereload_state r st d w Hw).
  set (st1 := set_listeners _ _ _). destruct (IH st1 Hnd) as (IHw & IHl & IHc & IHm).
  { subst st1. cbn. by rewrite length_alter. }
  split_and!; [|by rewrite IHl|by rewrite IHc|].
  - intros i. rewrite IHw. subst st1. cbn [workers set_listeners set_workers]. destruct (decide (d = i)) as [->|Hne].
    + rewrite decide_False by done. rewrite decide_True by set_solver. rewrite list_lookup_alter_eq. by rewrite option_fmap_id.
    + rewrite list_lookup_alter_ne by done.
      destruct (decide (i ∈ ds)), (decide (i ∈ d :: ds)); try done; exfalso; set_solver.
  - intros d' a l Hlast Ha Hl.
    assert (listener_at st1 !! a = Some (move_listener d l)) as H1.
    { subst st1. cbn. rewrite move_events_lookup, decide_True, Hl by done. done. }
    destruct ds as [|d2 ds]; [cbn in Hlast |- *; injection Hlast as <-; done|].
    rewrite (IHm d' a (move_listener d l)); [by rewrite move_listener_again|done|done|done].
Qed.

(** What holding workers leaves. *)
Lemma holds_state ds (st : state R D) :
  NoDup ds ->
  let st' := foldl (fun st d => set_workers st (alter dispatch_hold d (workers st))) st ds in
  (forall d, workers st' !! d = (if decide (d ∈ ds) then dispatch_hold else id) <$> workers st !! d) /\
  connections st' = connections st /\ listeners st' = listeners st /\ listener_at st' = listener_at st /\
  length (workers st') = length (workers st).
Proof.
  revert st. induction ds as [|d ds IH]; intros st Hnd; cbv zeta; cbn [foldl].
  { split_and!; try done. intros d. by rewrite decide_False, option_fmap_id by apply not_elem_of_nil. }
  apply NoDup_cons in Hnd as [Hd Hnd].
  destruct (IH (set_workers st (alter dispatch_hold d (workers st))) Hnd) as (IHw & IHc & IHl & IHa & IHn).
  split_and!; [|by rewrite IHc|by rewrite IHl|by rewrite IHa|by rewrite IHn; cbn; rewrite length_alter].
  intros i. rewrite IHw. cbn [workers set_workers]. destruct (decide (d = i)) as [->|Hne].
  - rewrite decide_False by done. rewrite decide_True by set_solver. rewrite list_lookup_alter_eq. by rewrite option_fmap_id.
  - rewrite list_lookup_alter_ne by done.
    destruct (decide (i ∈ ds)), (decide (i ∈ d :: ds)); try done; exfalso; set_solver.
Qed.

(** ** Statistics *)

Inductive stat := Ticks | Sleeps | Metrics | Blackholes | Discards.

Definition stat_total (s : stat) (w : worker R) : Z :=
  match s with
  | Ticks => w_ticks w | Sleeps => w_sleeps w | Metrics => d_metrics (w_disp w)
  | Blackholes => d_blackholes (w_disp w) | Discards => d_discards (w_disp w)
  end.
Definition stat_prev (s : stat) (w : worker R) : Z :=
  let p := w_prev w in
  match s with
  | Ticks => p_ticks p | Sleeps => p_sleeps p | Metrics => p_metrics p
  | Blackholes => p_blackholes p | Discards => p_discards p
  end.
Definition stat_sub (s : stat) : worker R -> worker R * Z :=
  match s with
  | Ticks => dispatch_get_ticks_sub | Sleeps => dispatch_get_sleeps_sub | Metrics => dispatch_get_metrics_sub
  | Blackholes => dispatch_get_blackholes_sub | Discards => dispatch_get_discards_sub
  end.

(** The worker's life between looks: [evolve] changes it in any way that keeps what
    is remembered.  The result has the growths returned. *)
Fixpoint look_run (s : stat) (evolve : list (worker R -> worker R)) (w : worker R) : worker R * list Z :=
  match evolve with
  | [] => (w, [])
  | f :: evolve' =>
      let '(w, d) := stat_sub s (f w) in
      let '(w, ds) := look_run s evolve' w in (w, d :: ds)
  end.

Lemma stat_sub_spec s w :
  let '(w', d) := stat_sub s w in
  d = u64 (stat_total s w - stat_prev s w) /\ stat_prev s w' = u64 (stat_total s w) /\
  (forall s', s' <> s -> stat_prev s' w' = stat_prev s' w) /\ (forall s', stat_total s' w' = stat_total s' w).
Proof.
  destruct s; cbn; (split_and!; [done|rewrite u64_add_r; f_equal; lia|intros []; done|intros []; done]).
Qed.

Lemma look_run_sum s evolve w :
  (forall f, f ∈ evolve -> forall w, stat_prev s (f w) = stat_prev s w) ->
  let '(w', ds) := look_run s evolve w in
  u64 (sumz ds) = u64 (stat_prev s w' - stat_prev s w).
Proof.
  revert w. induction evolve as [|f fs IH]; intros w Hf; cbn [look_run].
  { cbn [sumz foldr]. f_equal. lia. }
  pose proof (stat_sub_spec s (f w)) as Hs. destruct (stat_sub s (f w)) as [w1 d]. destruct Hs as (-> & Hp & _ & _).
  specialize (IH w1 ltac:(set_solver)). destruct (look_run s fs w1) as [w2 ds].
  rewrite Hp, u64_sub_r in IH. rewrite sumz_cons, u64_add_l, <- u64_add_r, IH, u64_add_r, (Hf f ltac:(constructor) w).
  f_equal. lia.
Qed.

Lemma look_run_last s evolve w :
  evolve <> [] -> let '(w', _) := look_run s evolve w in stat_prev s w' = u64 (stat_total s w').
Proof.
  revert w. induction evolve as [|f fs IH]; intros w He; [done|]. cbn [look_run].
  pose proof (stat_sub_spec s (f w)) as Hs. destruct (stat_sub s (f w)) as [w1 d]. destruct Hs as (_ & Hp & _ & Ht).
  destruct fs as [|f2 fs]; cbn [look_run]; [by rewrite Hp, Ht|].
  specialize (IH w1 ltac:(done)). cbn [look_run] in IH. destruct (stat_sub s (f2 w1)) as [w2 d2].
  by destruct (look_run s fs w2) as [w3 ds].
Qed.

End Balance.

(** ** A concrete relay, for evaluating the theorems *)

Definition demo_mem : connection cstring := mkConn 0 [] 0 [] (mkTv 0 0) 0 true true true true.
Definition demo_answers : add_answers cstring := mkAnswers true true (Some 32768) true (mkTv 7 0) demo_mem.
Definition demo_worker_mem : worker nat :=
  mkWorker (demo_disp false) LISTENER true false 77 78 79 (mkPrevs 1 2 3 4 5) (Some 9%nat) None true true (mkTv 0 0).
Definition demo_workers : list (worker nat) :=
  (dispatch_workers_alloc true (fun id ty => dispatch_new true true true true demo_worker_mem id ty (mkTv 5 0)) 2).1.1.
Definition demo_relay : state nat cstring := initial demo_workers.
Definition demo_dispatch (r sock : nat) : DispatchEnv demo_env cstring := demo_ops (fun _ => true) false.
Definition demo_clock (e : demo_env) : demo_env * timeval := (e, mkTv 6 0).
(** The relay with a connection on socket 4, served by worker 1. *)
Definition demo_connected : option (state nat cstring * option nat) :=
  '(d, st) ← dispatch_worker_with_low_connections demo_relay;
  dispatch_addconnection [] demo_answers st 4 None d false false.
(** That relay, written out, with router 1 in place for worker 1. *)
Definition demo_entry : conn_entry cstring :=
  mkEntry 4 1 true (mkConn C_IN [] 32768 [] (mkTv 7 0) 0 false false false false).
Definition demo_serving : state nat cstring :=
  mkState (alter (fun w => w_with_conns (w_with_routes w (Some 1%nat) None false false) 1) 1%nat demo_workers)
    ∅ (replicate MAX_LISTENERS None) (<[4%nat := Some demo_entry]> (replicate 1028 None)) 1 0 0 ∅.
Lemma demo_serving_entries : entries_ok (connections demo_serving).
Proof.
  apply entries_ok_insert; [|by intros c [= <-]]. intros i c Hi.
  by apply lookup_replicate in Hi as [? _].
Qed.

(** ** Properties *)

(** C36: In every state that starts with no connection and is reached by picking workers, adding connections with every
    error that can happen, serving, timing out and closing them, removing UDP listeners, holding and reloading, each
    worker's counter is, modulo [size_t], the number of connections it has and was picked for, plus one for each time a
    slot was taken or a UDP connection of it was removed, less one for each connection that got no event and, for the
    listener worker, each UDP connection removed.  So it is right when none of these three happened
    ([connection_count_drifts] has each), and then the worker picked next is one with the fewest connections, as long as
    they are less than 2^64.  The counter of closed connections is twice the number of connections that went away. *)
Theorem connections_balanced {R D E : Type} (ops : R -> nat -> DispatchEnv E D) (clock : E -> E * timeval)
    (ws : list (worker R)) (st : state R D) (g : ledger) :
  Forall (fun w => w_connections w = 0) ws -> rtc (step ops clock) (initial ws, new_ledger) (st, g) ->
  (forall d w, workers st !! d = Some w ->
     w_connections w = u64 (load st (g_picks g) d + times d (g_over g) - times d (g_under g))) /\
  closedconnections st = 2 * (acceptedconnections st + g_unaccepted g - sumz (live <$> connections st)) /\
  (g_over g = [] -> g_under g = [] -> Z.of_nat (length (connections st) + length (g_picks g)) < 2 ^ 64 ->
   forall d st', dispatch_worker_with_low_connections st = Some (d, st') ->
   forall d', (0 < d' < length (workers st))%nat -> load st (g_picks g) d <= load st (g_picks g) d').
Proof.
  intros Hw Hr. pose proof (reachable_balanced ops clock ws (st, g) Hw Hr) as [Hl _ Hs]. cbn [fst snd] in *.
  split_and!; [done|done|]. intros Hov Hun Hlen d st' Hd d' [Hd'1 Hd'2].
  destruct (low_connections_least st st' d Hd) as (w & _ & Hdw & Hmin).
  destruct (lookup_lt_is_Some_2 _ _ Hd'2) as [w' Hw']. specialize (Hmin d' w' Hd'1 Hw').
  rewrite (Hl _ _ Hdw), (Hl _ _ Hw') in Hmin. unfold count in Hmin. rewrite Hov, Hun in Hmin. cbn [times fmap list_fmap sumz] in Hmin.
  pose proof (load_bound st (g_picks g) d). pose proof (load_bound st (g_picks g) d'). unfold times, sumz in Hmin. cbn in Hmin.
  rewrite !Z.add_0_r, !Z.sub_0_r in Hmin. by rewrite !u64_small in Hmin by lia.
Qed.

Lemma connections_balanced_witness :
  exists st, demo_connected = Some (st, Some 4%nat) /\
    (w_connections <$> workers st) = [0; 1; 0] /\ acceptedconnections st = 1 /\
    (forall d w, workers st !! d = Some w -> w_connections w = u64 (load st [] d + 0 - 0)).
Proof.
  eexists. split; [vm_compute; reflexivity|]. split; [vm_compute; reflexivity|]. split; [vm_compute; reflexivity|].
  refine (proj1 (connections_balanced demo_dispatch demo_clock demo_workers _ new_ledger _ _)).
  - repeat constructor.
  - eapply rtc_l; [apply step_pick; vm_compute; reflexivity|].
    eapply rtc_l; [|apply rtc_refl].
    eapply (step_add demo_dispatch demo_clock [] demo_answers _ _ 4 None 1 false false _ (with_picks new_ledger [1%nat]) []); [reflexivity| |reflexivity|vm_compute; reflexivity].
    intros c. vm_compute. discriminate.
Defined.

(** Three error paths lose count: a connection on a socket whose slot is still
    taken leaves its worker's counter one too high, a connection that gets no event
    leaves it one too low, and removing a UDP listener lowers the counter of the
    listener worker instead of the one that served the socket. *)
Theorem connection_count_drifts :
  let counts (r : option (state nat cstring)) := (fun st => w_connections <$> workers st) <$> r in
  let pick st := dispatch_worker_with_low_connections st in
  counts ('(d, st) ← pick demo_relay; '(st, _) ← dispatch_addconnection [] demo_answers st 4 None d false false;
          '(d, st) ← pick st; fst <$> dispatch_addconnection [] demo_answers st 4 None d false false)
    = Some [0; 1; 1] /\
  counts ('(d, st) ← pick demo_relay;
          fst <$> dispatch_addconnection [] (mkAnswers true true (Some 10) false (mkTv 0 0) demo_mem) st 4 None d false false)
    = Some [0; 2 ^ 64 - 1; 0] /\
  counts (let st := set_listeners demo_relay {[ 1%nat := mkListener W_PLAIN CON_UDP [mkLsock 4 0 None] false ]} (listeners demo_relay) in
          '(st, _) ← dispatch_addlistener (fun _ => demo_answers) (fun _ => true) st 1; fst <$> dispatch_removelistener st 1)
    = Some [2 ^ 64 - 1; 1; 0].
Proof. vm_compute. done. Qed.

(** C39: What an event does on a connection's socket, the table being in order (every entry in the slot of its socket): no
    other connection changes.  A timeout closes the connection, also while another worker has taken it.  Otherwise a
    connection that is taken is neither read from nor changed.  A free one is left alone while its worker is held, unless
    it is the aggregator's; else its worker serves it with the router it has at that time, and afterwards it is free
    again, or closed. *)
Theorem read_cb_exclusive {R D E : Type} (ops : R -> nat -> DispatchEnv E D) (clock : E -> E * timeval)
    (fuel : nat) (timeout : bool) (st st' : state R D) (sock : nat) (e e' : E) (c : conn_entry D) :
  entries_ok (connections st) -> connections st !! sock = Some (Some c) ->
  dispatch_read_cb ops clock fuel timeout st sock e = Some (st', e') ->
  exists x, connections st' = <[sock := x]> (connections st) /\
    (timeout = true -> x = None) /\
    (timeout = false -> c_takenby (ce_conn c) <> C_IN -> x = Some c /\ e' = (clock e).1) /\
    (timeout = false -> c_takenby (ce_conn c) = C_IN ->
       exists w, workers st !! ce_d c = Some w /\
       if w_hold w && negb (c_isaggr (ce_conn c)) then x = Some c /\ e' = (clock e).1
       else exists r ret res self e2,
         w_rtr w = Some r /\
         @dispatch_connection E D (ops r sock) fuel (ce_conn (with_takenby c (d_id (w_disp w)))) (w_disp w) (clock e).2 (clock e).1 = Some (ret, res, self, e2) /\
         x = match res with Open conn => Some (mkEntry sock (ce_d c) (ce_ev c) conn) | Closed => None end /\
         forall conn, res = Open conn -> c_takenby conn = C_IN).
Proof. apply read_cb_connections. Qed.

Lemma read_cb_exclusive_witness :
  match dispatch_read_cb demo_dispatch demo_clock 3 false demo_serving 4 (empty_env [lit "a.b 1 2" ++ [10]]) with
  | Some (st', e') =>
      length (de_taken e') = 1%nat /\
      exists x, connections st' = <[4%nat := x]> (connections demo_serving) /\
        (forall c', x = Some c' -> c_takenby (ce_conn c') = C_IN)
  | None => False
  end.
Proof.
  destruct (dispatch_read_cb _ _ _ _ _ _ _) as [[st' e']|] eqn:He; [|vm_compute in He; discriminate].
  destruct (read_cb_exclusive demo_dispatch demo_clock 3 false demo_serving st' 4 (empty_env [lit "a.b 1 2" ++ [10]]) e' demo_entry
    demo_serving_entries eq_refl He) as (x & Hx & _ & _ & Hserved).
  split.
  - clear Hserved Hx. apply (f_equal (fmap (fun r => length (de_taken r.2)))) in He. vm_compute in He. by injection He as ->.
  - exists x. split; [exact Hx|]. destruct (Hserved eq_refl eq_refl) as (w & Hw & Hs).
    assert (w_hold w = false) as Hh by (revert Hw; vm_compute; by intros [= <-]). rewrite Hh in Hs. cbn [andb] in Hs.
    destruct Hs as (r & ret & res & self & e2 & _ & _ & -> & Hfree). intros c'. destruct res as [conn|]; [|done].
    intros [= <-]. exact (Hfree conn eq_refl).
Defined.

(** A reload reaches every connection worker.  After [dispatchs_hold] and
    [dispatchs_schedulereload] each of them routes with the new router, has nothing
    pending, is no longer held, and has kept its statistics; the listener worker
    is as it was, the connections are untouched, and the accept events of every
    listener are on the last worker's event base. *)
Theorem reload_replaces_routers {R D : Type} (st : state R D) (r : R) :
  (1 < length (workers st))%nat ->
  let st' := dispatchs_schedulereload (dispatchs_hold st) r in
  (forall d w, (0 < d)%nat -> workers st !! d = Some w ->
     workers st' !! d = Some (w_with_routes w (Some r) None false false)) /\
  workers st' !! 0%nat = workers st !! 0%nat /\ connections st' = connections st /\
  (forall a l, Some a ∈ listeners st -> listener_at st !! a = Some l ->
     exists l', listener_at st' !! a = Some l' /\
       l_socks l' = (fun s => mkLsock (ls_sock s) (ls_d s) (Some (length (workers st) - 1)%nat)) <$> l_socks l).
Proof.
  intros Hlen. cbv zeta. destruct (holds_state (conn_workers st) st (NoDup_seq _ _)) as (Hw & Hc & Hl & Ha & Hn).
  fold (dispatchs_hold st) in *. set (st1 := dispatchs_hold st) in *.
  unfold dispatchs_schedulereload, conn_workers. rewrite Hn.
  destruct (schedulereloads_state r (seq 1 (length (workers st) - 1)) st1 (NoDup_seq _ _)) as (Rw & Rl & Rc & Rm).
  { apply Forall_seq. rewrite Hn. lia. }
  split_and!.
  - intros d w Hd Hdw. rewrite Rw, Hw, Hdw. apply lookup_lt_Some in Hdw as Hlt. unfold conn_workers.
    rewrite !decide_True by (apply elem_of_seq; lia). done.
  - rewrite Rw, Hw. unfold conn_workers. rewrite !decide_False by (rewrite elem_of_seq; lia). by rewrite !option_fmap_id.
  - by rewrite Rc.
  - intros a l Hal Hla. exists (move_listener (length (workers st) - 1) l). split; [|done].
    apply Rm; [|by rewrite Hl|by rewrite Ha].
    destruct (length (workers st) - 1)%nat as [|n] eqn:En; [lia|]. rewrite seq_S, last_snoc. f_equal; lia.
Qed.

Lemma reload_replaces_routers_witness :
  (1 < length (workers demo_relay))%nat /\
  forall w, workers demo_relay !! 2%nat = Some w ->
    workers (dispatchs_schedulereload (dispatchs_hold demo_relay) 5%nat) !! 2%nat = Some (w_with_routes w (Some 5%nat) None false false).
Proof.
  assert (1 < length (workers demo_relay))%nat as Hlen by (vm_compute; lia).
  split; [exact Hlen|]. intros w Hw.
  exact (proj1 (reload_replaces_routers demo_relay 5%nat Hlen) 2%nat w (Nat.lt_0_succ 1) Hw).
Defined.

(** The statistics that are reported add up.  However a worker evolves between
    looks at one of its five statistics, the growths [dispatch_get_*_sub] returns
    sum (modulo [size_t]) to the total at the last look less the value remembered
    at first. *)
Theorem statistics_add_up {R : Type} (s : stat) (evolve : list (worker R -> worker R)) (w : worker R) :
  evolve <> [] -> (forall f, f ∈ evolve -> forall w, stat_prev s (f w) = stat_prev s w) ->
  let '(w', ds) := look_run s evolve w in u64 (sumz ds) = u64 (stat_total s w' - stat_prev s w).
Proof.
  intros He Hf. pose proof (look_run_sum s evolve w Hf) as Hs. pose proof (look_run_last s evolve w He) as Hl.
  destruct (look_run s evolve w) as [w' ds]. rewrite Hs, Hl. unfold Z.sub. by rewrite u64_add_l.
Qed.

Lemma statistics_add_up_witness :
  let grow n (w : worker nat) := w_with_times w (u64 (w_ticks w + n)) (w_sleeps w) (w_stop w) in
  let w := w_with_times (nth 1 demo_workers demo_worker_mem) 0 0 (mkTv 5 0) in
  let evolve := [grow 5; grow 0; grow (2 ^ 64 - 3)] in
  (look_run Ticks evolve w).2 = [5; 0; 2 ^ 64 - 3] /\
  let '(w', ds) := look_run Ticks evolve w in u64 (sumz ds) = u64 (stat_total Ticks w' - stat_prev Ticks w).
Proof.
  intros grow w evolve. split; [vm_compute; reflexivity|].
  apply (statistics_add_up Ticks evolve w).
  - discriminate.
  - intros f Hf v. unfold evolve in Hf. repeat (apply elem_of_cons in Hf as [->|Hf]; [reflexivity|]). by apply elem_of_nil in Hf.
Defined.
