(* ===== verification/DispatchStop.v ===== *)
(** * The end of the dispatchers (src/dispatcher.c, src/eventpipe.c)

    The workers' threads with their event loops, [dispatchs_stop], and [dispatchs_free]
    with what it closes and frees: connections with their streams, and the workers with
    their event bases and pipes.

    The event loop is libevent's.  What is used of it: a loop runs rounds, each a number of
    callbacks; [event_base_loopexit] makes it end after the round that is under way,
    or after its first when it has not begun.  Freeing something twice, an event after its
    base, or memory that is not from [malloc], is undefined behaviour: [None]. *)
From S2P Require Import Prelude Relay DispatchParse Transport Dispatcher.
#[local] Open Scope Z_scope.

(** ** Event pipes *)

(** [eventpipe]: without the eventfd variant, whose code does not compile, a pair of sockets. *)
Record eventpipe := mkPipe { ep_fd0 : Z; ep_fd1 : Z }.
Definition eventpipe_init (pair : option (Z * Z)) : eventpipe * Z :=
  match pair with Some (a, b) => (mkPipe a b, 0) | None => (mkPipe (-1) (-1), -1) end.
Definition eventpipe_rd (p : eventpipe) : Z := if ep_fd0 p <? 0 then ep_fd1 p else ep_fd0 p.
Definition eventpipe_wd (p : eventpipe) : Z := ep_fd1 p.
(** The descriptors [eventpipe_close] closes. *)
Definition eventpipe_close (p : eventpipe) : list Z := (if 0 <? ep_fd0 p then [ep_fd0 p] else []) ++ [ep_fd1 p].

(** ** Threads *)

(** [T_looping n]: in a round with [n] callbacks to come. *)
Inductive thread := T_ready | T_looping (active : nat) | T_ended.
#[export] Instance thread_eq_dec : EqDecision thread.
Proof. solve_decision. Defined.

Section Stop.
Context {R D E : Type}.

(** The dispatchers while they run: their state, for each worker its thread, and whether its loop was told to end. *)
Record running := mkRun { n_state : state R D * ledger; n_threads : list thread; n_exit : list bool }.
Definition set_running (st : state R D) (d : nat) (b : bool) : state R D :=
  set_workers st (alter (fun w => w_with_run w b (w_keep_running w)) d (workers st)).

(** [dispatch_shutdown]; [loopexit] says whether [event_base_loopexit] succeeds, without which the relay aborts. *)
Definition dispatch_shutdown (loopexit : bool) (x : running) (d : nat) : option running :=
  if loopexit then Some (mkRun (n_state x) (n_threads x) (<[d := true]> (n_exit x))) else None.
Definition dispatch_stop (loopexit : bool) (x : running) (d : nat) : option running :=
  let st := (n_state x).1 in
  let st := set_workers st (alter (fun w => w_with_run w (w_running w) false) d (workers st)) in
  dispatch_shutdown loopexit (mkRun (st, (n_state x).2) (n_threads x) (n_exit x)) d.
Fixpoint stop_loop (loopexit : nat -> bool) (ds : list nat) (x : running) : option running :=
  match ds with
  | [] => Some x
  | d :: ds' => x ← dispatch_stop (loopexit d) x d; stop_loop loopexit ds' x
  end.
Definition dispatchs_stop (loopexit : nat -> bool) (x : running) : option running :=
  stop_loop loopexit (seq 0 (length (workers (n_state x).1))) x.

(** [dispatch_runner], a thread at a time: it begins, makes a callback (which may leave everything as it is), goes on to the next
    round, or ends. *)
Inductive run_step (ops : R -> nat -> DispatchEnv E D) (clock : E -> E * timeval) : running -> running -> Prop :=
  | run_begin d n st picks ts ex :
      ts !! d = Some T_ready ->
      run_step ops clock (mkRun (st, picks) ts ex) (mkRun (set_running st d true, picks) (<[d := T_looping n]> ts) ex)
  | run_callback d n s s' ts ex :
      ts !! d = Some (T_looping (S n)) -> s' = s \/ step ops clock s s' ->
      run_step ops clock (mkRun s ts ex) (mkRun s' (<[d := T_looping n]> ts) ex)
  | run_round d n s ts ex :
      ts !! d = Some (T_looping 0) -> ex !! d = Some false ->
      run_step ops clock (mkRun s ts ex) (mkRun s (<[d := T_looping n]> ts) ex)
  | run_end d st picks ts ex :
      ts !! d = Some (T_looping 0) -> ex !! d = Some true ->
      run_step ops clock (mkRun (st, picks) ts ex) (mkRun (set_running st d false, picks) (<[d := T_ended]> ts) ex).

(** [dispatch_wait_shutdown]: the join of a thread comes back. *)
Definition dispatch_wait_shutdown (x : running) (d : nat) : Prop := n_threads x !! d = Some T_ended.

(** ** Freeing *)

(** What is freed of a stream: its structure and SSL connection; the context, input buffer and structure of a decompressor before it. *)
Inductive strm_piece := B_strm | B_ssl | L_context | L_ibuf | L_strm.
(** What is freed, of worker [d] and of the connection on socket [s]. *)
Inductive obj :=
  | O_notify (d : nat) | O_evbase (d : nat) | O_dispatcher (d : nat)
  | O_conn (s : nat) | O_event (s : nat) | O_strm (s : nat) (p : strm_piece) | O_buf (s : nat)
  | O_listeners | O_workers | O_connections.
#[export] Instance strm_piece_eq_dec : EqDecision strm_piece.
Proof. solve_decision. Defined.
#[export] Instance obj_eq_dec : EqDecision obj.
Proof. solve_decision. Defined.

Definition free_obj (x : obj) (freed : list obj) : option (list obj) := if decide (x ∈ freed) then None else Some (x :: freed).
Fixpoint free_objs (xs : list obj) (freed : list obj) : option (list obj) :=
  match xs with
  | [] => Some freed
  | x :: xs' => freed ← free_obj x freed; free_objs xs' freed
  end.

(** [strmclose] of each kind of stream: what it frees, in order.  The descriptor is closed by the innermost. *)
Context `{Decompressors}.
Definition base_pieces (b : bottom) : list strm_piece := match b with InSsl => [B_ssl; B_strm] | InSock | InUdp _ => [B_strm] end.
Definition strm_pieces (s : instrm) : list strm_piece :=
  match s with
  | InDirect b => base_pieces b
  | InGzip _ _ _ b | InLz4 _ _ b => base_pieces b ++ [L_context; L_ibuf; L_strm]
  | InSnappy _ b => base_pieces b ++ [L_ibuf; L_strm]
  end.

(** What [dispatch_closeconnection] frees; the tables and the descriptor are [Dispatcher.dispatch_closeconnection]. *)
Definition conn_objs (strm : instrm) (c : conn_entry D) : list obj :=
  (if ce_ev c then [O_event (ce_sock c)] else []) ++ (O_strm (ce_sock c) <$> strm_pieces strm) ++ [O_buf (ce_sock c); O_conn (ce_sock c)].
Definition close_connection (strm : nat -> instrm) (d : nat) (c : conn_entry D) (st : state R D) (freed : list obj) : option (state R D * list obj) :=
  if ce_ev c && bool_decide (O_evbase (ce_d c) ∈ freed) then None
  else freed ← free_objs (conn_objs (strm (ce_sock c)) c) freed; Some (dispatch_closeconnection st d c, freed).

(** The first loop of [dispatchs_free], over slots of the table; the listener worker is the dispatcher. *)
Fixpoint close_loop (strm : nat -> instrm) (slots : list nat) (st : state R D) (freed : list obj) : option (state R D * list obj) :=
  match slots with
  | [] => Some (st, freed)
  | i :: slots' =>
      match connections st !! i with
      | None => None
      | Some None => close_loop strm slots' st freed
      | Some (Some c) => '(st, freed) ← close_connection strm 0 c st freed; close_loop strm slots' st freed
      end
  end.
Definition dispatch_free (pipe : eventpipe) (d : nat) (st : state R D) (freed : list obj) : option (state R D * list obj) :=
  freed ← free_objs [O_notify d; O_evbase d] freed;
  let st := foldl (fun st fd => close_fd st (Z.to_nat fd)) st (eventpipe_close pipe) in
  freed ← free_obj (O_dispatcher d) freed; Some (st, freed).
Fixpoint free_loop (pipes : list eventpipe) (d : nat) (st : state R D) (freed : list obj) : option (state R D * list obj) :=
  match pipes with
  | [] => Some (st, freed)
  | p :: pipes' => '(st, freed) ← dispatch_free p d st freed; free_loop pipes' (S d) st freed
  end.
(** [dispatchs_free]; there is a pipe for each worker.  A listener still in the table is freed too, though its
    memory is the router's. *)
Definition dispatchs_free (strm : nat -> instrm) (pipes : list eventpipe) (st : state R D) (freed : list obj) : option (state R D * list obj) :=
  '(st, freed) ← close_loop strm (seq 0 (length (connections st))) st freed;
  '(st, freed) ← free_loop pipes 0 st freed;
  if forallb (fun x => bool_decide (x = None)) (listeners st) then
    freed ← free_objs [O_listeners; O_workers; O_connections] freed; Some (st, freed)
  else None.

End Stop.
Arguments running : clear implicits.

(** ** Stopping *)

Definition is_ready (t : thread) : nat := match t with T_ready => 1 | _ => 0 end.
Definition to_do (t : thread) : nat := match t with T_looping n => S n | _ => 0 end.
Definition measure_of (f : thread -> nat) (ts : list thread) : nat := sum_list_with f ts.

Section Stopping.
Context {R D E : Type} (ops : R -> nat -> DispatchEnv E D) (clock : E -> E * timeval).

Lemma measure_insert f ts d t t' : ts !! d = Some t -> (measure_of f (<[d := t']> ts) + f t = measure_of f ts + f t')%nat.
Proof.
  revert d. induction ts as [|u ts IH]; intros [|d] Ht; simplify_eq/=; [lia|]. specialize (IH d Ht). unfold measure_of in *. lia.
Qed.

(** Once every loop was told to end, each step takes a thread nearer to its end. *)
Lemma step_measure x x' :
  run_step ops clock x x' -> Forall (fun b => b = true) (n_exit x) ->
  n_exit x' = n_exit x /\
  ((measure_of is_ready (n_threads x') < measure_of is_ready (n_threads x))%nat \/
   measure_of is_ready (n_threads x') = measure_of is_ready (n_threads x) /\ (measure_of to_do (n_threads x') < measure_of to_do (n_threads x))%nat).
Proof.
  intros Hs He. destruct Hs as [d n st picks ts ex Ht|d n s s' ts ex Ht _|d n s ts ex Ht Hd|d st picks ts ex Ht _];
    (split; [done|]); cbn [n_threads n_exit] in *;
    try pose proof (measure_insert is_ready ts d _ (T_looping n) Ht); try pose proof (measure_insert to_do ts d _ (T_looping n) Ht);
    try pose proof (measure_insert is_ready ts d _ T_ended Ht); try pose proof (measure_insert to_do ts d _ T_ended Ht);
    cbn [is_ready to_do] in *; try lia.
  exfalso. rewrite Forall_lookup in He. discriminate (He _ _ Hd).
Qed.
Lemma rtc_keeps x x' : rtc (run_step ops clock) x x' -> length (n_threads x') = length (n_threads x) /\ n_exit x' = n_exit x.
Proof.
  induction 1 as [|x1 x2 x3 H12 _ [IH1 IH2]]; [done|]. rewrite IH1, IH2. destruct H12; cbn; by rewrite ?length_insert.
Qed.
Lemma told_terminates k m x :
  measure_of is_ready (n_threads x) = k -> measure_of to_do (n_threads x) = m -> Forall (fun b => b = true) (n_exit x) -> sn (run_step ops clock) x.
Proof.
  revert m x. induction (lt_wf k) as [k _ IHk]. intros m. induction (lt_wf m) as [m _ IHm]. intros x Hk Hm He.
  constructor. intros x' Hs. unfold flip in Hs. destruct (step_measure _ _ Hs He) as (Ex & [Hl|[Hl1 Hl2]]).
  - by eapply (IHk _ ltac:(by rewrite <- Hk)); [reflexivity..|rewrite Ex].
  - by eapply (IHm _ ltac:(by rewrite <- Hm)); [congruence|reflexivity|rewrite Ex].
Qed.
Lemma can_go_on x d t :
  n_threads x !! d = Some t -> t <> T_ended -> length (n_exit x) = length (n_threads x) -> exists x', run_step ops clock x x'.
Proof.
  intros Ht Hn Hl. destruct x as [[st picks] ts ex]. cbn [n_threads n_exit] in *. destruct t as [|[|n]|]; [| | |done].
  - eexists. by apply (run_begin _ _ d 0).
  - destruct (lookup_lt_is_Some_2 ex d) as [[] Hd]; [rewrite Hl; by eapply lookup_lt_Some| |].
    + eexists. by apply (run_end _ _ d).
    + eexists. by apply (run_round _ _ d 0).
  - eexists. eapply (run_callback _ _ d n); [done|by left].
Qed.

Definition stopped_worker (w : worker R) : worker R := w_with_run w (w_running w) false.
Lemma stop_loop_spec loopexit ds (x : running R D) :
  Forall (fun d => loopexit d = true) ds ->
  exists x', stop_loop loopexit ds x = Some x' /\ n_threads x' = n_threads x /\
    n_state x' = (set_workers (n_state x).1 (foldr (alter stopped_worker) (workers (n_state x).1) (reverse ds)), (n_state x).2) /\
    length (n_exit x') = length (n_exit x) /\
    (forall d, n_exit x' !! d = if decide (d ∈ ds) then (fun _ => true) <$> n_exit x !! d else n_exit x !! d).
Proof.
  revert x. induction ds as [|d ds IH]; intros x Hall.
  - exists x. split_and!; [done|done|by destruct x as [[[] ?] ? ?]|done|]. intros d. by rewrite decide_False by set_solver.
  - apply Forall_cons in Hall as [Hd Hall]. cbn [stop_loop]. unfold dispatch_stop at 1, dispatch_shutdown. rewrite Hd. run_binds.
    match goal with |- context [stop_loop loopexit ds ?y] => destruct (IH y Hall) as (x' & -> & Ht & Hs & Hl & He) end.
    cbn [n_state n_threads n_exit fst snd workers set_workers] in *. exists x'.
    split_and!; [done|done|by rewrite Hs, reverse_cons, foldr_app|by rewrite Hl, length_insert|].
    intros d'. rewrite He. destruct (decide (d = d')) as [<-|Hne].
    + rewrite (decide_True (P := d ∈ d :: ds)) by set_solver. destruct (n_exit x !! d) eqn:Ed.
      * rewrite list_lookup_insert_eq by by eapply lookup_lt_Some. by destruct (decide _).
      * rewrite list_insert_ge by by apply lookup_ge_None. rewrite Ed. by destruct (decide _).
    + rewrite list_lookup_insert_ne by done. destruct (decide (d' ∈ ds)); [rewrite decide_True by set_solver|rewrite decide_False by set_solver]; done.
Qed.
(** All loops are told to end. *)
Lemma dispatchs_stop_tells loopexit (x : running R D) :
  (forall d, loopexit d = true) -> length (n_exit x) = length (workers (n_state x).1) ->
  exists x', dispatchs_stop loopexit x = Some x' /\ n_threads x' = n_threads x /\ length (n_exit x') = length (n_exit x) /\
    Forall (fun b => b = true) (n_exit x').
Proof.
  intros Hl He. destruct (stop_loop_spec loopexit (seq 0 (length (workers (n_state x).1))) x) as (x' & Es & Ht & _ & Hle & Hx);
    [by apply Forall_forall|]. exists x'. split_and!; [done..|]. apply Forall_lookup. intros d b Hb. rewrite Hx in Hb.
  destruct (decide _) as [Hin|Hout]; [by apply fmap_Some in Hb as (? & _ & ->)|].
  destruct Hout. apply list_elem_of_In, in_seq. apply lookup_lt_Some in Hb. lia.
Qed.
End Stopping.

(** C34: Stopping the dispatchers ends their threads, wherever each is: in a round, between rounds, or before it has begun. After
    [dispatchs_stop] there is no infinite sequence of steps, and when no step is left every thread has ended, so that
    joining them comes back. *)
Theorem stopping_ends_workers {R D E : Type} (ops : R -> nat -> DispatchEnv E D) (clock : E -> E * timeval) (loopexit : nat -> bool) (x : running R D) :
  (forall d, loopexit d = true) -> length (n_threads x) = length (workers (n_state x).1) -> length (n_exit x) = length (workers (n_state x).1) ->
  exists x', dispatchs_stop loopexit x = Some x' /\ sn (run_step ops clock) x' /\
    (forall x2, rtc (run_step ops clock) x' x2 -> nf (run_step ops clock) x2 ->
     forall d, (d < length (workers (n_state x).1))%nat -> dispatch_wait_shutdown x2 d).
Proof.
  intros Hl Ht He. destruct (dispatchs_stop_tells loopexit x Hl He) as (x' & -> & Ht' & He' & Htold).
  exists x'. split_and!; [done|by eapply told_terminates|]. intros x2 Hr Hn d Hd.
  destruct (rtc_keeps ops clock _ _ Hr) as [El Ex].
  destruct (lookup_lt_is_Some_2 (n_threads x2) d ltac:(rewrite El, Ht', Ht; done)) as [t Hd2].
  destruct (decide (t = T_ended)) as [->|Hne]; [done|]. destruct Hn. apply (can_go_on ops clock x2 d t Hd2 Hne). by rewrite Ex, El, He', Ht', Ht.
Qed.

(** ** Freeing *)

Section Freeing.
Context {R D : Type} `{Decompressors} (strm : nat -> instrm).

Definition objs_at (st : state R D) (i : nat) : list obj :=
  match connections st !! i with Some (Some c) => conn_objs (strm (ce_sock c)) c | _ => [] end.
Definition fds_at (st : state R D) (i : nat) : list nat :=
  match connections st !! i with Some (Some c) => [ce_sock c] | _ => [] end.
Definition of_conn (o : obj) : option nat :=
  match o with O_conn s | O_event s | O_strm s _ | O_buf s => Some s | _ => None end.
Definition pipe_fds (p : eventpipe) : list nat := Z.to_nat <$> eventpipe_close p.
(** What [dispatchs_free] is to free, and the descriptors it is to close. *)
Definition worker_objs (d : nat) : list obj := [O_notify d; O_evbase d; O_dispatcher d].
Definition all_objs (st : state R D) (n : nat) : list obj :=
  (seq 0 (length (connections st)) ≫= objs_at st) ++ (seq 0 n ≫= worker_objs) ++ [O_listeners; O_workers; O_connections].
Definition all_fds (st : state R D) (pipes : list eventpipe) : list nat :=
  (seq 0 (length (connections st)) ≫= fds_at st) ++ (pipes ≫= pipe_fds).

Lemma free_objs_ok xs freed : NoDup xs -> (forall x, x ∈ xs -> x ∉ freed) -> free_objs xs freed = Some (reverse xs ++ freed).
Proof.
  intros Hn. revert freed. induction Hn as [|x xs Hx Hn IH]; intros freed Hd; [done|]. cbn [free_objs]. unfold free_obj.
  rewrite decide_False by (apply Hd; set_solver). run_binds. rewrite IH by set_solver. by rewrite reverse_cons, <- (assoc_L (++)).
Qed.
Lemma strm_pieces_nodup s : NoDup (strm_pieces s).
Proof. destruct s as [b|z m i b|lz i b|i b]; destruct b; cbn; apply (bool_decide_unpack _); vm_compute; done. Qed.
Lemma conn_objs_nodup s c : NoDup (conn_objs (D := D) s c).
Proof.
  unfold conn_objs. assert (NoDup (O_strm (ce_sock c) <$> strm_pieces s)) as Hs.
  { apply NoDup_fmap_2; [by intros ?? [= ->]|apply strm_pieces_nodup]. }
  apply NoDup_app. split; [destruct (ce_ev c); [apply NoDup_singleton|apply NoDup_nil_2]|]. split.
  - intros o Ho. destruct (ce_ev c); [|set_solver]. apply list_elem_of_singleton in Ho as ->. rewrite elem_of_app, list_elem_of_fmap. set_solver.
  - apply NoDup_app. split; [done|]. split.
    + intros o (p & -> & _)%list_elem_of_fmap. set_solver.
    + apply NoDup_cons. split; [set_solver|apply NoDup_singleton].
Qed.
Lemma conn_objs_of s (c : conn_entry D) o : o ∈ conn_objs s c -> of_conn o = Some (ce_sock c).
Proof.
  unfold conn_objs. rewrite !elem_of_app, list_elem_of_fmap. intros [Ho|[(p & -> & _)|Ho]]; [|done|set_solver].
  destruct (ce_ev c); set_solver.
Qed.

(** Closing the connection of a slot changes no other slot. *)
Lemma objs_at_insert (st : state R D) d c i : ce_sock c <> i -> objs_at (dispatch_closeconnection st d c) i = objs_at st i.
Proof. intros Hne. unfold objs_at. cbn. by rewrite list_lookup_insert_ne. Qed.
Lemma fds_at_insert (st : state R D) d c i : ce_sock c <> i -> fds_at (dispatch_closeconnection st d c) i = fds_at st i.
Proof. intros Hne. unfold fds_at. cbn. by rewrite list_lookup_insert_ne. Qed.
Lemma bind_ext {A B} (f g : A -> list B) l : (forall x, x ∈ l -> f x = g x) -> l ≫= f = l ≫= g.
Proof.
  induction l as [|x l IH]; intros Hfg; [done|]. cbn. rewrite (Hfg x) by set_solver. f_equal. apply IH. intros y Hy. apply Hfg. set_solver.
Qed.

Lemma close_loop_spec slots (st : state R D) freed :
  NoDup slots -> Forall (fun i => (i < length (connections st))%nat) slots -> entries_ok (connections st) ->
  (forall i o, i ∈ slots -> of_conn o = Some i -> o ∉ freed) -> (forall d, O_evbase d ∉ freed) ->
  exists st' freed', close_loop strm slots st freed = Some (st', freed') /\ freed' ≡ₚ (slots ≫= objs_at st) ++ freed /\
    open_fds st' = open_fds st ∖ list_to_set (slots ≫= fds_at st) /\ listeners st' = listeners st /\
    (forall i, connections st' !! i = if decide (i ∈ slots) then Some None else connections st !! i).
Proof.
  intros Hn. revert st freed. induction Hn as [|i slots Hi Hn IH]; intros st freed Hlt Hok Hfr Hb.
  - exists st, freed. cbn. split_and!; [done|done|set_solver|done|]. intros i. by rewrite decide_False by set_solver.
  - apply Forall_cons in Hlt as [Hlt1 Hlt]. cbn [close_loop]. destruct (lookup_lt_is_Some_2 _ _ Hlt1) as [[c|] Hc]; rewrite Hc.
    + pose proof (Hok _ _ Hc) as Hs. unfold close_connection. rewrite bool_decide_false by done. rewrite andb_false_r.
      rewrite free_objs_ok; [|apply conn_objs_nodup|intros o Ho; apply (Hfr i); [set_solver|rewrite (conn_objs_of _ _ _ Ho); by f_equal]].
      run_binds. destruct (IH (dispatch_closeconnection st 0 c) (reverse (conn_objs (strm (ce_sock c)) c) ++ freed))
        as (st' & freed' & -> & Hp & Hf & Hl & Hcs).
      * cbn. by rewrite length_insert.
      * cbn. by apply entries_ok_insert.
      * intros j o Hj Ho. rewrite elem_of_app, elem_of_reverse. intros [Ho'%conn_objs_of|Ho']; [|by apply (Hfr j o); [set_solver|..]].
        rewrite Ho in Ho'. injection Ho' as ->. rewrite Hs in Hj. done.
      * intros d. rewrite elem_of_app, elem_of_reverse. intros [Ho'%conn_objs_of|Ho']; [done|by apply (Hb d)].
      * assert (forall j, j ∈ slots -> ce_sock c <> j) as Hne by (intros j Hj <-; rewrite Hs in Hj; done).
        rewrite (bind_ext (objs_at (dispatch_closeconnection st 0 c)) (objs_at st)) in Hp by (intros j Hj; apply objs_at_insert; auto).
        rewrite (bind_ext (fds_at (dispatch_closeconnection st 0 c)) (fds_at st)) in Hf by (intros j Hj; apply fds_at_insert; auto).
        exists st', freed'. split_and!; [done| | |done|].
        -- rewrite Hp. cbn. unfold objs_at at 2. rewrite Hc, reverse_Permutation. solve_Permutation.
        -- rewrite Hf. cbn. unfold fds_at at 2. rewrite Hc. set_solver.
        -- intros j. rewrite Hcs. cbn. destruct (decide (j ∈ slots)); [by rewrite decide_True by set_solver|].
           destruct (decide (i = j)) as [<-|Hij]; [rewrite Hs, list_lookup_insert_eq, decide_True by (done || set_solver); done|].
           rewrite list_lookup_insert_ne by congruence. by rewrite decide_False by set_solver.
    + destruct (IH st freed Hlt Hok) as (st' & freed' & -> & Hp & Hf & Hl & Hcs); [set_solver|done|].
      exists st', freed'. split_and!; [done| | |done|].
      * rewrite Hp. cbn. unfold objs_at at 2. by rewrite Hc.
      * rewrite Hf. cbn. unfold fds_at at 2. by rewrite Hc.
      * intros j. rewrite Hcs. destruct (decide (j ∈ slots)); [by rewrite decide_True by set_solver|].
        destruct (decide (i = j)) as [<-|Hij]; [by rewrite decide_True by set_solver|]. by rewrite decide_False by set_solver.
Qed.

Lemma close_fds_spec (st : state R D) l :
  foldl (fun st fd => close_fd st (Z.to_nat fd)) st l = set_fds st (open_fds st ∖ list_to_set (Z.to_nat <$> l)).
Proof.
  revert st. induction l as [|fd l IH]; intros st; cbn [foldl fmap list_fmap list_to_set].
  - destruct st. unfold set_fds. cbn. f_equal. set_solver.
  - rewrite IH. destruct st. unfold close_fd, set_fds. cbn. f_equal. set_solver.
Qed.
Definition of_worker (o : obj) : option nat := match o with O_notify d | O_evbase d | O_dispatcher d => Some d | _ => None end.
Lemma free_loop_spec pipes d (st : state R D) freed :
  (forall k o, (d <= k)%nat -> of_worker o = Some k -> o ∉ freed) ->
  exists freed', free_loop pipes d st freed = Some (set_fds st (open_fds st ∖ list_to_set (pipes ≫= pipe_fds)), freed') /\
    freed' ≡ₚ (seq d (length pipes) ≫= worker_objs) ++ freed.
Proof.
  revert d st freed. induction pipes as [|p pipes IH]; intros d st freed Hfr; cbn [free_loop].
  - exists freed. split; [|done]. destruct st. unfold set_fds. cbn. do 2 f_equal. f_equal. set_solver.
  - unfold dispatch_free. rewrite free_objs_ok; [|apply (bool_decide_unpack _); by vm_compute|].
    2:{ intros o Ho. apply (Hfr d); [done|]. set_solver. }
    run_binds. unfold free_obj. rewrite decide_False.
    2:{ rewrite elem_of_app, elem_of_reverse. intros [Ho|Ho]; [set_solver|]. by apply (Hfr d (O_dispatcher d)). }
    run_binds. rewrite close_fds_spec.
    destruct (IH (S d) (set_fds st (open_fds st ∖ list_to_set (Z.to_nat <$> eventpipe_close p)))
                (O_dispatcher d :: reverse [O_notify d; O_evbase d] ++ freed)) as (freed' & -> & Hp).
    + intros k o Hk Ho. rewrite elem_of_cons, elem_of_app, elem_of_reverse.
      intros [->|[Hin|Hin]]; [injection Ho as ->; lia| |by apply (Hfr k o); [lia|..]].
      rewrite !elem_of_cons, elem_of_nil in Hin. destruct Hin as [->|[->|[]]]; injection Ho as ->; lia.
    + exists freed'. split; [|rewrite Hp; cbn; solve_Permutation].
      do 2 f_equal. unfold set_fds. cbn. f_equal. unfold pipe_fds at 2. set_solver.
Qed.
Lemma in_all_objs (st : state R D) slots o : o ∈ slots ≫= objs_at st -> exists s, of_conn o = Some s.
Proof.
  intros (i & Ho & _)%list_elem_of_bind. unfold objs_at in Ho. destruct (connections st !! i) as [[c|]|]; [|set_solver..].
  eexists. by eapply conn_objs_of.
Qed.
Lemma dispatchs_free_spec pipes (st : state R D) :
  entries_ok (connections st) -> Forall (fun x => x = None) (listeners st) ->
  exists st' freed, dispatchs_free strm pipes st [] = Some (st', freed) /\ freed ≡ₚ all_objs st (length pipes) /\
    open_fds st' = open_fds st ∖ list_to_set (all_fds st pipes) /\ Forall (fun x => x = None) (connections st').
Proof.
  intros Hok Hls. unfold dispatchs_free.
  destruct (close_loop_spec (seq 0 (length (connections st))) st []) as (st1 & fr1 & -> & Hp1 & Hf1 & Hl1 & Hc1).
  { apply NoDup_ListNoDup, seq_NoDup. } { apply Forall_forall. intros i Hi%list_elem_of_In%in_seq. lia. } { done. } { set_solver. } { set_solver. }
  rewrite app_nil_r in Hp1. run_binds. destruct (free_loop_spec pipes 0 st1 fr1) as (fr2 & -> & Hp2).
  { intros k o _ Ho. rewrite Hp1. intros [s Hs]%in_all_objs. by destruct o. }
  run_binds. cbn [listeners set_fds]. rewrite Hl1.
  replace (forallb _ (listeners st)) with true.
  2:{ symmetry. apply forallb_forall. intros x Hx. apply bool_decide_true. rewrite Forall_forall in Hls. apply Hls. by apply list_elem_of_In. }
  rewrite free_objs_ok; [|apply (bool_decide_unpack _); by vm_compute|].
  2:{ intros o Ho. rewrite Hp2, Hp1, elem_of_app. intros [(k & Hk & _)%list_elem_of_bind|[s Hs]%in_all_objs]; set_solver. }
  run_binds. do 2 eexists. split; [done|]. split_and!.
  - rewrite Hp2, Hp1. unfold all_objs. rewrite reverse_Permutation. solve_Permutation.
  - cbn. rewrite Hf1. unfold all_fds. set_solver.
  - apply Forall_lookup. intros i x Hx. cbn in Hx. rewrite Hc1 in Hx. destruct (decide _) as [|Hout]; [by injection Hx|].
    destruct Hout. apply list_elem_of_In, in_seq. apply lookup_lt_Some in Hx. lia.
Qed.
End Freeing.

(** ** From the running dispatchers to the end *)

Section Ending.
Context {R D E : Type} (ops : R -> nat -> DispatchEnv E D) (clock : E -> E * timeval).

(** The table of listeners is the main thread's. *)
Lemma find_slot_listeners gaps (st : state R D) sock d (ans : add_answers D) fresh st' :
  find_slot gaps st sock d ans fresh = Slot st' \/ find_slot gaps st sock d ans fresh = NoMemory st' -> listeners st' = listeners st.
Proof.
  revert st. induction gaps as [|n gaps IH]; intros st; cbn [find_slot]; repeat case_match; try (intros [?|?]; by simplify_eq).
  intros Hs. by rewrite (IH _ Hs).
Qed.
Lemma addconnection_listeners gaps (ans : add_answers D) (st st' : state R D) sock lsnr d aggr noexp r :
  dispatch_addconnection gaps ans st sock lsnr d aggr noexp = Some (st', r) -> listeners st' = listeners st.
Proof.
  unfold dispatch_addconnection, dispatch_connection_to_worker. intros Ha.
  destruct (find_slot _ _ _ _ _ _) as [|st1| |st1] eqn:Ef; [by simplify_eq|simplify_eq; eapply find_slot_listeners; eauto|done|].
  rewrite <- (find_slot_listeners gaps st sock d ans _ st1 (or_introl Ef)). repeat (case_match; simplify_eq/=; try done).
Qed.
Lemma end_callback_listeners (st : state R D) d start e : listeners (end_callback clock st d start e).1 = listeners st.
Proof. unfold end_callback. by destruct (clock e). Qed.
Lemma step_listeners s s' : step ops clock s s' -> listeners s'.1 = listeners s.1.
Proof.
  intros Hs. destruct Hs as [st st' d g Hd| | | | |fuel timeout st st' sock e e' g Hr| | | | | | | | |]; cbn [fst]; try done;
    try (by eapply addconnection_listeners); try (by apply end_callback_listeners).
  - unfold dispatch_worker_with_low_connections in Hd. by case_match; simplify_eq/=.
  - unfold dispatch_read_cb, begin_callback in Hr.
    repeat (case_match; simplify_eq/=; try done);
      match goal with H : end_callback _ ?s ?d ?t ?e = _ |- _ => pose proof (end_callback_listeners s d t e) as El; rewrite H in El; exact El end.
  - unfold dispatch_schedulereload, dispatch_reload. by repeat case_match.
Qed.
(** Every entry stays in the slot of its socket. *)
Lemma end_callback_entries (st : state R D) d start e : connections (end_callback clock st d start e).1 = connections st.
Proof. unfold end_callback. by destruct (clock e). Qed.
Lemma addconnection_entries gaps (ans : add_answers D) (st st' : state R D) sock lsnr d aggr noexp r :
  slot_free st sock -> entries_ok (connections st) -> dispatch_addconnection gaps ans st sock lsnr d aggr noexp = Some (st', r) ->
  entries_ok (connections st').
Proof.
  intros Hf He. unfold dispatch_addconnection, dispatch_connection_to_worker.
  match goal with |- context [find_slot _ _ _ _ _ ?fr] => pose proof (find_slot_spec gaps st sock d ans fr Hf) as Hs end.
  destruct (find_slot _ _ _ _ _ _) as [|st1| |st1]; [done| |done|].
  - destruct Hs as (k & fds & ->). intros [= <- <-]. by apply entries_ok_grow.
  - destruct Hs as (k & -> & _). intros Ha. repeat (case_match; simplify_eq/=);
      rewrite ?list_insert_insert_eq; (apply entries_ok_insert; [by apply entries_ok_grow|]); by intros c [= <-].
Qed.
Lemma read_cb_entries fuel timeout (st st' : state R D) sock e e' :
  entries_ok (connections st) -> dispatch_read_cb ops clock fuel timeout st sock e = Some (st', e') -> entries_ok (connections st').
Proof.
  intros He Hr. unfold dispatch_read_cb, begin_callback in Hr.
  repeat (case_match; simplify_eq/=; try done);
    try match goal with H : end_callback _ ?s ?d ?t ?e = _ |- _ => pose proof (end_callback_entries s d t e) as El; rewrite H in El; cbn in El; rewrite El end;
    (apply entries_ok_insert; [done|]); by intros x [= <-].
Qed.
Lemma step_entries s s' : step ops clock s s' -> entries_ok (connections s.1) -> entries_ok (connections s'.1).
Proof.
  intros Hs He. destruct Hs as [st st' d g Hd| |gaps ans st st' sock lsnr d aggr noexp r g picks' c Hp Hc Ha| | | | | | | | |st d start e g| | |]; cbn [fst] in *; try done;
    try (by eapply addconnection_entries); try (by eapply read_cb_entries); try (by apply entries_ok_insert).
  - unfold dispatch_worker_with_low_connections in Hd. by case_match; simplify_eq/=.
  - by destruct (addconnection_taken _ _ _ _ _ _ _ _ _ _ _ Hc Ha) as [-> _].
  - unfold dispatch_schedulereload, dispatch_reload. by repeat case_match.
  - by rewrite end_callback_entries.
Qed.

(** What is needed for freeing: entries in their slots, and no listeners. *)
Definition closable (s : state R D * ledger) : Prop := entries_ok (connections s.1) /\ Forall (fun x => x = None) (listeners s.1).
Lemma run_step_closable x x' : run_step ops clock x x' -> closable (n_state x) -> closable (n_state x').
Proof.
  intros Hs [He Hl]. destruct Hs as [d n st picks ts ex Ht|d n s s' ts ex Ht [->|Hst]|d n s ts ex Ht Hd|d st picks ts ex Ht Hd]; try done.
  split; [by eapply step_entries|]. cbn. by rewrite (step_listeners _ _ Hst).
Qed.
Lemma run_closable x x' : rtc (run_step ops clock) x x' -> closable (n_state x) -> closable (n_state x').
Proof. induction 1 as [|x1 x2 x3 H12 _ IH]; [done|]. intros Hc. by apply IH, (run_step_closable x1). Qed.
Lemma stop_closable loopexit (x x' : running R D) : dispatchs_stop loopexit x = Some x' -> closable (n_state x) -> closable (n_state x').
Proof.
  unfold dispatchs_stop. generalize (seq 0 (length (workers (n_state x).1))). intros ds. revert x.
  induction ds as [|d ds IH]; intros x; cbn [stop_loop]; [by intros [= ->]|].
  unfold dispatch_stop, dispatch_shutdown. destruct (loopexit d); run_binds; [|done]. intros Hs Hc. by apply (IH _ Hs).
Qed.
End Ending.

(** *** What there is to free *)

(** What a stream was made of: [connection_strm_new] and the decompressor before it, each with what it allocated. *)
Definition allocated `{Decompressors} (s : instrm) (p : strm_piece) : bool :=
  match p, s with
  | B_strm, _ => true
  | B_ssl, (InDirect InSsl | InGzip _ _ _ InSsl | InLz4 _ _ InSsl | InSnappy _ InSsl) => true
  | L_context, (InGzip _ _ _ _ | InLz4 _ _ _) => true
  | (L_ibuf | L_strm), (InGzip _ _ _ _ | InLz4 _ _ _ | InSnappy _ _) => true
  | _, _ => false
  end.
(** The objects that are in use in a state with [n] workers: those of the connections in the table, those of the workers, the tables. *)
Definition in_use {R D} `{Decompressors} (strm : nat -> instrm) (n : nat) (st : state R D) (o : obj) : Prop :=
  match o with
  | O_conn s | O_buf s => exists c, connections st !! s = Some (Some c)
  | O_event s => exists c, connections st !! s = Some (Some c) /\ ce_ev c = true
  | O_strm s p => (exists c, connections st !! s = Some (Some c)) /\ allocated (strm s) p = true
  | O_notify d | O_evbase d | O_dispatcher d => (d < n)%nat
  | O_listeners | O_workers | O_connections => True
  end.
(** The descriptors: of the connections, and both of each pipe. *)
Definition fd_in_use {R D} (pipes : list eventpipe) (st : state R D) (fd : nat) : Prop :=
  (exists c, connections st !! fd = Some (Some c)) \/ (exists p, p ∈ pipes /\ (Z.of_nat fd = ep_fd0 p \/ Z.of_nat fd = ep_fd1 p)).

Section InUse.
Context {R D : Type} `{Decompressors} (strm : nat -> instrm).
Lemma allocated_pieces s p : p ∈ strm_pieces s <-> allocated s p = true.
Proof.
  destruct s as [b|z m i b|lz i b|i b]; destruct b, p; cbn; (split; [intros Hp|intros Hp]); try done;
    try (exfalso; clear -Hp; set_solver); set_solver.
Qed.
Lemma conn_objs_in (c : conn_entry D) o : o ∈ conn_objs (strm (ce_sock c)) c <->
  o = O_conn (ce_sock c) \/ o = O_buf (ce_sock c) \/ (o = O_event (ce_sock c) /\ ce_ev c = true) \/
  (exists p, o = O_strm (ce_sock c) p /\ allocated (strm (ce_sock c)) p = true).
Proof.
  unfold conn_objs. rewrite !elem_of_app, list_elem_of_fmap, !elem_of_cons, elem_of_nil. setoid_rewrite allocated_pieces.
  destruct (ce_ev c); [rewrite list_elem_of_singleton|rewrite elem_of_nil]; naive_solver.
Qed.
Lemma objs_at_in_use (st : state R D) o : entries_ok (connections st) ->
  o ∈ seq 0 (length (connections st)) ≫= objs_at strm st <-> exists s, of_conn o = Some s /\ in_use strm 0 st o.
Proof.
  intros He. rewrite list_elem_of_bind. split.
  - intros (i & Ho & _). unfold objs_at in Ho. destruct (connections st !! i) as [[c|]|] eqn:Hc; [|set_solver..].
    pose proof (He _ _ Hc) as Hs. apply conn_objs_in in Ho. rewrite Hs in Ho.
    destruct Ho as [->|[->|[[-> Hev]|(p & -> & Hp)]]]; exists i; (split; [done|]); cbn; eauto.
  - intros (s & Hs & Hu).
    assert (exists c, connections st !! s = Some (Some c) /\ o ∈ conn_objs (strm (ce_sock c)) c) as (c & Hc & Ho).
    { assert (forall c, connections st !! s = Some (Some c) -> ce_sock c = s) as Hk by (intros c; apply He).
      destruct o as [d|d|d|t|t|t p|t| | |]; try done; injection Hs as ->; [destruct Hu as [c Hc]|destruct Hu as (c & Hc & Hev)|destruct Hu as [[c Hc] Hp]|destruct Hu as [c Hc]];
        exists c; (split; [done|]); apply conn_objs_in; rewrite (Hk c Hc); eauto 6. }
    exists s. unfold objs_at. rewrite Hc. split; [done|]. apply elem_of_seq. apply lookup_lt_Some in Hc. lia.
Qed.
Lemma all_objs_in_use (st : state R D) n o : entries_ok (connections st) -> o ∈ all_objs strm st n <-> in_use strm n st o.
Proof.
  intros He. unfold all_objs. rewrite !elem_of_app, objs_at_in_use by done. unfold worker_objs. rewrite list_elem_of_bind.
  setoid_rewrite elem_of_seq. setoid_rewrite elem_of_cons. setoid_rewrite elem_of_cons. setoid_rewrite elem_of_cons. setoid_rewrite elem_of_nil. split.
  - intros [(s & Hs & Hu)|[(d & Ho & Hd)|Ho]]; [by destruct o| |destruct Ho as [->|[->|[->|[]]]]; done].
    destruct Ho as [->|[->|[->|[]]]]; cbn; lia.
  - intros Hu. destruct o; cbn in Hu; try (left; eexists; split; [done|exact Hu]); try (right; left; eexists; split; [eauto|lia]); right; right; eauto.
Qed.
Lemma all_fds_in_use (st : state R D) pipes fd : entries_ok (connections st) -> Forall (fun p => 0 < ep_fd0 p /\ 0 <= ep_fd1 p) pipes ->
  fd ∈ all_fds st pipes <-> fd_in_use pipes st fd.
Proof.
  intros He Hp. unfold all_fds, fd_in_use. rewrite elem_of_app, !list_elem_of_bind. split.
  - intros [(i & Hi & _)|(p & Hi & Hin)].
    + left. unfold fds_at in Hi. destruct (connections st !! i) as [[c|]|] eqn:Hc; [|set_solver..].
      apply list_elem_of_singleton in Hi as ->. rewrite (He _ _ Hc). eauto.
    + right. exists p. split; [done|]. rewrite Forall_forall in Hp. destruct (Hp p Hin) as [H0 H1].
      unfold pipe_fds, eventpipe_close in Hi. destruct (Z.ltb_spec 0 (ep_fd0 p)); [|lia]. cbn in Hi.
      rewrite !elem_of_cons, elem_of_nil in Hi. destruct Hi as [->|[->|[]]]; lia.
  - intros [(c & Hc)|(p & Hin & Hfd)].
    + left. exists fd. unfold fds_at. rewrite Hc, (He _ _ Hc). split; [set_solver|]. apply elem_of_seq. apply lookup_lt_Some in Hc. lia.
    + right. exists p. split; [|done]. rewrite Forall_forall in Hp. destruct (Hp p Hin) as [H0 H1].
      unfold pipe_fds, eventpipe_close. destruct (Z.ltb_spec 0 (ep_fd0 p)); [|lia]. cbn. rewrite !elem_of_cons, elem_of_nil. lia.
Qed.

(** Freeing twice has no result, so what was freed is there once. *)
Lemma free_objs_nodup xs freed freed' : NoDup freed -> free_objs xs freed = Some freed' -> NoDup freed'.
Proof.
  revert freed. induction xs as [|x xs IH]; intros freed Hn; cbn [free_objs]; [by intros [= <-]|].
  unfold free_obj. case_decide; run_binds; [done|]. apply IH. by constructor.
Qed.
Lemma close_loop_nodup slots (st st' : state R D) freed freed' : NoDup freed -> close_loop strm slots st freed = Some (st', freed') -> NoDup freed'.
Proof.
  revert st freed. induction slots as [|i slots IH]; intros st freed Hn; cbn [close_loop]; [by intros [= _ <-]|].
  destruct (connections st !! i) as [[c|]|]; [|by apply IH|done]. unfold close_connection. destruct (_ && _); [done|].
  destruct (free_objs _ freed) as [freed1|] eqn:E; run_binds; [|done]. apply IH. by eapply free_objs_nodup.
Qed.
Lemma free_loop_nodup pipes d (st st' : state R D) freed freed' : NoDup freed -> free_loop pipes d st freed = Some (st', freed') -> NoDup freed'.
Proof.
  revert d st freed. induction pipes as [|p pipes IH]; intros d st freed Hn; cbn [free_loop]; [by intros [= _ <-]|]. unfold dispatch_free.
  destruct (free_objs _ freed) as [freed1|] eqn:E; run_binds; [|done]. pose proof (free_objs_nodup _ _ _ Hn E) as Hn1.
  unfold free_obj. case_decide; run_binds; [done|]. apply IH. by constructor.
Qed.
Lemma dispatchs_free_nodup pipes (st st' : state R D) freed : dispatchs_free strm pipes st [] = Some (st', freed) -> NoDup freed.
Proof.
  unfold dispatchs_free. destruct (close_loop _ _ _ _) as [[st1 fr1]|] eqn:E1; run_binds; [|done].
  destruct (free_loop _ _ _ _) as [[st2 fr2]|] eqn:E2; run_binds; [|done]. destruct (forallb _ _); [|done].
  destruct (free_objs _ fr2) as [fr3|] eqn:E3; run_binds; [|done]. intros [= _ <-].
  eapply free_objs_nodup; [|exact E3]. eapply free_loop_nodup; [|exact E2]. eapply close_loop_nodup; [|exact E1]. constructor.
Qed.
End InUse.


Definition demo_running : running nat cstring := mkRun (demo_serving, new_ledger) [T_looping 0; T_looping 1; T_ready] [false; false; false].
Definition demo_pipes : list eventpipe := [mkPipe 10 11; mkPipe 12 13; mkPipe 14 15].
Lemma stopping_ends_workers_witness :
  exists x', dispatchs_stop (fun _ => true) demo_running = Some x' /\ sn (run_step demo_dispatch demo_clock) x'.
Proof.
  destruct (stopping_ends_workers demo_dispatch demo_clock (fun _ => true) demo_running) as (x' & Hs & Hn & _); [done..|].
  exists x'. split; [exact Hs|exact Hn].
Defined.
#[local] Existing Instance demo_decompressors.
Definition demo_strm (_ : nat) : instrm := InSnappy (new_inbuf 32768) InSsl.

(** The descriptor 0, which a daemon has free, is not closed when a pipe has it. *)
Theorem pipe_keeps_descriptor_zero (b : Z) : 0 < b -> 0%nat ∉ pipe_fds (eventpipe_init (Some (0, b))).1.
Proof. intros Hb. cbn. rewrite list_elem_of_singleton. lia. Qed.
