(* ===== verification/Server.v ===== *)
(** * Outbound servers (src/server.c)

    A server has a queue of metrics, up to [SERVER_MAX_CONNECTIONS] connections with
    a thread each, and secondaries, servers of the same cluster it shares work
    with.  Queues may be shared, so servers refer to them, and to each other, by
    number: a [world] has them all.  The queue is any implementation of
    [Queue.FifoQueue]; a queued metric is its characters.

    System calls are operations on an environment [E] ([ServerEnv]).  A function
    here is one thread's work without the others in between; the accesses to a
    queue inside it are atomic in the code as well.  The statistics do not reach
    the width of [size_t]. *)
From S2P Require Import Prelude Relay Queue.
#[local] Open Scope Z_scope.

Definition FAIL_WAIT_COUNT : Z := 6.
Definition DISCONNECT_WAIT_TIME : Z := 12.
Definition SERVER_KEEP_RUNNING : Z := 1.
Definition SERVER_STOP : Z := 0.
Definition SERVER_STOP_FORCE : Z := -1.
Definition SERVER_STALL_BITS : Z := 4.
Definition SERVER_MAX_SEND : nat := 10.
Definition SERVER_MAX_CONNECTIONS : Z := 32.

(** ** The environment *)

(** What [poll] reports: the socket is writable, was hung up, has another event,
    nothing happened in time, or the call failed. *)
Inductive poll_result := PollOut | PollHup | PollEvent | PollTimeout | PollError.
(** What [write] returns: a number of bytes, -1 with [EINTR], or another error. *)
Inductive write_result := Wrote (n : nat) | WriteEINTR | WriteError.

(** [server_connect] is the code that opens sockets, pipes and files: how often it
    called [server_add_failure], and the descriptor, if there is one. *)
Class ServerEnv (E : Type) := {
  env_poll : E -> E * poll_result;
  env_write : E -> list Z -> E * write_result;
  env_close : E -> E;
  env_connect : E -> nat -> nat -> E * nat * option nat;
  env_clock : E -> E * timeval;
  env_seconds : E -> E * Z;
}.

(** ** The structures *)

(** [struct addrinfo], and the address and port in it. *)
Record addrinfo := mkAddrinfo {
  ai_family : Z; ai_socktype : Z; ai_protocol : Z; ai_address : list Z; ai_port : Z;
}.

(** As on Linux. *)
Definition AF_INET : Z := 2.
Definition AF_INET6 : Z := 10.

(** A connection: its descriptor, the bytes in the stream's [obuf] and statistics. *)
Record servercon := mkCon {
  sc_fd : option nat; sc_obuf : list Z;
  sc_failure : Z; sc_alive : bool; sc_running : bool;
  sc_metrics : Z; sc_ticks : Z; sc_prevmetrics : Z; sc_prevticks : Z;
}.

(** The three statistics and what is remembered of them. *)
Record counters := mkCounters {
  n_dropped : Z; n_stalls : Z; n_requeue : Z;
  n_prevdropped : Z; n_prevstalls : Z; n_prevrequeue : Z;
}.

Record server := mkServer {
  s_ip : cstring; s_port : Z; s_instance : option cstring;
  s_saddr : option addrinfo; s_reresolve : bool;
  s_conns : list servercon;
  s_shared_queue : bool; s_queue : nat;
  s_bsize : nat;
  s_qfree_threshold : Z; s_threshold_start : Z; s_threshold_end : Z;
  s_ttl : Z; s_iotimeout : Z; s_maxstalls : Z;
  s_type : con_type; s_transport : Z; s_ctype : con_proto;
  s_secondaries : list nat;
  s_failover : bool; s_keep_running : Z; s_stallseq : Z;
  s_counters : counters;
}.

(** [nconns] *)
Definition s_nconns (s : server) : nat := length (s_conns s).

Record world (Q : Type) := mkWorld { servers : list server; queues : list Q }.
Arguments mkWorld {Q}.
Arguments servers {Q}.
Arguments queues {Q}.

(** Updates of single fields. *)
Definition with_conns (s : server) conns : server :=
  mkServer (s_ip s) (s_port s) (s_instance s) (s_saddr s) (s_reresolve s) conns (s_shared_queue s) (s_queue s) (s_bsize s)
    (s_qfree_threshold s) (s_threshold_start s) (s_threshold_end s) (s_ttl s) (s_iotimeout s) (s_maxstalls s)
    (s_type s) (s_transport s) (s_ctype s) (s_secondaries s) (s_failover s) (s_keep_running s) (s_stallseq s) (s_counters s).
Definition with_queue (s : server) shared q : server :=
  mkServer (s_ip s) (s_port s) (s_instance s) (s_saddr s) (s_reresolve s) (s_conns s) shared q (s_bsize s)
    (s_qfree_threshold s) (s_threshold_start s) (s_threshold_end s) (s_ttl s) (s_iotimeout s) (s_maxstalls s)
    (s_type s) (s_transport s) (s_ctype s) (s_secondaries s) (s_failover s) (s_keep_running s) (s_stallseq s) (s_counters s).
Definition with_threshold (s : server) qfree : server :=
  mkServer (s_ip s) (s_port s) (s_instance s) (s_saddr s) (s_reresolve s) (s_conns s) (s_shared_queue s) (s_queue s) (s_bsize s)
    qfree (s_threshold_start s) (s_threshold_end s) (s_ttl s) (s_iotimeout s) (s_maxstalls s)
    (s_type s) (s_transport s) (s_ctype s) (s_secondaries s) (s_failover s) (s_keep_running s) (s_stallseq s) (s_counters s).
Definition with_keep_running (s : server) keep_running : server :=
  mkServer (s_ip s) (s_port s) (s_instance s) (s_saddr s) (s_reresolve s) (s_conns s) (s_shared_queue s) (s_queue s) (s_bsize s)
    (s_qfree_threshold s) (s_threshold_start s) (s_threshold_end s) (s_ttl s) (s_iotimeout s) (s_maxstalls s)
    (s_type s) (s_transport s) (s_ctype s) (s_secondaries s) (s_failover s) keep_running (s_stallseq s) (s_counters s).
Definition with_counters (s : server) stallseq counters : server :=
  mkServer (s_ip s) (s_port s) (s_instance s) (s_saddr s) (s_reresolve s) (s_conns s) (s_shared_queue s) (s_queue s) (s_bsize s)
    (s_qfree_threshold s) (s_threshold_start s) (s_threshold_end s) (s_ttl s) (s_iotimeout s) (s_maxstalls s)
    (s_type s) (s_transport s) (s_ctype s) (s_secondaries s) (s_failover s) (s_keep_running s) stallseq counters.
Definition with_secondaries (s : server) secondaries failover : server :=
  mkServer (s_ip s) (s_port s) (s_instance s) (s_saddr s) (s_reresolve s) (s_conns s) (s_shared_queue s) (s_queue s) (s_bsize s)
    (s_qfree_threshold s) (s_threshold_start s) (s_threshold_end s) (s_ttl s) (s_iotimeout s) (s_maxstalls s)
    (s_type s) (s_transport s) (s_ctype s) secondaries failover (s_keep_running s) (s_stallseq s) (s_counters s).

Definition c_with_fd (c : servercon) fd obuf : servercon :=
  mkCon fd obuf (sc_failure c) (sc_alive c) (sc_running c) (sc_metrics c) (sc_ticks c) (sc_prevmetrics c) (sc_prevticks c).
Definition c_with_failure (c : servercon) failure : servercon :=
  mkCon (sc_fd c) (sc_obuf c) failure (sc_alive c) (sc_running c) (sc_metrics c) (sc_ticks c) (sc_prevmetrics c) (sc_prevticks c).
Definition c_with_flags (c : servercon) alive running : servercon :=
  mkCon (sc_fd c) (sc_obuf c) (sc_failure c) alive running (sc_metrics c) (sc_ticks c) (sc_prevmetrics c) (sc_prevticks c).
Definition c_with_stats (c : servercon) metrics ticks prevmetrics prevticks : servercon :=
  mkCon (sc_fd c) (sc_obuf c) (sc_failure c) (sc_alive c) (sc_running c) metrics ticks prevmetrics prevticks.

Definition add_dropped (s : server) (n : Z) : server :=
  let k := s_counters s in
  with_counters s (s_stallseq s) (mkCounters (n_dropped k + n) (n_stalls k) (n_requeue k) (n_prevdropped k) (n_prevstalls k) (n_prevrequeue k)).
Definition add_requeue (s : server) (n : Z) : server :=
  let k := s_counters s in
  with_counters s (s_stallseq s) (mkCounters (n_dropped k) (n_stalls k) (n_requeue k + n) (n_prevdropped k) (n_prevstalls k) (n_prevrequeue k)).
(** A stall: [stallseq] is an [unsigned char]. *)
Definition add_stall (s : server) : server :=
  let k := s_counters s in
  with_counters s (u8 (s_stallseq s + 1)) (mkCounters (n_dropped k) (n_stalls k + 1) (n_requeue k) (n_prevdropped k) (n_prevstalls k) (n_prevrequeue k)).
Definition reset_stallseq (s : server) : server := with_counters s 0 (s_counters s).

(** ** Failures *)

(** [server_add_failure]: the connection and the failures before. *)
Definition server_add_failure (c : servercon) : servercon * Z :=
  (if sc_failure c <? FAIL_WAIT_COUNT then c_with_failure c (s8 (sc_failure c + 1)) else c, sc_failure c).

(** [server_failed] *)
Fixpoint failed_loop (cs : list servercon) (min_failure : Z) : Z :=
  match cs with
  | [] => min_failure
  | c :: cs' =>
      if sc_failure c =? 0 then 0
      else if (min_failure =? 0) || (min_failure <? sc_failure c) then failed_loop cs' (sc_failure c)
      else failed_loop cs' min_failure
  end.
Definition server_failed (s : server) : Z := failed_loop (s_conns s) 0.

Definition server_alive (s : server) : bool := forallb sc_alive (s_conns s).

Section Server.
Context {Q E : Type} `{FifoQueue Q (list Z)} `{ServerEnv E}.

Definition update (w : world Q) (i : nat) (f : server -> server) : world Q := mkWorld (alter f i (servers w)) (queues w).
Definition set_queue (w : world Q) (q : nat) (x : Q) : world Q := mkWorld (servers w) (<[q := x]> (queues w)).
Definition set_conn (w : world Q) (i n : nat) (c : servercon) : world Q :=
  update w i (fun s => with_conns s (<[n := c]> (s_conns s))).

(** [QUEUE_FREE_CRITICAL] *)
Definition queue_free_critical (qfree : nat) (s : server) : bool := Z.of_nat qfree <? s_qfree_threshold s.

(** ** Sending a metric to a server *)

(** The loop of [server_send] over the secondaries, for the queue with most room. *)
Fixpoint emptiest (w : world Q) (self : nat) (s : server) (secs : list nat) (squeue : nat) (maxqfree : nat) :
    option (nat * nat) :=
  match secs with
  | [] => Some (squeue, maxqfree)
  | i :: secs' =>
      x ← servers w !! i;
      if negb (bool_decide (i = self)) && (server_failed s =? 0) && (s_keep_running x =? 1) then
        q ← queues w !! s_queue x;
        if (maxqfree <? fq_free q)%nat then emptiest w self s secs' (s_queue x) (fq_free q)
        else emptiest w self s secs' squeue maxqfree
      else emptiest w self s secs' squeue maxqfree
  end.

(** Is there a secondary that has not failed? *)
Fixpoint backed_up (w : world Q) (secs : list nat) : option bool :=
  match secs with
  | [] => Some false
  | i :: secs' => x ← servers w !! i; if server_failed x =? 0 then Some true else backed_up w secs'
  end.

(** [queue_enqueue] on queue number [q]: the world and the metrics freed. *)
Definition enqueue (w : world Q) (q : nat) (d : list Z) : option (world Q * list (option (list Z))) :=
  x ← queues w !! q; '(x, freed) ← fq_enqueue x d; Some (set_queue w q x, freed).

(** [server_send]: the world, the metrics freed and the returned value. *)
Definition server_send (w : world Q) (self : nat) (d : list Z) (force : bool) :
    option (world Q * list (option (list Z)) * bool) :=
  s ← servers w !! self;
  q ← queues w !! s_queue s;
  let qfree := fq_free q in
  let secondaries := negb (bool_decide (s_secondaries s = [])) in
  '(squeue, _) ←
    (if negb force && secondaries && (negb (server_failed s =? 0) || queue_free_critical qfree s)
     then emptiest w self s (s_secondaries s) (s_queue s) (qfree + 4 * s_bsize s)
     else Some (s_queue s, 0%nat));
  if decide (squeue = s_queue s) then
    if decide (qfree = 0%nat) then
      backup ← (if negb force && secondaries then backed_up w (s_secondaries s) else Some false);
      let failure := if backup : bool then 0 else server_failed s in
      if negb (failure =? 0) || force || (s_stallseq s =? s_maxstalls s) then
        '(w, freed) ← enqueue (update w self (fun s => add_dropped s 1)) (s_queue s) d; Some (w, freed, true)
      else Some (update w self add_stall, [], false)
    else '(w, freed) ← enqueue (update w self reset_stallseq) (s_queue s) d; Some (w, freed, true)
  else
    let w := if server_failed s =? 0 then update w self (fun s => add_requeue s 1) else w in
    '(w, freed) ← enqueue w squeue d; Some (w, freed, true).

(** ** The plain stream *)

(** [sockwrite], and the same function of the other streams: [None] is [ENOBUFS]. *)
Definition sockwrite (c : servercon) (buf : list Z) : option servercon :=
  if METRIC_BUFSIZ <? Z.of_nat (length (sc_obuf c)) + Z.of_nat (length buf) then None
  else Some (c_with_fd c (sc_fd c) (sc_obuf c ++ buf)).

(** The loop of [sockflush]: [cnt] tries are left to write [p]. *)
Fixpoint flush_loop (cnt : nat) (e : E) (p : list Z) : E * bool :=
  match cnt with
  | O => (e, false)
  | S cnt' =>
      let '(e, r) := env_write e p in
      match r with
      | Wrote n => if decide (n = length p) then (e, true) else let '(e, _) := env_poll e in flush_loop cnt' e (drop n p)
      | WriteEINTR => flush_loop cnt' e p
      | WriteError => (e, false)
      end
  end.
Definition sockflush (e : E) (c : servercon) : E * servercon * bool :=
  match sc_obuf c with
  | [] => (e, c, true)
  | _ =>
      let '(e, ok) := flush_loop SERVER_MAX_SEND e (sc_obuf c) in
      (e, if ok then c_with_fd c (sc_fd c) [] else c, ok)
  end.

(** ** Sending a batch *)

Definition server_disconnect (e : E) (c : servercon) : E * servercon :=
  match sc_fd c with
  | Some _ => (env_close e, c_with_fd c None (sc_obuf c))
  | None => (e, c)
  end.

(** [server_poll]: is the connection writable? *)
Definition server_poll (e : E) (c : servercon) : E * servercon * bool :=
  match sc_fd c with
  | Some (S _) =>
      let '(e, r) := env_poll e in
      match r with
      | PollOut => (e, c, true)
      | PollHup | PollEvent => (e, (server_add_failure c).1, false)
      | PollTimeout | PollError => let '(e, c) := server_disconnect e c in (e, c, false)
      end
  | _ => (e, c, false)
  end.

Definition add_metrics (c : servercon) (n : nat) : servercon :=
  c_with_stats c (sc_metrics c + Z.of_nat n) (sc_ticks c) (sc_prevmetrics c) (sc_prevticks c).

Definition fail_and_disconnect (e : E) (c : servercon) : E * servercon := server_disconnect e (server_add_failure c).1.

(** The loop over the batch; the counts are [sended], [total] and [flushed]. *)
Fixpoint send_batch (e : E) (c : servercon) (sended total flushed : nat) (ms : list (list Z)) :
    E * servercon * nat * nat :=
  match ms with
  | [] => (e, c, total, flushed)
  | m :: ms' =>
      match sockwrite c m with
      | Some c => send_batch e c (S sended) (S total) flushed ms'
      | None =>
          let '(e, c, ok) := sockflush e c in
          if ok then
            let c := add_metrics c sended in
            let '(e, c, writable) := server_poll e c in
            if writable then
              match sockwrite c m with
              | Some c => send_batch e c 1 (S total) (flushed + sended) ms'
              | None => let '(e, c) := fail_and_disconnect e c in (e, c, total, (flushed + sended)%nat)
              end
            else (e, c, total, (flushed + sended)%nat)
          else (e, c, total, flushed)
      end
  end.

(** The metrics before the first NULL. *)
Fixpoint until_null (b : list (option (list Z))) : list (list Z) :=
  match b with
  | Some m :: b' => m :: until_null b'
  | _ => []
  end.

(** The loop that puts back the metrics from [metric] on: those it could not. *)
Fixpoint putback_loop (q : Q) (ms : list (list Z)) : option (Q * list (list Z)) :=
  match ms with
  | [] => Some (q, [])
  | m :: ms' =>
      '(q, ok) ← fq_putback q m;
      '(q, dropped) ← putback_loop q ms';
      Some (q, if ok : bool then dropped else m :: dropped)
  end.

(** [server_queuesend] of queue [squeue], which server [source] owns, over connection
    [n]: the result has the returned value and the metrics freed. *)
Definition server_queuesend (w : world Q) (e : E) (self squeue source n : nat) :
    option (world Q * E * Z * list (list Z)) :=
  s ← servers w !! self;
  c ← s_conns s !! n;
  let '(e, c, writable) := server_poll e c in
  if writable : bool then
    q ← queues w !! squeue;
    '(q, batch) ← fq_dequeue_vector q (s_bsize s);
    let w := set_queue w squeue q in
    let len := Z.of_nat (length batch) in
    if decide (length batch = 0%nat) then Some (set_conn w self n c, e, match sc_fd c with Some _ => len | None => -1 end, [])
    else
      let ms := until_null batch in
      let c := c_with_flags c true (sc_running c) in
      let '(e, c, total, flushed) := send_batch e c 0 0 0 ms in
      let '(e, c) :=
        if (flushed <? total)%nat then
          let '(e, c, writable) := server_poll e c in
          if writable : bool then
            let '(e, c, ok) := sockflush e c in
            if ok : bool then (e, c) else fail_and_disconnect e c
          else (e, c)
        else (e, c) in
      match sc_fd c with
      | Some _ =>
          let c := if 0 <? sc_failure c then c_with_failure c (sc_failure c - 1) else c in
          Some (set_conn w self n c, e, len, ms)
      | None =>
          let w := set_conn w self n (c_with_fd c None []) in
          q ← queues w !! squeue;
          '(q, dropped) ← putback_loop q (drop flushed ms);
          let w := update (set_queue w squeue q) source (fun s => add_dropped s (Z.of_nat (length dropped))) in
          Some (w, e, -1, take flushed ms ++ dropped)
      end
  else Some (set_conn w self n c, e, -1, []).

(** ** The reader *)

(** Changes a server's [qfree_threshold] from one value to another. *)
Definition cas_threshold (from to_ : server -> Z) (s : server) : server :=
  if s_qfree_threshold s =? from s then with_threshold s (to_ s) else s.

(** [if (ctype == CON_TCP && fd >= 0 && *idle++ > DISCONNECT_WAIT_TIME)
    server_disconnect], where [idle] points to the byte [idle0]; the flag says whether
    the pointer was moved past it. *)
Definition idle_check (e : E) (s : server) (c : servercon) (idle0 : Z) : E * servercon * bool :=
  if bool_decide (s_ctype s = CON_TCP) && bool_decide (is_Some (sc_fd c)) then
    if DISCONNECT_WAIT_TIME <? idle0 then let '(e, c) := server_disconnect e c in (e, c, true) else (e, c, true)
  else (e, c, false).

(** Looking for a reason to fail over: [Some true] is a backup needed, [Some false]
    another server to leave the work to. *)
Fixpoint failover_scan (w : world Q) (self : nat) (secs : list nat) : option (option bool) :=
  match secs with
  | [] => Some None
  | i :: secs' =>
      if decide (i = self) then Some (Some true)
      else x ← servers w !! i; if server_failed x <? FAIL_WAIT_COUNT then Some (Some false) else failover_scan w self secs'
  end.

(** Do the other secondaries have more metrics than room? *)
Fixpoint busy_secondary (w : world Q) (self : nat) (secs : list nat) : option bool :=
  match secs with
  | [] => Some false
  | i :: secs' =>
      if decide (i = self) then busy_secondary w self secs'
      else
        x ← servers w !! i; q ← queues w !! s_queue x;
        if (fq_free q <? fq_len q)%nat then Some true else busy_secondary w self secs'
  end.

(** The loop that reads from busy secondaries: the last result and the sum. *)
Fixpoint help_secondaries (w : world Q) (e : E) (self n qfree : nat) (secs : list nat) (ret len : Z) :
    option (world Q * E * Z * Z) :=
  match secs with
  | [] => Some (w, e, ret, len)
  | i :: secs' =>
      if decide (i = self) then help_secondaries w e self n qfree secs' ret len
      else
        x ← servers w !! i; q ← queues w !! s_queue x;
        let sqfree := fq_free q in
        if (sqfree <? qfree)%nat && (queue_free_critical sqfree x || negb (server_failed x =? 0)) then
          '(w, e, ret, _) ← server_queuesend w e self (s_queue x) i n;
          if ret <? 0 then Some (w, e, ret, len)
          else help_secondaries (update w i (fun s => add_requeue s ret)) e self n qfree secs' ret (len + ret)
        else help_secondaries w e self n qfree secs' ret len
  end.

Definition add_ticks (w : world Q) (self n : nat) (start stop : timeval) : world Q :=
  update w self (fun s => with_conns s (alter (fun c =>
    c_with_stats c (sc_metrics c) (sc_ticks c + timediff start stop) (sc_prevmetrics c) (sc_prevticks c)) n (s_conns s))).

(** What a call of [server_queueread] comes to: the world and environment, the
    returned value, the byte [idle], and whether it wrote behind that byte. *)
Record read_outcome := mkOutcome {
  ro_world : world Q; ro_env : E; ro_ret : Z; ro_idle : Z; ro_overrun : bool;
}.

(** The part of [server_queueread] from the connection on; [moved] says whether
    [idle] was moved. *)
Definition queueread_work (w : world Q) (e : E) (self n qfree qsize : nat) (idle0 : Z) (moved : bool) : option read_outcome :=
  s ← servers w !! self; c ← s_conns s !! n;
  let '(e, start) := env_clock e in
  let '(e, c) :=
    match sc_fd c with
    | Some _ => (e, c)
    | None =>
        let '(e, failures, fd) := env_connect e self n in
        let c := Nat.iter failures (fun c => (server_add_failure c).1) c in
        (e, match fd with Some f => c_with_fd c (Some f) [] | None => c end)
    end in
  let w := set_conn w self n c in
  match sc_fd c with
  | None =>
      let '(e, stop) := env_clock e in Some (mkOutcome (add_ticks w self n start stop) e (-1) idle0 false)
  | Some _ =>
      '(w, e, len) ← (if (qfree <? qsize)%nat then '(w, e, r, _) ← server_queuesend w e self (s_queue s) self n; Some (w, e, r)
                      else Some (w, e, 0));
      if len <? 0 then Some (mkOutcome w e (-1) idle0 false)
      else
        '(w, e, ret, len) ←
          (if negb (s_shared_queue s) then help_secondaries w e self n qfree (s_secondaries s) 0 len else Some (w, e, 0, len));
        let '(e, stop) := env_clock e in
        Some (mkOutcome (add_ticks w self n start stop) e (if 0 <=? ret then len else -1) (if moved then idle0 else 0) moved)
  end.

(** [server_queueread] *)
Definition server_queueread (w : world Q) (e : E) (self n : nat) (shutdown : Z) (idle0 : Z) : option read_outcome :=
  s ← servers w !! self; q ← queues w !! s_queue s; c ← s_conns s !! n;
  let qfree := fq_free q in
  let secondaries := negb (bool_decide (s_secondaries s = [])) in
  let critical := secondaries && queue_free_critical qfree s in
  let w := if secondaries then
             update w self (if critical then cas_threshold s_threshold_start s_threshold_end
                            else cas_threshold s_threshold_end s_threshold_start)
           else w in
  scan ← (if secondaries && s_failover s && negb critical then failover_scan w self (s_secondaries s) else Some None);
  match scan with
  | Some false =>
      let '(e, c, _) := idle_check e s c idle0 in Some (mkOutcome (set_conn w self n c) e 0 idle0 false)
  | _ =>
      if decide (qfree = fq_size q) then
        let '(e, c, moved) := idle_check e s c idle0 in
        let w := set_conn w self n c in
        if secondaries then
          busy ← (if shutdown =? SERVER_KEEP_RUNNING then Some true else busy_secondary w self (s_secondaries s));
          if busy : bool then queueread_work w e self n qfree (fq_size q) idle0 moved
          else Some (mkOutcome w e 0 idle0 false)
        else Some (mkOutcome w e 0 idle0 false)
      else queueread_work w e self n qfree (fq_size q) idle0 false
  end.

(** ** The thread *)

(** The local variables of [server_queuereader]. *)
Record reader := mkReader { r_idle : Z; r_shutdown_init : Z; r_started : Z }.

(** Does a secondary still have metrics, or a living thread? *)
Fixpoint still_working (w : world Q) (self : nat) (secs : list nat) : option bool :=
  match secs with
  | [] => Some false
  | i :: secs' =>
      if decide (i = self) then still_working w self secs'
      else
        x ← servers w !! i; q ← queues w !! s_queue x;
        if (fq_free q <? fq_len q)%nat || server_alive x then Some true else still_working w self secs'
  end.

(** One turn of the loop; [timeout] is [shutdown_timeout].  The flag says whether the
    loop goes on. *)
Definition queuereader_turn (timeout : Z) (w : world Q) (e : E) (self n : nat) (r : reader) :
    option (world Q * E * reader * bool) :=
  s ← servers w !! self;
  let shutdown := s_keep_running s in
  if shutdown =? SERVER_STOP_FORCE then Some (w, e, r, false)
  else
    let '(e, r) :=
      if r_shutdown_init r =? shutdown then (e, r)
      else let '(e, now) := env_seconds e in (e, mkReader (r_idle r) shutdown now) in
    o ← server_queueread w e self n shutdown (r_idle r);
    let r := mkReader (ro_idle o) (r_shutdown_init r) (r_started r) in
    let w := update (ro_world o) self (fun s =>
               with_conns s (alter (fun c => c_with_flags c (negb (ro_ret o =? 0)) (sc_running c)) n (s_conns s))) in
    let e := ro_env o in
    if shutdown =? SERVER_STOP then
      let '(e, ended) := env_seconds e in
      if timeout <=? ended - r_started r then Some (w, e, r, false)
      else if bool_decide (s_secondaries s = []) then Some (w, e, r, false)
      else working ← still_working w self (s_secondaries s); Some (w, e, r, working)
    else if 0 <? s_ttl s then
      let '(e, ended) := env_seconds e in
      if s_ttl s <=? u64 (ended - r_started r) then
        s ← servers w !! self; c ← s_conns s !! n;
        let '(e, c) := server_disconnect e c in
        Some (set_conn w self n c, e, mkReader (r_idle r) (r_shutdown_init r) ended, true)
      else Some (w, e, r, true)
    else Some (w, e, r, true).

(** [server_queuereader], for at most [fuel] turns. *)
Fixpoint queuereader_loop (fuel : nat) (timeout : Z) (w : world Q) (e : E) (self n : nat) (r : reader) : option (world Q * E) :=
  match fuel with
  | O => None
  | S fuel' =>
      '(w, e, r, go_on) ← queuereader_turn timeout w e self n r;
      if go_on : bool then queuereader_loop fuel' timeout w e self n r else Some (w, e)
  end.
(** The flags of a connection, and what follows the loop. *)
Definition set_flags (w : world Q) (self n : nat) (alive running : bool) : world Q :=
  update w self (fun s => with_conns s (alter (fun c => c_with_flags c alive running) n (s_conns s))).
Definition reader_exit (w : world Q) (e : E) (self n : nat) : option (world Q * E) :=
  s ← servers w !! self; c ← s_conns s !! n;
  let '(e, c) :=
    match sc_fd c with
    | Some _ => let '(e, c, _) := sockflush e c in server_disconnect e c
    | None => (e, c)
    end in
  Some (set_flags (set_conn w self n c) self n false false, e).
Definition server_queuereader (fuel : nat) (timeout : Z) (w : world Q) (e : E) (self n : nat) : option (world Q * E) :=
  let '(e, started) := env_seconds e in
  '(w, e) ← queuereader_loop fuel timeout (set_flags w self n true true) e self n (mkReader 0 SERVER_KEEP_RUNNING started);
  reader_exit w e self n.

(** ** Creating, comparing and changing servers *)

Definition new_con : servercon := mkCon None [] 0 false false 0 0 0 0.

(** The number of connections a server gets. *)
Definition conns_of (nconns : Z) (ctype : con_proto) : Z :=
  if (1 <? nconns) && (bool_decide (ctype = CON_TCP) || bool_decide (ctype = CON_UDP)) then
    if SERVER_MAX_CONNECTIONS <? nconns then SERVER_MAX_CONNECTIONS else nconns
  else 1.

(** [server_new], when memory is available.  [qts] and [qte] are the global
    [queuefree_threshold_start] and [_end]; [q] is a shared queue, without which a
    queue of its own is added, [newq]. *)
Definition server_new (qts qte : Z) (w : world Q) (newq : Q) (ip : cstring) (port : Z) (type : con_type) (transport : Z)
    (ctype : con_proto) (nconns : Z) (saddr : option addrinfo) (hint : bool) (q : option nat) (bsize : nat)
    (maxstalls iotimeout threshold_start threshold_end ttl : Z) : world Q * nat :=
  let conns := replicate (Z.to_nat (conns_of nconns ctype)) new_con in
  let s shared qi := mkServer ip port None saddr hint conns shared qi bsize
    (u64 qts)
    (u64 (if threshold_start <? 1 then qts else threshold_start)) (u64 (if threshold_end <? 1 then qte else threshold_end))
    ttl (if iotimeout <? 250 then 600 else iotimeout) (maxstalls mod 2 ^ SERVER_STALL_BITS)
    type transport ctype [] false SERVER_KEEP_RUNNING 0 (mkCounters 0 0 0 0 0 0) in
  match q with
  | None => (mkWorld (servers w ++ [s false (length (queues w))]) (queues w ++ [newq]), length (servers w))
  | Some q => (mkWorld (servers w ++ [s true q]) (queues w), length (servers w))
  end.

(** [server_cmp]: 0 when the server is the one described. *)
Definition server_cmp (s : server) (saddr : option addrinfo) (ip : cstring) (port : Z) (proto : con_proto) (nconns : nat) : Z :=
  if negb (nconns =? s_nconns s)%nat then 1
  else
    match saddr, s_saddr s with
    | Some r, Some l =>
        if (ai_family l =? ai_family r) && (ai_socktype l =? ai_socktype r) && (ai_protocol l =? ai_protocol r) then
          if ((ai_family r =? 2) || (ai_family r =? 10)) &&
             (ai_port l =? ai_port r) && bool_decide (ai_address l = ai_address r) then 0 else 1
        else 1
    | _, _ => if bool_decide (s_ip s = ip) && (s_port s =? port) && bool_decide (s_ctype s = proto) then 0 else 1
    end.

Definition server_add_secondaries (w : world Q) (self : nat) (secondaries : list nat) : world Q :=
  update w self (fun s => with_secondaries s secondaries (s_failover s)).
Definition server_set_failover (w : world Q) (self : nat) : world Q :=
  update w self (fun s => with_secondaries s (s_secondaries s) true).

(** [server_set_shared_queue]: the queue it had, if it was changed. *)
Definition server_set_shared_queue (w : world Q) (self q : nat) : option (world Q * option nat) :=
  s ← servers w !! self;
  if s_shared_queue s && negb (bool_decide (s_queue s = q))
  then Some (update w self (fun s => with_queue s (s_shared_queue s) q), Some (s_queue s)) else Some (w, None).

(** [server_shutdown] *)
Definition server_shutdown (w : world Q) (self : nat) (swap : bool) : world Q :=
  update w self (fun s =>
    if s_keep_running s =? SERVER_KEEP_RUNNING then with_keep_running s (if swap then SERVER_STOP_FORCE else SERVER_STOP) else s).

(** [server_swap_queue]: the queues are swapped, the statistics copied. *)
Definition copy_stats (l r : servercon) : servercon :=
  c_with_stats l (sc_metrics r) (sc_ticks r) (sc_prevmetrics r) (sc_prevticks r).
Fixpoint copy_all_stats (ls rs : list servercon) : list servercon :=
  match ls, rs with
  | l :: ls', r :: rs' => copy_stats l r :: copy_all_stats ls' rs'
  | _, _ => ls
  end.
Definition server_swap_queue (w : world Q) (l r : nat) : option (world Q) :=
  sl ← servers w !! l; sr ← servers w !! r;
  let w := update w l (fun s => with_queue s (s_shared_queue sr) (s_queue sr)) in
  let w := update w r (fun s => with_queue s (s_shared_queue sl) (s_queue sl)) in
  sr ← servers w !! r;
  Some (update w l (fun s =>
    with_conns (with_counters s (s_stallseq s) (s_counters sr)) (copy_all_stats (s_conns s) (s_conns sr)))).

(** ** Statistics

    Since the start of the relay, and, in the [_sub] functions, since the last call.
    A [NULL] server is not asked for. *)

Definition server_get_ticks (c : servercon) : Z := sc_ticks c.
Definition server_get_failure (c : servercon) : Z := if sc_failure c <? 1 then 0 else sc_failure c.
Definition server_get_metrics (c : servercon) : Z := sc_metrics c.
Definition server_get_dropped (s : server) : Z := n_dropped (s_counters s).
Definition server_get_stalls (s : server) : Z := n_stalls (s_counters s).
Definition server_get_requeue (s : server) : Z := n_requeue (s_counters s).
Definition server_get_connections (s : server) : nat := s_nconns s.
Definition server_get_queue_len (w : world Q) (i : nat) : option Z :=
  s ← servers w !! i; q ← queues w !! s_queue s; Some (Z.of_nat (fq_len q)).
Definition server_get_queue_size (w : world Q) (i : nat) : option Z :=
  s ← servers w !! i; q ← queues w !! s_queue s; Some (Z.of_nat (fq_size q)).

Definition server_get_dropped_sub (s : server) : server * Z :=
  let k := s_counters s in let '(v, d) := counter_sub (n_dropped k) (n_prevdropped k) in
  (with_counters s (s_stallseq s) (mkCounters (n_dropped k) (n_stalls k) (n_requeue k) v (n_prevstalls k) (n_prevrequeue k)), d).
Definition server_get_stalls_sub (s : server) : server * Z :=
  let k := s_counters s in let '(v, d) := counter_sub (n_stalls k) (n_prevstalls k) in
  (with_counters s (s_stallseq s) (mkCounters (n_dropped k) (n_stalls k) (n_requeue k) (n_prevdropped k) v (n_prevrequeue k)), d).
Definition server_get_requeue_sub (s : server) : server * Z :=
  let k := s_counters s in let '(v, d) := counter_sub (n_requeue k) (n_prevrequeue k) in
  (with_counters s (s_stallseq s) (mkCounters (n_dropped k) (n_stalls k) (n_requeue k) (n_prevdropped k) (n_prevstalls k) v), d).
Definition server_get_metrics_sub (c : servercon) : servercon * Z :=
  let '(v, d) := counter_sub (sc_metrics c) (sc_prevmetrics c) in (c_with_stats c (sc_metrics c) (sc_ticks c) v (sc_prevticks c), d).
Definition server_get_ticks_sub (c : servercon) : servercon * Z :=
  let '(v, d) := counter_sub (sc_ticks c) (sc_prevticks c) in (c_with_stats c (sc_metrics c) (sc_ticks c) (sc_prevmetrics c) v, d).

End Server.

(** [cluster_set_threshold]: the thresholds of the cluster, when they are accepted. *)
Definition cluster_set_threshold (threshold_start threshold_end : Z) : option (Z * Z) :=
  if (threshold_start <? 0) || (100 <? threshold_start) || (threshold_end <? 0) || (100 <? threshold_end) then None
  else if threshold_end <? threshold_start then None
  else Some (threshold_start, threshold_end).

(** ** What is queued where *)

Section Sending.
Context {Q E : Type} `{FifoQueue Q (list Z)} `{ServerEnv E}.

(** The queues hold the lists [ls]. *)
Definition holds (w : world Q) (ls : list (list (list Z))) : Prop := Forall2 fq_rep (queues w) ls.

(** Servers refer to existing queues, of at least one cell, and existing servers. *)
Record world_ok (w : world Q) : Prop := {
  wo_queue : forall i s, servers w !! i = Some s -> (s_queue s < length (queues w))%nat;
  wo_secondaries : forall i s j, servers w !! i = Some s -> j ∈ s_secondaries s -> (j < length (servers w))%nat;
  wo_size : forall q x, queues w !! q = Some x -> (0 < fq_size x)%nat;
}.

Lemma holds_lookup w ls q x : holds w ls -> queues w !! q = Some x -> exists l, ls !! q = Some l /\ fq_rep x l.
Proof. intros Hh Hx. by destruct (Forall2_lookup_l _ _ _ _ _ Hh Hx) as (l & ? & ?); eauto. Qed.

Lemma holds_set w ls q x l : holds w ls -> fq_rep x l -> holds (set_queue w q x) (<[q := l]> ls).
Proof. intros Hh Hx. by apply Forall2_insert. Qed.

Lemma enqueue_spec (w : world Q) ls q x l d :
  holds w ls -> queues w !! q = Some x -> ls !! q = Some l -> fq_rep x l ->
  exists w', enqueue w q d = Some (w', Some <$> (fifo_enqueue (fq_size x) l d).2) /\ servers w' = servers w /\
    holds w' (<[q := (fifo_enqueue (fq_size x) l d).1]> ls).
Proof.
  intros Hh Hx Hl Hr. unfold enqueue. rewrite Hx. run_binds.
  destruct (fq_enqueue_law x l d Hr) as (x' & -> & Hr' & _). run_binds. eexists. split; [done|]. split; [done|].
  by apply holds_set.
Qed.

Lemma emptiest_spec (w : world Q) self s secs squeue maxqfree :
  world_ok w -> (forall j, j ∈ secs -> (j < length (servers w))%nat) ->
  exists q m, emptiest w self s secs squeue maxqfree = Some (q, m) /\
    (q = squeue \/
     server_failed s = 0 /\ exists i x y, i ∈ secs /\ i <> self /\ servers w !! i = Some x /\ q = s_queue x /\
       queues w !! q = Some y /\ (maxqfree < fq_free y)%nat).
Proof.
  intros Hw. revert squeue maxqfree. induction secs as [|i secs IH]; intros squeue maxqfree Hj; cbn [emptiest].
  { eexists _, _. split; [done|]. by left. }
  destruct (lookup_lt_is_Some_2 (servers w) i (Hj i ltac:(constructor))) as [x Hx]. rewrite Hx. run_binds.
  assert (forall j, j ∈ secs -> (j < length (servers w))%nat) as Hj' by (intros j ?; apply Hj; by constructor).
  destruct (negb (bool_decide (i = self)) && (server_failed s =? 0) && (s_keep_running x =? 1)) eqn:Eb.
  - destruct (lookup_lt_is_Some_2 (queues w) (s_queue x) (wo_queue w Hw i x Hx)) as [y Hy]. rewrite Hy. run_binds.
    apply andb_true_iff in Eb as [[Hi Hf]%andb_true_iff _]. apply negb_true_iff, bool_decide_eq_false in Hi.
    apply Z.eqb_eq in Hf. destruct (Nat.ltb_spec maxqfree (fq_free y)).
    + destruct (IH (s_queue x) (fq_free y) Hj') as (q & m & -> & [->|(_ & i' & x' & y' & Hi' & ? & ? & ? & ? & ?)]).
      * eexists _, _. split; [done|]. right. split; [done|]. exists i, x, y. split_and!; try done. constructor.
      * eexists _, _. split; [done|]. right. split; [done|]. exists i', x', y'. split_and!; try done; [by constructor|lia].
    + destruct (IH squeue maxqfree Hj') as (q & m & -> & [->|(_ & i' & x' & y' & Hi' & ? & ? & ? & ? & ?)]).
      * eexists _, _. split; [done|]. by left.
      * eexists _, _. split; [done|]. right. split; [done|]. exists i', x', y'. split_and!; try done. by constructor.
  - destruct (IH squeue maxqfree Hj') as (q & m & -> & [->|(? & i' & x' & y' & Hi' & ? & ? & ? & ? & ?)]).
    + eexists _, _. split; [done|]. by left.
    + eexists _, _. split; [done|]. right. split; [done|]. exists i', x', y'. split_and!; try done. by constructor.
Qed.

Lemma backed_up_total (w : world Q) secs :
  (forall j, j ∈ secs -> (j < length (servers w))%nat) -> exists b, backed_up w secs = Some b.
Proof.
  induction secs as [|i secs IH]; intros Hj; cbn [backed_up]; [by eexists|].
  destruct (lookup_lt_is_Some_2 (servers w) i (Hj i ltac:(constructor))) as [x ->]. run_binds.
  destruct (server_failed x =? 0); [by eexists|]. apply IH. intros j ?. apply Hj. by constructor.
Qed.

(** The metrics a server has dropped. *)
Definition dropped (w : world Q) (i : nat) : option Z := (fun s => n_dropped (s_counters s)) <$> servers w !! i.

Lemma servers_update (w : world Q) i f s : servers w !! i = Some s -> servers (update w i f) !! i = Some (f s).
Proof. intros Hs. cbn. by rewrite list_lookup_alter_eq, Hs. Qed.

(** What a send does to the queues: the metric is added to one of them. *)
Record sent (w w' : world Q) (ls : list (list (list Z))) (self : nat) (s : server) (d : list Z) (freed : list (option (list Z))) : Prop := {
  st_queue : exists q x l, queues w !! q = Some x /\ ls !! q = Some l /\
    holds w' (<[q := (fifo_enqueue (fq_size x) l d).1]> ls) /\ freed = Some <$> (fifo_enqueue (fq_size x) l d).2 /\
    (q = s_queue s \/
     server_failed s = 0 /\ freed = [] /\
     exists i y own, i ∈ s_secondaries s /\ i <> self /\ servers w !! i = Some y /\ s_queue y = q /\
       queues w !! s_queue s = Some own /\ (fq_free own + 4 * s_bsize s < fq_free x)%nat);
  st_dropped : dropped w' self = Some (n_dropped (s_counters s) + Z.of_nat (length freed));
}.

Lemma fifo_enqueue_room cap (l : list (list Z)) d : (length l < cap)%nat -> fifo_enqueue cap l d = (l ++ [d], []).
Proof. intros Hl. unfold fifo_enqueue. rewrite decide_False by lia. done. Qed.
Lemma fifo_enqueue_full cap (l : list (list Z)) d :
  (0 < cap)%nat -> length l = cap -> length (fifo_enqueue cap l d).2 = 1%nat.
Proof. intros Hc Hl. unfold fifo_enqueue. rewrite decide_True by done. destruct l; [cbn in Hl; lia|done]. Qed.

(** Adding to the server's own queue after its statistics changed. *)
Lemma send_own (w : world Q) ls self s own l d (f : server -> server) n :
  holds w ls -> servers w !! self = Some s -> queues w !! s_queue s = Some own -> ls !! s_queue s = Some l -> fq_rep own l ->
  n_dropped (s_counters (f s)) = n_dropped (s_counters s) + n -> n = Z.of_nat (length (fifo_enqueue (fq_size own) l d).2) ->
  exists w' freed, enqueue (update w self f) (s_queue s) d = Some (w', freed) /\ sent w w' ls self s d freed.
Proof.
  intros Hh Hs Ho Hl Hr Hn ->.
  destruct (enqueue_spec (update w self f) ls (s_queue s) own l d Hh Ho Hl Hr) as (w' & He & Hsv & Hh').
  eexists _, _. split; [exact He|]. split.
  - exists (s_queue s), own, l. split_and!; try done. by left.
  - unfold dropped. rewrite Hsv, (servers_update w self f s Hs). cbn. by rewrite Hn, length_fmap.
Qed.

Lemma server_send_spec (w : world Q) ls self s d force :
  world_ok w -> holds w ls -> servers w !! self = Some s ->
  exists w' freed ok, server_send w self d force = Some (w', freed, ok) /\
    if ok then sent w w' ls self s d freed
    else exists own l, queues w !! s_queue s = Some own /\ ls !! s_queue s = Some l /\ length l = fq_size own /\
      force = false /\ freed = [] /\ holds w' ls /\ s_stallseq s <> s_maxstalls s /\ servers w' !! self = Some (add_stall s).
Proof.
  intros Hw Hh Hs. unfold server_send. rewrite Hs. run_binds.
  destruct (lookup_lt_is_Some_2 (queues w) (s_queue s) (wo_queue w Hw self s Hs)) as [own Ho]. rewrite Ho. run_binds.
  destruct (holds_lookup w ls _ _ Hh Ho) as (l & Hl & Hr).
  pose proof (fq_free_law own l Hr) as Hfree. pose proof (fq_cap_law own l Hr) as Hcap. pose proof (wo_size w Hw _ _ Ho) as Hpos.
  assert (exists q m,
    (if negb force && negb (bool_decide (s_secondaries s = [])) && (negb (server_failed s =? 0) || queue_free_critical (fq_free own) s)
     then emptiest w self s (s_secondaries s) (s_queue s) (fq_free own + 4 * s_bsize s)
     else Some (s_queue s, 0%nat)) = Some (q, m) /\
    (q = s_queue s \/ server_failed s = 0 /\ exists i x y, i ∈ s_secondaries s /\ i <> self /\ servers w !! i = Some x /\
      q = s_queue x /\ queues w !! q = Some y /\ (fq_free own + 4 * s_bsize s < fq_free y)%nat)) as (q & m & -> & Hq).
  { destruct (negb force && _ && _); [|eexists _, _; split; [done|]; by left].
    apply emptiest_spec; [done|]. intros j Hj. by eapply (wo_secondaries w Hw self s). }
  run_binds. destruct (decide (q = s_queue s)) as [->|Hne].
  - destruct (decide (fq_free own = 0%nat)) as [Hz|Hnz].
    + assert (exists b, (if negb force && negb (bool_decide (s_secondaries s = [])) then backed_up w (s_secondaries s) else Some false) = Some b)
        as [b ->].
      { destruct (negb force && _); [|by eexists]. apply backed_up_total. intros j Hj. by eapply (wo_secondaries w Hw self s). }
      run_binds. destruct (negb _ || force || _) eqn:Ed.
      * destruct (send_own w ls self s own l d (fun s => add_dropped s 1) 1 Hh Hs Ho Hl Hr eq_refl) as (w' & freed & -> & Hsent).
        { rewrite fifo_enqueue_full by lia. done. }
        eexists _, _, true. by split.
      * apply orb_false_iff in Ed as [[_ ->]%orb_false_iff Hst]. apply Z.eqb_neq in Hst.
        eexists _, _, false. split; [done|]. exists own, l. split_and!; try done; [lia|]. by apply servers_update.
    + destruct (send_own w ls self s own l d reset_stallseq 0 Hh Hs Ho Hl Hr) as (w' & freed & -> & Hsent).
      { cbn. lia. }
      { rewrite fifo_enqueue_room by lia. done. }
      eexists _, _, true. by split.
  - destruct Hq as [|(Hf & i & x & y & Hi & Hself & Hx & -> & Hy & Hroom)]; [done|].
    destruct (holds_lookup w ls _ _ Hh Hy) as (l2 & Hl2 & Hr2).
    pose proof (fq_free_law y l2 Hr2) as Hfree2.
    set (w1 := if server_failed s =? 0 then update w self (fun s => add_requeue s 1) else w).
    assert (queues w1 = queues w) as Hq1 by (subst w1; by destruct (server_failed s =? 0)).
    destruct (enqueue_spec w1 ls (s_queue x) y l2 d) as (w' & -> & Hsv & Hh'); [unfold holds; by rewrite Hq1|by rewrite Hq1|done..|].
    run_binds. eexists _, _, true. split; [done|]. split.
    + exists (s_queue x), y, l2. split_and!; try done. right. split; [done|]. rewrite fifo_enqueue_room by lia. split; [done|].
      by exists i, x, own.
    + rewrite fifo_enqueue_room by lia. cbn. unfold dropped. rewrite Hsv. subst w1. rewrite Hf, Z.eqb_refl.
      rewrite (servers_update w self _ s Hs). cbn. f_equal. lia.
Qed.
(** ** Stalls *)

(** [n] sends in a row that are refused. *)
Inductive refused (self : nat) : nat -> world Q -> world Q -> Prop :=
  | refused_none w : refused self 0 w w
  | refused_one n w w1 w' d freed :
      server_send w self d false = Some (w1, freed, false) -> refused self n w1 w' -> refused self (S n) w w'.

Lemma server_send_refused w self d force w' freed :
  server_send w self d force = Some (w', freed, false) ->
  w' = update w self add_stall /\ freed = [] /\ force = false /\
  exists s, servers w !! self = Some s /\ s_stallseq s <> s_maxstalls s.
Proof.
  unfold server_send. destruct (servers w !! self) as [s|]; run_binds; [|done].
  destruct (queues w !! s_queue s) as [q|]; run_binds; [|done].
  destruct (if negb force && _ && _ then _ else _) as [[sq m]|]; run_binds; [|done].
  destruct (decide (sq = s_queue s)).
  - destruct (decide (fq_free q = 0%nat)).
    + destruct (if negb force && _ then _ else _) as [b|]; run_binds; [|done].
      destruct (negb _ || force || _) eqn:Ed.
      * destruct (enqueue _ _ _) as [[? ?]|]; run_binds; by intros [=].
      * intros [= <- <-]. apply orb_false_iff in Ed as [[_ ->]%orb_false_iff Hst]. apply Z.eqb_neq in Hst.
        split_and!; try done. by exists s.
    + destruct (enqueue _ _ _) as [[? ?]|]; run_binds; by intros [=].
  - destruct (enqueue _ _ _) as [[? ?]|]; run_binds; by intros [=].
Qed.

Lemma refused_bound self n w w' s :
  refused self n w w' -> servers w !! self = Some s -> 0 <= s_stallseq s <= s_maxstalls s -> s_maxstalls s < 256 ->
  Z.of_nat n <= s_maxstalls s - s_stallseq s.
Proof.
  intros Hr. revert s. induction Hr as [w|n w w1 w' d freed Hs Hr IH]; intros s Hsv Hst Hmax; [lia|].
  apply server_send_refused in Hs as (-> & _ & _ & s' & Hsv' & Hne). rewrite Hsv in Hsv'. injection Hsv' as <-.
  pose proof (servers_update w self add_stall s Hsv) as H1.
  assert (s_stallseq (add_stall s) = s_stallseq s + 1) as Hq.
  { cbn. unfold u8. apply Z.mod_small. lia. }
  specialize (IH _ H1). rewrite Hq in IH. cbn [s_maxstalls add_stall with_counters] in IH. lia.
Qed.

(** ** Conservation of a batch *)

Lemma until_null_Some (ms : list (list Z)) : until_null (Some <$> ms) = ms.
Proof. induction ms as [|m ms IH]; csimpl; [done|]. by rewrite IH. Qed.

Lemma putback_loop_spec (q : Q) l ms :
  fq_rep q l -> (length l + length ms <= fq_size q)%nat ->
  exists q', putback_loop q ms = Some (q', []) /\ fq_rep q' (reverse ms ++ l).
Proof.
  revert q l. induction ms as [|m ms IH]; intros q l Hr Hlen; cbn [putback_loop]; [by eexists|]. cbn [length] in Hlen.
  destruct (fq_putback_law q l m Hr) as (q1 & -> & Hr1 & Hs1). run_binds.
  unfold fifo_putback in *. rewrite decide_False in Hr1 |- * by lia. cbn [fst snd] in *.
  destruct (IH q1 (m :: l) Hr1) as (q2 & -> & Hr2); [cbn [length]; lia|]. run_binds.
  eexists. split; [done|]. by rewrite reverse_cons, <- (assoc_L (++)).
Qed.

Lemma server_poll_fd (e : E) c e' c' : server_poll e c = (e', c', true) -> c' = c /\ exists k, sc_fd c = Some (S k).
Proof.
  unfold server_poll. destruct (sc_fd c) as [[|k]|] eqn:Ef; try by intros [=].
  destruct (env_poll e) as [e1 []]; try by intros [=].
  - intros [= _ <-]. by eauto.
  - unfold server_disconnect. rewrite Ef. by intros [=].
  - unfold server_disconnect. rewrite Ef. by intros [=].
Qed.

Lemma holds_set_again (w : world Q) ls q x y l l' :
  holds (set_queue w q x) (<[q := l]> ls) -> fq_rep y l' -> holds (set_queue (set_queue w q x) q y) (<[q := l']> ls).
Proof.
  intros Hh Hy. pose proof (holds_set _ _ q y l' Hh Hy) as H2. by rewrite list_insert_insert_eq in H2.
Qed.

Lemma dropped_update (w : world Q) i f j :
  (forall s, n_dropped (s_counters (f s)) = n_dropped (s_counters s)) -> dropped (update w i f) j = dropped w j.
Proof.
  intros Hf. unfold dropped. cbn. destruct (decide (i = j)) as [->|Hne].
  - rewrite list_lookup_alter_eq. destruct (servers w !! j) as [s|]; [|done]. cbn. by rewrite Hf.
  - by rewrite list_lookup_alter_ne.
Qed.

(** What becomes of the queue and the metrics taken from it. *)
Definition batch_outcome (l : list (list Z)) (bsize : nat) (ret : Z) (freed l' : list (list Z)) : Prop :=
  (ret = -1 /\ freed = [] /\ l' = l) \/
  (ret = -1 /\ exists k, freed = take k (take bsize l) /\ l' = reverse (drop k (take bsize l)) ++ drop bsize l) \/
  (ret = Z.of_nat (length (take bsize l)) /\ freed = take bsize l /\ l' = drop bsize l).

Lemma server_queuesend_spec (w : world Q) ls e self squeue source n s c x l :
  holds w ls -> servers w !! self = Some s -> s_conns s !! n = Some c ->
  queues w !! squeue = Some x -> ls !! squeue = Some l -> fq_rep x l ->
  exists w' e' ret freed l', server_queuesend w e self squeue source n = Some (w', e', ret, freed) /\
    holds w' (<[squeue := l']> ls) /\ batch_outcome l (s_bsize s) ret freed l' /\
    (forall i, dropped w' i = dropped w i).
Proof.
  intros Hh Hs Hc Hx Hl Hr. unfold server_queuesend. rewrite Hs. run_binds. rewrite Hc. run_binds.
  assert (forall (w : world Q) c, holds (set_conn w self n c) = holds w) as Hset by done.
  assert (forall (v : world Q) (c : servercon) i, servers v = servers w -> dropped (set_conn v self n c) i = dropped w i) as Hdr.
  { intros v c' i Hv. unfold set_conn. rewrite dropped_update by done. unfold dropped. by rewrite Hv. }
  destruct (server_poll e c) as [[e1 c1] [|]] eqn:Ep.
  2: { eexists _, _, _, _, l. split; [done|]. rewrite list_insert_id by done. split_and!; [done|by left|]. intros i. by apply Hdr. }
  apply server_poll_fd in Ep as [-> [k Hk]]. rewrite Hx. run_binds.
  pose proof (fq_cap_law x l Hr) as Hcap.
  destruct (fq_dequeue_vector_law x l (s_bsize s) Hr) as (x1 & -> & Hr1 & Hsz). run_binds.
  pose proof (holds_set w ls squeue x1 _ Hh Hr1) as Hh1. rewrite length_fmap.
  destruct (decide (length (take (s_bsize s) l) = 0%nat)) as [Hz|Hnz].
  { rewrite Hk. eexists _, _, _, _, (drop (s_bsize s) l). split; [done|]. split_and!; [done| |].
    - right. right. apply nil_length_inv in Hz. by rewrite Hz.
    - intros i. by apply Hdr. }
  rewrite until_null_Some.
  destruct (send_batch e1 (c_with_flags c true (sc_running c)) 0 0 0 (take (s_bsize s) l)) as [[[e2 c2] total] flushed].
  destruct (if (flushed <? total)%nat then _ else _) as [e3 c3].
  destruct (sc_fd c3) as [fd|].
  { eexists _, _, _, _, (drop (s_bsize s) l). split; [done|]. split_and!; [done|by right; right|]. intros i. by apply Hdr. }
  cbn [queues set_conn update set_queue]. rewrite list_lookup_insert_eq by by eapply lookup_lt_Some. run_binds.
  destruct (putback_loop_spec x1 (drop (s_bsize s) l) (drop flushed (take (s_bsize s) l)) Hr1) as (x2 & -> & Hr2).
  { rewrite !length_drop, length_take. lia. }
  run_binds. eexists _, _, _, _, _. split; [done|]. rewrite app_nil_r. split_and!.
  - exact (holds_set_again w ls squeue x1 x2 _ _ Hh1 Hr2).
  - right. left. split; [done|]. by exists flushed.
  - intros i. rewrite dropped_update by (intros s0; cbn; lia). by apply (Hdr w).
Qed.

(** ** What goes out *)

Section Wire.
(** What the kernel has taken so far. *)
Context (wire : E -> list Z).

(** [write] takes a prefix of what it is given; the other calls send nothing. *)
Record wire_laws : Prop := {
  wl_write : forall e p, exists k, wire (env_write e p).1 = wire e ++ take k p /\
               match (env_write e p).2 with Wrote n => n = k /\ (n <= length p)%nat | _ => k = 0%nat end;
  wl_poll : forall e, wire (env_poll e).1 = wire e;
}.
Context (Hwire : wire_laws).

Lemma flush_loop_wire cnt e p e' : flush_loop cnt e p = (e', true) -> wire e' = wire e ++ p.
Proof.
  revert e p. induction cnt as [|cnt IH]; intros e p; cbn [flush_loop]; [done|].
  destruct (wl_write Hwire e p) as (k & Hk & Hn). destruct (env_write e p) as [e1 r]. cbn [fst snd] in Hk, Hn.
  destruct r as [n| |]; [|intros Hf%IH; by rewrite Hf, Hk, Hn, app_nil_r|done].
  destruct Hn as [<- Hle]. destruct (decide (n = length p)) as [->|Hne].
  - intros [= <-]. by rewrite Hk, firstn_all.
  - pose proof (wl_poll Hwire e1) as Hp. destruct (env_poll e1) as [e2 r2]. cbn in Hp.
    intros Hf%IH. by rewrite Hf, Hp, Hk, <- (assoc_L (++)), take_drop.
Qed.

Lemma sockflush_wire (e : E) (c : servercon) e' c' :
  sockflush e c = (e', c', true) -> wire e' = wire e ++ sc_obuf c /\ c' = c_with_fd c (sc_fd c) [].
Proof.
  unfold sockflush. destruct (sc_obuf c) as [|b o] eqn:Eo.
  - intros [= <- <-]. rewrite app_nil_r. split; [done|]. destruct c. cbn in *. by subst.
  - destruct (flush_loop SERVER_MAX_SEND e (b :: o)) as [e1 ok] eqn:Ef. intros [= <- <- ->].
    by apply flush_loop_wire in Ef.
Qed.

(** Sockets that are always writable, and writes that get everything out. *)
Context (Hpoll : forall e, (env_poll e).2 = PollOut) (Hflush : forall e p, (flush_loop SERVER_MAX_SEND e p).2 = true).

Lemma sockflush_all (e : E) c : exists e', sockflush e c = (e', c_with_fd c (sc_fd c) [], true) /\ wire e' = wire e ++ sc_obuf c.
Proof.
  destruct (sockflush e c) as [[e' c'] ok] eqn:Ef. assert (ok = true) as ->.
  { revert Ef. unfold sockflush. destruct (sc_obuf c) as [|b o]; [by intros [=]|].
    pose proof (Hflush e (b :: o)) as Hf. destruct (flush_loop _ _ _) as [e1 ok1]. cbn in Hf. subst ok1. by intros [=]. }
  apply sockflush_wire in Ef as [Hw ->]. by eexists.
Qed.

Lemma server_poll_all (e : E) c k : sc_fd c = Some (S k) -> exists e', server_poll e c = (e', c, true) /\ wire e' = wire e.
Proof.
  intros Hk. unfold server_poll. rewrite Hk. pose proof (Hpoll e) as Hp. pose proof (wl_poll Hwire e) as Hw.
  destruct (env_poll e) as [e1 r]. cbn in Hp, Hw. subst r. by eexists.
Qed.

Lemma send_batch_wire ms (e : E) c sended total flushed k :
  Forall (fun m => Z.of_nat (length m) <= METRIC_BUFSIZ) ms -> sc_fd c = Some (S k) -> (flushed + sended)%nat = total ->
  exists e' c' flushed', send_batch e c sended total flushed ms = (e', c', (total + length ms)%nat, flushed') /\
    wire e' ++ sc_obuf c' = wire e ++ sc_obuf c ++ concat ms /\ sc_fd c' = Some (S k) /\
    ((0 < sended)%nat \/ ms <> [] -> (flushed' < total + length ms)%nat).
Proof.
  revert e c sended total flushed. induction ms as [|m ms IH]; intros e c sended total flushed Hms Hk Ht; cbn [send_batch].
  { eexists _, _, _. split; [by rewrite Nat.add_0_r|]. cbn. rewrite app_nil_r. split_and!; [done|done|]. intros [?|?]; [lia|done]. }
  apply Forall_cons in Hms as [Hm Hms]. cbn [length concat].
  replace (total + S (length ms))%nat with (S total + length ms)%nat by lia.
  destruct (sockwrite c m) as [c1|] eqn:Ew.
  - assert (c1 = c_with_fd c (sc_fd c) (sc_obuf c ++ m)) as -> by (revert Ew; unfold sockwrite; case_match; by intros [=]).
    destruct (IH e (c_with_fd c (sc_fd c) (sc_obuf c ++ m)) (S sended) (S total) flushed Hms Hk ltac:(lia)) as (e' & c' & f' & -> & Hw & Hf & Hlt).
    eexists _, _, _. split; [done|]. cbn in Hw. rewrite Hw, <- !(assoc_L (++)). split_and!; [done|done|]. intros _. apply Hlt. left. lia.
  - destruct (sockflush_all e c) as (e1 & -> & Hw1).
    destruct (server_poll_all e1 (add_metrics (c_with_fd c (sc_fd c) []) sended) k Hk) as (e2 & -> & Hw2).
    assert (sockwrite (add_metrics (c_with_fd c (sc_fd c) []) sended) m =
            Some (c_with_fd (add_metrics (c_with_fd c (sc_fd c) []) sended) (sc_fd c) m)) as ->.
    { unfold sockwrite. cbn [sc_obuf c_with_fd add_metrics c_with_stats length].
      by rewrite (proj2 (Z.ltb_ge _ _)) by lia. }
    match goal with |- context [send_batch e2 ?c2 1 _ _ ms] =>
      destruct (IH e2 c2 1%nat (S total) (flushed + sended)%nat Hms Hk ltac:(lia)) as (e' & c' & f' & -> & Hw & Hf & Hlt) end.
    eexists _, _, _. split; [done|]. cbn in Hw. rewrite Hw, Hw2, Hw1, <- !(assoc_L (++)). split_and!; [done|done|]. intros _. apply Hlt. left. lia.
Qed.

Lemma server_queuesend_wire (w : world Q) e self squeue source n s c x l k :
  servers w !! self = Some s -> s_conns s !! n = Some c -> queues w !! squeue = Some x -> fq_rep x l ->
  sc_fd c = Some (S k) -> Forall (fun m => Z.of_nat (length m) <= METRIC_BUFSIZ) l -> l <> [] -> (0 < s_bsize s)%nat ->
  exists w' e', server_queuesend w e self squeue source n = Some (w', e', Z.of_nat (length (take (s_bsize s) l)), take (s_bsize s) l) /\
    wire e' = wire e ++ sc_obuf c ++ concat (take (s_bsize s) l) /\
    (fun s => sc_obuf <$> s_conns s !! n) <$> servers w' !! self = Some (Some []).
Proof.
  intros Hs Hc Hx Hr Hk Hlen Hne Hb. unfold server_queuesend. rewrite Hs. run_binds. rewrite Hc. run_binds.
  destruct (server_poll_all e c k Hk) as (e1 & -> & Hw1). rewrite Hx. run_binds.
  destruct (fq_dequeue_vector_law x l (s_bsize s) Hr) as (x1 & -> & _). run_binds. rewrite length_fmap.
  assert (take (s_bsize s) l <> []) as Hms by (destruct l, (s_bsize s); [done..|lia|done]).
  rewrite decide_False by (intros Hz; by apply nil_length_inv in Hz). rewrite until_null_Some.
  destruct (send_batch_wire (take (s_bsize s) l) e1 (c_with_flags c true (sc_running c)) 0 0 0 k) as (e2 & c2 & f2 & -> & Hw2 & Hk2 & Hlt);
    [by apply Forall_take|done|done|].
  rewrite (proj2 (Nat.ltb_lt _ _)) by (apply Hlt; by right).
  destruct (server_poll_all e2 c2 k Hk2) as (e3 & -> & Hw3). destruct (sockflush_all e3 c2) as (e4 & -> & Hw4).
  cbn [sc_fd c_with_fd]. rewrite Hk2. eexists _, _. split; [done|]. split.
  - rewrite Hw4, Hw3, Hw2. cbn. by rewrite Hw1.
  - cbn. rewrite list_lookup_alter_eq, Hs. cbn. rewrite list_lookup_insert_eq by by eapply lookup_lt_Some.
    by destruct (0 <? sc_failure c2).
Qed.
End Wire.

(** ** The idle counter and the end of a thread *)

Lemma queueread_work_idle (w : world Q) e self n qfree qsize idle0 moved o :
  queueread_work w e self n qfree qsize idle0 moved = Some o -> ro_idle o = idle0 \/ ro_idle o = 0.
Proof.
  unfold queueread_work. destruct (servers w !! self) as [s|]; run_binds; [|done].
  destruct (s_conns s !! n) as [c|]; run_binds; [|done]. destruct (env_clock e) as [e1 start].
  destruct (match sc_fd c with Some _ => _ | None => _ end) as [e2 c2].
  destruct (sc_fd c2).
  - destruct (if (qfree <? qsize)%nat then _ else _) as [[[w1 e3] len]|]; run_binds; [|done].
    destruct (len <? 0); [intros [= <-]; by left|].
    destruct (if negb (s_shared_queue s) then _ else _) as [[[[w2 e4] ret] len2]|]; run_binds; [|done].
    destruct (env_clock e4) as [e5 stop]. intros [= <-]. cbn. destruct moved; auto.
  - destruct (env_clock e2) as [e3 stop]. intros [= <-]. by left.
Qed.

Lemma server_queueread_idle (w : world Q) e self n shutdown idle0 o :
  server_queueread w e self n shutdown idle0 = Some o -> ro_idle o = idle0 \/ ro_idle o = 0.
Proof.
  unfold server_queueread. destruct (servers w !! self) as [s|]; run_binds; [|done].
  destruct (queues w !! s_queue s) as [q|]; run_binds; [|done]. destruct (s_conns s !! n) as [c|]; run_binds; [|done].
  match goal with |- context [if ?b then failover_scan ?v self (s_secondaries s) else Some None] =>
    destruct (if b then failover_scan v self (s_secondaries s) else Some None) as [scan|] end; run_binds; [|done].
  destruct (idle_check e s c idle0) as [[e1 c1] moved].
  destruct scan as [[]|]; [|intros [= <-]; by left|]; destruct (decide (fq_free q = fq_size q)).
  2, 4: apply queueread_work_idle.
  all: destruct (negb (bool_decide (s_secondaries s = []))); [|intros [= <-]; by left].
  all: match goal with |- context [if ?a then Some true else ?b] =>
    destruct (if a then Some true else b) as [[]|] end; run_binds;
    [apply queueread_work_idle|intros [= <-]; by left|done].
Qed.

Lemma queuereader_turn_idle timeout (w : world Q) e self n r w' e' r' go_on :
  queuereader_turn timeout w e self n r = Some (w', e', r', go_on) -> r_idle r = 0 -> r_idle r' = 0.
Proof.
  unfold queuereader_turn. destruct (servers w !! self) as [s|]; run_binds; [|done].
  destruct (s_keep_running s =? SERVER_STOP_FORCE); [by intros [= <- <- <- <-]|].
  destruct (if r_shutdown_init r =? s_keep_running s then _ else _) as [e1 r1] eqn:Er. intros Ht Hr.
  assert (r_idle r1 = 0) as Hr1.
  { revert Er. destruct (r_shutdown_init r =? s_keep_running s); [by intros [= _ <-]|]. destruct (env_seconds e) as [e2 now]. by intros [= _ <-]. }
  destruct (server_queueread w e1 self n (s_keep_running s) (r_idle r1)) as [o|] eqn:Eo; run_binds; [|done].
  revert Ht. run_binds. apply server_queueread_idle in Eo. assert (ro_idle o = 0) as Ho by (rewrite Hr1 in Eo; tauto).
  destruct (s_keep_running s =? SERVER_STOP).
  - destruct (env_seconds (ro_env o)) as [e3 ended]. destruct (timeout <=? _); [by intros [= _ _ <- _]|].
    destruct (bool_decide _); [by intros [= _ _ <- _]|]. destruct (still_working _ _ _); run_binds; [|done]. by intros [= _ _ <- _].
  - destruct (0 <? s_ttl s); [|by intros [= _ _ <- _]]. destruct (env_seconds (ro_env o)) as [e3 ended].
    destruct (s_ttl s <=? _); [|by intros [= _ _ <- _]].
    match goal with |- context [servers ?v !! self] => destruct (servers v !! self) as [s2|] end; run_binds; [|done].
    destruct (s_conns s2 !! n) as [c2|]; run_binds; [|done]. destruct (server_disconnect e3 c2) as [e4 c3]. by intros [= _ _ <- _].
Qed.

End Sending.

(** ** Concrete servers, for evaluating the theorems *)

(** A network: what the kernel took, and what the next polls and writes answer (then
    everything goes well). *)
Record demo_net := mkNet { dn_wire : list Z; dn_polls : list poll_result; dn_writes : list write_result }.
#[export] Instance demo_net_env : ServerEnv demo_net := {|
  env_poll := fun e => match dn_polls e with
                       | [] => (e, PollOut)
                       | r :: rs => (mkNet (dn_wire e) rs (dn_writes e), r)
                       end;
  env_write := fun e p =>
    match dn_writes e with
    | [] => (mkNet (dn_wire e ++ p) (dn_polls e) [], Wrote (length p))
    | Wrote n :: rs => (mkNet (dn_wire e ++ take n p) (dn_polls e) rs, Wrote (length (take n p)))
    | r :: rs => (mkNet (dn_wire e) (dn_polls e) rs, r)
    end;
  env_close := id;
  env_connect := fun e _ _ => (e, 0%nat, Some 3%nat);
  env_clock := fun e => (e, mkTv 0 0);
  env_seconds := fun e => (e, 0);
|}.

(** A network where everything goes well: just what the kernel took. *)
Definition calm_env : ServerEnv (list Z) := {|
  env_poll := fun e => (e, PollOut);
  env_write := fun e p => (e ++ p, Wrote (length p));
  env_close := id;
  env_connect := fun e _ _ => (e, 0%nat, Some 3%nat);
  env_clock := fun e => (e, mkTv 0 0);
  env_seconds := fun e => (e, 0);
|}.

(** A queue of [n] cells that holds [ms]. *)
Definition demo_queue (n : nat) (ms : list (list Z)) : queue (list Z) :=
  foldl (fun q m => match queue_enqueue q m with Some (q', _) => q' | None => q end) (mkQueue (replicate n None) n 0 0 0) ms.

Lemma demo_queue_rep n ms : (0 < n)%nat -> (length ms <= n)%nat -> queue_rep (demo_queue n ms) ms /\ queue_size (demo_queue n ms) = n.
Proof.
  intros Hn. unfold demo_queue. induction ms as [|m ms IH] using rev_ind; intros Hlen; [by split; [apply queue_new_rep|]|].
  rewrite length_app in Hlen. cbn in Hlen. destruct IH as [Hr Hs]; [lia|]. rewrite foldl_snoc.
  match goal with |- context [queue_enqueue ?q m] => destruct (queue_enqueue_rep q ms m Hr) as (q' & -> & Hr' & Hs') end.
  unfold queue_size in *. rewrite Hs in Hr', Hs'.
  rewrite fifo_enqueue_room in Hr' by lia. by split.
Qed.

(** A server that owns queue [q], connected on descriptor [fd]. *)
Definition demo_server (q bsize : nat) (fd : option nat) (secs : list nat) (failure threshold keep_running : Z) : server :=
  mkServer (lit "10.0.0.1") 2003 None None false [mkCon fd [] failure true true 0 0 0 0] false q bsize threshold threshold threshold
    0 600 2 T_LINEMODE W_PLAIN CON_TCP secs false keep_running 0 (mkCounters 0 0 0 0 0 0).

(** Two servers that back each other up: the first one's queue is full, and its
    threshold asks for help from one free cell down. *)
Definition demo_pair (failure : Z) : world (queue (list Z)) :=
  mkWorld [demo_server 0 1 (Some 3%nat) [0; 1]%nat failure 1 1; demo_server 1 1 (Some 4%nat) [0; 1]%nat 0 1 1]
    [demo_queue 1 [lit "a"]; demo_queue 8 []].
Definition demo_single (bsize : nat) (ms : list (list Z)) (keep_running : Z) : world (queue (list Z)) :=
  mkWorld [demo_server 0 bsize (Some 3%nat) [] 0 0 keep_running] [demo_queue 3 ms].

Lemma demo_pair_holds failure : holds (demo_pair failure) [[lit "a"]; []].
Proof. repeat constructor; apply demo_queue_rep; cbn; lia. Qed.
Lemma demo_pair_ok failure : world_ok (demo_pair failure).
Proof.
  split.
  - intros [|[|i]] s; [intros [= <-]; cbn; lia|intros [= <-]; cbn; lia|done].
  - intros [|[|i]] s j; [intros [= <-]|intros [= <-]|done]; intros Hj;
      repeat (apply elem_of_cons in Hj as [->|Hj]; [cbn; lia|]); by apply elem_of_nil in Hj.
  - intros [|[|q]] x; [intros [= <-]; vm_compute; lia|intros [= <-]; vm_compute; lia|done].
Qed.

(** ** Properties *)

(** C23: Sending a metric to a server never loses count of it: the call always
    returns; when it accepts, the metric is added to exactly one queue, at its end,
    and at most the oldest metric of that queue is freed, which the server's
    [dropped] counts; another server's queue is only chosen while the server has
    not failed, and has more room, so that nothing is freed there.  When it
    refuses, the server's queue is full, the queues are unchanged, and the caller
    did not force. *)
Theorem server_send_conserves {Q : Type} `{FifoQueue Q (list Z)} (w : world Q) (ls : list (list (list Z)))
    (self : nat) (s : server) (d : list Z) (force : bool) :
  world_ok w -> holds w ls -> servers w !! self = Some s ->
  exists w' freed ok, server_send w self d force = Some (w', freed, ok) /\
    if ok then sent w w' ls self s d freed
    else exists own l, queues w !! s_queue s = Some own /\ ls !! s_queue s = Some l /\ length l = fq_size own /\
      force = false /\ freed = [] /\ holds w' ls /\ s_stallseq s <> s_maxstalls s /\ servers w' !! self = Some (add_stall s).
Proof. apply server_send_spec. Qed.

Lemma server_send_conserves_witness :
  (exists w', server_send (demo_pair 0) 0 (lit "b") false = Some (w', [], true) /\
     queues w' !! 1%nat = Some (demo_queue 8 [lit "b"])) /\
  (exists w', server_send (demo_pair 1) 0 (lit "b") true = Some (w', [Some (lit "a")], true)) /\
  exists w' freed ok, server_send (demo_pair 0) 0 (lit "b") false = Some (w', freed, ok) /\
    (ok = true -> sent (demo_pair 0) w' [[lit "a"]; []] 0 (demo_server 0 1 (Some 3%nat) [0; 1]%nat 0 1 1) (lit "b") freed).
Proof.
  split; [eexists; split; vm_compute; reflexivity|]. split; [eexists; vm_compute; reflexivity|].
  destruct (server_send_conserves (demo_pair 0) [[lit "a"]; []] 0 (demo_server 0 1 (Some 3%nat) [0; 1]%nat 0 1 1) (lit "b") false
    (demo_pair_ok 0) (demo_pair_holds 0) eq_refl) as (w' & freed & ok & Hs & Hok).
  exists w', freed, ok. split; [exact Hs|]. intros ->. exact Hok.
Defined.

(** A full queue stalls its clients a bounded number of times: a server refuses
    at most [maxstalls] metrics in a row (less those already counted), after which
    it accepts and drops the oldest. *)
Theorem server_stalls_bounded {Q : Type} `{FifoQueue Q (list Z)} (self n : nat) (w w' : world Q) (s : server) :
  refused self n w w' -> servers w !! self = Some s -> 0 <= s_stallseq s <= s_maxstalls s -> s_maxstalls s < 256 ->
  Z.of_nat n <= s_maxstalls s - s_stallseq s.
Proof. apply refused_bound. Qed.

Lemma server_stalls_bounded_witness :
  let w := demo_single 1 [lit "a"; lit "b"; lit "c"] 1 in
  let w' := update (update w 0 add_stall) 0 add_stall in
  refused 0 2 w w' /\ Z.of_nat 2 <= 2 - 0 /\
  exists w2, server_send w' 0 (lit "d") false = Some (w2, [Some (lit "a")], true).
Proof.
  intros w w'.
  assert (refused 0 2 w w') as Hr.
  { eapply (refused_one 0 1 _ _ _ (lit "d")); [reflexivity|]. eapply (refused_one 0 0 _ _ _ (lit "d")); [reflexivity|].
    apply refused_none. }
  split; [exact Hr|]. split; [|eexists; reflexivity].
  exact (server_stalls_bounded 0 2 w w' (demo_server 0 1 (Some 3%nat) [] 0 0 1) Hr eq_refl
    ltac:(cbn; lia) ltac:(cbn; lia)).
Defined.

(** A batch is accounted for.  Whatever the network does, sending from a queue
    returns, and either nothing was taken, or the connection was closed and the
    metrics from some point of the batch on are back at the front of the queue (in
    reverse), the others freed, or the whole batch was taken and freed.  Nothing
    is counted as dropped. *)
Theorem queuesend_conserves {Q E : Type} `{FifoQueue Q (list Z)} `{ServerEnv E} (w : world Q) (ls : list (list (list Z)))
    (e : E) (self squeue source n : nat) (s : server) (c : servercon) (x : Q) (l : list (list Z)) :
  holds w ls -> servers w !! self = Some s -> s_conns s !! n = Some c ->
  queues w !! squeue = Some x -> ls !! squeue = Some l -> fq_rep x l ->
  exists w' e' ret freed l', server_queuesend w e self squeue source n = Some (w', e', ret, freed) /\
    holds w' (<[squeue := l']> ls) /\ batch_outcome l (s_bsize s) ret freed l' /\
    (forall i, dropped w' i = dropped w i).
Proof. apply server_queuesend_spec. Qed.

Lemma queuesend_conserves_witness :
  let w := demo_single 3 [lit "a"; lit "b"; lit "c"] 1 in
  (exists w' e', server_queuesend w (mkNet [] [] [WriteError]) 0 0 0 0 = Some (w', e', -1, []) /\
     snd <$> (x ← queues w' !! 0%nat; queue_dequeue_vector x 3) = Some [Some (lit "c"); Some (lit "b"); Some (lit "a")]) /\
  exists w' e' ret freed l', server_queuesend w (mkNet [] [] [WriteError]) 0 0 0 0 = Some (w', e', ret, freed) /\
    batch_outcome [lit "a"; lit "b"; lit "c"] 3 ret freed l'.
Proof.
  intros w. split; [eexists _, _; split; vm_compute; reflexivity|].
  assert (queue_rep (demo_queue 3 [lit "a"; lit "b"; lit "c"]) [lit "a"; lit "b"; lit "c"]) as Hr by (apply demo_queue_rep; cbn; lia).
  destruct (queuesend_conserves w [[lit "a"; lit "b"; lit "c"]] (mkNet [] [] [WriteError]) 0 0 0 0
    (demo_server 0 3 (Some 3%nat) [] 0 0 1) (mkCon (Some 3%nat) [] 0 true true 0 0 0 0)
    (demo_queue 3 [lit "a"; lit "b"; lit "c"]) [lit "a"; lit "b"; lit "c"]
    ltac:(apply Forall2_cons_2; [exact Hr|apply Forall2_nil_2]) eq_refl eq_refl eq_refl eq_refl Hr) as (w' & e' & ret & freed & l' & Hq & _ & Hb & _).
  exists w', e', ret, freed, l'. split; [exact Hq|exact Hb].
Defined.

(** C25: On a plain connection that works, the bytes of a batch reach the kernel
    exactly, in order and once: what was left in the stream's buffer, then the
    metrics in the order of the queue, however often the buffer had to be flushed
    in between and however the writes were split; nothing stays in the buffer. *)
Theorem queuesend_delivers {Q E : Type} `{FifoQueue Q (list Z)} `{ServerEnv E} (wire : E -> list Z) (w : world Q)
    (e : E) (self squeue source n : nat) (s : server) (c : servercon) (x : Q) (l : list (list Z)) (k : nat) :
  wire_laws wire -> (forall e, (env_poll e).2 = PollOut) -> (forall e p, (flush_loop SERVER_MAX_SEND e p).2 = true) ->
  servers w !! self = Some s -> s_conns s !! n = Some c -> queues w !! squeue = Some x -> fq_rep x l ->
  sc_fd c = Some (S k) -> Forall (fun m => Z.of_nat (length m) <= METRIC_BUFSIZ) l -> l <> [] -> (0 < s_bsize s)%nat ->
  exists w' e', server_queuesend w e self squeue source n = Some (w', e', Z.of_nat (length (take (s_bsize s) l)), take (s_bsize s) l) /\
    wire e' = wire e ++ sc_obuf c ++ concat (take (s_bsize s) l) /\
    (fun s => sc_obuf <$> s_conns s !! n) <$> servers w' !! self = Some (Some []).
Proof. intros Hwire Hpoll Hflush. by apply server_queuesend_wire. Qed.

Lemma queuesend_delivers_witness :
  let w := demo_single 2 [lit "a"; lit "b"; lit "c"] 1 in
  exists w' e', @server_queuesend _ (list Z) _ calm_env w [] 0 0 0 0 = Some (w', e', 2, [lit "a"; lit "b"]) /\ e' = lit "ab".
Proof.
  intros w.
  assert (queue_rep (demo_queue 3 [lit "a"; lit "b"; lit "c"]) [lit "a"; lit "b"; lit "c"]) as Hr by (apply demo_queue_rep; cbn; lia).
  destruct (@queuesend_delivers _ (list Z) _ calm_env id w [] 0 0 0 0
    (demo_server 0 2 (Some 3%nat) [] 0 0 1) (mkCon (Some 3%nat) [] 0 true true 0 0 0 0)
    (demo_queue 3 [lit "a"; lit "b"; lit "c"]) [lit "a"; lit "b"; lit "c"] 2) as (w' & e' & Hq & He & _).
  - split; [|reflexivity]. intros e p. exists (length p). cbn. rewrite firstn_all. split; [reflexivity|lia].
  - reflexivity.
  - intros e p. cbn. case_decide; done.
  - reflexivity.
  - reflexivity.
  - reflexivity.
  - exact Hr.
  - reflexivity.
  - repeat constructor; cbn; unfold METRIC_BUFSIZ; lia.
  - discriminate.
  - cbn; lia.
  - exists w', e'. split; [exact Hq|exact He].
Defined.

(** Two ways to lose metrics.  A peer that hangs up before the last flush is not
    disconnected, so the batch is freed although none of it was written (and the
    call reports all of it as sent); and a server without secondaries that is told
    to stop sends a single batch and leaves the rest of its queue behind. *)
Theorem batches_can_be_lost :
  (let w := demo_single 3 [lit "a"; lit "b"; lit "c"] 1 in
   match server_queuesend w (mkNet [] [PollOut; PollHup] []) 0 0 0 0 with
   | Some (w', e', ret, freed) =>
       ret = 3 /\ freed = [lit "a"; lit "b"; lit "c"] /\ dn_wire e' = [] /\ fq_len <$> queues w' !! 0%nat = Some 0%nat
   | None => False
   end) /\
  (let w := demo_single 1 [lit "a"; lit "b"; lit "c"] SERVER_STOP in
   match server_queuereader 5 120 w (mkNet [] [] []) 0 0 with
   | Some (w', e') => dn_wire e' = lit "a" /\ fq_len <$> queues w' !! 0%nat = Some 2%nat
   | None => False
   end).
Proof. vm_compute. done. Qed.

(** An idle connection is never closed: [*idle++] moves the pointer and leaves
    the counter alone, so the counter of a reader stays 0 in every turn, and 0
    never exceeds [DISCONNECT_WAIT_TIME]; moreover the next [*idle = 0] can write
    to the byte after it. *)
Theorem idle_never_disconnects :
  (forall (Q E : Type) (HQ : FifoQueue Q (list Z)) (HE : ServerEnv E) timeout (w w' : world Q) (e e' : E) self n r r' go_on,
     queuereader_turn timeout w e self n r = Some (w', e', r', go_on) -> r_idle r = 0 -> r_idle r' = 0) /\
  (forall (E : Type) (HE : ServerEnv E) (e : E) s c, (idle_check e s c 0).1 = (e, c)) /\
  (let w := mkWorld [demo_server 0 1 (Some 3%nat) [0; 1]%nat 0 1 1; demo_server 1 1 (Some 4%nat) [0; 1]%nat 0 1 1]
              [demo_queue 2 []; demo_queue 2 []] in
   ro_overrun <$> server_queueread w (mkNet [] [] []) 0 0 SERVER_KEEP_RUNNING 0 = Some true).
Proof.
  split_and!.
  - intros. by eapply queuereader_turn_idle.
  - intros E HE e s c. unfold idle_check. by destruct (_ && _).
  - vm_compute. done.
Qed.
