(* ===== verification/Streams.v ===== *)
(** * Streams and connecting (src/server.c, [z_strm] and [server_connect])

    A connection writes to a stream: a socket, or an SSL session, possibly behind a
    compressor that has a buffer of its own.  [Server] has the plain socket's
    stream built in; here are all of them, as [server_new] chains them, and
    [server_connect], which opens the descriptor and prepares the chain.

    zlib, LZ4, snappy, OpenSSL and the system calls are the classes [Codecs] and
    [NetEnv]; what the code relies on is in [CodecLaws].  The SSL context, socket
    options, which are set without looking at the result, and the messages logged
    are not modelled. *)
From S2P Require Import Prelude Relay Queue Server.
#[local] Open Scope Z_scope.

(** ** Libraries and system calls *)

(** [deflate] with [Z_PARTIAL_FLUSH], on the input and the room for output: was it
    [Z_OK], what is left of the input, and the output.  The compressors get the
    size of the output buffer. *)
Class Codecs := {
  gz_state : Type;
  deflate : gz_state -> list Z -> nat -> gz_state * bool * list Z * list Z;
  LZ4F_compressFrameBound : Z -> Z;
  LZ4F_compressFrame : Z -> list Z -> option (list Z);
  snappy_compress : Z -> list Z -> option (list Z);
}.

(** [SSL_write]: bytes written, interrupted, [SSL_ERROR_WANT_READ] or [_WRITE], or
    another error. *)
Inductive ssl_result := SslWrote (n : nat) | SslIntr | SslWant | SslError.
(** [connect], and what [poll] says of a connection in progress. *)
Inductive connect_result := Connected | InProgress | Refused.
Inductive pending_result := PendingTimeout | PendingError | PendingHup | PendingReady.
(** The three steps that set up an SSL session. *)
Inductive ssl_setup := SslSetFdFailed | SslConnectFailed | SslVerifyFailed | SslReady.

Class NetEnv (E : Type) `{Codecs} := {
  net_ssl_write : E -> list Z -> E * ssl_result;
  net_getaddrinfo : E -> cstring -> Z -> E * option (list addrinfo);
  net_pipe : E -> E * option (nat * nat);
  net_addconnection : E -> nat -> E * bool;
  net_open : E -> cstring -> E * option nat;
  net_socket : E -> addrinfo -> E * option nat;
  net_fcntl : E -> nat -> bool -> E * bool;   (* set or clear O_NONBLOCK *)
  net_connect : E -> nat -> addrinfo -> E * connect_result;
  net_poll : E -> nat -> E * pending_result;
  net_close : E -> nat -> E;
  net_deflateInit : E -> E * option gz_state;   (* with the allocation *)
  net_alloc : E -> E * bool;
  net_ssl : E -> nat -> E * ssl_setup;
}.

Section Streams.
Context {E : Type} `{ServerEnv E} `{Codecs} `{!NetEnv E}.

(** ** Streams *)

(** [z_strm], by its functions: the two at the end of a chain, and the compressors,
    whose [nextstrm] is one of these; [obuf] and the handle. *)
Inductive base := SockStrm (obuf : list Z) | SslStrm (obuf : list Z).
Inductive strm :=
  | Direct (s : base)
  | GzipStrm (gz : option gz_state) (obuf : list Z) (next : base)
  | LzStrm (cbuflen : Z) (obuf : list Z) (next : base)
  | SnappyStrm (obuf : list Z) (next : base).

Definition base_obuf (s : base) : list Z := match s with SockStrm b | SslStrm b => b end.
Definition base_with_obuf (s : base) (b : list Z) : base :=
  match s with SockStrm _ => SockStrm b | SslStrm _ => SslStrm b end.
Definition obuf (s : strm) : list Z :=
  match s with Direct s => base_obuf s | GzipStrm _ b _ | LzStrm _ b _ | SnappyStrm b _ => b end.
Definition with_obuf (s : strm) (b : list Z) : strm :=
  match s with
  | Direct s => Direct (base_with_obuf s b) | GzipStrm gz _ next => GzipStrm gz b next
  | LzStrm l _ next => LzStrm l b next | SnappyStrm _ next => SnappyStrm b next
  end.

(** [strmwrite], which is the same for all: [None] is [ENOBUFS]. *)
Definition append (b buf : list Z) : option (list Z) :=
  if METRIC_BUFSIZ <? Z.of_nat (length b) + Z.of_nat (length buf) then None else Some (b ++ buf).
Definition base_write (s : base) (buf : list Z) : option base := base_with_obuf s <$> append (base_obuf s) buf.
Definition strmwrite (s : strm) (buf : list Z) : option strm := with_obuf s <$> append (obuf s) buf.

(** The loop of [sslflush]. *)
Fixpoint ssl_loop (cnt : nat) (e : E) (p : list Z) : E * bool :=
  match cnt with
  | O => (e, false)
  | S cnt' =>
      let '(e, r) := net_ssl_write e p in
      match r with
      | SslWrote n => if decide (n = length p) then (e, true) else ssl_loop cnt' e (drop n p)
      | SslIntr | SslWant => ssl_loop cnt' e p
      | SslError => (e, false)
      end
  end.

(** [sockflush] and [sslflush]; the whole buffer stays when they fail. *)
Definition base_flush (e : E) (s : base) : E * base * bool :=
  match base_obuf s with
  | [] => (e, s, true)
  | b =>
      let '(e, ok) := match s with SockStrm _ => flush_loop SERVER_MAX_SEND e b | SslStrm _ => ssl_loop SERVER_MAX_SEND e b end in
      (e, if ok : bool then base_with_obuf s [] else s, ok)
  end.

(** The loop of [gzipflush] over [next_in]: the handle, the next stream, and
    whether [deflate] and the writes went well.  A full output buffer ends it. *)
Fixpoint gzip_loop (fuel : nat) (gz : gz_state) (next_in : list Z) (next : base) : option (gz_state * base * bool) :=
  match fuel with
  | O => None
  | S fuel' =>
      let '(gz, ok, rest, out) := deflate gz next_in (Z.to_nat METRIC_BUFSIZ) in
      if negb ok then Some (gz, next, false)
      else if decide (length out = Z.to_nat METRIC_BUFSIZ) then Some (gz, next, true)
      else
        match (if decide (out = []) then Some next else base_write next out) with
        | None => Some (gz, next, false)
        | Some next => if decide (rest = []) then Some (gz, next, true) else gzip_loop fuel' gz rest next
        end
  end.

(** The end of a compressor's flush: the next stream is flushed, and then [b] is gone. *)
Definition flush_next (e : E) (next : base) (b : list Z) (wrap : list Z -> base -> strm) : E * strm * bool :=
  let '(e, next, ok) := base_flush e next in (e, wrap (if ok : bool then [] else b) next, ok).

(** [gzipflush]: without a handle, [deflate] is undefined. *)
Definition gzipflush (e : E) (gz : option gz_state) (b : list Z) (next : base) : option (E * strm * bool) :=
  gz ← gz;
  '(gz, next, ok) ← gzip_loop (S (length b)) gz b next;
  if ok : bool then Some (flush_next e next b (GzipStrm (Some gz))) else Some (e, GzipStrm (Some gz) b next, false).
Definition lzflush (e : E) (cbuflen : Z) (b : list Z) (next : base) : E * strm * bool :=
  match b with
  | [] => (e, LzStrm cbuflen b next, true)
  | _ =>
      match (f ← LZ4F_compressFrame cbuflen b; base_write next f) with
      | None => (e, LzStrm cbuflen b next, false)
      | Some next => flush_next e next b (LzStrm cbuflen)
      end
  end.
Definition snappyflush (e : E) (b : list Z) (next : base) : E * strm * bool :=
  match (f ← snappy_compress METRIC_BUFSIZ b; if decide (f = []) then Some next else base_write next f) with
  | None => (e, SnappyStrm b next, false)
  | Some next => flush_next e next b SnappyStrm
  end.

(** [strmflush]: the stream after it, and whether it returned 0. *)
Definition strmflush (e : E) (s : strm) : option (E * strm * bool) :=
  match s with
  | Direct s => let '(e, s, ok) := base_flush e s in Some (e, Direct s, ok)
  | GzipStrm gz b next => gzipflush e gz b next
  | LzStrm cbuflen b next => Some (lzflush e cbuflen b next)
  | SnappyStrm b next => Some (snappyflush e b next)
  end.

(** [strmerror]: the text, and the buffer for SSL's, which all threads share.  A compressor leaves it to the stream behind it. *)
Definition out_strmerror (s : strm) (sslbuf : cstring) (ssl_err : Z) (strerror queued : cstring) : cstring * cstring :=
  let b := match s with Direct b | GzipStrm _ _ b | LzStrm _ _ b | SnappyStrm _ b => b end in
  match b with
  | SslStrm _ => let t := sslerror sslbuf ssl_err strerror queued in (t, t)
  | SockStrm _ => (strerror, sslbuf)
  end.

(** [strmclose] on descriptor [fd]: the compressors free their handle, and no
    buffer is emptied. *)
Definition strmclose (e : E) (s : strm) (fd : nat) : E * strm :=
  (net_close e fd,
   match s with GzipStrm _ b next => GzipStrm None b next | LzStrm _ b next => LzStrm 0 b next | Direct _ | SnappyStrm _ _ => s end).

(** The chain that [server_new] builds for a transport. *)
Definition compressor (transport : Z) : Z := Z.land transport 65535.
Definition has_ssl (transport : Z) : bool := Z.ldiff transport 65535 =? W_SSL.
Definition new_strm (transport : Z) : strm :=
  let inner := if has_ssl transport then SslStrm [] else SockStrm [] in
  let c := compressor transport in
  if c =? W_GZIP then GzipStrm None [] inner
  else if c =? W_LZ4 then LzStrm 0 [] inner
  else if c =? W_SNAPPY then SnappyStrm [] inner
  else Direct inner.

(** ** Connecting *)

(** What [server_connect] needs of a server, and the connection: the descriptor
    and the failures are in [servercon]. *)
Record peer := mkPeer {
  p_ip : cstring; p_port : Z; p_ctype : con_proto; p_transport : Z; p_reresolve : bool;
}.
Record link := mkLink { k_con : servercon; k_strm : strm; k_saddr : list addrinfo }.

Definition with_con (k : link) (c : servercon) : link := mkLink c (k_strm k) (k_saddr k).
Definition set_fd (k : link) (fd : option nat) : link := with_con k (c_with_fd (k_con k) fd (sc_obuf (k_con k))).
Definition add_failure (k : link) : link := with_con k (server_add_failure (k_con k)).1.
(** [walk->ai_next == NULL && server_add_failure(self, n)]. *)
Definition add_failure_if (b : bool) (k : link) : link := if b then add_failure k else k.

(** The address is looked up again; a failure leaves none. *)
Definition reresolve (self : peer) (e : E) (k : link) : E * link :=
  if p_reresolve self then
    let '(e, saddr) := net_getaddrinfo e (p_ip self) (p_port self) in
    match saddr with
    | Some saddr => (e, mkLink (k_con k) (k_strm k) saddr)
    | None => let k := add_failure k in (e, mkLink (k_con k) (k_strm k) [])
    end
  else (e, k).

(** Opening the descriptor: [false] when the function returns -1. *)
Definition connect_pipe (e : E) (k : link) : E * link * bool :=
  let '(e, r) := net_pipe e in
  match r with
  | None => (e, add_failure k, false)
  | Some (rd, wr) =>
      let '(e, ok) := net_addconnection e rd in
      if ok then (e, set_fd k (Some wr), true) else (e, add_failure k, false)
  end.
Definition connect_file (self : peer) (e : E) (k : link) : E * link * bool :=
  let '(e, fd) := net_open e (p_ip self) in
  match fd with
  | None => (e, add_failure k, false)
  | Some fd => (e, set_fd k (Some fd), true)
  end.

(** The loops over the addresses; every iteration returns or ends the loop. *)
Definition connect_udp (e : E) (k : link) : E * link * bool :=
  match k_saddr k with
  | [] => let k := add_failure k in (e, k, bool_decide (is_Some (sc_fd (k_con k))))
  | walk :: rest =>
      let last := bool_decide (rest = []) in
      let '(e, fd) := net_socket e walk in
      match fd with
      | None => (e, add_failure_if last (set_fd k None), false)
      | Some fd =>
          let '(e, r) := net_connect e fd walk in
          match r with
          | Connected => (e, set_fd k (Some fd), true)
          | InProgress | Refused => (net_close e fd, add_failure_if last (set_fd k None), false)
          end
      end
  end.
Definition connect_tcp (e : E) (k : link) : E * link * bool :=
  match k_saddr k with
  | [] => let k := add_failure k in (e, k, bool_decide (is_Some (sc_fd (k_con k))))
  | walk :: rest =>
      let last := bool_decide (rest = []) in
      let '(e, fd) := net_socket e walk in
      match fd with
      | None => (e, add_failure_if last (set_fd k None), false)
      | Some fd =>
          let fail e (b : bool) := (net_close e fd, add_failure_if b (set_fd k None), false) in
          let '(e, ok) := net_fcntl e fd true in
          if negb ok then fail e true
          else
            let '(e, r) := net_connect e fd walk in
            let blocking e :=
              let '(e, ok) := net_fcntl e fd false in if ok then (e, set_fd k (Some fd), true) else fail e true in
            match r with
            | Connected => blocking e
            | Refused => fail e last
            | InProgress =>
                let '(e, r) := net_poll e fd in
                match r with
                | PendingTimeout | PendingHup => fail e last
                | PendingError => fail e (negb last)
                | PendingReady => blocking e
                end
            end
      end
  end.

(** Preparing the chain on descriptor [fd]: only the first stream's [obuflen] is
    reset. *)
Definition prepare (self : peer) (e : E) (k : link) (fd : nat) : E * link * bool :=
  let s := with_obuf (k_strm k) [] in
  let '(e, s, ok) :=
    match s with
    | GzipStrm _ b next => let '(e, gz) := net_deflateInit e in (e, GzipStrm gz b next, bool_decide (is_Some gz))
    | LzStrm _ b next => let '(e, ok) := net_alloc e in (e, LzStrm (LZ4F_compressFrameBound METRIC_BUFSIZ) b next, ok)
    | _ => (e, s, true)
    end in
  let k := mkLink (k_con k) s (k_saddr k) in
  let fail e := (net_close e fd, add_failure (set_fd k None), false) in
  if negb ok then fail e
  else if has_ssl (p_transport self) then
    let '(e, r) := net_ssl e fd in
    match r with
    | SslReady => (e, k, true)
    | SslSetFdFailed => (e, add_failure (set_fd k None), false)   (* the session has no descriptor to close *)
    | SslConnectFailed | SslVerifyFailed => fail e
    end
  else (e, k, true).

Definition open_fd (self : peer) (e : E) (k : link) : E * link * bool :=
  match p_ctype self with
  | CON_PIPE => connect_pipe e k
  | CON_FILE => connect_file self e k
  | CON_UDP => connect_udp e k
  | CON_TCP | CON_UNIX => connect_tcp e k
  end.

(** [server_connect]: the returned value is a [char]. *)
Definition server_connect (self : peer) (e : E) (k : link) : E * link * Z :=
  let '(e, k) := reresolve self e k in
  let '(e, k, ok) := open_fd self e k in
  match ok, sc_fd (k_con k) with
  | true, Some fd =>
      let '(e, k, ok) := prepare self e k fd in
      (e, k, if ok : bool then s8 (Z.of_nat fd) else -1)
  | _, _ => (e, k, -1)
  end.

End Streams.

(** ** What the libraries promise *)

(** The inverses of the compressors; [inflate gz] reads what is output next by an
    encoder in state [gz].  When room is left, [deflate] took all of its input.
    [snappy_compress] wants a buffer for the worst case. *)
Class CodecLaws `{Codecs} := {
  inflate : gz_state -> list Z -> option (list Z);
  unlz4 : list Z -> option (list Z);
  unsnappy : list Z -> option (list Z);
  deflate_law gz d room gz' rest out :
    deflate gz d room = (gz', true, rest, out) -> (length out < room)%nat -> rest = [] /\ inflate gz out = Some d;
  lz4_law cap d f : LZ4F_compressFrame cap d = Some f -> unlz4 f = Some d;
  snappy_law cap d f : snappy_compress cap d = Some f -> unsnappy f = Some d;
  snappy_room cap d : cap < 32 + Z.of_nat (length d) + Z.of_nat (length d) / 6 -> snappy_compress cap d = None;
}.

Section Delivery.
Context {E : Type} `{ServerEnv E} `{Codecs} `{!NetEnv E} `{!CodecLaws}.

Definition next_obuf (s : strm) : list Z :=
  match s with Direct _ => [] | GzipStrm _ _ next | LzStrm _ _ next | SnappyStrm _ next => base_obuf next end.
(** A stream with nothing in its buffers, and a handle. *)
Definition idle_strm (s : strm) : Prop :=
  obuf s = [] /\ next_obuf s = [] /\ match s with GzipStrm gz _ _ => is_Some gz | _ => True end.

Fixpoint write_metrics (s : strm) (ms : list (list Z)) : option strm :=
  match ms with [] => Some s | m :: ms' => s ← strmwrite s m; write_metrics s ms' end.

(** The bytes a stream makes of its buffer, when they fit in the buffer of the next
    one, and what a receiver makes of these. *)
Definition fits_next (f : list Z) : option (list Z) :=
  if METRIC_BUFSIZ <? Z.of_nat (length f) then None else Some f.
Definition encode (s : strm) (d : list Z) : option (list Z) :=
  match s with
  | Direct _ => Some d
  | GzipStrm gz _ _ =>
      gz ← gz; let '(_, ok, _, out) := deflate gz d (Z.to_nat METRIC_BUFSIZ) in
      if (ok : bool) && (length out <? Z.to_nat METRIC_BUFSIZ)%nat then Some out else None
  | LzStrm cbuflen _ _ => f ← LZ4F_compressFrame cbuflen d; fits_next f
  | SnappyStrm _ _ => f ← snappy_compress METRIC_BUFSIZ d; fits_next f
  end.
Definition decode (s : strm) (f : list Z) : option (list Z) :=
  match s with
  | Direct _ => Some f
  | GzipStrm gz _ _ => gz ← gz; inflate gz f
  | LzStrm _ _ _ => unlz4 f
  | SnappyStrm _ _ => unsnappy f
  end.

Lemma encode_decode s d f : encode s d = Some f -> decode s f = Some d.
Proof.
  destruct s as [s|gz b next|l b next|b next]; cbn [encode decode]; [by intros [= ->]| | |].
  - destruct gz as [gz|]; [|done]. run_binds. destruct (deflate gz d _) as [[[gz' ok] rest] out] eqn:Ed.
    destruct ok; [|done]. destruct (Nat.ltb_spec (length out) (Z.to_nat METRIC_BUFSIZ)); [|done]. intros [= <-].
    by destruct (deflate_law gz d _ _ _ _ Ed).
  - destruct (LZ4F_compressFrame l d) as [g|] eqn:El; [|done]. run_binds. unfold fits_next. destruct (_ <? _); [done|].
    intros [= <-]. by eapply lz4_law.
  - destruct (snappy_compress _ d) as [g|] eqn:El; [|done]. run_binds. unfold fits_next. destruct (_ <? _); [done|].
    intros [= <-]. by eapply snappy_law.
Qed.

Lemma write_metrics_obuf s ms s1 : write_metrics s ms = Some s1 -> s1 = with_obuf s (obuf s ++ concat ms).
Proof.
  revert s. induction ms as [|m ms IH]; intros s; cbn [write_metrics].
  { intros [= <-]. rewrite app_nil_r. destruct s as [[]| | |]; done. }
  unfold strmwrite, append. destruct (_ <? _); [done|]. cbn [fmap option_fmap option_map]. run_binds. intros Hw%IH. subst s1.
  cbn [concat]. destruct s as [[]| | |]; cbn; by rewrite app_assoc.
Qed.

(** The network works: [wire] is what was sent on it, in the clear. *)
Record net_works (wire : E -> list Z) : Prop := {
  nw_wire : wire_laws wire;
  nw_flush e p : (flush_loop SERVER_MAX_SEND e p).2 = true;
  nw_ssl e p : (net_ssl_write e p).2 = SslWrote (length p) /\ wire (net_ssl_write e p).1 = wire e ++ p;
}.

Lemma ssl_loop_wrote n e p e' : net_ssl_write e p = (e', SslWrote (length p)) -> ssl_loop (S n) e p = (e', true).
Proof. cbn [ssl_loop]. intros ->. by rewrite decide_True. Qed.

Lemma base_flush_delivers wire e (s : base) :
  net_works wire -> exists e', base_flush e s = (e', base_with_obuf s [], true) /\ wire e' = wire e ++ base_obuf s.
Proof.
  intros Hn. unfold base_flush. destruct (base_obuf s) as [|c b] eqn:Eb.
  { exists e. rewrite app_nil_r. split; [|done]. destruct s; cbn in Eb |- *; by rewrite Eb. }
  destruct s as [b0|b0]; cbn [base_obuf base_with_obuf] in Eb |- *; subst b0.
  - pose proof (nw_flush _ Hn e (c :: b)) as Hok. destruct (flush_loop SERVER_MAX_SEND e (c :: b)) as [e' ok] eqn:Ef.
    cbn in Hok. subst ok. exists e'. split; [done|]. eapply flush_loop_wire; [|exact Ef]. apply Hn.
  - destruct (nw_ssl _ Hn e (c :: b)) as [Hr Hw]. destruct (net_ssl_write e (c :: b)) as [e' r] eqn:Es. cbn [fst snd] in Hr, Hw. subst r.
    unfold SERVER_MAX_SEND. rewrite (ssl_loop_wrote _ _ _ _ Es). by exists e'.
Qed.

Lemma base_write_fresh (s : base) f :
  base_obuf s = [] -> Z.of_nat (length f) <= METRIC_BUFSIZ -> base_write s f = Some (base_with_obuf s f).
Proof.
  intros Hs Hf. unfold base_write, append. rewrite Hs. cbn [length app]. destruct (Z.ltb_spec METRIC_BUFSIZ (Z.of_nat 0 + Z.of_nat (length f))); [lia|done].
Qed.

Lemma flush_next_delivers wire e next f b wrap :
  net_works wire -> base_obuf next = [] ->
  exists e', flush_next e (base_with_obuf next f) b wrap = (e', wrap [] next, true) /\ wire e' = wire e ++ f.
Proof.
  intros Hn Hnext. unfold flush_next. destruct (base_flush_delivers wire e (base_with_obuf next f) Hn) as (e' & -> & Hw).
  exists e'. destruct next; cbn in Hnext, Hw |- *; by rewrite Hnext.
Qed.

Lemma strmflush_delivers wire e s d f :
  net_works wire -> idle_strm s -> d <> [] -> encode s d = Some f ->
  exists e' s', strmflush e (with_obuf s d) = Some (e', s', true) /\ wire e' = wire e ++ f /\ idle_strm s'.
Proof.
  intros Hn (Hb & Hnext & Hgz) Hd He. destruct s as [s|gz b next|l b next|b next]; cbn [encode obuf next_obuf with_obuf strmflush] in *;
    unfold gzipflush, lzflush, snappyflush in *.
  - injection He as <-. destruct (base_flush_delivers wire e (base_with_obuf s d) Hn) as (e' & -> & Hw).
    exists e', (Direct (base_with_obuf (base_with_obuf s d) [])). split_and!; [done|by destruct s|]. unfold idle_strm. by destruct s.
  - destruct gz as [gz|]; [|by destruct Hgz]. revert He. run_binds. destruct (deflate gz d _) as [[[gz' ok] rest] out] eqn:Ed.
    destruct ok; [|done]. destruct (Nat.ltb_spec (length out) (Z.to_nat METRIC_BUFSIZ)) as [Hl|]; [|done]. intros [= <-].
    destruct (deflate_law gz d _ _ _ _ Ed Hl) as [-> _]. cbn [gzip_loop]. rewrite Ed. cbn [negb]. rewrite decide_False by lia.
    assert ((if decide (out = []) then Some next else base_write next out) = Some (base_with_obuf next out)) as ->.
    { destruct (decide (out = [])) as [->|]; [by destruct next; cbn in *; rewrite Hnext|]. apply base_write_fresh; [done|]. unfold METRIC_BUFSIZ in *. lia. }
    rewrite decide_True by done. run_binds.
    destruct (flush_next_delivers wire e next out d (GzipStrm (Some gz')) Hn Hnext) as (e' & -> & Hw).
    by exists e', (GzipStrm (Some gz') [] next).
  - destruct d as [|c d]; [done|]. destruct (LZ4F_compressFrame l (c :: d)) as [g|]; [|done]. revert He. run_binds. unfold fits_next.
    destruct (Z.ltb_spec METRIC_BUFSIZ (Z.of_nat (length g))); [done|]. intros [= <-]. rewrite base_write_fresh by done.
    destruct (flush_next_delivers wire e next g (c :: d) (LzStrm l) Hn Hnext) as (e' & -> & Hw). by exists e', (LzStrm l [] next).
  - destruct (snappy_compress METRIC_BUFSIZ d) as [g|]; [|done]. revert He. run_binds. unfold fits_next.
    destruct (Z.ltb_spec METRIC_BUFSIZ (Z.of_nat (length g))); [done|]. intros [= <-].
    assert ((if decide (g = []) then Some next else base_write next g) = Some (base_with_obuf next g)) as ->.
    { destruct (decide (g = [])) as [->|]; [by destruct next; cbn in *; rewrite Hnext|]. by apply base_write_fresh. }
    destruct (flush_next_delivers wire e next g d SnappyStrm Hn Hnext) as (e' & -> & Hw). by exists e', (SnappyStrm [] next).
Qed.
End Delivery.

(** ** Connecting *)

Section Connecting.
Context {E : Type} `{ServerEnv E} `{Codecs} `{!NetEnv E}.

(** The functions that open the descriptor only touch it, the failures and nothing
    of the stream. *)
Lemma open_strm self e k e' k' ok : open_fd self e k = (e', k', ok) -> k_strm k' = k_strm k.
Proof.
  assert (forall b k0, k_strm (add_failure_if b k0) = k_strm k0) as Ha by (by intros []).
  unfold open_fd. destruct (p_ctype self); unfold connect_pipe, connect_file, connect_udp, connect_tcp;
    repeat case_match; intros; simplify_eq; by rewrite ?Ha.
Qed.

Lemma prepare_next self e k fd : next_obuf (k_strm (prepare self e k fd).1.2) = next_obuf (k_strm k).
Proof.
  unfold prepare. destruct (k_strm k) as [s|gz b next|l b next|b next]; cbn [with_obuf].
  - cbn [negb]. destruct (has_ssl _); [|done]. destruct (net_ssl e fd) as [e' []]; done.
  - destruct (net_deflateInit e) as [e' g]. destruct (bool_decide (is_Some g)); cbn [negb]; [|done].
    destruct (has_ssl _); [|done]. destruct (net_ssl e' fd) as [e2 []]; done.
  - destruct (net_alloc e) as [e' []]; cbn [negb]; [|done]. destruct (has_ssl _); [|done]. destruct (net_ssl e' fd) as [e2 []]; done.
  - cbn [negb]. destruct (has_ssl _); [|done]. destruct (net_ssl e fd) as [e' []]; done.
Qed.

Lemma reresolve_strm self e k : k_strm (reresolve self e k).2 = k_strm k.
Proof. unfold reresolve. destruct (p_reresolve self); [|done]. by destruct (net_getaddrinfo _ _ _) as [e' []]. Qed.

Lemma connect_next self e k : next_obuf (k_strm (server_connect self e k).1.2) = next_obuf (k_strm k).
Proof.
  unfold server_connect. pose proof (reresolve_strm self e k) as Hr. destruct (reresolve self e k) as [e1 k1]. cbn in Hr. rewrite <- Hr.
  destruct (open_fd self e1 k1) as [[e2 k2] ok] eqn:Ec. apply open_strm in Ec. rewrite <- Ec. destruct ok; [|done]. destruct (sc_fd (k_con k2)) as [fd|]; [|done].
  pose proof (prepare_next self e2 k2 fd) as Hp. by destruct (prepare self e2 k2 fd) as [[e3 k3] []].
Qed.

Lemma prepare_idle self e k fd e' k' :
  prepare self e k fd = (e', k', true) -> next_obuf (k_strm k) = [] -> idle_strm (k_strm k').
Proof.
  unfold prepare. intros Hp Hn. revert Hp.
  destruct (match with_obuf (k_strm k) [] with
    | GzipStrm _ b next => let '(e, gz) := net_deflateInit e in (e, GzipStrm gz b next, bool_decide (is_Some gz))
    | LzStrm _ b next => let '(e, ok) := net_alloc e in (e, LzStrm (LZ4F_compressFrameBound METRIC_BUFSIZ) b next, ok)
    | _ => (e, with_obuf (k_strm k) [], true)
    end) as [[e1 s1] ok] eqn:Es.
  destruct ok; cbn [negb]; [|done]. intros Hp. assert (k_strm k' = s1) as ->.
  { destruct (has_ssl _); [|by injection Hp as <- <-]. destruct (net_ssl e1 fd) as [e2 []]; try done. by injection Hp as <- <-. }
  clear Hp. destruct (k_strm k) as [s|gz b next|l b next|b next]; cbn [with_obuf next_obuf] in *.
  - injection Es as <- <-. by destruct s.
  - destruct (net_deflateInit e) as [e2 g]. injection Es as <- <- Hg. by apply bool_decide_eq_true in Hg.
  - destruct (net_alloc e) as [e2 ok]. by injection Es as <- <- ->.
  - by injection Es as <- <-.
Qed.

(** The stream of a connection that was opened with nothing behind its compressor. *)
Definition just_connected (e : E) (s : strm) : Prop :=
  exists self e0 k k' r, server_connect self e0 k = (e, k', r) /\ r <> -1 /\ next_obuf (k_strm k) = [] /\ s = k_strm k'.

Lemma connect_idle self e k e' k' r :
  server_connect self e k = (e', k', r) -> r <> -1 -> next_obuf (k_strm k) = [] -> idle_strm (k_strm k').
Proof.
  unfold server_connect. pose proof (reresolve_strm self e k) as Hr. destruct (reresolve self e k) as [e1 k1]. cbn in Hr. rewrite <- Hr.
  destruct (open_fd self e1 k1) as [[e2 k2] ok] eqn:Ec. apply open_strm in Ec. rewrite <- Ec.
  destruct ok; [|by intros [= <- <- <-]]. destruct (sc_fd (k_con k2)) as [fd|]; [|by intros [= <- <- <-]].
  destruct (prepare self e2 k2 fd) as [[e3 k3] []] eqn:Ep; intros [= <- <- <-]; [|done]. intros _. by apply (prepare_idle _ _ _ _ _ _ Ep).
Qed.

(** A frame that does not fit behind what is in the next stream's buffer is not written, and nothing is sent. *)
Lemma flush_blocked e s d :
  match s with
  | LzStrm l _ next => exists f, LZ4F_compressFrame l d = Some f /\ METRIC_BUFSIZ < Z.of_nat (length (base_obuf next) + length f)
  | SnappyStrm _ next => exists f, snappy_compress METRIC_BUFSIZ d = Some f /\ f <> [] /\ METRIC_BUFSIZ < Z.of_nat (length (base_obuf next) + length f)
  | _ => False
  end -> d <> [] -> strmflush e (with_obuf s d) = Some (e, with_obuf s d, false).
Proof.
  assert (forall (next : base) f, METRIC_BUFSIZ < Z.of_nat (length (base_obuf next) + length f) -> base_write next f = None) as Hw.
  { intros next f Hl. unfold base_write, append. destruct (Z.ltb_spec METRIC_BUFSIZ (Z.of_nat (length (base_obuf next)) + Z.of_nat (length f))); [done|lia]. }
  destruct s as [s|gz b next|l b next|b next]; try done; cbn [with_obuf strmflush]; unfold lzflush, snappyflush.
  - intros (f & Hf & Hl) Hd. destruct d as [|c d]; [done|]. rewrite Hf. run_binds. by rewrite (Hw next f Hl).
  - intros (f & Hf & Hne & Hl) Hd. rewrite Hf. run_binds. rewrite decide_False by done. by rewrite (Hw next f Hl).
Qed.
(** A view of the descriptors that are open, and what the system calls do to it. *)
Record net_tracks (fds : E -> gset nat) : Prop := {
  nt_getaddrinfo e ip port : fds (net_getaddrinfo e ip port).1 = fds e;
  nt_open e path : match net_open e path with
    | (e', Some fd) => fds e' = fds e ∪ {[fd]} /\ fd ∉ fds e | (e', None) => fds e' = fds e end;
  nt_socket e a : match net_socket e a with
    | (e', Some fd) => fds e' = fds e ∪ {[fd]} /\ fd ∉ fds e | (e', None) => fds e' = fds e end;
  nt_fcntl e fd b : fds (net_fcntl e fd b).1 = fds e;
  nt_connect e fd a : fds (net_connect e fd a).1 = fds e;
  nt_poll e fd : fds (net_poll e fd).1 = fds e;
  nt_close e fd : fds (net_close e fd) = fds e ∖ {[fd]};
  nt_deflateInit e : fds (net_deflateInit e).1 = fds e;
  nt_alloc e : fds (net_alloc e).1 = fds e;
  nt_ssl e fd : fds (net_ssl e fd).1 = fds e;
  nt_pipe e : match net_pipe e with
    | (e', Some (rd, wr)) => (fds e' = (fds e ∪ {[rd]}) ∪ {[wr]}) /\ (rd ∉ fds e) /\ (wr ∉ (fds e ∪ {[rd]})) | (e', None) => fds e' = fds e end;
  (* a descriptor that is not accepted may have been closed *)
  nt_addconnection e fd : match net_addconnection e fd with
    | (e', true) => fds e' = fds e | (e', false) => fds e' ∈ [fds e; fds e ∖ {[fd]}] end;
}.

(** The descriptors after an attempt: those before, [fs], and the connection's. *)
Definition opened (fds : E -> gset nat) (fs : gset nat) (e' : E) (k' : link) : Prop :=
  match sc_fd (k_con k') with Some fd => fds e' = fs ∪ {[fd]} /\ fd ∉ fs | None => fds e' = fs end.
(** A descriptor is left open without a connection that has it. *)
Definition left_open (fds : E -> gset nat) (fs : gset nat) (e' : E) (k' : link) : Prop :=
  sc_fd (k_con k') = None /\ exists fd, fds e' = fs ∪ {[fd]} /\ fd ∉ fs.
Definition set_fd_fails : Prop := exists e fd, (net_ssl e fd).2 = SslSetFdFailed.

Lemma opened_failed fds fs e' k b : sc_fd (k_con k) = None -> fds e' = fs -> opened fds fs e' (add_failure_if b k).
Proof.
  intros Hk He. unfold opened. assert (sc_fd (k_con (add_failure_if b k)) = None) as ->; [|done].
  destruct b; [|done]. cbn. unfold server_add_failure. by destruct (_ <? _).
Qed.
Lemma closed_again (fds : E -> gset nat) fs e e' fd :
  fds e = fs ∪ {[fd]} -> fd ∉ fs -> fds e' = fds e ∖ {[fd]} -> fds e' = fs.
Proof. intros -> Hn ->. set_solver. Qed.

Lemma connect_tcp_opened fds e k e' k' ok :
  net_tracks fds -> sc_fd (k_con k) = None -> connect_tcp e k = (e', k', ok) ->
  opened fds (fds e) e' k' /\ ok = bool_decide (is_Some (sc_fd (k_con k'))).
Proof.
  intros Hn Hk. unfold connect_tcp. destruct (k_saddr k) as [|walk rest].
  { intros [= <- <- <-]. split; [|done]. by apply (opened_failed fds _ e k true). }
  assert (forall b k0, sc_fd (k_con k0) = None -> sc_fd (k_con (add_failure_if b k0)) = None) as Hf.
  { intros [] k0 Hk0; [|done]. cbn. unfold server_add_failure. by destruct (_ <? _). }
  pose proof (nt_socket _ Hn e walk) as Hs. destruct (net_socket e walk) as [e1 [fd|]].
  2: { intros [= <- <- <-]. split; [by apply opened_failed|]. by rewrite Hf. }
  destruct Hs as [Hs Hfresh].
  assert (forall e2 e3 k3 b ok3, fds e2 = fds e1 -> (net_close e2 fd, add_failure_if b (set_fd k None), false) = (e3, k3, ok3) ->
    opened fds (fds e) e3 k3 /\ ok3 = bool_decide (is_Some (sc_fd (k_con k3)))) as Hfail.
  { intros e2 e3 k3 b ok3 He2 [= <- <- <-]. split; [|by rewrite Hf]. apply opened_failed; [done|].
    eapply closed_again; [exact Hs|done|]. by rewrite (nt_close _ Hn), He2. }
  pose proof (nt_fcntl _ Hn e1 fd true) as Hc1. destruct (net_fcntl e1 fd true) as [e2 []]; cbn [negb fst] in *; [|by apply Hfail].
  assert (forall e3 e' k' ok, fds e3 = fds e1 ->
    (let '(e, ok) := net_fcntl e3 fd false in
     if ok then (e, set_fd k (Some fd), true) else (net_close e fd, add_failure_if true (set_fd k None), false)) = (e', k', ok) ->
    opened fds (fds e) e' k' /\ ok = bool_decide (is_Some (sc_fd (k_con k')))) as Hblock.
  { clear e' k' ok. intros e3 e' k' ok He3. pose proof (nt_fcntl _ Hn e3 fd false) as Hc3. destruct (net_fcntl e3 fd false) as [e4 []]; cbn [fst] in Hc3.
    - intros [= <- <- <-]. split; [|done]. unfold opened. cbn. split; [congruence|done].
    - apply Hfail. congruence. }
  pose proof (nt_connect _ Hn e2 fd walk) as Hc2. destruct (net_connect e2 fd walk) as [e3 []]; cbn [fst] in Hc2.
  - apply Hblock. congruence.
  - pose proof (nt_poll _ Hn e3 fd) as Hc3. destruct (net_poll e3 fd) as [e4 []]; cbn [fst] in Hc3;
      first [apply Hblock; congruence | apply Hfail; congruence].
  - apply Hfail. congruence.
Qed.

Lemma connect_udp_opened fds e k e' k' ok :
  net_tracks fds -> sc_fd (k_con k) = None -> connect_udp e k = (e', k', ok) ->
  opened fds (fds e) e' k' /\ ok = bool_decide (is_Some (sc_fd (k_con k'))).
Proof.
  intros Hn Hk. unfold connect_udp. destruct (k_saddr k) as [|walk rest].
  { intros [= <- <- <-]. split; [|done]. by apply (opened_failed fds _ e k true). }
  assert (forall b k0, sc_fd (k_con k0) = None -> sc_fd (k_con (add_failure_if b k0)) = None) as Hf.
  { intros [] k0 Hk0; [|done]. cbn. unfold server_add_failure. by destruct (_ <? _). }
  pose proof (nt_socket _ Hn e walk) as Hs. destruct (net_socket e walk) as [e1 [fd|]].
  2: { intros [= <- <- <-]. split; [by apply opened_failed|]. by rewrite Hf. }
  destruct Hs as [Hs Hfresh]. pose proof (nt_connect _ Hn e1 fd walk) as Hc. destruct (net_connect e1 fd walk) as [e2 []]; cbn [fst] in Hc.
  - intros [= <- <- <-]. split; [|done]. unfold opened. cbn. split; [congruence|done].
  - intros [= <- <- <-]. split; [|by rewrite Hf]. apply opened_failed; [done|]. eapply closed_again; [exact Hs|done|]. by rewrite (nt_close _ Hn), Hc.
  - intros [= <- <- <-]. split; [|by rewrite Hf]. apply opened_failed; [done|]. eapply closed_again; [exact Hs|done|]. by rewrite (nt_close _ Hn), Hc.
Qed.

(** What the preparation of the chain does to an open descriptor. *)
Lemma prepare_opened fds fs self e k fd e' k' ok :
  net_tracks fds -> sc_fd (k_con k) = Some fd -> fds e = fs ∪ {[fd]} -> fd ∉ fs ->
  prepare self e k fd = (e', k', ok) ->
  sc_fd (k_con k') = (if ok then Some fd else None) /\
  (opened fds fs e' k' \/ (left_open fds fs e' k' /\ has_ssl (p_transport self) = true /\ set_fd_fails)).
Proof.
  intros Hn Hk He Hfresh. unfold prepare.
  assert (forall e1 e' k' ok b k0, fds e1 = fds e -> (net_close e1 fd, add_failure_if b (set_fd k0 None), false) = (e', k', ok) ->
    sc_fd (k_con k') = (if ok then Some fd else None) /\ (opened fds fs e' k' \/ (left_open fds fs e' k' /\ has_ssl (p_transport self) = true /\ set_fd_fails))) as Hfail.
  { clear e' k' ok. intros e1 e' k' ok b k0 He1 [= <- <- <-].
    assert (sc_fd (k_con (add_failure_if b (set_fd k0 None))) = None) as Hfd.
    { destruct b; [|done]. cbn. unfold server_add_failure. by destruct (_ <? _). }
    split; [done|]. left. apply opened_failed; [done|]. eapply closed_again; [exact He|done|]. by rewrite (nt_close _ Hn), He1. }
  assert (forall e1 s1 e' k' ok, fds e1 = fds e ->
    (let k1 := mkLink (k_con k) s1 (k_saddr k) in
     if has_ssl (p_transport self) then
       let '(e2, r) := net_ssl e1 fd in
       match r with
       | SslReady => (e2, k1, true) | SslSetFdFailed => (e2, add_failure (set_fd k1 None), false)
       | SslConnectFailed | SslVerifyFailed => (net_close e2 fd, add_failure (set_fd k1 None), false)
       end
     else (e1, k1, true)) = (e', k', ok) ->
    sc_fd (k_con k') = (if ok then Some fd else None) /\ (opened fds fs e' k' \/ (left_open fds fs e' k' /\ has_ssl (p_transport self) = true /\ set_fd_fails))) as Hssl.
  { clear e' k' ok. intros e1 s1 e' k' ok He1. cbv zeta. destruct (has_ssl (p_transport self)) eqn:Essl.
    - pose proof (nt_ssl _ Hn e1 fd) as Hs. destruct (net_ssl e1 fd) as [e2 []] eqn:Er; cbn [fst snd] in Hs;
        try (apply (Hfail _ _ _ _ true); congruence).
      + intros [= <- <- <-]. assert (sc_fd (k_con (add_failure (set_fd (mkLink (k_con k) s1 (k_saddr k)) None))) = None) as Hfd.
        { cbn. unfold server_add_failure. by destruct (_ <? _). }
        split; [done|]. right. split; [split; [done|]; exists fd; split; [congruence|done]|]. split; [done|]. exists e1, fd. by rewrite Er.
      + intros [= <- <- <-]. split; [done|]. left. unfold opened. cbn. rewrite Hk. split; [congruence|done].
    - intros [= <- <- <-]. split; [done|]. left. unfold opened. cbn. rewrite Hk. split; [congruence|done]. }
  destruct (with_obuf (k_strm k) []) as [s|gz b next|l b next|b next]; cbn [negb].
  - apply Hssl. done.
  - pose proof (nt_deflateInit _ Hn e) as Hd. destruct (net_deflateInit e) as [e1 g]. destruct (bool_decide (is_Some g)); cbn [negb fst] in *.
    + by apply Hssl.
    + by apply (Hfail _ _ _ _ true).
  - pose proof (nt_alloc _ Hn e) as Hd. destruct (net_alloc e) as [e1 []]; cbn [negb fst] in *.
    + by apply Hssl.
    + by apply (Hfail _ _ _ _ true).
  - by apply Hssl.
Qed.

(** The descriptors a connection attempt may start its count from: of a pipe, the reading end is the dispatcher's. *)
Definition base_fds (fds : E -> gset nat) (self : peer) (e : E) (fs : gset nat) : Prop :=
  fs = fds e \/ (p_ctype self = CON_PIPE /\ exists rd, fs = fds e ∪ {[rd]} /\ rd ∉ fds e).
Lemma open_fd_opened fds self e k e' k' ok :
  net_tracks fds -> sc_fd (k_con k) = None -> open_fd self e k = (e', k', ok) ->
  ok = bool_decide (is_Some (sc_fd (k_con k'))) /\
  exists fs, base_fds fds self e fs /\ (opened fds fs e' k' \/ (left_open fds fs e' k' /\ p_ctype self = CON_PIPE)).
Proof.
  intros Hn Hk. unfold open_fd, base_fds. destruct (p_ctype self) eqn:Ep.
  1, 2, 5: first [intros Hc; apply (connect_tcp_opened fds) in Hc as [Ho Hok]; [|done..] | intros Hc; apply (connect_udp_opened fds) in Hc as [Ho Hok]; [|done..]];
    (split; [done|]); exists (fds e); auto.
  - unfold connect_pipe. pose proof (nt_pipe _ Hn e) as Hp. destruct (net_pipe e) as [e1 [[rd wr]|]].
    2: { intros [= <- <- <-]. split; [|exists (fds e); split; [by left|]; left; by apply (opened_failed fds _ e1 k true)].
         cbn. unfold server_add_failure. destruct (_ <? _); cbn; by rewrite Hk. }
    destruct Hp as (Hp & Hrd & Hwr). pose proof (nt_addconnection _ Hn e1 rd) as Ha. destruct (net_addconnection e1 rd) as [e2 []].
    + intros [= <- <- <-]. split; [done|]. exists (fds e ∪ {[rd]}). split; [right; split; [done|]; by exists rd|]. left.
      unfold opened. cbn. split; [congruence|done].
    + intros [= <- <- <-]. assert (sc_fd (k_con (add_failure k)) = None) as Hfd by (cbn; unfold server_add_failure; destruct (_ <? _); cbn; by rewrite Hk).
      rewrite Hfd. split; [done|]. apply elem_of_cons in Ha as [Ha|Ha%list_elem_of_singleton].
      * exists (fds e ∪ {[rd]}). split; [right; split; [done|]; by exists rd|]. right. split; [|done]. split; [done|]. exists wr. split; [congruence|done].
      * exists (fds e). split; [by left|]. right. split; [|done]. split; [done|]. exists wr. rewrite Ha, Hp. split; [|set_solver]. apply set_eq. set_solver.
  - unfold connect_file. pose proof (nt_open _ Hn e (p_ip self)) as Ho. destruct (net_open e (p_ip self)) as [e1 [fd|]]; intros [= <- <- <-].
    + split; [done|]. exists (fds e). split; [by left|]. by left.
    + assert (opened fds (fds e) e1 (add_failure_if true k)) as Hop by (by apply opened_failed). split; [|exists (fds e); split; [by left|by left]].
      cbn. unfold server_add_failure. destruct (_ <? _); cbn; by rewrite Hk.
Qed.
End Connecting.

(** What [streams_deliver] states. *)
Lemma write_and_flush {E : Type} `{ServerEnv E} `{Codecs} `{!NetEnv E} `{!CodecLaws} wire e s s1 ms f :
  net_works wire -> idle_strm s \/ just_connected e s -> write_metrics s ms = Some s1 -> concat ms <> [] ->
  encode s (concat ms) = Some f ->
  exists e' s', strmflush e s1 = Some (e', s', true) /\ wire e' = wire e ++ f /\ idle_strm s'.
Proof.
  intros Hn Hf Hw Hne He.
  assert (idle_strm s) as Hi by (destruct Hf as [|(self & e0 & k & k' & r & Hc & Hr & Hk & ->)]; [done|by apply (connect_idle _ _ _ _ _ _ Hc)]).
  apply write_metrics_obuf in Hw as ->. destruct (Hi) as [-> _]. by apply strmflush_delivers.
Qed.

(** ** A concrete network, for evaluating the theorems *)

(** What was sent, and the descriptors; an address with port 0 refuses. *)
Record demo_wires := mkWires { dw_wire : list Z; dw_list : list nat }.
Definition dw_fds (e : demo_wires) : gset nat := list_to_set (dw_list e).
Definition demo_send (e : demo_wires) (p : list Z) : demo_wires := mkWires (dw_wire e ++ p) (dw_list e).
#[local] Instance demo_codecs : Codecs := {|
  gz_state := unit;
  deflate := fun gz d room => (gz, true, drop room d, take room d);
  LZ4F_compressFrameBound := fun n => n + 1;
  LZ4F_compressFrame := fun _ d => Some (0 :: d);
  snappy_compress := fun cap d => if cap <? 32 + Z.of_nat (length d) + Z.of_nat (length d) / 6 then None else Some d;
|}.
#[local] Instance demo_codec_laws : CodecLaws.
Proof.
  refine {| inflate := fun _ f => Some f; unlz4 := fun f => Some (tail f); unsnappy := Some |}.
  - intros [] d room [] rest out [= <- <-] Hl. rewrite length_take in Hl. rewrite drop_ge, take_ge by lia. done.
  - intros cap d f [= <-]. done.
  - intros cap d f. cbn. destruct (_ <? _); [done|]. by intros [= <-].
  - intros cap d Hl. cbn. by destruct (Z.ltb_spec cap (32 + Z.of_nat (length d) + Z.of_nat (length d) / 6)); [|lia].
Defined.
#[local] Instance demo_server_env : ServerEnv demo_wires := {|
  env_poll := fun e => (e, PollOut);
  env_write := fun e p => (demo_send e p, Wrote (length p));
  env_close := id;
  env_connect := fun e _ _ => (e, 0%nat, Some 3%nat);
  env_clock := fun e => (e, mkTv 0 0);
  env_seconds := fun e => (e, 0);
|}.
Definition demo_fd (e : demo_wires) : demo_wires * option nat :=
  let fd := S (max_list (dw_list e)) in (mkWires (dw_wire e) (fd :: dw_list e), Some fd).
#[local] Instance demo_net : NetEnv demo_wires := {|
  net_ssl_write := fun e p => (demo_send e p, SslWrote (length p));
  net_getaddrinfo := fun e _ _ => (e, None);
  net_pipe := fun e => let fd := S (max_list (dw_list e)) in (mkWires (dw_wire e) (S fd :: fd :: dw_list e), Some (fd, S fd));
  net_addconnection := fun e _ => (e, false);
  net_open := fun e _ => demo_fd e;
  net_socket := fun e _ => demo_fd e;
  net_fcntl := fun e _ _ => (e, true);
  net_connect := fun e _ a => (e, if ai_port a =? 0 then Refused else Connected);
  net_poll := fun e _ => (e, PendingReady);
  net_close := fun e fd => mkWires (dw_wire e) (filter (fun x => x <> fd) (dw_list e));
  net_deflateInit := fun e => (e, Some tt);
  net_alloc := fun e => (e, true);
  net_ssl := fun e _ => (e, SslReady);
|}.
Lemma demo_works : net_works dw_wire.
Proof.
  split.
  - split; [|done]. intros e p. exists (length p). cbn. rewrite firstn_all. split; [done|]. split; [done|lia].
  - intros e p. unfold SERVER_MAX_SEND. cbn [flush_loop]. unfold env_write, demo_server_env. by rewrite decide_True.
  - done.
Qed.
Lemma demo_tracks : net_tracks dw_fds.
Proof.
  assert (forall e x, dw_fds e = list_to_set (dw_list e) /\ (x ∈ dw_fds e -> x <= max_list (dw_list e))%nat) as Hmax.
  { intros e x. split; [done|]. intros Hin. by apply elem_of_list_to_set, max_list_elem_of_le in Hin. }
  assert (forall e, S (max_list (dw_list e)) ∉ dw_fds e) as Hn.
  { intros e Hin. apply (Hmax e) in Hin. lia. }
  split; try done.
  - intros e path. cbn. split; [|apply Hn]. unfold dw_fds. cbn. set_solver.
  - intros e a. cbn. split; [|apply Hn]. unfold dw_fds. cbn. set_solver.
  - intros e fd. apply set_eq. intros x. unfold dw_fds. cbn. rewrite elem_of_difference, !elem_of_list_to_set, list_elem_of_filter, elem_of_singleton. tauto.
  - intros e. cbn. split_and!; [unfold dw_fds; cbn; set_solver|apply Hn|]. rewrite elem_of_union, elem_of_singleton.
    intros [Hin|Hin]; [apply (Hmax e) in Hin; lia|lia].
  - intros e fd. apply list_elem_of_here.
Qed.

Definition demo_con (fd : option nat) : servercon := mkCon fd [] 0 true true 0 0 0 0.
Definition demo_addr (port : Z) : addrinfo := mkAddrinfo AF_INET 1 6 [10; 0; 0; 1] port.
Definition demo_peer (ctype : con_proto) (transport : Z) : peer := mkPeer (lit "a.example") 2003 ctype transport false.

(** ** Properties *)

(** C26: Every transport delivers what fits, on a network that takes all it is given and for compressors that can be
    undone: the metrics written to a stream whose buffers are all empty, as those of a first connection and after a
    flush, are sent by a flush as bytes that the receiver decodes to exactly those metrics, whatever the compressor
    and with or without SSL, and the buffers are empty again. The compressed bytes have to fit in the next buffer
    ([encode] has a result; [snappy_never_flushes_full_buffers] is where they do not), and a reconnection does not
    empty that buffer ([stale_bytes_survive_reconnect]). *)
Theorem streams_deliver {E : Type} `{ServerEnv E} `{Codecs} `{!NetEnv E} `{!CodecLaws} (wire : E -> list Z) (e : E)
    (s s1 : strm) (ms : list (list Z)) (f : list Z) :
  net_works wire -> idle_strm s \/ just_connected e s -> write_metrics s ms = Some s1 -> concat ms <> [] -> encode s (concat ms) = Some f ->
  decode s f = Some (concat ms) /\
  exists e' s', strmflush e s1 = Some (e', s', true) /\ wire e' = wire e ++ f /\ idle_strm s'.
Proof.
  intros Hn Hf Hw Hne He. split; [by apply encode_decode|]. by apply (write_and_flush _ _ s s1 ms).
Qed.

Lemma streams_deliver_witness :
  let k := mkLink (demo_con None) (new_strm (Z.lor W_SSL W_LZ4)) [demo_addr 2003] in
  exists k1 s', server_connect (demo_peer CON_TCP (Z.lor W_SSL W_LZ4)) (mkWires [] []) k = (mkWires [] [1%nat], k1, 1) /\
    strmflush (mkWires [] [1%nat]) (with_obuf (k_strm k1) (lit "ab")) = Some (mkWires (0 :: lit "ab") [1%nat], s', true).
Proof.
  intros k. set (s := LzStrm 32769 [] (SslStrm [])). set (k1 := mkLink (demo_con (Some 1%nat)) s [demo_addr 2003]).
  destruct (streams_deliver dw_wire (mkWires [] [1%nat]) s (LzStrm 32769 (lit "ab") (SslStrm []))
    [lit "a"; lit "b"] (0 :: lit "ab")) as (_ & e' & s' & E & Hw & _).
  - apply demo_works.
  - right. exists (demo_peer CON_TCP (Z.lor W_SSL W_LZ4)), (mkWires [] []), k, k1, 1. by split_and!.
  - reflexivity.
  - discriminate.
  - reflexivity.
  - exists k1, s'. split; [reflexivity|]. injection E as <- <-. reflexivity.
Defined.

(** A snappy stream with more than 28060 bytes in its buffer is never flushed: the buffer for the compressed bytes
    has the size of the buffer itself, which is less than the worst case that the library asks for. *)
Theorem snappy_never_flushes_full_buffers {E : Type} `{ServerEnv E} `{Codecs} `{!NetEnv E} `{!CodecLaws} (e : E) (next : base)
    (b : list Z) :
  28060 < Z.of_nat (length b) -> strmflush e (SnappyStrm b next) = Some (e, SnappyStrm b next, false).
Proof.
  intros Hb. cbn [strmflush]. unfold snappyflush. rewrite snappy_room; [done|]. unfold METRIC_BUFSIZ.
  assert (28061 / 6 <= Z.of_nat (length b) / 6) by (apply Z.div_le_mono; lia).
  change (28061 / 6) with 4676 in *. lia.
Qed.

Lemma snappy_never_flushes_full_buffers_witness :
  strmflush (mkWires [] []) (SnappyStrm (replicate (Z.to_nat 28061) 0) (SockStrm [])) = Some (mkWires [] [], SnappyStrm (replicate (Z.to_nat 28061) 0) (SockStrm []), false).
Proof. apply snappy_never_flushes_full_buffers. rewrite length_replicate, Z2Nat.id by lia. lia. Defined.

(** What a failed connection left in the buffer of the stream behind a compressor is still there after connecting
    again, in front of everything sent on the new connection; a frame that does not fit behind it is refused without
    anything being sent, so that such a connection never recovers. *)
Theorem stale_bytes_survive_reconnect {E : Type} `{ServerEnv E} `{Codecs} `{!NetEnv E} (self : peer) (e e' : E) (k k' : link)
    (r : Z) (l : Z) (d f : list Z) (next : base) :
  server_connect self e k = (e', k', r) -> k_strm k' = LzStrm l [] next -> d <> [] -> LZ4F_compressFrame l d = Some f ->
  base_obuf next = next_obuf (k_strm k) /\
  (METRIC_BUFSIZ < Z.of_nat (length (next_obuf (k_strm k)) + length f) ->
   forall e2, strmflush e2 (with_obuf (k_strm k') d) = Some (e2, with_obuf (k_strm k') d, false)).
Proof.
  intros Hc Hk Hd Hf. pose proof (connect_next self e k) as Hn. rewrite Hc in Hn. cbn [fst snd] in Hn. rewrite Hk in Hn. cbn [next_obuf] in Hn.
  split; [done|]. intros Hl e2. rewrite Hk. apply flush_blocked; [|done]. exists f. by rewrite Hn.
Qed.

Lemma stale_bytes_survive_reconnect_witness :
  let b := replicate (Z.to_nat 32768) 0 in
  let s := LzStrm 32769 (lit "a") (SockStrm b) in
  strmflush (mkWires [] []) s = Some (mkWires [] [], s, false).
Proof.
  intros b s. assert (Z.of_nat (length b) = 32768) as Hl by (unfold b; rewrite length_replicate; apply Z2Nat.id; discriminate).
  revert s Hl. generalize b. clear b. intros b s Hl.
  set (k := mkLink (demo_con None) (LzStrm 32769 [] (SockStrm b)) [demo_addr 2003]).
  refine (proj2 (stale_bytes_survive_reconnect (demo_peer CON_TCP W_LZ4) (mkWires [] []) (mkWires [] [1%nat])
    k (mkLink (demo_con (Some 1%nat)) (LzStrm 32769 [] (SockStrm b)) [demo_addr 2003]) 1
    32769 (lit "a") (0 :: lit "a") (SockStrm b) eq_refl eq_refl ltac:(discriminate) eq_refl) _ (mkWires [] [])).
  cbn [next_obuf k_strm k base_obuf]. rewrite Nat2Z.inj_add, Hl. reflexivity.
Defined.

(** A server with several addresses is only ever tried on the first: when that refuses, [server_connect] gives up
    without asking for the others, and without counting a failure, so that the server never counts as failed. *)
Theorem first_address_only {E : Type} `{ServerEnv E} `{Codecs} `{!NetEnv E} (self : peer) (e e1 e2 e3 : E) (k : link)
    (a b : addrinfo) (l : list addrinfo) (fd : nat) :
  p_ctype self = CON_TCP -> p_reresolve self = false -> k_saddr k = a :: b :: l -> sc_fd (k_con k) = None ->
  net_socket e a = (e1, Some fd) -> net_fcntl e1 fd true = (e2, true) -> net_connect e2 fd a = (e3, Refused) ->
  server_connect self e k = (net_close e3 fd, set_fd k None, -1) /\ sc_failure (k_con (set_fd k None)) = sc_failure (k_con k).
Proof.
  intros Ht Hr Hk Hfd Hs Hf Hc. split; [|done]. unfold server_connect, reresolve. rewrite Hr. unfold open_fd. rewrite Ht. unfold connect_tcp. rewrite Hk, Hs, Hf.
  cbn [negb]. rewrite Hc. done.
Qed.

Lemma first_address_only_witness :
  let k := mkLink (demo_con None) (Direct (SockStrm [])) [demo_addr 0; demo_addr 2003] in
  exists e, server_connect (demo_peer CON_TCP W_PLAIN) (mkWires [] []) k = (e, set_fd k None, -1) /\
    (server_connect (demo_peer CON_TCP W_PLAIN) (mkWires [] []) (mkLink (demo_con None) (Direct (SockStrm [])) [demo_addr 2003])).2 = 1.
Proof.
  intros k. eexists. split; [|vm_compute; reflexivity].
  eapply (first_address_only (demo_peer CON_TCP W_PLAIN) (mkWires [] []) _ _ _ k (demo_addr 0) (demo_addr 2003) []); reflexivity.
Defined.



(** A pipe whose reading end cannot be added to the dispatcher stays open at both ends, each time it is tried. *)
Theorem failed_pipe_stays_open {E : Type} `{ServerEnv E} `{Codecs} `{!NetEnv E} (self : peer) (e e1 e2 : E) (k : link) (rd wr : nat) :
  p_ctype self = CON_PIPE -> p_reresolve self = false -> net_pipe e = (e1, Some (rd, wr)) -> net_addconnection e1 rd = (e2, false) ->
  server_connect self e k = (e2, add_failure k, -1).
Proof.
  intros Hp Hr He Ha. unfold server_connect, reresolve. rewrite Hr. unfold open_fd. rewrite Hp. unfold connect_pipe. rewrite He, Ha. done.
Qed.

Lemma failed_pipe_stays_open_witness :
  let k := mkLink (demo_con None) (Direct (SockStrm [])) [] in
  server_connect (demo_peer CON_PIPE W_PLAIN) (mkWires [] []) k = (mkWires [] [2; 1]%nat, add_failure k, -1).
Proof.
  intros k. eapply (failed_pipe_stays_open (demo_peer CON_PIPE W_PLAIN) (mkWires [] []) _ _ k); reflexivity.
Defined.
