(* ===== verification/Hop.v ===== *)
(** * From relay to relay

    A relay that sends to another one with gzip: the streams of src/server.c
    ([Streams]) against the transport of src/dispatcher.c ([Transport]).  All that
    is asked of zlib is that an inflater reads what a deflater writes. *)
From S2P Require Import Prelude Relay Server DispatchParse Streams Transport.
#[local] Open Scope Z_scope.

Section Hop.
Context {E1 : Type} `{ServerEnv E1} `{Codecs} `{!NetEnv E1} `{!CodecLaws}.
Context {E2 : Type} `{Decompressors} `{!WireEnv E2}.

(** The two ends: [z] decodes what [g] encodes. *)
Definition same_codec (decode : infl_state -> list Z -> option (list Z)) (z : infl_state) (g : gz_state) : Prop :=
  forall f, decode z f = Streams.inflate g f.

(** [dispatch_connection] closes the connection, unless metrics are still blocked, after a [strmread] that returned 0 or
    failed for good, and after a [strmreadbuf] that ran out of memory. *)
Definition ends (c : call) (r : read_result) : bool :=
  match c, r with
  | Read _, (ReadData [] | ReadEOF) => true
  | Read _, ReadErr EAGAIN => false
  | Read _, ReadErr _ => true
  | ReadBuf _, (ReadErr ENOMEM | ReadNeg ENOMEM) => true
  | _, _ => false
  end.
(** What a connection reads from its stream until it is closed: the calls, each with whether metrics are blocked after
    it, and finally whether it is still open. *)
Fixpoint client_reads (cs : list (call * bool)) (e : E2) (s : instrm) : option (E2 * instrm * list read_result * bool) :=
  match cs with
  | [] => Some (e, s, [], true)
  | (c, blocked) :: cs' =>
      '(e, s, r) ← strm_call c e s;
      if ends c r && negb blocked then Some (e, s, [r], false)
      else
        '(e, s, rs, o) ← client_reads cs' e s;
        Some (e, s, r :: rs, o)
  end.

Lemma client_reads_calls cs e s e' s' rs o :
  client_reads cs e s = Some (e', s', rs, o) -> exists cs', strm_calls cs' e s = Some (e', s', rs).
Proof.
  revert e s rs. induction cs as [|[c bl] cs IH]; intros e s rs; cbn [client_reads].
  { intros [= <- <- <- <-]. by exists []. }
  destruct (strm_call c e s) as [[[e1 s1] r]|] eqn:Ec; [|done]. run_binds. destruct (_ && _).
  - intros [= <- <- <- <-]. exists [c]. cbn [strm_calls]. rewrite Ec. by run_binds.
  - destruct (client_reads cs e1 s1) as [[[[e2 s2] rs2] o2]|] eqn:Es; [|done]. run_binds. intros [= <- <- <- <-].
    destruct (IH _ _ _ Es) as [cs' Hs]. exists (c :: cs'). cbn [strm_calls]. rewrite Ec. run_binds. rewrite Hs. by run_binds.
Qed.

(** A connection whose last read ended it got nothing from that read. *)
Lemma client_reads_closed cs e s e' s' rs :
  client_reads cs e s = Some (e', s', rs, false) -> exists rs' r, rs = rs' ++ [r] /\ data_of r = [].
Proof.
  revert e s rs. induction cs as [|[c bl] cs IH]; intros e s rs; cbn [client_reads]; [done|].
  destruct (strm_call c e s) as [[[e1 s1] r]|] eqn:Ec; [|done]. run_binds. destruct (ends c r && negb bl) eqn:Ee.
  - intros [= <- <- <-]. exists [], r. split; [done|]. by destruct c, r as [[]| |[]|[]].
  - destruct (client_reads cs e1 s1) as [[[[e2 s2] rs2] o2]|] eqn:Es; [|done]. run_binds. intros [= <- <- <- ->].
    destruct (IH _ _ _ Es) as (rs' & r' & -> & Hr). by exists (r :: rs'), r'.
Qed.

(** The receiver: a connection with a new gzip stream that made some reads, until it was closed if it was ([open]), and
    got part of what is on the wire, [more] being still to come; the network gave neither an end nor an error (the
    stream is in its first mode), and memory lasted. *)
Inductive received (recv : E2 -> list Z) (z : infl_state) (sent : list Z) (rs : list read_result) (open : bool) (z' : infl_state) : list Z -> Prop :=
  | received_intro (cs : list (call * bool)) (e e' : E2) (i i' : inbuf) (b b' : bottom) (more : list Z) :
      client_reads cs e (InGzip z Z_SYNC_FLUSH i b) = Some (e', InGzip z' Z_SYNC_FLUSH i' b', rs, open) ->
      recv e = [] -> inb i = [] -> recv e' ++ more = sent -> ReadErr ENOMEM ∉ rs ->
      received recv z sent rs open z' (inb i' ++ more).
End Hop.


