(* ===== verification/RouterConfig.v ===== *)
(** * Building a router from its configuration (src/router.c, src/conffile.y)

    The operations the parser's actions call: validating addresses, expressions and
    cluster names, and adding servers, clusters, routes, aggregators, listeners and
    the collector's settings to a router.

    Servers live in a [world] ([Server]) and are referred to by number, aggregators
    by number as well.  A function that returns an error message has it as
    [inr]; [None] is undefined behaviour (a null pointer, a write past an array).
    Memory is available.  The resolver and [inet_ntop] are the class [Resolver]. *)
From S2P Require Import Prelude Relay Queue ConsistentHash Rewrite Matching Router Server.
#[local] Open Scope Z_scope.

(** ** The structures *)

(** [enum clusttype] *)
Module Clusttype.
Inductive clusttype :=
  | BLACKHOLE | GROUP | AGGRSTUB | STATSTUB | VALIDATION | FORWARD | FILELOG | FILELOGIP
  | CARBON_CH | FNV1A_CH | JUMP_CH | ANYOF | FAILOVER | LB | AGGREGATION | REWRITE.
#[global] Instance clusttype_eq_dec : EqDecision clusttype.
Proof. solve_decision. Defined.
End Clusttype.

Inductive col_mode := SUB | CUM.

(** The messages of the configuration's errors. *)
Inductive conf_error :=
  | E_invalid_port | E_expected_bracket | E_unknown_cluster | E_expression (e : regerr)
  | E_other_type | E_without_instance | E_with_instance | E_other_instance
  | E_ring_memory | E_cannot_share | E_same_name | E_replication_count
  | E_invalid_listener | E_duplicate_listener | E_unknown_stub | E_duplicate_statistics
  | E_prefix | E_replication_range | E_threshold | E_cluster_type
  | E_path | E_interval | E_expire | E_expire_interval | E_percentile | E_udp_transport.

(** Name resolution: [getaddrinfo] with or without [AI_NUMERICHOST] ([None] as host is
    the NULL of a listener on any interface), and [inet_ntop]. *)
Class Resolver := {
  getaddrinfo : option cstring -> Z -> con_proto -> bool -> option (list addrinfo);
  saddr_ntop : addrinfo -> cstring;
}.

(** What the file system says of a path: the mode [stat] gives it, and the error of opening it
    for appending ([None] when that succeeds). *)
Class Filesystem := {
  stat_mode : cstring -> option Z;
  open_append : cstring -> option Z;
}.

(** [struct _router_listener], apart from its sockets: [Dispatcher] has those. *)
Record rlistener := mkRl {
  rl_type : con_type; rl_transport : Z; rl_ctype : con_proto;
  rl_ip : option cstring; rl_port : Z; rl_pem : Z; rl_saddrs : list addrinfo;
}.

Record rconf := mkConf {
  f_workercnt : nat; f_queuesize : nat; f_batchsize : nat; f_maxstalls : Z; f_iotimeout : Z;
}.

(** ** Addresses *)

(** The offset of the last colon. *)
Fixpoint last_colon (i : nat) (s : cstring) (found : option nat) : option nat :=
  match s with
  | [] => found
  | c :: s' => last_colon (i + 1) s' (if c =? ch ":" then Some i else found)
  end.

Definition GRAPHITE_PORT : Z := 2003.

Record address := mkAddress {
  ad_ip : option cstring; ad_port : Z; ad_saddr : option (list addrinfo); ad_hint : bool;
}.

(** How [router_validate_address] takes the text apart. *)
Definition split_address (ip : cstring) : option ((option cstring * Z) + conf_error) :=
  let n := length ip in
  if (n =? 0)%nat then None   (* reads in front of the text *)
  else
    let closed := bool_decide (ip !! (n - 1)%nat = Some (ch "]")) in
    let lastcolon := if closed then None else last_colon 0 ip None in
    let port := match lastcolon with
                | None => Some GRAPHITE_PORT
                | Some lc =>
                    let '(lport, rest) := strtol (drop (lc + 1) ip) in
                    if (lport <? 1) || (65535 <? lport) || negb (bool_decide (rest = [])) then None else Some lport
                end in
    match port with
    | None => Some (inr E_invalid_port)
    | Some port =>
        if bool_decide (take 1 ip = [ch "["]) then
          match lastcolon with
          | Some lc =>
              if bool_decide (ip !! (lc - 1)%nat = Some (ch "]")) then Some (inl (Some (drop 1 (take (lc - 1) ip)), port))
              else Some (inr E_expected_bracket)
          | None => if closed then Some (inl (Some (drop 1 (take (n - 1) ip)), port)) else Some (inr E_expected_bracket)
          end
        else match lastcolon with
             | Some O => Some (inl (None, port))
             | Some lc => Some (inl (Some (take lc ip), port))
             | None => Some (inl (Some ip, port))
             end
    end.

(** ** Addresses read back *)

Lemma last_colon_none s i found : Forall (fun c => c <> ch ":") s -> last_colon i s found = found.
Proof.
  intros Hs. revert i found. induction Hs as [|c s Hc Hs IH]; intros i found; cbn [last_colon]; [done|].
  by rewrite (proj2 (Z.eqb_neq c (ch ":"))), IH.
Qed.
Lemma last_colon_app a b i found :
  Forall (fun c => c <> ch ":") b -> last_colon i (a ++ ch ":" :: b) found = Some (i + length a)%nat.
Proof.
  intros Hb. revert i found. induction a as [|c a IH]; intros i found; cbn [last_colon app length].
  - rewrite Z.eqb_refl, last_colon_none by done. f_equal. lia.
  - rewrite IH. f_equal. lia.
Qed.
Lemma show_no_colon n : Forall (fun c => c <> ch ":") (show_nonneg n).
Proof. eapply Forall_impl; [apply show_nonneg_digits|]. by intros c Hc ->. Qed.
Lemma show_last_digit a n c : (a ++ show_nonneg n) !! (length (a ++ show_nonneg n) - 1)%nat = Some c -> is_digit c = true.
Proof.
  destruct (show_nonneg_digits n) as [Hd Hne]. destruct (exists_last Hne) as (s & d & Es). rewrite Es in Hd |- *.
  rewrite (assoc_L app), length_app. cbn [length]. rewrite Nat.add_sub, lookup_app_r, Nat.sub_diag by lia. intros [= <-].
  apply Forall_app in Hd as [_ Hd]. rewrite Forall_singleton in Hd. exact Hd.
Qed.

(** The text in front of a port, and what becomes of it. *)
Lemma split_address_port a port :
  1 <= port <= 65535 ->
  split_address (a ++ ch ":" :: show_nonneg port) =
    Some (if bool_decide (take 1 (a ++ [ch ":"]) = [ch "["]) then
            if bool_decide (last a = Some (ch "]")) then inl (Some (drop 1 (take (length a - 1) a)), port) else inr E_expected_bracket
          else inl (if bool_decide (a = []) then None else Some a, port)).
Proof.
  intros Hp. unfold split_address. set (ip := a ++ ch ":" :: show_nonneg port).
  assert (length ip = length a + 1 + length (show_nonneg port))%nat as Hl by (unfold ip; rewrite length_app; cbn; lia).
  destruct (Nat.eqb_spec (length ip) 0) as [?|_]; [lia|].
  rewrite bool_decide_false.
  2: { intros E. unfold ip in E. rewrite (cons_middle (ch ":")), (assoc_L app) in E. by apply show_last_digit in E. }
  assert (last_colon 0 ip None = Some (length a)) as -> by (unfold ip; by rewrite last_colon_app by apply show_no_colon).
  replace (drop (length a + 1) ip) with (show_nonneg port).
  2: { unfold ip. rewrite drop_app. rewrite drop_ge by lia. by replace (length a + 1 - length a)%nat with 1%nat by lia. }
  rewrite strtol_show by lia. destruct (Z.ltb_spec port 1), (Z.ltb_spec 65535 port); try lia. cbn [orb negb].
  rewrite bool_decide_true by done. cbn [negb].
  assert (take 1 ip = take 1 (a ++ [ch ":"])) as -> by (by unfold ip; destruct a).
  assert (take (length a) ip = a) as Ea by (unfold ip; by rewrite take_app_length).
  assert (take (length a - 1) ip = take (length a - 1) a) as Eb by (unfold ip; rewrite take_app_le; [done|lia]).
  destruct a as [|c a]; [done|].
  assert (ip !! (length (c :: a) - 1)%nat = last (c :: a)) as Ec.
  { unfold ip. rewrite lookup_app_l by (cbn; lia). rewrite last_lookup. f_equal. lia. }
  cbn [length] in Ea, Eb, Ec |- *. rewrite Ea, Eb, Ec.
  rewrite (bool_decide_false (c :: a = [])) by done. by repeat case_bool_decide.
Qed.

(** The text without a port. *)
Lemma split_address_default a :
  a <> [] -> Forall (fun c => c <> ch ":") a -> take 1 a <> [ch "["] -> split_address a = Some (inl (Some a, GRAPHITE_PORT)).
Proof.
  intros Ha Hc Hb. unfold split_address. destruct a as [|c a]; [done|]. cbn [length Nat.eqb].
  rewrite last_colon_none by done. rewrite (bool_decide_false _ Hb). by case_bool_decide.
Qed.
Lemma split_address_bracket h : split_address (ch "[" :: h ++ [ch "]"]) = Some (inl (Some h, GRAPHITE_PORT)).
Proof.
  unfold split_address. set (ip := ch "[" :: h ++ [ch "]"]).
  assert (length ip = length h + 2)%nat as Hl by (unfold ip; cbn; rewrite length_app; cbn; lia).
  destruct (Nat.eqb_spec (length ip) 0) as [?|_]; [lia|]. rewrite Hl.
  assert (ip !! (length h + 2 - 1)%nat = Some (ch "]")) as ->.
  { unfold ip. replace (length h + 2 - 1)%nat with (S (length h)) by lia.
    change ((h ++ [ch "]"]) !! length h = Some (ch "]")). by apply list_lookup_middle. }
  rewrite bool_decide_true by done. rewrite bool_decide_true by done.
  replace (length h + 2 - 1)%nat with (S (length h)) by lia. unfold ip. cbn [take drop]. by rewrite take_app_length.
Qed.
Lemma split_address_range s h port : split_address s = Some (inl (h, port)) -> 1 <= port <= 65535.
Proof.
  unfold split_address. destruct (_ =? 0)%nat; [done|]. set (lc := if bool_decide _ then None else _).
  set (p := match lc with None => _ | Some _ => _ end).
  assert (forall q, p = Some q -> 1 <= q <= 65535) as Hp.
  { intros q. unfold p, GRAPHITE_PORT. destruct lc; [|intros [= <-]; lia]. destruct (strtol _) as [v rest].
    destruct (Z.ltb_spec v 1), (Z.ltb_spec 65535 v), (negb _); try done. intros [= <-]. lia. }
  destruct p as [q|]; [|done]. specialize (Hp q eq_refl).
  destruct (bool_decide _), lc as [[|lc]|]; repeat case_bool_decide; repeat destruct (bool_decide _); intros [= _ <-]; done.
Qed.

Section Config.
Context `{Resolver} `{Regex}.

(** [router_validate_address]; a name that does not resolve is accepted as well. *)
Definition router_validate_address (ip : cstring) (proto : con_proto) : option (address + conf_error) :=
  r ← split_address ip;
  Some (match r with
        | inr e => inr e
        | inl (host, port) =>
            inl (match getaddrinfo host port proto true with
                 | Some saddr => mkAddress host port (Some saddr) false
                 | None => mkAddress host port (getaddrinfo host port proto false) true
                 end)
        end).

(** [router_validate_path]; after a [stat] that failed the mode is not set.  The file that
    opening the path may create is removed again. *)
Definition EOPNOTSUPP : Z := 95.
Definition ENXIO : Z := 6.
Definition S_IFSOCK : Z := 49152.
Definition router_validate_path `{Filesystem} (path : cstring) : option (option conf_error) :=
  match open_append path with
  | None => Some None
  | Some errno =>
      if (errno =? EOPNOTSUPP) || (errno =? ENXIO) then
        mode ← stat_mode path;
        Some (if Z.land mode S_IFSOCK =? 0 then Some E_path else None)
      else Some (Some E_path)
  end.

(** [router_validate_expression] *)
Definition router_validate_expression (conf : rconf) (pat : cstring) : matcher + conf_error :=
  if strcmp pat (lit "*") =? 0 then inl (mkMatcher _ [] [] 0 [] MATCHALL)
  else match determine_if_regex true (f_workercnt conf) pat with
       | inl m => inl m
       | inr e => inr (E_expression e)
       end.

(** ** Clusters and the router *)

(** The union [members]; [anyof] has [count], the array and the list. *)
Inductive members :=
  | M_forward (l : list nat)
  | M_ch (repl_factor : nat) (ring : option (ch_ring nat)) (l : list nat)
  | M_anyof (count : Z) (arr : list nat) (l : list nat)
  | M_routes (rs : list (route nat nat))
  | M_aggregation (a : nat)
  | M_replacement (text : cstring)
  | M_validation (rule : matcher) (action : validate_action).

(** [struct _cluster] *)
Record ccluster := mkCl {
  cl_name : option cstring; cl_type : Clusttype.clusttype; cl_connections : Z;
  cl_threshold_start : Z; cl_threshold_end : Z; cl_ttl : Z; cl_isdynamic : bool;
  cl_queue : option nat; cl_members : members;
}.

(** [struct _router]; [srvrs] has the servers with their reference counts. *)
Record router := mkRouter {
  r_clusters : list ccluster; r_routes : list (route nat nat); r_aggregators : list nat;
  r_srvrs : list (nat * Z);
  r_stub : option cstring; r_interval : Z; r_prefix : cstring; r_mode : col_mode;
  r_listeners : list rlistener; r_conf : rconf;
}.

Definition set_clusters (r : router) clusters : router :=
  mkRouter clusters (r_routes r) (r_aggregators r) (r_srvrs r) (r_stub r) (r_interval r) (r_prefix r) (r_mode r) (r_listeners r) (r_conf r).
Definition set_routes (r : router) routes : router :=
  mkRouter (r_clusters r) routes (r_aggregators r) (r_srvrs r) (r_stub r) (r_interval r) (r_prefix r) (r_mode r) (r_listeners r) (r_conf r).
Definition set_srvrs (r : router) srvrs : router :=
  mkRouter (r_clusters r) (r_routes r) (r_aggregators r) srvrs (r_stub r) (r_interval r) (r_prefix r) (r_mode r) (r_listeners r) (r_conf r).
Definition set_collector (r : router) stub interval prefix mode : router :=
  mkRouter (r_clusters r) (r_routes r) (r_aggregators r) (r_srvrs r) stub interval prefix mode (r_listeners r) (r_conf r).
Definition set_rlisteners (r : router) listeners : router :=
  mkRouter (r_clusters r) (r_routes r) (r_aggregators r) (r_srvrs r) (r_stub r) (r_interval r) (r_prefix r) (r_mode r) listeners (r_conf r).
Definition set_aggregators (r : router) aggregators : router :=
  mkRouter (r_clusters r) (r_routes r) aggregators (r_srvrs r) (r_stub r) (r_interval r) (r_prefix r) (r_mode r) (r_listeners r) (r_conf r).
Definition set_members (cl : ccluster) ms : ccluster :=
  mkCl (cl_name cl) (cl_type cl) (cl_connections cl) (cl_threshold_start cl) (cl_threshold_end cl) (cl_ttl cl) (cl_isdynamic cl) (cl_queue cl) ms.
Definition set_cqueue (cl : ccluster) q : ccluster :=
  mkCl (cl_name cl) (cl_type cl) (cl_connections cl) (cl_threshold_start cl) (cl_threshold_end cl) (cl_ttl cl) (cl_isdynamic cl) q (cl_members cl).

(** [cluster_servers] *)
Definition cluster_servers (cl : ccluster) : list nat :=
  match cl_members cl with M_forward l | M_ch _ _ l | M_anyof _ _ l => l | _ => [] end.

(** A cluster as a destination of a route. *)
Definition as_dest (cl : ccluster) : cluster nat nat :=
  match cl_type cl, cl_members cl with
  | Clusttype.FORWARD, M_forward l => FORWARD l
  | Clusttype.FILELOG, M_forward l => FILELOG l
  | Clusttype.FILELOGIP, M_forward l => FILELOGIP l
  | Clusttype.CARBON_CH, M_ch repl (Some ring) _ => CARBON_CH repl ring
  | Clusttype.FNV1A_CH, M_ch repl (Some ring) _ => FNV1A_CH repl ring
  | Clusttype.JUMP_CH, M_ch repl (Some ring) _ => JUMP_CH repl ring
  | Clusttype.ANYOF, M_anyof _ arr _ => ANYOF arr
  | Clusttype.FAILOVER, M_anyof _ arr _ => FAILOVER arr
  | Clusttype.LB, M_anyof _ arr _ => LB arr
  | Clusttype.AGGRSTUB, M_routes rs => AGGRSTUB rs
  | Clusttype.STATSTUB, M_routes rs => STATSTUB rs
  | Clusttype.AGGREGATION, M_aggregation a => AGGREGATION a
  | Clusttype.REWRITE, M_replacement text => REWRITE text
  | Clusttype.VALIDATION, M_validation rule action => VALIDATION rule action
  | _, _ => BLACKHOLE
  end.

(** [router_validate_cluster]: the named cluster; pseudo clusters cannot be named. *)
Definition nameable (ty : Clusttype.clusttype) : bool :=
  match ty with
  | Clusttype.GROUP | Clusttype.AGGRSTUB | Clusttype.STATSTUB | Clusttype.AGGREGATION | Clusttype.REWRITE | Clusttype.VALIDATION => false
  | _ => true
  end.
Definition router_validate_cluster (r : router) (name : cstring) : option (ccluster + conf_error) :=
  (fix go (cls : list ccluster) :=
     match cls with
     | [] => Some (inr E_unknown_cluster)
     | cl :: cls' =>
         if nameable (cl_type cl) then
           match cl_name cl with
           | None => None
           | Some n => if strcmp n name =? 0 then Some (inl cl) else go cls'
           end
         else go cls'
     end) (r_clusters r).

(** [cw->name != NULL && cl->name != NULL && strcmp(cw->name, cl->name) == 0] *)
Definition same_name (a b : option cstring) : bool :=
  match a, b with Some a, Some b => strcmp a b =? 0 | _, _ => false end.

(** [router_cluster] *)
Definition router_cluster (r : router) (name : option cstring) : option ccluster :=
  snd <$> list_find (fun cl => same_name (cl_name cl) name = true) (r_clusters r).

(** ** Adding servers *)

Context {Q : Type} `{FifoQueue Q (list Z)} (queue_of : nat -> Q).
Context `{Qsort (ch_ring_entry nat)}.
(** The global [queuefree_threshold_start] and [_end]. *)
Context (qts qte : Z).

(** A server's address and instance, for the rings. *)
Definition world_info (w : world Q) : ServerInfo nat := {|
  server_ip i := default [] (s_ip <$> servers w !! i);
  server_port i := default 0 (s_port <$> servers w !! i);
  server_instance i := s ← servers w !! i; s_instance s;
|}.

Definition with_instance (s : server) inst : server :=
  mkServer (s_ip s) (s_port s) inst (s_saddr s) (s_reresolve s) (s_conns s) (s_shared_queue s) (s_queue s) (s_bsize s)
    (s_qfree_threshold s) (s_threshold_start s) (s_threshold_end s) (s_ttl s) (s_iotimeout s) (s_maxstalls s)
    (s_type s) (s_transport s) (s_ctype s) (s_secondaries s) (s_failover s) (s_keep_running s) (s_stallseq s) (s_counters s).
(** [server_set_instance] *)
Definition server_set_instance (w : world Q) (self : nat) (inst : cstring) : world Q :=
  update w self (fun s => with_instance s (Some inst)).

(** A host of a cluster statement ([struct _clhost]). *)
Record clhost := mkHost {
  h_ip : cstring; h_port : Z; h_inst : option cstring; h_type : con_type; h_trnsp : Z; h_proto : con_proto;
  h_saddrs : list addrinfo; h_hint : bool;
}.

(** The search for an existing server: its position in [srvrs]. *)
Fixpoint find_server (w : world Q) (srvrs : list (nat * Z)) (k : nat) (saddr : option addrinfo) (ip : cstring) (h : clhost)
    (nconns : nat) : option (option nat) :=
  match srvrs with
  | [] => Some None
  | (i, _) :: srvrs' =>
      s ← servers w !! i;
      if server_cmp s saddr ip (h_port h) (h_proto h) nconns =? 0 then Some (Some k)
      else find_server w srvrs' (k + 1) saddr ip h nconns
  end.

(** The checks of a server that is in use already. *)
Definition check_existing (s : server) (h : clhost) : option conf_error :=
  if negb (bool_decide (h_type h = s_type s)) then Some E_other_type
  else match s_instance s, h_inst h with
       | None, Some _ => Some E_without_instance
       | Some _, None => Some E_with_instance
       | Some a, Some b => if negb (strcmp a b =? 0) then Some E_other_instance else None
       | None, None => None
       end.

(** The server becomes a member of the cluster; [refcnt] is the server's. *)
Definition add_member (w : world Q) (cl : ccluster) (i : nat) (refcnt : Z) : option (ccluster + conf_error) :=
  match cl_members cl with
  | M_ch repl ring l =>
      ring ← @ch_addnode nat (world_info w) _ ring i;
      Some (match ring with
            | None => inr E_ring_memory
            | Some ring => inl (set_members cl (M_ch repl (Some ring) (l ++ [i])))
            end)
  | M_forward l => Some (inl (set_members cl (M_forward (l ++ [i]))))
  | M_anyof count arr l =>
      if 1 <? refcnt then Some (inr E_cannot_share)
      else Some (inl (set_members cl (M_anyof (u16 (count + 1)) arr (l ++ [i]))))
  | _ => Some (inl cl)
  end.

(** One turn of the loop of [router_add_server]. *)
Definition add_one (w : world Q) (r : router) (cl : ccluster) (h : clhost) (ip : cstring) (hint : bool) (walk : option addrinfo) :
    option ((world Q * router * ccluster) + conf_error) :=
  let conf := r_conf r in
  found ← find_server w (r_srvrs r) 0 walk ip h (Z.to_nat (u16 (cl_connections cl)));
  '(w, r, i, refcnt) ←
    match found with
    | Some k =>
        '(i, refcnt) ← r_srvrs r !! k;
        Some (w, set_srvrs r (<[k := (i, refcnt + 1)]> (r_srvrs r)), i, refcnt + 1)
    | None =>
        let '(w, i) := server_new qts qte w (queue_of (f_queuesize conf)) ip (h_port h) (h_type h) (h_trnsp h) (h_proto h)
          (u16 (cl_connections cl)) walk hint (cl_queue cl) (f_batchsize conf) (f_maxstalls conf) (f_iotimeout conf)
          (cl_threshold_start cl) (cl_threshold_end cl) (cl_ttl cl) in
        Some (w, set_srvrs r (r_srvrs r ++ [(i, 1)]), i, 1)
    end;
  s ← servers w !! i;
  match (if 1 <? refcnt then check_existing s h else None) with
  | Some e => Some (inr e)
  | None =>
      let w := match h_inst h with None => w | Some inst => server_set_instance w i inst end in
      m ← add_member w cl i refcnt;
      Some (match m with inr e => inr e | inl cl => inl (w, r, cl) end)
  end.

(** The loop over the addresses, when all of them are used.  Once [ip] points to
    [hnbuf] ([in_buf]) it changes with it. *)
Fixpoint add_all (w : world Q) (r : router) (cl : ccluster) (h : clhost) (saddrs : list addrinfo) (ip : cstring) (in_buf : bool) :
    option ((world Q * router * ccluster) + conf_error) :=
  match saddrs with
  | [] => Some (inl (w, r, cl))
  | a :: saddrs' =>
      let hnbuf := saddr_ntop a in
      let in_buf := in_buf || negb (bool_decide (hnbuf = [])) in
      let ip := if in_buf then hnbuf else ip in
      x ← add_one w r cl h ip false (Some a);
      match x with
      | inr e => Some (inr e)
      | inl (w, r, cl) => add_all w r cl h saddrs' ip in_buf
      end
  end.

(** [router_add_server] *)
Definition router_add_server (w : world Q) (r : router) (h : clhost) (useall : bool) (cl : ccluster) :
    option ((world Q * router * ccluster) + conf_error) :=
  let '(w, cl) :=
    if bool_decide (cl_type cl = Clusttype.FAILOVER) && bool_decide (cl_queue cl = None) then
      (mkWorld (servers w) (queues w ++ [queue_of (f_queuesize (r_conf r))]), set_cqueue cl (Some (length (queues w))))
    else (w, cl) in
  if useall then if bool_decide (h_saddrs h = []) then None else add_all w r cl h (h_saddrs h) (h_ip h) false
  else add_one w r cl h (h_ip h) (h_hint h) (head (h_saddrs h)).

(** ** Adding clusters *)

(** [router_add_cluster] *)
Definition add_secondaries (w : world Q) (l secs : list nat) : world Q :=
  foldl (fun w i => server_add_secondaries w i secs) w l.
Definition router_add_cluster (w : world Q) (r : router) (cl : ccluster) : option ((world Q * router) + conf_error) :=
  if existsb (fun cw => same_name (cl_name cw) (cl_name cl)) (r_clusters r) then Some (inr E_same_name)
  else if bool_decide (r_clusters r = []) then None   (* last is NULL *)
  else
    match cl_members cl with
    | M_anyof count arr l =>
        if bool_decide (l = []) then None   (* members.anyof is NULL *)
        else if count <? Z.of_nat (length l) then None   (* writes past the array *)
        else
          let cl := set_members cl (M_anyof count l l) in
          let w := if bool_decide (cl_type cl = Clusttype.FAILOVER) then foldl server_set_failover w (tail l) else w in
          Some (inl (add_secondaries w l l, set_clusters r (r_clusters r ++ [cl])))
    | M_ch repl ring l =>
        if (length l <? repl)%nat then Some (inr E_replication_count)
        else
          let w := if cl_isdynamic cl then add_secondaries w l l else w in
          Some (inl (w, set_clusters r (r_clusters r ++ [cl])))
    | _ => Some (inl (w, set_clusters r (r_clusters r ++ [cl])))
    end.

(** ** Routes, aggregators and stubs *)

(** [router_add_route], which only warns of a route that follows a match-all stop. *)
Definition router_add_route (r : router) (rte : route nat nat) : router := set_routes r (r_routes r ++ [rte]).
Definition router_add_aggregator (r : router) (a : nat) : router := set_aggregators r (r_aggregators r ++ [a]).

Definition STUB_AGGR : cstring := lit "_aggregator_stub_".
Definition STUB_STATS : cstring := lit "_collector_stub_".

(** [router_add_stubroute]; [ptr] is the address printed in the name.  The result has
    the name, which [aggregator_set_stub] gives an aggregator. *)
Definition router_add_stubroute (w : world Q) (r : router) (type : Clusttype.clusttype) (ptr : cstring) (dw : list (cluster nat nat)) :
    option ((world Q * router * cstring) + conf_error) :=
  let catch := mkRoute (mkMatcher _ [] [] 0 [] MATCHALL) None true dw in
  let cl := mkCl None type 0 0 0 0 false None (M_routes [catch]) in
  x ← router_add_cluster w r cl;
  Some (match x with
        | inr e => inr e
        | inl (w, r) =>
            let add stub :=
              let stubname := snprintf_trunc 48 (stub ++ ptr ++ lit "__") in
              let m := mkMatcher _ stubname [] 0 stubname STARTS_WITH in
              let r := set_routes r (mkRoute m None true [as_dest cl] :: r_routes r) in
              inl (w, if bool_decide (type = Clusttype.STATSTUB)
                      then set_collector r (Some stubname) (r_interval r) (r_prefix r) (r_mode r) else r, stubname) in
            match type with
            | Clusttype.AGGRSTUB => add STUB_AGGR
            | Clusttype.STATSTUB => add STUB_STATS
            | _ => inr E_unknown_stub
            end
        end).

(** [router_set_statistics] *)
Definition router_set_statistics (w : world Q) (r : router) (ptr : cstring) (dsts : list (cluster nat nat)) :
    option ((world Q * router * cstring) + conf_error) :=
  if bool_decide (r_stub r = None) then router_add_stubroute w r Clusttype.STATSTUB ptr dsts
  else Some (inr E_duplicate_statistics).

(** [router_set_collectorvals]; [hostmatch] are the offsets of the expression for the host
    name, its first part and the rest. *)
Definition router_set_collectorvals (hostname : cstring) (hostmatch : option (list regmatch)) (r : router) (intv : Z)
    (prefix : option cstring) (smode : col_mode) : router + conf_error :=
  let interval := if 0 <=? intv then intv else r_interval r in
  match prefix with
  | None => inl (set_collector r (r_stub r) interval (r_prefix r) smode)
  | Some prefix =>
      match hostmatch with
      | None => inr E_prefix
      | Some pmatch =>
          match router_rewrite_metric hostname [] prefix 3 pmatch with
          | None => inr E_prefix
          | Some (cprefix, _) => inl (set_collector r (r_stub r) interval cprefix smode)
          end
      end
  end.

(** ** Listeners *)

(** Do two addresses overlap? *)
Definition any_address (n : cstring) : bool := (strcmp n (lit "0.0.0.0") =? 0) || (strcmp n (lit "::") =? 0).
Definition overlap (a b : addrinfo) : bool :=
  (ai_family a =? ai_family b) &&
  (any_address (saddr_ntop a) || any_address (saddr_ntop b) || (strcmp (saddr_ntop a) (saddr_ntop b) =? 0)).

(** The tests of [router_add_listener] against one listener. *)
Definition listener_clash (l : rlistener) (ctype : con_proto) (ip : option cstring) (port : Z) (saddrs : list addrinfo) : option bool :=
  if bool_decide (saddrs = []) then
    if bool_decide (rl_ctype l = ctype) then
      match rl_ip l, ip with
      | Some a, Some b => Some (strcmp a b =? 0)
      | _, _ => None
      end
    else Some false
  else Some (bool_decide (rl_ctype l = ctype) && (rl_port l =? port) && existsb (fun a => existsb (overlap a) (rl_saddrs l)) saddrs).

Fixpoint clash_any (ls : list rlistener) (ctype : con_proto) (ip : option cstring) (port : Z) (saddrs : list addrinfo) : option bool :=
  match ls with
  | [] => Some false
  | l :: ls' =>
      c ← listener_clash l ctype ip port saddrs;
      if c : bool then Some true else clash_any ls' ctype ip port saddrs
  end.

(** [router_add_listener]; [pem] is the time the certificate was changed. *)
Definition router_add_listener (r : router) (ltype : con_type) (trnsp : Z) (pem : Z) (ctype : con_proto) (ip : option cstring)
    (port : Z) (saddrs : list addrinfo) : option (router + conf_error) :=
  if bool_decide (saddrs = []) && (bool_decide (ctype = CON_UDP) || bool_decide (ctype = CON_TCP)) then Some (inr E_invalid_listener)
  else
    c ← clash_any (r_listeners r) ctype ip port saddrs;
    Some (if c : bool then inr E_duplicate_listener
          else inl (set_rlisteners r (r_listeners r ++ [mkRl ltype trnsp ctype ip port pem saddrs]))).
End Config.

(** ** Properties *)

(** Addresses read back: a host (an IPv6 address too, with or without brackets) and a port are taken
    apart as they were put together; without a port it is 2003, without a host every interface is meant;
    and every address that is accepted has a port from 1 to 65535. *)
Theorem split_address_roundtrip (host : cstring) (port : Z) :
  1 <= port <= 65535 ->
  split_address (ch ":" :: show_nonneg port) = Some (inl (None, port)) /\
  split_address (ch "[" :: host ++ [ch "]"; ch ":"] ++ show_nonneg port) = Some (inl (Some host, port)) /\
  split_address (ch "[" :: host ++ [ch "]"]) = Some (inl (Some host, 2003)) /\
  (host <> [] -> take 1 host <> [ch "["] ->
     split_address (host ++ ch ":" :: show_nonneg port) = Some (inl (Some host, port)) /\
     (Forall (fun c => c <> ch ":") host -> split_address host = Some (inl (Some host, 2003)))) /\
  (forall s h p, split_address s = Some (inl (h, p)) -> 1 <= p <= 65535).
Proof.
  intros Hp. split_and!.
  - exact (split_address_port [] port Hp).
  - pose proof (split_address_port (ch "[" :: host ++ [ch "]"]) port Hp) as E. cbn [app] in E.
    rewrite <- (assoc_L app) in E. cbn [app] in E |- *. rewrite E. rewrite bool_decide_true by done.
    rewrite app_comm_cons, last_snoc, bool_decide_true by done. rewrite length_app. cbn [length].
    rewrite Nat.add_sub, take_app_length' by done. done.
  - apply split_address_bracket.
  - intros Hne Hb. split; [|intros Hc; by apply split_address_default].
    rewrite split_address_port by done. rewrite (bool_decide_false (host = [])) by done. rewrite bool_decide_false; [done|].
    by destruct host.
  - intros s h p. apply split_address_range.
Qed.
Lemma split_address_roundtrip_witness :
  split_address (lit "10.0.0.1" ++ ch ":" :: show_nonneg 2004) = Some (inl (Some (lit "10.0.0.1"), 2004)).
Proof.
  assert (1 <= 2004 <= 65535) as Hp by lia.
  destruct (split_address_roundtrip (lit "10.0.0.1") 2004 Hp) as (_ & _ & _ & Hc & _). by apply Hc.
Defined.
