(* ===== verification/Lexer.v ===== *)
(** * The lexer of the configuration (src/conffile.l) and quoting (src/router.c)

    The scanner that flex makes from [conffile.l]: at each point the rule with the
    longest match among those of the start condition is taken, the first of them when
    there are several.  [router_quoteident] is how [router_printconfig] writes the
    names that the scanner should read back. *)
From S2P Require Import Prelude Relay Matching.
#[local] Open Scope Z_scope.

(** ** Start conditions and tokens *)

Inductive cond := INITIAL | cl | ma | re | ag | se | st | li | qu | idcl | idma | idag | idin | idli.
#[global] Instance cond_eq_dec : EqDecision cond.
Proof. solve_decision. Defined.

Inductive ytoken :=
  | crCLUSTER | crFORWARD | crANY_OF | crFAILOVER | crLB | crUSEALL | crCARBON_CH | crFNV1A_CH | crJUMP_FNV1A_CH
  | crREPLICATION | crDYNAMIC | crFILE | crIP | crPROTO | crUDP | crTCP | crUNIX | crTYPE | crLINEMODE | crSYSLOGMODE
  | crTRANSPORT | crPLAIN | crGZIP | crLZ4 | crSNAPPY | crSSL | crCONNECTIONS | crTHRESHOLD_START | crTHRESHOLD_END | crTTL
  | crMATCH | crVALIDATE | crELSE | crLOG | crDROP | crROUTE | crUSING | crSEND | crTO | crBLACKHOLE | crSTOP
  | crREWRITE | crINTO | crAGGREGATE | crEVERY | crSECONDS | crEXPIRE | crAFTER | crTIMESTAMP | crAT | crSTART | crMIDDLE
  | crEND | crOF | crBUCKET | crCOMPUTE | crSUM | crCOUNT | crMAX | crMIN | crAVERAGE | crMEDIAN | crPERCENTILE (n : Z)
  | crVARIANCE | crSTDDEV | crWRITE | crSTATISTICS | crSUBMIT | crRESET | crCOUNTERS | crINTERVAL | crPREFIX | crWITH
  | crLISTEN | crINCLUDE | crINTVAL (n : Z) | crSTRING (s : cstring) | crUNEXPECTED (s : cstring) | Sym (c : cchar).

(** ** Rules *)

(** A keyword sets [identstate] and the start condition, where these are given. *)
Inductive rule :=
  | Kw (conds : list cond) (text : cstring) (ident next : option cond) (tok : ytoken)
  | Percentile | OpenQuote | CloseQuote | QuNewline | QuEscape | QuText
  | Comment | Space | Newlines | IntVal | Ident | Semicolon | AnyChar.

Definition kw (c : cond) (text : String.string) (tok : ytoken) : rule := Kw [c] (lit text) None None tok.
Definition kwb (cs : list cond) (text : String.string) (next : cond) (tok : ytoken) : rule := Kw cs (lit text) None (Some next) tok.
Definition kwi (cs : list cond) (text : String.string) (ident next : cond) (tok : ytoken) : rule := Kw cs (lit text) (Some ident) (Some next) tok.

(** In the order of the file, [Percentile] being one of them. *)
Definition keywords : list rule := [
  kwi [INITIAL] "cluster" cl idcl crCLUSTER; kwi [cl] "forward" idcl idcl crFORWARD; kwi [cl] "any_of" idcl idcl crANY_OF;
  kwi [cl] "failover" idcl idcl crFAILOVER; kwi [cl] "lb" idcl idcl crLB; kw idcl "useall" crUSEALL;
  kwi [cl] "carbon_ch" idcl idcl crCARBON_CH; kwi [cl] "fnv1a_ch" idcl idcl crFNV1A_CH; kwi [cl] "jump_fnv1a_ch" idcl idcl crJUMP_FNV1A_CH;
  kw idcl "replication" crREPLICATION; kw idcl "dynamic" crDYNAMIC; kwi [cl] "file" idcl idcl crFILE; kw idcl "ip" crIP;
  kw idcl "proto" crPROTO; kw idcl "udp" crUDP; kw idcl "tcp" crTCP; kw idcl "type" crTYPE; kw idcl "linemode" crLINEMODE;
  kw idcl "syslog" crSYSLOGMODE; kw idcl "transport" crTRANSPORT; kw idcl "plain" crPLAIN; kw idcl "gzip" crGZIP; kw idcl "lz4" crLZ4;
  kw idcl "snappy" crSNAPPY; kw idcl "ssl" crSSL; kw idcl "=" (Sym (ch "=")); kw idcl "connections" crCONNECTIONS;
  kw idcl "threshold_start" crTHRESHOLD_START; kw idcl "threshold_end" crTHRESHOLD_END; kw idcl "ttl" crTTL;
  kwi [INITIAL] "match" idma idma crMATCH; kw idma "*" (Sym (ch "*")); kwi [idma] "validate" ma idma crVALIDATE;
  kw ma "else" crELSE; kw ma "log" crLOG; kw ma "drop" crDROP; kwb [ma; idma] "route" ma crROUTE; kwi [ma] "using" ma idma crUSING;
  kwb [ma; idma] "send" ma crSEND; kwi [ma] "to" idcl idcl crTO; kw idcl "blackhole" crBLACKHOLE;
  Kw [ma; idcl] (lit "stop") None None crSTOP;
  kwi [INITIAL] "rewrite" re idma crREWRITE; kwi [re] "into" re idma crINTO;
  kwi [INITIAL] "aggregate" idag idag crAGGREGATE; kwb [idag] "every" ag crEVERY; kw ag "seconds" crSECONDS; kw ag "expire" crEXPIRE;
  kw ag "after" crAFTER; kw ag "timestamp" crTIMESTAMP; kw ag "at" crAT; kw ag "start" crSTART; kw ag "middle" crMIDDLE; kw ag "end" crEND;
  kw ag "of" crOF; kw ag "bucket" crBUCKET; kw ag "compute" crCOMPUTE; kw ag "summary" crSUM; kw ag "sum" crSUM; kw ag "count" crCOUNT;
  kw ag "cnt" crCOUNT; kw ag "maximum" crMAX; kw ag "max" crMAX; kw ag "minimum" crMIN; kw ag "min" crMIN; kw ag "average" crAVERAGE;
  kw ag "avg" crAVERAGE; kw ag "median" crMEDIAN; Percentile; kw ag "variance" crVARIANCE; kw ag "stddev" crSTDDEV; kw ag "write" crWRITE;
  kwi [ag] "to" ag idag crTO; kwb [ag] "send" ma crSEND;
  kwb [INITIAL] "send" se crSEND; kwb [se] "statistics" ma crSTATISTICS;
  kwb [INITIAL] "statistics" st crSTATISTICS; kw st "submit" crSUBMIT; kw st "every" crEVERY; kw st "seconds" crSECONDS;
  kw st "reset" crRESET; kw st "counters" crCOUNTERS; kw st "after" crAFTER; kw st "interval" crINTERVAL; kw st "prefix" crPREFIX;
  kwi [st] "with" st idag crWITH; kwb [st] "send" ma crSEND;
  kwb [INITIAL] "listen" li crLISTEN; kw li "type" crTYPE; kwi [li] "linemode" li idli crLINEMODE; kw idli "transport" crTRANSPORT;
  kw idli "plain" crPLAIN; kwi [idli] "gzip" li idli crGZIP; kwi [idli] "lz4" li idli crLZ4; kwi [idli] "snappy" li idli crSNAPPY;
  kwi [idli] "ssl" idli idli crSSL; kwb [li; idli] "proto" li crPROTO; kwi [li] "udp" li idli crUDP; kwi [li] "tcp" li idli crTCP;
  kwi [li] "unix" li idli crUNIX; kwi [INITIAL] "include" INITIAL idin crINCLUDE ].
Definition rules : list rule := keywords ++ [
  OpenQuote; CloseQuote; QuNewline; QuEscape; QuText; Comment; Space; Newlines; IntVal; Ident; Semicolon; AnyChar ].

#[global] Opaque rules keywords.

Definition active (c : cond) (r : rule) : bool :=
  match r with
  | Kw conds _ _ _ _ => bool_decide (c ∈ conds)
  | Percentile => bool_decide (c = ag)
  | OpenQuote | Ident => bool_decide (c ∈ [idcl; idma; idag; idin; idli])
  | CloseQuote | QuNewline | QuEscape | QuText => bool_decide (c = qu)
  | IntVal => bool_decide (c ∈ [idcl; ag; st])
  | Comment | Space | Newlines | Semicolon | AnyChar => true
  end.

(** Character classes. *)
Definition idchr (c : cchar) : bool := is_alnum c || bool_decide (c ∈ lit "[](){}|\^?*$&%<>:/,._+-").
Definition blank (c : cchar) : bool := (c =? 32) || (c =? 9) || (c =? 13).
Definition plain_in_quotes (c : cchar) : bool := negb ((c =? 92) || (c =? 10) || (c =? 34)).

(** The length of the longest prefix of characters in a class. *)
Fixpoint run (f : cchar -> bool) (l : cstring) : nat :=
  match l with c :: l' => if f c then S (run f l') else O | [] => O end.
(** [{IDCHR}+(\\[ ]{IDCHR}+)*], with the characters of the last part so far, and
    whether a backslash was the last. *)
Fixpoint ident_run (k : nat) (bs : bool) (l : cstring) : nat :=
  match l with
  | [] => O
  | c :: l' =>
      if idchr c then S (ident_run (S k) (c =? 92) l')
      else if (c =? 32) && bs && (2 <=? k)%nat && (0 <? run idchr l')%nat then S (ident_run 0 false l')
      else O
  end.

Definition begins (c : cchar) (l : cstring) : bool := match l with x :: _ => x =? c | [] => false end.
Definition one_if (b : bool) : nat := if b then 1%nat else O.

(** How much of the input a rule matches: 0 when it does not. *)
Definition match_len (r : rule) (l : cstring) : nat :=
  match r with
  | Kw _ text _ _ _ => if prefixb text l then length text else O
  | Percentile => if prefixb (lit "percentile") l then (10 + run is_digit (drop 10 l))%nat else O
  | OpenQuote | CloseQuote => one_if (begins 34 l)
  | QuNewline => one_if (begins 10 l)
  | QuEscape => if begins 92 l then match drop 1 l with c :: _ => if c =? 10 then O else 2%nat | [] => O end else O
  | QuText => run plain_in_quotes l
  | Comment =>
      if begins 35 l then let n := run (fun c => negb (c =? 10)) l in if (n <? length l)%nat then S n else O else O
  | Space => run blank l
  | Newlines => run (fun c => c =? 10) l
  | IntVal => run is_digit l
  | Ident => ident_run 0 false l
  | Semicolon => one_if (begins 59 l)
  | AnyChar => one_if (bool_decide (l <> []) && negb (begins 10 l))
  end.

(** The longest match, the first rule when there are several. *)
Fixpoint pick (c : cond) (l : cstring) (rs : list rule) (best : option (rule * nat)) : option (rule * nat) :=
  match rs with
  | [] => best
  | r :: rs' =>
      let n := if active c r then match_len r l else O in
      let longer := match best with Some (_, m) => (m <? n)%nat | None => (0 <? n)%nat end in
      pick c l rs' (if longer then Some (r, n) else best)
  end.

(** ** The scanner *)

(** The start condition, [identstate], and what is in [string_buf]. *)
Record lexer := mkLex { lx_cond : cond; lx_ident : cond; lx_buf : cstring }.
Inductive lex_error := EmptyString | UnterminatedString | StringTooLarge.
Inductive action := Goto (s : lexer) | Emit (s : lexer) (t : ytoken) | Stop (e : lex_error).

(** The token that ends every statement. *)
Definition end_token : ytoken := Sym (ch ";").

Definition STRING_BUF : nat := Z.to_nat 1024.
Definition atoi (s : cstring) : Z := s32 (strtol s).1.

(** What the rule does with the text it matched. *)
Definition act (r : rule) (s : lexer) (text : cstring) : action :=
  let '(mkLex c i buf) := s in
  match r with
  | Kw _ _ ident next tok =>
      Emit (mkLex (default c next) (default i ident) buf) tok
  | Percentile => Emit s (crPERCENTILE (atoi (drop 10 text)))
  | OpenQuote => Goto (mkLex qu i [])
  | CloseQuote => if bool_decide (buf = []) then Stop EmptyString else Emit (mkLex i i buf) (crSTRING buf)
  | QuNewline => Stop UnterminatedString
  | QuEscape =>
      let buf := buf ++ drop 1 text in
      if (STRING_BUF <=? length buf)%nat then Stop StringTooLarge else Goto (mkLex c i buf)
  | QuText =>
      let buf := buf ++ text in
      if (STRING_BUF <=? length buf)%nat then Stop StringTooLarge else Goto (mkLex c i buf)
  | Comment | Space | Newlines => Goto s
  | IntVal => Emit s (crINTVAL (atoi text))
  | Ident => Emit (mkLex i i buf) (crSTRING text)
  | Semicolon => Emit (mkLex INITIAL i buf) (Sym (ch ";"))
  | AnyChar => Emit s (crUNEXPECTED text)
  end.

(** One rule at the front of the input, [None] when there is no rule. *)
Definition lex_step (s : lexer) (l : cstring) : option (action * cstring) :=
  '(r, n) ← pick (lx_cond s) l rules None;
  Some (act r s (take n l), drop n l).

(** All tokens, and the error that ended them. *)
Fixpoint lex (fuel : nat) (s : lexer) (l : cstring) : option (list ytoken * option lex_error) :=
  match fuel with
  | O => None
  | S fuel' =>
      match l with
      | [] => Some ([], if decide (lx_cond s = qu) then Some UnterminatedString else None)
      | _ =>
          '(a, l) ← lex_step s l;
          match a with
          | Goto s => lex fuel' s l
          | Emit s t => '(ts, e) ← lex fuel' s l; Some (t :: ts, e)
          | Stop e => Some ([], Some e)
          end
      end
  end.
Definition lex_start : lexer := mkLex INITIAL INITIAL [].
Definition lex_text (l : cstring) : option (list ytoken * option lex_error) := lex (S (length l)) lex_start l.

(** ** [router_quoteident] *)

Definition allowodd (c : cchar) : bool := bool_decide (c ∈ lit "[](){}|\^?*$%<>:/,._+-").
(** The loop from position [idpos], after the characters before it. *)
Fixpoint needquote (before : cstring) (ident : cstring) : bool :=
  match ident with
  | [] => false
  | c :: ident' =>
      negb (is_alnum c || allowodd c) &&
      negb ((1 <? length before)%nat && (c =? 32) && bool_decide (last before = Some 92)) || needquote (before ++ [c]) ident'
  end.
Definition router_quoteident (ident : cstring) : cstring :=
  if needquote [] ident then 34 :: ident ++ [34] else ident.

(** ** Picking a rule *)

Definition rule_len (c : cond) (r : rule) (l : cstring) : nat := if active c r then match_len r l else O.

Lemma pick_keeps c l rs r m : Forall (fun r' => rule_len c r' l <= m)%nat rs -> pick c l rs (Some (r, m)) = Some (r, m).
Proof.
  intros Hf. induction Hf as [|r' rs Hr Hf IH]; cbn [pick]; [done|].
  unfold rule_len in Hr. by destruct (Nat.ltb_spec m (if active c r' then match_len r' l else O)); [lia|].
Qed.
Lemma pick_below c l rs rs' best n :
  Forall (fun r' => rule_len c r' l < n)%nat rs -> match best with Some (_, m) => (m < n)%nat | None => True end ->
  exists best', pick c l (rs ++ rs') best = pick c l rs' best' /\ match best' with Some (_, m) => (m < n)%nat | None => True end.
Proof.
  intros Hf. revert best. induction Hf as [|r rs Hr Hf IH]; intros best Hb; cbn [pick app]; [by exists best|].
  apply IH. cbv zeta. fold (rule_len c r l). destruct best as [[? m]|]; by destruct (_ <? _)%nat.
Qed.
Lemma pick_first c l rs1 r rs2 n :
  rule_len c r l = n -> (0 < n)%nat -> Forall (fun r' => rule_len c r' l < n)%nat rs1 ->
  Forall (fun r' => rule_len c r' l <= n)%nat rs2 -> pick c l (rs1 ++ r :: rs2) None = Some (r, n).
Proof.
  intros Hr Hn H1 H2. destruct (pick_below c l rs1 (r :: rs2) None n H1 I) as (best & -> & Hb). cbn [pick].
  fold (rule_len c r l). rewrite Hr. assert (match best with Some (_, m) => (m <? n)%nat | None => (0 <? n)%nat end = true) as ->.
  { destruct best as [[? m]|]; by apply Nat.ltb_lt. }
  by apply pick_keeps.
Qed.

(** The only rule with the longest match is taken, wherever it is. *)
Lemma pick_unique c l rs best r n :
  (0 < n)%nat -> rule_len c r l = n -> Forall (fun r' => r' = r \/ rule_len c r' l < n)%nat rs ->
  best = Some (r, n) \/ match best with Some (_, m) => (m < n)%nat | None => True end /\ r ∈ rs -> pick c l rs best = Some (r, n).
Proof.
  intros Hn Hr Hf. revert best. induction Hf as [|r' rs Hr' Hf IH]; intros best Hb; cbn [pick].
  { destruct Hb as [?|[_ Hb]]; [done|]. by apply not_elem_of_nil in Hb. }
  fold (rule_len c r' l). apply IH. destruct Hb as [->|[Hb Hin]].
  - left. assert (rule_len c r' l <= n)%nat by (destruct Hr' as [->|?]; lia). by destruct (Nat.ltb_spec n (rule_len c r' l)); [lia|].
  - destruct Hr' as [->|Hlt].
    + left. rewrite Hr. assert (match best with Some (_, m) => (m <? n)%nat | None => (0 <? n)%nat end = true) as ->; [|done].
      destruct best as [[? m]|]; apply Nat.ltb_lt; lia.
    + right. split; [destruct best as [[? m]|]; by destruct (_ <? _)%nat|]. apply elem_of_cons in Hin as [->|]; [lia|done].
Qed.

(** There is always a rule, and it takes something. *)
Lemma run_le f l : (run f l <= length l)%nat.
Proof. induction l as [|c l IH]; cbn; [lia|]. destruct (f c); lia. Qed.
Lemma pick_some c l rs best :
  l <> [] -> match best with Some (_, m) => (0 < m)%nat | None => (if begins 10 l then Newlines else AnyChar) ∈ rs end ->
  exists r n, pick c l rs best = Some (r, n) /\ (0 < n)%nat.
Proof.
  intros Hl. revert best. induction rs as [|r rs IH]; intros best Hb; cbn [pick].
  { destruct best as [[r m]|]; [eauto|]. by apply not_elem_of_nil in Hb. }
  apply IH. cbv zeta. fold (rule_len c r l).
  destruct best as [[r' m]|]; [destruct (Nat.ltb_spec m (rule_len c r l)); lia|].
  destruct (Nat.ltb_spec 0 (rule_len c r l)) as [Hn|Hn]; [done|].
  apply elem_of_cons in Hb as [<-|Hb]; [|done]. exfalso. revert Hn. destruct l as [|x l]; [done|]. unfold rule_len. cbn.
  destruct (x =? 10) eqn:Ex; cbn; rewrite ?Ex; cbn; lia.
Qed.
Lemma pick_rules c l : l <> [] -> exists r n, pick c l rules None = Some (r, n) /\ (0 < n)%nat.
Proof. intros Hl. apply pick_some; [done|]. with_strategy transparent [rules] unfold rules. apply elem_of_app. right. destruct (begins 10 l); set_solver. Qed.

Lemma lex_step_some s l : l <> [] -> exists a l', lex_step s l = Some (a, l') /\ (length l' < length l)%nat.
Proof.
  intros Hl. destruct (pick_rules (lx_cond s) l Hl) as (r & n & Hp & Hn). unfold lex_step. rewrite Hp. run_binds.
  eexists _, _. split; [reflexivity|]. clear Hp. rewrite length_drop. destruct l; [done|]. cbn [length]. lia.
Qed.

(** ** Scanning in steps *)

Inductive scans : lexer -> cstring -> list ytoken -> lexer -> cstring -> Prop :=
  | scans_done s l : scans s l [] s l
  | scans_goto s l s1 l1 ts s' l' : l <> [] -> lex_step s l = Some (Goto s1, l1) -> scans s1 l1 ts s' l' -> scans s l ts s' l'
  | scans_emit s l s1 t l1 ts s' l' :
      l <> [] -> lex_step s l = Some (Emit s1 t, l1) -> scans s1 l1 ts s' l' -> scans s l (t :: ts) s' l'.

Lemma scans_app s l ts s1 l1 ts' s' l' : scans s l ts s1 l1 -> scans s1 l1 ts' s' l' -> scans s l (ts ++ ts') s' l'.
Proof. induction 1; intros; cbn; [done|eapply scans_goto; eauto|eapply scans_emit; eauto]. Qed.

Lemma scans_lex s l ts s' fuel :
  scans s l ts s' [] -> lx_cond s' <> qu -> (length l < fuel)%nat -> lex fuel s l = Some (ts, None).
Proof.
  intros Hs. remember [] as e eqn:He. revert fuel He.
  induction Hs as [s l|s l s1 l1 ts s' l' Hl Hst Hs IH|s l s1 t l1 ts s' l' Hl Hst Hs IH]; intros fuel He Hq Hf; destruct fuel as [|fuel]; try lia; cbn [lex].
  - subst l. by rewrite decide_False.
  - destruct (lex_step_some s l Hl) as (a & l2 & Ha & Hlt). rewrite Hst in Ha. injection Ha as <- <-.
    destruct l as [|c l]; [destruct (Hl eq_refl)|]. rewrite Hst. clear Hst. run_binds. apply IH; [done|done|lia].
  - destruct (lex_step_some s l Hl) as (a & l2 & Ha & Hlt). rewrite Hst in Ha. injection Ha as <- <-.
    destruct l as [|c l]; [destruct (Hl eq_refl)|]. rewrite Hst. clear Hst. run_binds. rewrite IH; [done|done|done|lia].
Qed.

(** ** What the keywords look like *)

Definition kwchar (c : cchar) : bool := idchr c || (c =? ch "=").
Definition kw_ok (r : rule) : bool :=
  match r with
  | Kw conds text _ _ _ => bool_decide (text <> []) && forallb kwchar text && bool_decide (qu ∉ conds)
  | Percentile => true
  | _ => false
  end.
Lemma keywords_ok r : r ∈ keywords -> kw_ok r = true.
Proof.
  assert (forallb kw_ok keywords = true) as Hk by (vm_compute; reflexivity).
  intros Hr%list_elem_of_In. by apply (proj1 (forallb_forall _ _) Hk).
Qed.
(** Words that are keywords in a start condition. *)
Definition reserved (c : cond) (w : cstring) : bool :=
  existsb (fun r => match r with Kw conds text _ _ _ => bool_decide (c ∈ conds) && bool_decide (text = w) | _ => false end) keywords.

Lemma prefixb_app_stop p w d rest :
  forallb kwchar p = true -> kwchar d = false -> prefixb p (w ++ d :: rest) = true -> exists q, w = p ++ q.
Proof.
  unfold prefixb. intros Hp Hd Hx%bool_decide_eq_true. revert p Hp Hx. induction w as [|c w IH]; intros p Hp Hx.
  - destruct p as [|a p]; [by exists []|]. injection Hx as <- _. cbn in Hp. rewrite Hd in Hp. done.
  - destruct p as [|a p]; [by exists (c :: w)|]. cbn in Hp, Hx. injection Hx as <- Hx. apply andb_true_iff in Hp as [_ Hp].
    destruct (IH p Hp Hx) as (q & ->). by exists q.
Qed.

(** A keyword in front of a delimiter is at most the word there, and all of it only
    when the word is reserved. *)
Lemma kw_len c r w d rest :
  r ∈ keywords -> c <> ag -> kwchar d = false ->
  (rule_len c r (w ++ d :: rest) <= length w)%nat /\
  (reserved c w = false -> w <> [] -> (rule_len c r (w ++ d :: rest) < length w)%nat).
Proof.
  intros Hr Hc Hd. pose proof (keywords_ok r Hr) as Hok. unfold rule_len.
  destruct (active c r) eqn:Ha; [|destruct w; cbn; [done|lia]].
  destruct r as [conds text i n t| | | | | | | | | | | | |]; try done.
  2: { cbn in Ha. by apply bool_decide_eq_true in Ha. }
  cbn [match_len]. destruct (prefixb text (w ++ d :: rest)) eqn:Ep; [|split; [lia|destruct w; cbn; [done|lia]]].
  apply andb_true_iff in Hok as [[_ Hk]%andb_true_iff _]. destruct (prefixb_app_stop _ _ _ _ Hk Hd Ep) as (q & ->).
  rewrite length_app. split; [lia|]. intros Hres _. destruct q as [|x q]; [|cbn; lia]. exfalso.
  rewrite app_nil_r in Hres. unfold reserved in Hres. apply not_true_iff_false in Hres. apply Hres.
  apply existsb_exists. exists (Kw conds text i n t). split; [by apply list_elem_of_In|].
  cbn in Ha. rewrite Ha. cbn. by apply bool_decide_eq_true.
Qed.

Lemma run_stop f w d rest : f d = false -> (run f (w ++ d :: rest) <= length w)%nat.
Proof. intros Hd. induction w as [|c w IH]; cbn; [by rewrite Hd|]. destruct (f c); lia. Qed.
Lemma run_lt f w d rest : f d = false -> forallb f w = false -> (run f (w ++ d :: rest) < length w)%nat.
Proof. intros Hd. induction w as [|c w IH]; cbn; [done|]. destruct (f c); cbn; [|lia]. intros H%IH. lia. Qed.
Lemma run_all f w d rest : f d = false -> forallb f w = true -> run f (w ++ d :: rest) = length w.
Proof. intros Hd. induction w as [|c w IH]; cbn; [by rewrite Hd|]. destruct (f c); [|done]. intros Hw. by rewrite IH. Qed.

Lemma ident_run_word k bs w d rest :
  forallb idchr w = true -> idchr d = false -> (d <> 32 \/ bs = false /\ last w <> Some 92 \/ w <> [] /\ last w <> Some 92) ->
  ident_run k bs (w ++ d :: rest) = length w.
Proof.
  intros Hw Hd. revert k bs. induction w as [|c w IH]; intros k bs Hl; cbn [app ident_run].
  - rewrite Hd. destruct Hl as [Hn|[[-> _]|[? _]]]; [|by rewrite andb_false_r|done]. by rewrite (proj2 (Z.eqb_neq d 32)).
  - cbn in Hw. destruct (idchr c); [|done]. cbn [length]. f_equal. apply IH; [done|].
    destruct Hl as [?|Hl]; [by left|]. assert (last (c :: w) <> Some 92) as Hc by (destruct Hl as [[_ ?]|[_ ?]]; done).
    destruct w as [|c' w]; [|right; right; split; [done|by rewrite last_cons_cons in Hc]].
    right. left. split; [|done]. apply Z.eqb_neq. intros ->. done.
Qed.

(** ** Reading words *)

Ltac each_rule := repeat (apply Forall_cons; split); try (by apply Forall_nil).

Definition id_cond (c : cond) : bool := bool_decide (c ∈ [idcl; idma; idag; idin; idli]).
Definition delim (d : cchar) : bool := (d =? 10) || (d =? 32) || (d =? 59).

Lemma delim_cases d : delim d = true -> d = 10 \/ d = 32 \/ d = 59.
Proof. unfold delim. rewrite !orb_true_iff, !Z.eqb_eq. tauto. Qed.
Lemma delim_not d : delim d = true -> kwchar d = false /\ idchr d = false /\ is_digit d = false.
Proof. intros [->|[->| ->]]%delim_cases; by vm_compute. Qed.
Lemma idchr_not c x : idchr c = true -> idchr x = false -> (c =? x) = false.
Proof. intros Hc Hx. apply Z.eqb_neq. intros ->. congruence. Qed.
Lemma id_cond_not_ag c : id_cond c = true -> c <> ag /\ c <> qu /\ c <> st.
Proof. unfold id_cond. intros H%bool_decide_eq_true. split_and!; intros ->; set_solver. Qed.

Lemma rules_split1 : rules = (keywords ++ [OpenQuote; CloseQuote; QuNewline; QuEscape; QuText; Comment; Space; Newlines; IntVal]) ++ Ident :: [Semicolon; AnyChar].
Proof. with_strategy transparent [rules] unfold rules. by rewrite <- app_assoc. Qed.
Lemma rules_split2 : rules = (keywords ++ [OpenQuote; CloseQuote; QuNewline; QuEscape]) ++ QuText :: [Comment; Space; Newlines; IntVal; Ident; Semicolon; AnyChar].
Proof. with_strategy transparent [rules] unfold rules. by rewrite <- app_assoc. Qed.
Lemma rules_split3 : rules = (keywords ++ [OpenQuote; CloseQuote; QuNewline; QuEscape; QuText; Comment]) ++ Space :: [Newlines; IntVal; Ident; Semicolon; AnyChar].
Proof. with_strategy transparent [rules] unfold rules. by rewrite <- app_assoc. Qed.
Lemma rules_split4 : rules = (keywords ++ [OpenQuote; CloseQuote; QuNewline; QuEscape; QuText; Comment; Space]) ++ Newlines :: [IntVal; Ident; Semicolon; AnyChar].
Proof. with_strategy transparent [rules] unfold rules. by rewrite <- app_assoc. Qed.

(** A word of the characters of names, when it is not reserved. *)
Definition bare (c : cond) (w : cstring) : Prop :=
  w <> [] /\ forallb idchr w = true /\ last w <> Some 92 /\ reserved c w = false /\ (c = idcl -> forallb is_digit w = false).

Lemma scans_bare c i buf w d rest :
  id_cond c = true -> delim d = true -> bare c w ->
  scans (mkLex c i buf) (w ++ d :: rest) [crSTRING w] (mkLex i i buf) (d :: rest).
Proof.
  intros Hc Hd (Hne & Hw & Hlast & Hres & Hnum). destruct (delim_not d Hd) as (Hdk & Hdi & Hdd).
  destruct (id_cond_not_ag c Hc) as (Hag & Hqu & Hst).
  assert (exists x w', w = x :: w' /\ idchr x = true) as (x & w' & Hx & Hxi).
  { destruct w as [|x w']; [done|]. cbn in Hw. apply andb_true_iff in Hw as [? _]. eauto. }
  assert (rule_len c Ident (w ++ d :: rest) = length w) as Hid.
  { unfold rule_len. cbn [active match_len]. unfold id_cond in Hc. rewrite Hc. apply ident_run_word; auto. }
  assert (0 < length w)%nat as Hpos by (destruct w; [done|cbn; lia]).
  assert (lex_step (mkLex c i buf) (w ++ d :: rest) = Some (Emit (mkLex i i buf) (crSTRING w), d :: rest)) as Hs.
  { unfold lex_step. cbn [lx_cond]. rewrite rules_split1, (pick_first c _ _ Ident _ (length w)); [|done|done| |].
    - run_binds. by rewrite take_app_length, drop_app_length.
    - apply Forall_app. split.
      + apply Forall_forall. intros r Hr. by apply (proj2 (kw_len c r w d rest Hr Hag Hdk)).
      + assert (begins 34 (w ++ d :: rest) = false /\ begins 35 (w ++ d :: rest) = false /\ begins 59 (w ++ d :: rest) = false /\
          run blank (w ++ d :: rest) = O /\ run (fun c => c =? 10) (w ++ d :: rest) = O) as (H34 & H35 & H59 & Hb & Hn).
        { subst w. cbn. unfold blank. rewrite !(idchr_not x) by done. done. }
        assert (bool_decide (c = qu) = false) as Hq by (by apply bool_decide_eq_false).
        each_rule; unfold rule_len; cbn [active match_len]; rewrite ?Hq, ?H34, ?H35, ?Hb, ?Hn; try done.
        * destruct (bool_decide (c ∈ [idcl; idma; idag; idin; idli])); exact Hpos.
        * destruct (bool_decide_reflect (c ∈ [idcl; ag; st])) as [Hin|]; [|lia].
          apply run_lt; [done|]. apply Hnum. set_solver.
    - each_rule; unfold rule_len; cbn [active match_len]; unfold one_if; case_match; lia. }
  eapply scans_emit; [by destruct w|exact Hs|]. constructor.
Qed.

(** A word in quotes. *)
Definition quotable (w : cstring) : Prop :=
  w <> [] /\ forallb plain_in_quotes w = true /\ head w <> Some 35 /\ (length w < STRING_BUF)%nat.

Lemma kw_in_quotes r l : r ∈ keywords -> rule_len qu r l = O.
Proof.
  intros Hr. pose proof (keywords_ok r Hr) as Hok. unfold rule_len. destruct r; try done. cbn [active].
  apply andb_true_iff in Hok as [_ Hq%bool_decide_eq_true]. by rewrite bool_decide_eq_false_2.
Qed.

Lemma scans_quoted c i buf w rest :
  id_cond c = true -> quotable w -> scans (mkLex c i buf) (34 :: w ++ 34 :: rest) [crSTRING w] (mkLex i i w) rest.
Proof.
  intros Hc (Hne & Hw & Hhead & Hlen).
  assert (lex_step (mkLex c i buf) (34 :: w ++ 34 :: rest) = Some (Goto (mkLex qu i []), w ++ 34 :: rest)) as H1.
  { unfold lex_step. cbn [lx_cond]. assert (forall l, pick c (34 :: l) rules None = Some (OpenQuote, 1%nat)) as ->.
    { intros l. destruct c; try done; vm_compute; reflexivity. }
    done. }
  eapply scans_goto; [done|exact H1|]. clear H1.
  assert (0 < length w)%nat as Hpos by (destruct w; [done|cbn; lia]).
  assert (run plain_in_quotes (w ++ 34 :: rest) = length w) as Hrun by (by apply run_all).
  assert (lex_step (mkLex qu i []) (w ++ 34 :: rest) = Some (Goto (mkLex qu i w), 34 :: rest)) as H2.
  { unfold lex_step. cbn [lx_cond]. rewrite rules_split2, (pick_first qu _ _ QuText _ (length w)); [|done|done| |].
    - run_binds. rewrite take_app_length, drop_app_length. cbn [act app]. by rewrite (proj2 (Nat.leb_gt _ _) Hlen).
    - apply Forall_app. split; [apply Forall_forall; intros r Hr; by rewrite kw_in_quotes|].
      assert (begins 34 (w ++ 34 :: rest) = false /\ begins 10 (w ++ 34 :: rest) = false /\ begins 92 (w ++ 34 :: rest) = false) as (Ha & Hb & Hcc).
      { destruct w as [|x w]; [done|]. cbn in Hw |- *. apply andb_true_iff in Hw as [Hx _]. unfold plain_in_quotes in Hx.
        destruct (x =? 34), (x =? 10), (x =? 92); done. }
      each_rule; unfold rule_len; cbn [active match_len]; rewrite ?Ha, ?Hb, ?Hcc; unfold one_if; repeat case_match; lia.
    - assert (begins 35 (w ++ 34 :: rest) = false) as H35.
      { destruct w as [|x w]; [done|]. cbn. apply Z.eqb_neq. intros ->. done. }
      each_rule; unfold rule_len; cbn [active match_len]; rewrite ?H35; try (by apply run_stop); try lia;
        first [rewrite bool_decide_eq_false_2 by set_solver; lia | unfold one_if; case_match; lia]. }
  eapply scans_goto; [by destruct w|exact H2|]. clear H2.
  assert (lex_step (mkLex qu i w) (34 :: rest) = Some (Emit (mkLex i i w) (crSTRING w), rest)) as H3.
  { unfold lex_step. cbn [lx_cond]. assert (pick qu (34 :: rest) rules None = Some (CloseQuote, 1%nat)) as -> by (vm_compute; reflexivity).
    run_binds. cbn [act]. by rewrite bool_decide_eq_false_2. }
  eapply scans_emit; [done|exact H3|]. constructor.
Qed.

(** White space. *)
Lemma kw_none c r d rest : r ∈ keywords -> kwchar d = false -> rule_len c r (d :: rest) = O.
Proof.
  intros Hr Hd. destruct (decide (c = ag)) as [->|Hc].
  2: { pose proof (proj1 (kw_len c r [] d rest Hr Hc Hd)) as H. cbn [app length] in H. lia. }
  pose proof (keywords_ok r Hr) as Hok. unfold rule_len. destruct (active ag r); [|done].
  destruct r as [conds text i n t| | | | | | | | | | | | |]; try done; cbn [match_len].
  - apply andb_true_iff in Hok as [[Hne%bool_decide_eq_true Hk]%andb_true_iff _].
    destruct (prefixb text (d :: rest)) eqn:Ep; [|done]. destruct (prefixb_app_stop text [] d rest Hk Hd Ep) as (q & Hq). by destruct text.
  - destruct (prefixb (lit "percentile") (d :: rest)) eqn:Ep; [|done].
    destruct (prefixb_app_stop (lit "percentile") [] d rest eq_refl Hd Ep) as (q & Hq). done.
Qed.

Definition white (c : cchar) : bool := blank c || (c =? 10).
(** Something else than white space is next. *)
Definition solid (r : cstring) : Prop := match r with c :: _ => white c = false | [] => True end.

Lemma run_solid f w r : (forall x, f x = true -> white x = true) -> solid r -> (run f (w ++ r) <= length w)%nat.
Proof.
  intros Hf Hr. induction w as [|x w IH]; cbn; [|destruct (f x); lia].
  destruct r as [|y r]; cbn in *; [lia|]. destruct (f y) eqn:Ef; [|lia]. apply Hf in Ef. congruence.
Qed.

Lemma step_white c i buf d w r :
  c <> qu -> white d = true -> solid r ->
  exists n, lex_step (mkLex c i buf) (d :: w ++ r) = Some (Goto (mkLex c i buf), drop n w ++ r).
Proof.
  intros Hc Hd Hr. assert (d = 32 \/ d = 9 \/ d = 13 \/ d = 10) as Hcases.
  { unfold white, blank in Hd. rewrite !orb_true_iff, !Z.eqb_eq in Hd. tauto. }
  assert (kwchar d = false /\ idchr d = false /\ is_digit d = false /\ begins 34 (d :: w ++ r) = false /\ begins 35 (d :: w ++ r) = false) as (Hk & Hi & Hg & H34 & H35).
  { by destruct Hcases as [->|[->|[->| ->]]]; split_and!. }
  assert (Forall (fun r' => rule_len c r' (d :: w ++ r) = O) (keywords ++ [OpenQuote; CloseQuote; QuNewline; QuEscape; QuText; Comment; IntVal; Ident])) as H0.
  { apply Forall_app. split; [apply Forall_forall; intros r' Hr'; by apply kw_none|].
    assert (bool_decide (c = qu) = false) as Hq by (by apply bool_decide_eq_false).
    assert (run is_digit (d :: w ++ r) = O) as Hdig by (cbn; by rewrite Hg).
    assert (ident_run 0 false (d :: w ++ r) = O) as Hid by (cbn [ident_run]; rewrite Hi; by rewrite andb_false_r).
    each_rule; unfold rule_len; cbn [active match_len]; rewrite ?Hq, ?H34, ?H35, ?Hdig, ?Hid; try done; by case_match. }
  apply Forall_app in H0 as [Hkw Ho]. rewrite !Forall_cons in Ho. destruct Ho as (O1 & O2 & O3 & O4 & O5 & O6 & O7 & O8 & _).
  assert (Forall (fun r' => rule_len c r' (d :: w ++ r) < 1)%nat keywords) as Hkw'.
  { eapply Forall_impl; [exact Hkw|]. intros r' ->. lia. }
  assert (rule_len c AnyChar (d :: w ++ r) <= 1)%nat as Hany by (unfold rule_len; cbn [active match_len]; unfold one_if; case_match; lia).
  assert (rule_len c Semicolon (d :: w ++ r) <= 1)%nat as Hsemi by (unfold rule_len; cbn [active match_len]; unfold one_if; case_match; lia).
  unfold lex_step. cbn [lx_cond]. destruct (Z.eqb_spec d 10) as [->|Hn].
  - set (n := run (fun c => c =? 10) (w ++ r)). assert (n <= length w)%nat as Hle.
    { apply run_solid; [|done]. intros x ->%Z.eqb_eq. done. }
    assert (rule_len c Space (10 :: w ++ r) = O) as Hsp by done.
    exists n. rewrite rules_split4, (pick_first c _ _ Newlines _ (S n)); [|done|lia| |].
    + run_binds. cbn [act take drop]. by rewrite drop_app_le.
    + apply Forall_app. split; [eapply Forall_impl; [exact Hkw|]; intros r' ->; lia|]. each_rule; rewrite ?O1, ?O2, ?O3, ?O4, ?O5, ?O6, ?Hsp; lia.
    + each_rule; rewrite ?O7, ?O8; lia.
  - assert (blank d = true) as Hb by (unfold white in Hd; by rewrite (proj2 (Z.eqb_neq d 10) Hn), orb_false_r in Hd).
    set (n := run blank (w ++ r)). assert (n <= length w)%nat as Hle.
    { apply run_solid; [|done]. intros x Hx. unfold white. by rewrite Hx. }
    assert (rule_len c Space (d :: w ++ r) = S n) as Hs by (unfold rule_len; cbn; by rewrite Hb).
    assert (rule_len c Newlines (d :: w ++ r) = O) as Hnl by (unfold rule_len; cbn; by rewrite (proj2 (Z.eqb_neq d 10) Hn)).
    exists n. rewrite rules_split3, (pick_first c _ _ Space _ (S n)); [|done|lia| |].
    + run_binds. cbn [act take drop]. by rewrite drop_app_le.
    + apply Forall_app. split; [eapply Forall_impl; [exact Hkw|]; intros r' ->; lia|]. each_rule; rewrite ?O1, ?O2, ?O3, ?O4, ?O5, ?O6; lia.
    + each_rule; rewrite ?O7, ?O8, ?Hnl; lia.
Qed.

Lemma scans_white c i buf w r :
  c <> qu -> forallb white w = true -> solid r -> scans (mkLex c i buf) (w ++ r) [] (mkLex c i buf) r.
Proof.
  intros Hc Hw Hr. remember (length w) as n eqn:Hn. revert w Hw Hn. induction (lt_wf n) as [n _ IH]. intros w Hw ->.
  destruct w as [|d w]; [constructor|]. cbn in Hw. apply andb_true_iff in Hw as [Hd Hw].
  destruct (step_white c i buf d w r Hc Hd Hr) as (k & Hs). eapply scans_goto; [done|exact Hs|].
  apply (IH (length (drop k w))); [rewrite length_drop; cbn; lia| |done].
  rewrite <- (take_drop k w), forallb_app in Hw. by apply andb_true_iff in Hw as [_ Hw].
Qed.

(** ** Quoted identifiers read back *)

(** A name that [router_quoteident] writes so that it is read back where [c] is the
    start condition. *)
Definition readable (c : cond) (w : cstring) : Prop := if needquote [] w then quotable w else bare c w.

Lemma scans_quoteident c i buf w d rest :
  id_cond c = true -> delim d = true -> readable c w ->
  exists buf', scans (mkLex c i buf) (router_quoteident w ++ d :: rest) [crSTRING w] (mkLex i i buf') (d :: rest).
Proof.
  intros Hc Hd. unfold readable, router_quoteident. destruct (needquote [] w); intros Hw.
  - exists w. cbn [app]. rewrite <- app_assoc. by apply scans_quoted.
  - exists buf. by apply scans_bare.
Qed.

(** ** Numbers *)

Lemma scans_number c i buf n d rest :
  c ∈ [idcl; ag; st] -> delim d = true -> 0 <= n < 2 ^ 31 ->
  scans (mkLex c i buf) (show_nonneg n ++ d :: rest) [crINTVAL n] (mkLex c i buf) (d :: rest).
Proof.
  intros Hc Hd Hn. destruct (delim_not d Hd) as (Hdk & Hdi & Hdd). destruct (show_nonneg_digits n) as [Hdig Hne].
  set (w := show_nonneg n) in *. assert (0 < length w)%nat as Hpos by (destruct w; [done|cbn; lia]).
  assert (forallb is_digit w = true) as Hall.
  { apply forallb_forall. intros x Hx%list_elem_of_In. by apply (proj1 (Forall_forall _ _) Hdig). }
  assert (exists x w', w = x :: w' /\ is_digit x = true) as (x & w' & Hx & Hxd).
  { destruct w as [|x w']; [done|]. cbn in Hall. apply andb_true_iff in Hall as [? _]. eauto. }
  assert (idchr x = true) as Hxi by (unfold idchr, is_alnum; by rewrite Hxd, !orb_true_r).
  assert (forall r, r ∈ keywords -> rule_len c r (w ++ d :: rest) = O) as Hkw.
  { intros r Hr. assert (match r with Kw _ (k :: _) _ _ _ => is_digit k = false | Kw _ [] _ _ _ => False | Percentile => True | _ => False end) as Hk.
    { assert (forallb (fun r => match r with Kw _ (k :: _) _ _ _ => negb (is_digit k) | Percentile => true | _ => false end) keywords = true) as Hf
        by (vm_compute; reflexivity).
      apply list_elem_of_In in Hr. pose proof (proj1 (forallb_forall _ _) Hf r Hr) as H. destruct r as [? [|k t] ? ? ?| | | | | | | | | | | | |]; try done.
      by apply negb_true_iff in H. }
    unfold rule_len. destruct (active c r); [|done]. subst w. rewrite Hx. destruct r as [? [|k t] ? ? ?| | | | | | | | | | | | |]; try done; cbn [match_len].
    - destruct (prefixb (k :: t) _) eqn:Ep; [|done]. unfold prefixb in Ep. apply bool_decide_eq_true in Ep. cbn in Ep. injection Ep as <- _. congruence.
    - destruct (prefixb _ _) eqn:Ep; [|done]. unfold prefixb in Ep. apply bool_decide_eq_true in Ep. cbn in Ep. injection Ep as -> _. done. }
  assert (rules = (keywords ++ [OpenQuote; CloseQuote; QuNewline; QuEscape; QuText; Comment; Space; Newlines]) ++ IntVal :: [Ident; Semicolon; AnyChar]) as Hr.
  { with_strategy transparent [rules] unfold rules. by rewrite <- app_assoc. }
  assert (begins 34 (w ++ d :: rest) = false /\ begins 35 (w ++ d :: rest) = false /\ run blank (w ++ d :: rest) = O /\
    run (fun c => c =? 10) (w ++ d :: rest) = O) as (H34 & H35 & Hb & Hnl).
  { clear Hr Hkw. rewrite Hx. cbn [app begins run]. unfold blank. rewrite !(idchr_not x) by done. split_and!; reflexivity. }
  assert (bool_decide (c = qu) = false) as Hq by (apply bool_decide_eq_false; clear -Hc; set_solver).
  assert (forallb idchr w = true) as Hidw.
  { apply forallb_forall. intros y Hy. unfold idchr, is_alnum. by rewrite (proj1 (forallb_forall _ _) Hall y Hy), !orb_true_r. }
  assert (last w <> Some 92) as Hlast.
  { intros Hl. apply last_Some in Hl as (l' & Hl). assert (is_digit 92 = true) as H92; [|done].
    apply (proj1 (forallb_forall _ _) Hall). rewrite Hl. apply in_app_iff. right. by left. }
  assert (lex_step (mkLex c i buf) (w ++ d :: rest) = Some (Emit (mkLex c i buf) (crINTVAL n), d :: rest)) as Hs.
  { unfold lex_step. cbn [lx_cond]. rewrite Hr, (pick_first c _ _ IntVal _ (length w)); [| |done| |].
    - run_binds. rewrite take_app_length, drop_app_length. cbn [act]. unfold atoi, w. rewrite strtol_show by lia. cbn [fst].
      unfold s32. rewrite Z.mod_small by lia. do 4 f_equal. lia.
    - unfold rule_len. cbn [active match_len]. rewrite bool_decide_eq_true_2 by done. by apply run_all.
    - apply Forall_app. split; [apply Forall_forall; intros r Hr'; rewrite Hkw by done; lia|].
      each_rule; unfold rule_len; cbn [active match_len]; rewrite ?Hq, ?H34, ?H35, ?Hb, ?Hnl; try lia. unfold one_if. case_match; lia.
    - each_rule; unfold rule_len; cbn [active match_len]; [|unfold one_if; case_match; lia..].
      rewrite ident_run_word by auto. case_match; lia. }
  eapply scans_emit; [by rewrite Hx|exact Hs|]. constructor.
Qed.

(** ** Properties *)

Lemma lex_ends fuel s l : (length l < fuel)%nat -> is_Some (lex fuel s l).
Proof.
  revert s l. induction fuel as [|fuel IH]; intros s l Hf; [lia|]. cbn [lex]. destruct l as [|c l]; [eauto|].
  destruct (lex_step_some s (c :: l) ltac:(discriminate)) as (a & l' & -> & Hlt). run_binds. destruct a as [s'|s' t|e]; [| |eauto].
  - apply IH. lia.
  - destruct (IH s' l' ltac:(lia)) as [[ts e] ->]. run_binds. eauto.
Qed.

(** The scanner always ends: whatever the text, every rule that is taken consumes some of it, so that the text is turned
    into tokens, or into an error, in at most one step for each character. *)
Theorem lex_total (l : cstring) : exists ts e, lex_text l = Some (ts, e).
Proof. destruct (lex_ends (S (length l)) lex_start l ltac:(lia)) as [[ts e] He]. by exists ts, e. Qed.

(** Names read back: what [router_quoteident] prints for a name, followed by white space or a semicolon, is read as one
    string with exactly that name, wherever names are expected; a name in quotes must be free of quotes, backslashes and
    newlines, shorter than the buffer and not start with [#], any other one must not be a keyword or number there. *)
Theorem quoteident_reads_back (c i : cond) (buf w : cstring) (d : cchar) (rest : cstring) :
  id_cond c = true -> delim d = true -> readable c w ->
  exists buf', scans (mkLex c i buf) (router_quoteident w ++ d :: rest) [crSTRING w] (mkLex i i buf') (d :: rest).
Proof. apply scans_quoteident. Qed.

Lemma quoteident_reads_back_witness :
  exists buf', scans (mkLex idma re []) (router_quoteident (lit "a b") ++ 10 :: []) [crSTRING (lit "a b")] (mkLex re re buf') [10].
Proof.
  apply (quoteident_reads_back idma re [] (lit "a b") 10 []); [reflexivity|reflexivity|].
  repeat split; try discriminate. apply Nat.ltb_lt. vm_compute. reflexivity.
Defined.

(** Names that do not read back: the backslash of an expression in quotes is lost, a name that begins with [#] makes the
    line a comment, and a cluster with the name of a keyword is read as that keyword. *)
Theorem quoteident_not_escaped :
  lex_text (lit "match " ++ router_quoteident (lit "a b\.c") ++ lit ";") = Some ([crMATCH; crSTRING (lit "a b.c"); Sym (ch ";")], None) /\
  lex_text (lit "match " ++ router_quoteident (lit "#a") ++ lit ";" ++ [10]) = Some ([crMATCH], Some UnterminatedString) /\
  lex_text (lit "cluster " ++ router_quoteident (lit "ip") ++ lit ";") = Some ([crCLUSTER; crIP; Sym (ch ";")], None).
Proof. split_and!; vm_compute; reflexivity. Qed.

(** [stop] is only a keyword behind [send to]: in an aggregation or in the statistics without that it is not recognised. *)
Theorem stop_needs_send :
  lex_text (lit "aggregate a every 10 seconds expire after 20 seconds compute sum write to b stop;") =
    Some ([crAGGREGATE; crSTRING (lit "a"); crEVERY; crINTVAL 10; crSECONDS; crEXPIRE; crAFTER; crINTVAL 20; crSECONDS; crCOMPUTE; crSUM;
           crWRITE; crTO; crSTRING (lit "b"); crUNEXPECTED (lit "s"); crTO; crSTRING (lit "p"); Sym (ch ";")], None).
Proof. vm_compute. reflexivity. Qed.
