(* ===== verification/Predictive.v ===== *)
(** * Grammars that are decided by looking ahead

    A grammar is a list of productions by the names of its nonterminals, as they are
    in a yacc file.  With tables of the nonterminals that can be empty, of the tokens
    one can begin with and of those that can follow it, which are computed and then
    checked, a predictive parser accepts exactly the language of the grammar, and
    there is only one tree for each text.  A parser that is generated from the grammar
    accepts the same language. *)
From stdpp Require Import strings.
From S2P Require Import Prelude.

Inductive sym := T (k : string) | N (n : string).
Definition grammar := list (string * list (list sym)).

(** The tables: what can be empty, begins, follows, and an order of the
    nonterminals that goes down on the left.  [depth] is the number of tokens that
    productions of a nonterminal may have in common at their beginning. *)
Record tables := mkTb {
  nul : string -> bool; first : string -> list string; follow : string -> list string; rank : string -> nat; depth : string -> nat;
}.

Definition the_end : string := "$end".
Definition inb (k : string) (l : list string) : bool := bool_decide (k ∈ l).

Section Grammar.
Context {tok : Type} (name : tok -> string) (g : grammar) (tb : tables).

Definition productions (n : string) : list (list sym) :=
  match list_find (fun p => p.1 = n) g with Some (_, p) => p.2 | None => [] end.

(** ** Derivations *)

Inductive tree := Leaf (t : tok) | Node (n : string) (i : nat) (ts : list tree).
Inductive derives : sym -> list tok -> tree -> Prop :=
  | derives_T t : derives (T (name t)) [t] (Leaf t)
  | derives_N n i rhs w ts : productions n !! i = Some rhs -> derives_seq rhs w ts -> derives (N n) w (Node n i ts)
with derives_seq : list sym -> list tok -> list tree -> Prop :=
  | derives_nil : derives_seq [] [] []
  | derives_cons s rhs w1 w2 t ts : derives s w1 t -> derives_seq rhs w2 ts -> derives_seq (s :: rhs) (w1 ++ w2) (t :: ts).

(** ** The parser *)

Definition seq_nul (rhs : list sym) : bool := forallb (fun s => match s with T _ => false | N n => nul tb n end) rhs.
Fixpoint seq_first (rhs : list sym) : list string :=
  match rhs with
  | [] => []
  | T k :: _ => [k]
  | N n :: rhs' => first tb n ++ (if nul tb n then seq_first rhs' else [])
  end.
(** What must be ahead for a production to be taken: the tokens it begins with, up
    to the depth, and one that the rest can begin with. *)
Fixpoint ahead (d : nat) (n : string) (rhs : list sym) : list (list string) :=
  match d, rhs with
  | S d', T k :: rhs' => [k] :: ahead d' n rhs'
  | _, _ => [seq_first rhs ++ (if seq_nul rhs then follow tb n else [])]
  end.
Definition selected (n : string) (rhs : list sym) : list (list string) := ahead (depth tb n) n rhs.

Definition look (l : list tok) : string := match l with [] => the_end | t :: _ => name t end.
Fixpoint selects (sel : list (list string)) (l : list tok) : bool :=
  match sel with [] => true | ks :: sel' => inb (look l) ks && selects sel' (drop 1 l) end.

Inductive parsed (A : Type) := Done (a : A) (rest : list tok) | SyntaxError | NoFuel.
Arguments Done {A}. Arguments SyntaxError {A}. Arguments NoFuel {A}.

Definition parse_seq (parse : sym -> list tok -> parsed tree) : list sym -> list tok -> parsed (list tree) :=
  fix go rhs l :=
    match rhs with
    | [] => Done [] l
    | s :: rhs' =>
        match parse s l with
        | Done t l => match go rhs' l with Done ts l => Done (t :: ts) l | SyntaxError => SyntaxError | NoFuel => NoFuel end
        | SyntaxError => SyntaxError | NoFuel => NoFuel
        end
    end.
Fixpoint parse (fuel : nat) (s : sym) (l : list tok) : parsed tree :=
  match fuel with
  | O => NoFuel
  | S fuel' =>
      match s with
      | T k => match l with t :: l' => if decide (name t = k) then Done (Leaf t) l' else SyntaxError | [] => SyntaxError end
      | N n =>
          match list_find (fun rhs => selects (selected n rhs) l = true) (productions n) with
          | Some (i, rhs) =>
              match parse_seq (parse fuel') rhs l with
              | Done ts l => Done (Node n i ts) l | SyntaxError => SyntaxError | NoFuel => NoFuel
              end
          | None => SyntaxError
          end
      end
  end.

(** Enough for a text, and the whole text. *)
Definition fuel_for (l : list tok) : nat := S (S (S (length l)) * S (list_max (rank tb <$> g.*1))).
Definition parse_text (start : string) (l : list tok) : option tree :=
  match parse (fuel_for l) (N start) l with Done t [] => Some t | _ => None end.

(** ** What the tables must satisfy *)

(** Every nonterminal of a right-hand side, with what is before and behind it. *)
Fixpoint occurrences (before rhs : list sym) : list (list sym * string * list sym) :=
  match rhs with
  | [] => []
  | s :: rhs' => match s with N m => [(before, m, rhs')] | T _ => [] end ++ occurrences (before ++ [s]) rhs'
  end.
Definition subset (a b : list string) : bool := forallb (fun k => inb k b) a.
Definition production_ok (n : string) (rhs : list sym) : bool :=
  implb (seq_nul rhs) (nul tb n) && subset (seq_first rhs) (first tb n) &&
  forallb (fun '(before, m, behind) =>
    subset (seq_first behind) (follow tb m) && implb (seq_nul behind) (subset (follow tb n) (follow tb m)) &&
    implb (seq_nul before) (rank tb m <? rank tb n)%nat && inb m (g.*1)) (occurrences [] rhs).
(** Two productions differ in one of the tokens ahead. *)
Fixpoint differ (a b : list (list string)) : bool :=
  match a, b with x :: a', y :: b' => forallb (fun k => negb (inb k y)) x || differ a' b' | _, _ => false end.
Fixpoint apart_all (l : list (list (list string))) : bool :=
  match l with [] => true | a :: l' => forallb (differ a) l' && apart_all l' end.
Definition predictive (start : string) : bool :=
  inb the_end (follow tb start) && inb start (g.*1) &&
  forallb (fun '(n, rhss) => forallb (production_ok n) rhss && apart_all (selected n <$> rhss)) g.
End Grammar.
Arguments Leaf {tok}. Arguments Node {tok}.
Arguments Done {tok A}. Arguments SyntaxError {tok A}. Arguments NoFuel {tok A}.
Scheme derives_mind := Induction for derives Sort Prop
  with derives_seq_mind := Induction for derives_seq Sort Prop.
Combined Scheme derives_mutual from derives_mind, derives_seq_mind.

(** ** Computing the tables *)

Section Compute.
Context (g : grammar).
Definition entry {A} (d : A) (l : list (string * A)) (n : string) : A :=
  match list_find (fun p => p.1 = n) l with Some (_, p) => p.2 | None => d end.
Fixpoint repeated {A} (k : nat) (f : A -> A) (x : A) : A := match k with O => x | S k' => repeated k' f (f x) end.

Definition nul_step (l : list (string * bool)) : list (string * bool) :=
  (fun '(n, rhss) => (n, existsb (seq_nul (mkTb (entry false l) (fun _ => []) (fun _ => []) (fun _ => O) (fun _ => O))) rhss)) <$> g.
Definition first_step (nul : string -> bool) (l : list (string * list string)) : list (string * list string) :=
  (fun '(n, rhss) => (n, remove_dups (concat (seq_first (mkTb nul (entry [] l) (fun _ => []) (fun _ => O) (fun _ => O)) <$> rhss)))) <$> g.
Definition follow_step (start : string) (nul : string -> bool) (first : string -> list string) (l : list (string * list string)) : list (string * list string) :=
  let tb := mkTb nul first (entry [] l) (fun _ => O) (fun _ => O) in
  let pairs := '(n, rhss) ← g; rhs ← rhss; '(_, m, behind) ← occurrences [] rhs;
               [(m, seq_first tb behind ++ (if seq_nul tb behind then follow tb n else []))] in
  (fun '(n, _) => (n, remove_dups ((if decide (n = start) then [the_end] else []) ++ concat (snd <$> filter (fun p => p.1 = n) pairs)))) <$> g.
Definition rank_step (nul : string -> bool) (l : list (string * nat)) : list (string * nat) :=
  let tb := mkTb nul (fun _ => []) (fun _ => []) (entry O l) (fun _ => O) in
  (fun '(n, rhss) =>
    (n, list_max (rhs ← rhss; '(before, m, _) ← occurrences [] rhs; if seq_nul tb before then [S (rank tb m)] else []))) <$> g.

Definition compute_tables (start : string) (k : nat) :
    list (string * bool) * list (string * list string) * list (string * list string) * list (string * nat) :=
  let n := repeated k nul_step [] in
  let f := repeated k (first_step (entry false n)) [] in
  let fo := repeated k (follow_step start (entry false n) (entry [] f)) [] in
  (n, f, fo, repeated k (rank_step (entry false n)) []).
End Compute.

(** ** Correctness *)

Section Correct.
Context {tok : Type} (name : tok -> string) (g : grammar) (tb : tables) (start : string).
Hypothesis tables_ok : predictive g tb start = true.

#[local] Abbreviation productions := (productions g).
#[local] Abbreviation derives := (derives name g).
#[local] Abbreviation derives_seq := (derives_seq name g).
#[local] Abbreviation parse := (parse name g tb).
#[local] Abbreviation seq_nul := (seq_nul tb).
#[local] Abbreviation seq_first := (seq_first tb).
#[local] Abbreviation look := (look name).

Lemma inb_spec k l : inb k l = true <-> k ∈ l.
Proof. unfold inb. by rewrite bool_decide_eq_true. Qed.
Lemma subset_spec a b k : subset a b = true -> k ∈ a -> k ∈ b.
Proof. intros H Hk. unfold subset in H. rewrite forallb_forall in H. apply inb_spec, H. by apply list_elem_of_In. Qed.

Lemma productions_in n i rhs : productions n !! i = Some rhs -> exists rhss, (n, rhss) ∈ g /\ productions n = rhss.
Proof.
  unfold Predictive.productions. destruct (list_find _ g) as [[j [m rhss]]|] eqn:E; [|done]. intros _.
  apply list_find_Some in E as (Hj & Hm & _). cbn in *. subst m. exists rhss. split; [by eapply list_elem_of_lookup_2|done].
Qed.
Lemma entry_ok n rhss : (n, rhss) ∈ g -> forallb (production_ok g tb n) rhss = true /\ apart_all (selected tb n <$> rhss) = true.
Proof.
  intros Hn. unfold predictive in tables_ok. apply andb_true_iff in tables_ok as [_ H]. rewrite forallb_forall in H.
  specialize (H (n, rhss)). apply andb_true_iff. apply H. by apply list_elem_of_In.
Qed.
Lemma rhs_ok n i rhs : productions n !! i = Some rhs -> production_ok g tb n rhs = true.
Proof.
  intros H. destruct (productions_in _ _ _ H) as (rhss & Hin & E). destruct (entry_ok _ _ Hin) as [Hp _]. rewrite forallb_forall in Hp.
  apply Hp, list_elem_of_In. rewrite <- E. by eapply list_elem_of_lookup_2.
Qed.

(** *** What begins and what follows *)

Lemma derives_first :
  (forall s w t, derives s w t ->
    match s with
    | T k => exists x, w = [x] /\ name x = k
    | N n => (w = [] -> nul tb n = true) /\ (forall x w', w = x :: w' -> name x ∈ first tb n)
    end) /\
  (forall rhs w ts, derives_seq rhs w ts -> (w = [] -> seq_nul rhs = true) /\ (forall x w', w = x :: w' -> name x ∈ seq_first rhs)).
Proof.
  apply derives_mutual.
  - intros t. by exists t.
  - intros n i rhs w ts Hp _ [Hn Hf]. pose proof (rhs_ok _ _ _ Hp) as Hok. unfold production_ok in Hok.
    apply andb_true_iff in Hok as [[H1 H2]%andb_true_iff _]. split.
    + intros Hw. specialize (Hn Hw). unfold implb in H1. by rewrite Hn in H1.
    + intros x w' Hw. eapply subset_spec; [exact H2|]. by eapply Hf.
  - split; [done|discriminate].
  - intros s rhs w1 w2 t ts _ Hs _ [Hn Hf]. destruct s as [k|n].
    + destruct Hs as (x & -> & Hk). split; [discriminate|]. intros y w' [= <- _]. set_solver.
    + destruct Hs as [Hn1 Hf1]. split.
      * intros [-> ->]%app_nil. change (nul tb n && seq_nul rhs = true). by rewrite Hn1, Hn by done.
      * intros x w' Hw. cbn [Predictive.seq_first]. rewrite elem_of_app. destruct w1 as [|y w1]; [|left; cbn in Hw; injection Hw as <- _; by eapply Hf1].
        right. rewrite Hn1 by done. by eapply Hf.
Qed.

Lemma occurrences_at before rhs a m b : rhs = a ++ N m :: b -> (before ++ a, m, b) ∈ occurrences before rhs.
Proof.
  revert before a. induction rhs as [|s rhs IH]; intros before a H; [by destruct a|]. destruct a as [|s' a]; cbn in H; injection H as -> H.
  - subst rhs. cbn. rewrite app_nil_r. by left.
  - cbn [occurrences]. rewrite elem_of_app. right. rewrite (cons_middle s' before a), app_assoc. by apply IH.
Qed.
Lemma occurrence_ok n i a m b :
  productions n !! i = Some (a ++ N m :: b) ->
  (forall k, k ∈ seq_first b -> k ∈ follow tb m) /\ (seq_nul b = true -> forall k, k ∈ follow tb n -> k ∈ follow tb m) /\
  (seq_nul a = true -> (rank tb m < rank tb n)%nat) /\ m ∈ g.*1.
Proof.
  intros Hp. pose proof (rhs_ok _ _ _ Hp) as Hok. unfold production_ok in Hok. apply andb_true_iff in Hok as [_ H].
  rewrite forallb_forall in H. specialize (H (a, m, b)).
  assert (In (a, m, b) (occurrences [] (a ++ N m :: b))) as Hin by (by apply list_elem_of_In, (occurrences_at [])).
  specialize (H Hin). repeat (apply andb_true_iff in H as [H ?]). split_and!.
  - intros k Hk. by eapply subset_spec.
  - intros Hb k Hk. unfold implb in H2. rewrite Hb in H2. by eapply subset_spec.
  - intros Ha. unfold implb in H1. rewrite Ha in H1. by apply Nat.ltb_lt.
  - by apply inb_spec.
Qed.

(** Only one production is selected. *)
Lemma differ_selects a b l : differ a b = true -> selects name a l = true -> selects name b l = true -> False.
Proof.
  revert b l. induction a as [|x a IH]; intros [|y b] l; cbn; try discriminate. rewrite orb_true_iff, !andb_true_iff.
  intros [H|H] [Hx Ha] [Hy Hb]; [|by eapply IH]. rewrite forallb_forall in H. apply inb_spec, list_elem_of_In, H, negb_true_iff in Hx. congruence.
Qed.
Lemma apart_lookup l i j a b k : apart_all l = true -> l !! i = Some a -> l !! j = Some b -> selects name a k = true -> selects name b k = true -> i = j.
Proof.
  revert i j. induction l as [|c l IH]; intros i j Hl Hi Hj Ha Hb; [done|]. cbn in Hl. apply andb_true_iff in Hl as [H Hl].
  assert (forall d j, l !! j = Some d -> selects name c k = true -> selects name d k = true -> False) as Hx.
  { intros d j' Hd Hc Hkd. rewrite forallb_forall in H. apply list_elem_of_lookup_2, list_elem_of_In, H in Hd. by eapply differ_selects. }
  destruct i as [|i], j as [|j]; cbn in Hi, Hj; simplify_eq; [done| | |f_equal; by eapply IH]; exfalso; by eapply Hx.
Qed.
Lemma choose_production n i rhs l :
  productions n !! i = Some rhs -> selects name (selected tb n rhs) l = true ->
  list_find (fun rhs => selects name (selected tb n rhs) l = true) (productions n) = Some (i, rhs).
Proof.
  intros Hp Hk. destruct (productions_in _ _ _ Hp) as (rhss & Hin & E). destruct (entry_ok _ _ Hin) as [_ Ha]. rewrite <- E in Ha.
  apply list_find_Some. split_and!; [done|done|]. intros j rhs' Hj Hlt Hs.
  assert (j = i) as ->; [|lia]. eapply apart_lookup; [exact Ha| | |exact Hs|exact Hk]; rewrite list_lookup_fmap; [by rewrite Hj|by rewrite Hp].
Qed.

(** *** Completeness *)

Lemma selects_one n rhs w r ts :
  derives_seq rhs w ts -> look r ∈ follow tb n -> selects name [seq_first rhs ++ (if seq_nul rhs then follow tb n else [])] (w ++ r) = true.
Proof.
  intros Hd Hr. destruct (proj2 derives_first _ _ _ Hd) as [Hn Hf]. cbn [selects]. rewrite andb_true_r. apply inb_spec. rewrite elem_of_app.
  destruct w as [|x w]; [right; by rewrite Hn|left; by eapply Hf].
Qed.
Lemma selects_ahead d n rhs w r ts : derives_seq rhs w ts -> look r ∈ follow tb n -> selects name (ahead tb d n rhs) (w ++ r) = true.
Proof.
  revert rhs w ts. induction d as [|d IH]; intros rhs w ts Hd Hr; [destruct rhs; by eapply selects_one|].
  destruct rhs as [|[k|m] rhs]; [by eapply selects_one| |by eapply selects_one]. inversion Hd as [|? ? w1 w2 t ts' H1 H2]; subst.
  inversion H1; subst. cbn [ahead selects app Predictive.look drop]. apply andb_true_iff. split; [apply inb_spec; set_solver|]. by eapply IH.
Qed.

Lemma parse_complete :
  (forall s w t, derives s w t -> forall r, match s with N n => look r ∈ follow tb n | T _ => True end ->
    exists f, forall f', (f <= f')%nat -> parse f' s (w ++ r) = Done t r) /\
  (forall rhs w ts, derives_seq rhs w ts -> forall n i a r, productions n !! i = Some (a ++ rhs) -> look r ∈ follow tb n ->
    exists f, forall f', (f <= f')%nat -> parse_seq (parse f') rhs (w ++ r) = Done ts r).
Proof.
  apply derives_mutual.
  - intros t r _. exists 1%nat. intros [|f'] Hf; [lia|]. cbn. by rewrite decide_True.
  - intros n i rhs w ts Hp Hd IH r Hr. destruct (IH n i [] r Hp Hr) as (f & Hf). exists (S f). intros [|f'] Hle; [lia|].
    cbn [Predictive.parse]. rewrite (choose_production n i rhs); [|done|by eapply selects_ahead]. by rewrite Hf by lia.
  - intros n i a r _ _. exists O. by intros f' _.
  - intros s rhs w1 w2 t ts Hs IH1 Hd IH2 n i a r Hp Hr.
    destruct (IH1 (w2 ++ r)) as (f1 & H1).
    { destruct s as [k|m]; [done|]. destruct (occurrence_ok _ _ _ _ _ Hp) as (Hb1 & Hb2 & _).
      pose proof (proj2 derives_first _ _ _ Hd) as [Hn Hf]. destruct w2 as [|x w2]; cbn; [by apply Hb2; [apply Hn|]|by eapply Hb1, Hf]. }
    destruct (IH2 n i (a ++ [s]) r) as (f2 & H2); [by rewrite <- app_assoc|done|]. exists (f1 `max` f2)%nat. intros f' Hle.
    cbn [parse_seq]. rewrite <- app_assoc, H1 by lia. by rewrite H2 by lia.
Qed.

(** *** Soundness *)

Lemma parse_seq_sound p rhs l ts r :
  (forall s l t r, p s l = Done t r -> exists w, l = w ++ r /\ derives s w t) ->
  parse_seq p rhs l = Done ts r -> exists w, l = w ++ r /\ derives_seq rhs w ts.
Proof.
  intros Hp. revert l ts. induction rhs as [|s rhs IH]; intros l ts; cbn; [intros [= <- <-]; exists []; by split; [|constructor]|].
  destruct (p s l) as [t l1| |] eqn:E; try discriminate. destruct (parse_seq p rhs l1) as [ts1 l2| |] eqn:E2; try discriminate. intros [= <- <-].
  apply Hp in E as (w1 & -> & H1). apply IH in E2 as (w2 & -> & H2). exists (w1 ++ w2). by split; [rewrite app_assoc|constructor].
Qed.
Lemma parse_sound f s l t r : parse f s l = Done t r -> exists w, l = w ++ r /\ derives s w t.
Proof.
  revert s l t r. induction f as [|f IH]; intros s l t r; cbn [Predictive.parse]; [discriminate|]. destruct s as [k|n].
  - destruct l as [|x l]; [discriminate|]. destruct (decide _) as [<-|]; [|discriminate]. intros [= <- <-]. exists [x]. by split; [|constructor].
  - destruct (list_find _ _) as [[i rhs]|] eqn:E; [|discriminate]. destruct (parse_seq _ rhs l) as [ts l'| |] eqn:Ep; try discriminate.
    intros [= <- <-]. apply parse_seq_sound in Ep as (w & -> & Hd); [|exact IH]. apply list_find_Some in E as (Hi & _).
    exists w. split; [done|]. by econstructor.
Qed.

(** *** The fuel is enough *)

Definition max_rank : nat := S (list_max (rank tb <$> g.*1)).
Lemma rank_below n : n ∈ g.*1 -> (rank tb n < max_rank)%nat.
Proof.
  intros Hn. unfold max_rank. assert (Forall (fun k => k <= list_max (rank tb <$> g.*1))%nat (rank tb <$> g.*1)) as H by (by apply list_max_le).
  rewrite Forall_fmap, Forall_forall in H. specialize (H n Hn). cbn in H. lia.
Qed.
Lemma parse_seq_fuel n i f a rhs l0 l :
  (forall m l, m ∈ g.*1 -> (length l * max_rank + rank tb m + 1 < f)%nat -> parse f (N m) l <> NoFuel) ->
  productions n !! i = Some (a ++ rhs) -> (length l0 * max_rank + rank tb n < f)%nat ->
  (l = l0 /\ seq_nul a = true \/ length l < length l0)%nat -> parse_seq (parse f) rhs l <> NoFuel.
Proof.
  intros IH. revert a l. induction rhs as [|s rhs IHr]; intros a l Hp Hf Hl; cbn [parse_seq]; [discriminate|].
  assert (parse f s l <> NoFuel) as Hs.
  { destruct s as [k|m].
    - destruct f as [|f']; [lia|]. cbn. destruct l; [done|]. by destruct (decide _).
    - destruct (occurrence_ok _ _ _ _ _ Hp) as (_ & _ & Hrank & Hm). apply IH; [done|]. pose proof (rank_below _ Hm).
      destruct Hl as [[-> Ha]|Hlt]; [specialize (Hrank Ha); lia|]. nia. }
  destruct (parse f s l) as [t l1| |] eqn:E; try done. clear Hs.
  assert (parse_seq (parse f) rhs l1 <> NoFuel) as Hr; [|by destruct (parse_seq _ rhs l1)].
  apply (IHr (a ++ [s])); [by rewrite <- app_assoc|done|].
  apply parse_sound in E as (w & -> & Hd). destruct w as [|x w]; [|right; rewrite length_app in Hl; destruct Hl as [[<- _]|?]; cbn in *; rewrite ?length_app; lia].
  cbn in Hl. destruct Hl as [[-> Ha]|?]; [left; split; [done|]|by right].
  pose proof (proj1 derives_first _ _ _ Hd) as H. destruct s as [k|m]; [by destruct H as (? & ? & _)|]. destruct H as [Hn _].
  unfold Predictive.seq_nul in *. rewrite forallb_app, Ha. cbn. by rewrite Hn.
Qed.
Lemma parse_fuel f n l : n ∈ g.*1 -> (length l * max_rank + rank tb n + 1 < f)%nat -> parse f (N n) l <> NoFuel.
Proof.
  revert n l. induction f as [|f IH]; intros n l Hn Hf; [lia|]. cbn [Predictive.parse].
  destruct (list_find _ _) as [[i rhs]|] eqn:E; [|done]. apply list_find_Some in E as (Hi & _).
  assert (parse_seq (parse f) rhs l <> NoFuel) as H; [|by destruct (parse_seq _ rhs l)].
  apply (parse_seq_fuel n i f [] rhs l l); [exact IH|exact Hi|lia|by left].
Qed.

(** More fuel changes nothing. *)
Lemma parse_seq_mono (p q : sym -> list tok -> parsed tree) rhs l :
  (forall s l, p s l <> NoFuel -> q s l = p s l) -> parse_seq p rhs l <> NoFuel -> parse_seq q rhs l = parse_seq p rhs l.
Proof.
  intros Hpq. revert l. induction rhs as [|s rhs IH]; intros l; cbn [parse_seq]; [done|]. intros H.
  assert (p s l <> NoFuel) as Hs by (by intros E; rewrite E in H). rewrite (Hpq s l Hs). destruct (p s l) as [t l1| |]; [|done|done].
  rewrite IH; [done|]. intros E. by rewrite E in H.
Qed.
Lemma parse_mono f f' s l : (f <= f')%nat -> parse f s l <> NoFuel -> parse f' s l = parse f s l.
Proof.
  revert f' s l. induction f as [|f IH]; intros f' s l Hf H; [done|]. destruct f' as [|f']; [lia|]. cbn [Predictive.parse] in *. destruct s as [k|n]; [done|].
  destruct (list_find _ _) as [[i rhs]|]; [|done].
  assert (parse_seq (parse f) rhs l <> NoFuel) as Hs by (by intros E; rewrite E in H).
  rewrite (parse_seq_mono (parse f) (parse f') rhs l); [done| |exact Hs]. intros s l' Hp. apply IH; [lia|exact Hp].
Qed.

(** The parser decides the language, and finds the only tree. *)
Lemma parse_text_spec l t : parse_text name g tb start l = Some t <-> derives (N start) l t.
Proof.
  assert (the_end ∈ follow tb start /\ start ∈ g.*1) as [He Hs].
  { unfold predictive in tables_ok. apply andb_true_iff in tables_ok as [[H1 H2]%andb_true_iff _]. by split; apply inb_spec. }
  unfold parse_text. pose proof (parse_fuel (fuel_for g tb l) start l Hs) as Hfuel. split.
  - destruct (parse _ _ l) as [t' [|x r]| |] eqn:E; try discriminate. intros [= <-]. apply parse_sound in E as (w & -> & Hd). by rewrite app_nil_r.
  - intros Hd. destruct (proj1 parse_complete _ _ _ Hd [] He) as (f & Hf). rewrite app_nil_r in Hf.
    assert (parse (fuel_for g tb l) (N start) l <> NoFuel) as Hn.
    { apply Hfuel. pose proof (rank_below _ Hs). unfold fuel_for. fold max_rank. generalize dependent max_rank. intros. nia. }
    rewrite <- (parse_mono (fuel_for g tb l) (fuel_for g tb l `max` f)%nat (N start) l (Nat.le_max_l _ _) Hn), Hf by lia. done.
Qed.
End Correct.

(** ** Trees, checked by evaluation *)

Section Trees.
Context {tok : Type} (name : tok -> string) (g : grammar).
Fixpoint yield (t : tree (tok := tok)) : list tok :=
  match t with Leaf x => [x] | Node _ _ ts => (fix go ts := match ts with [] => [] | t :: ts' => yield t ++ go ts' end) ts end.
Fixpoint well_formed (s : sym) (t : tree (tok := tok)) : bool :=
  match s, t with
  | T k, Leaf x => bool_decide (name x = k)
  | N n, Node m i ts =>
      bool_decide (m = n) &&
      match productions g n !! i with
      | Some rhs =>
          (fix go ts rhs := match ts, rhs with [], [] => true | t :: ts', s :: rhs' => well_formed s t && go ts' rhs' | _, _ => false end) ts rhs
      | None => false
      end
  | _, _ => false
  end.
Definition yields (ts : list (tree (tok := tok))) : list tok := concat (yield <$> ts).
Fixpoint well_formed_seq (ts : list (tree (tok := tok))) (rhs : list sym) : bool :=
  match ts, rhs with [], [] => true | t :: ts', s :: rhs' => well_formed s t && well_formed_seq ts' rhs' | _, _ => false end.

Lemma yield_node n i ts : yield (Node n i ts) = yields ts.
Proof. unfold yields. cbn. induction ts as [|t ts IH]; cbn; [done|]. by rewrite IH. Qed.
Lemma well_formed_node n i ts rhs :
  productions g n !! i = Some rhs -> well_formed (N n) (Node n i ts) = well_formed_seq ts rhs.
Proof.
  intros Hp. cbn. rewrite Hp, bool_decide_eq_true_2 by done. cbn. clear Hp. revert rhs.
  induction ts as [|t ts IH]; intros [|s rhs]; cbn; [done..|]. by rewrite IH.
Qed.
Lemma tree_all_ind (P : tree (tok := tok) -> Prop) :
  (forall x, P (Leaf x)) -> (forall n i ts, Forall P ts -> P (Node n i ts)) -> forall t, P t.
Proof.
  intros HL HN. fix IH 1. intros [x|n i ts]; [apply HL|]. apply HN. induction ts as [|t ts IHt]; constructor; [apply IH|apply IHt].
Qed.
Lemma well_formed_derives t s : well_formed s t = true -> derives name g s (yield t) t.
Proof.
  revert s. induction t as [x|n i ts IH] using tree_all_ind; intros [k|m]; [|discriminate..|].
  { intros H%bool_decide_eq_true. rewrite <- H. constructor. }
  intros H. assert (m = n) as -> by (cbn in H; by apply andb_true_iff in H as [?%bool_decide_eq_true _]).
  destruct (productions g n !! i) as [rhs|] eqn:Hp; [|cbn in H; by rewrite Hp, andb_false_r in H].
  rewrite (well_formed_node _ _ _ _ Hp) in H. rewrite yield_node. econstructor; [exact Hp|]. clear Hp.
  revert rhs H. induction IH as [|t ts Ht _ IHt]; intros [|s rhs] H; try discriminate; [constructor|]. cbn in H. apply andb_true_iff in H as [H1 H2].
  unfold yields. cbn [fmap list_fmap concat]. constructor; [by apply Ht|by apply IHt].
Qed.
End Trees.
