(* ===== verification/ConfActions.v ===== *)
(** * The statements of the configuration (src/conffile.y)

    What the parser does with each statement once its parts are known: the actions of
    the grammar's rules [cluster], [match], [rewrite], [aggregate], [send], [statistics] and
    [listen], with [cluster_new].  [run] performs a list of statements on the router that
    [router_readconfig] begins with.  Reading the text, [include] too, is in [Grammar] and [ReadConfig]. *)
From S2P Require Import Prelude Relay Queue ConsistentHash Rewrite Matching Router Server RouterConfig.
#[local] Open Scope Z_scope.

Section Actions.
Context `{Resolver} `{Filesystem} `{Regex} {Q : Type} `{FifoQueue Q (list Z)} (queue_of : nat -> Q) `{Qsort (ch_ring_entry nat)}.
Context (qts qte : Z).
(** How the addresses of aggregators and of the router print. *)
Context (aggr_ptr : nat -> cstring) (rtr_ptr : cstring).
(** The name of the host, and where the expression for it matches. *)
Context (hostname : cstring) (hostmatch : option (list regmatch)).

Abbreviation outcome := (option ((world Q * router) + conf_error)) (only parsing).

(** [cluster_ttl]: minutes to seconds, as an [int]. *)
Definition cluster_ttl (minutes : Z) : Z := if minutes <=? 0 then 0 else u64 (s32 (minutes * 60)).

(** [cluster_new]: clusters of type failover and lb get a queue, as the [queue_size] that is compared
    with 0 is a function and not NULL. *)
Definition cluster_new (w : world Q) (name : option cstring) (ctype : Clusttype.clusttype) (queuesize : nat) (ttl : Z)
    (connections ts te : Z) (dyn : bool) (ms : members) : world Q * ccluster :=
  if bool_decide (ctype = Clusttype.FAILOVER) || bool_decide (ctype = Clusttype.LB) then
    (mkWorld (servers w) (queues w ++ [queue_of queuesize]), mkCl name ctype connections ts te ttl dyn (Some (length (queues w))) ms)
  else (w, mkCl name ctype connections ts te ttl dyn None ms).

(** The rules [cluster_host] and [cluster_path]. *)
Record host_spec := mkHs { hs_addr : cstring; hs_inst : option cstring; hs_proto : con_proto; hs_type : con_type; hs_trnsp : Z }.
Definition cluster_host (hs : host_spec) : option (clhost + conf_error) :=
  a ← router_validate_address (hs_addr hs) (hs_proto hs);
  match a with
  | inr e => Some (inr e)
  | inl a =>
      ip ← ad_ip a;   (* without a host the server has no name *)
      Some (inl (mkHost ip (ad_port a) (hs_inst hs) (hs_type hs) (hs_trnsp hs) (hs_proto hs) (default [] (ad_saddr a)) (ad_hint a)))
  end.
Definition cluster_path (path : cstring) : option (clhost + conf_error) :=
  e ← router_validate_path path;
  Some (match e with
        | Some e => inr e
        | None => inl (mkHost path GRAPHITE_PORT None T_LINEMODE W_PLAIN CON_FILE [] false)
        end).

(** Lists of the grammar: the parts are read in turn up to the first error. *)
Fixpoint parse_all {A B} (f : A -> option (B + conf_error)) (l : list A) : option (list B + conf_error) :=
  match l with
  | [] => Some (inl [])
  | a :: l' =>
      b ← f a;
      match b with
      | inr e => Some (inr e)
      | inl b =>
          bs ← parse_all f l';
          Some (match bs with inr e => inr e | inl bs => inl (b :: bs) end)
      end
  end.
Definition cluster_hosts : list host_spec -> option (list clhost + conf_error) := parse_all cluster_host.
Definition cluster_paths : list cstring -> option (list clhost + conf_error) := parse_all cluster_path.

(** The loop that adds the hosts to the cluster. *)
Fixpoint add_hosts (w : world Q) (r : router) (cl : ccluster) (useall : bool) (hosts : list clhost) :
    option ((world Q * router * ccluster) + conf_error) :=
  match hosts with
  | [] => Some (inl (w, r, cl))
  | h :: hosts' =>
      x ← router_add_server queue_of qts qte w r h useall cl;
      match x with
      | inr e => Some (inr e)
      | inl (w, r, cl) => add_hosts w r cl useall hosts'
      end
  end.

(** The members a cluster of hosts or of paths begins with. *)
Definition ch_type_of (type : Clusttype.clusttype) : option ch_type :=
  match type with
  | Clusttype.CARBON_CH => Some CARBON
  | Clusttype.FNV1A_CH => Some FNV1a
  | Clusttype.JUMP_CH => Some JUMP_FNV1a
  | _ => None
  end.
Definition initial_members (paths : bool) (type : Clusttype.clusttype) (replcnt : Z) (srvcnt : nat) : members + conf_error :=
  if paths then match type with Clusttype.FILELOG | Clusttype.FILELOGIP => inl (M_forward []) | _ => inr E_cluster_type end
  else
  match ch_type_of type with
  | Some t =>
      if (replcnt <? 1) || (255 <? replcnt) then inr E_replication_range
      else inl (M_ch (Z.to_nat replcnt) (ch_new true true t (Z.of_nat srvcnt)) [])
  | None =>
      match type with
      | Clusttype.FORWARD => inl (M_forward [])
      | Clusttype.ANYOF | Clusttype.FAILOVER | Clusttype.LB => inl (M_anyof 0 [] [])
      | _ => inr E_cluster_type
      end
  end.

(** The rule [cluster_type] packs the replication count of a hash and [dynamic] into an [int]: does it overflow? *)
Definition cluster_ival_overflows (type : Clusttype.clusttype) (dyn : bool) (repl : Z) : bool :=
  let ival := (if dyn then 2 else 0) + repl * 10 in
  bool_decide (is_Some (ch_type_of type)) && ((ival <? - 2 ^ 31) || (2 ^ 31 <=? ival)).

(** The rules [cluster] for hosts and for paths. *)
Definition config_cluster (paths : bool) (w : world Q) (r : router) (name : cstring) (type : Clusttype.clusttype) (useall dyn : bool)
    (repl connections ttl ts te : Z) (hosts : list clhost) : outcome :=
  if cluster_ival_overflows type dyn repl then None else
  match cluster_set_threshold ts te with
  | None => Some (inr E_threshold)
  | Some (ts, te) =>
      match initial_members paths type repl (length hosts) with
      | inr e => Some (inr e)
      | inl ms =>
          let '(w, cl) := cluster_new w (Some name) type (f_queuesize (r_conf r)) (cluster_ttl ttl) connections ts te dyn ms in
          x ← add_hosts w r cl useall hosts;
          match x with
          | inr e => Some (inr e)
          | inl (w, r, cl) => router_add_cluster w r cl
          end
      end
  end.

(** The rule [match_dsts]: the named clusters, as destinations. *)
Definition match_dsts (r : router) : list cstring -> option (list ccluster + conf_error) := parse_all (router_validate_cluster r).

(** The rule [match_exprs]. *)
Fixpoint match_exprs (conf : rconf) (exprs : list cstring) : list matcher + conf_error :=
  match exprs with
  | [] => inl []
  | e :: exprs' =>
      match router_validate_expression conf e with
      | inr e => inr e
      | inl m => match match_exprs conf exprs' with inr e => inr e | inl ms => inl (m :: ms) end
      end
  end.

Definition add_routes (r : router) (ms : list matcher) (masq : option cstring) (stop : bool) (ds : list (cluster nat nat)) : router :=
  foldl (fun r m => router_add_route r (mkRoute m masq stop ds)) r ms.

(** The rule [match]. *)
Definition config_match (w : world Q) (r : router) (exprs : list cstring) (val : option (cstring * bool)) (masq : option cstring)
    (dsts : list cstring) (stop : bool) : outcome :=
  match match_exprs (r_conf r) exprs with
  | inr e => Some (inr e)
  | inl ms =>
      let vals := match val with
                  | None => inl []
                  | Some (expr, drop) =>
                      match router_validate_expression (r_conf r) expr with
                      | inr e => inr e
                      | inl m => inl [VALIDATION m (if drop : bool then VAL_DROP else VAL_LOG)]
                      end
                  end in
      match vals with
      | inr e => Some (inr e)
      | inl vals =>
          cls ← match_dsts r dsts;
          match cls with
          | inr e => Some (inr e)
          | inl cls =>
              let stop := match cls with
                          | [] => false
                          | c :: _ => if bool_decide (cl_type c = Clusttype.BLACKHOLE) then true else stop
                          end in
              Some (inl (w, add_routes r ms masq stop (vals ++ (as_dest <$> cls))))
          end
      end
  end.

(** The rule [rewrite]; [masq] is left unset. *)
Definition config_rewrite (w : world Q) (r : router) (expr replacement : cstring) : outcome :=
  Some (match router_validate_expression (r_conf r) expr with
        | inr e => inr e
        | inl m => inl (w, router_add_route r (mkRoute m None false [REWRITE replacement]))
        end).

(** The rule [aggregate]: the new aggregator is number [length (r_aggregators r)]. *)
Definition config_aggregate (w : world Q) (r : router) (exprs : list cstring) (intv expire : Z) (pctls : list Z)
    (dsts : list cstring) (stop : bool) : outcome :=
  match match_exprs (r_conf r) exprs with
  | inr e => Some (inr e)
  | inl ms =>
      if existsb (fun p => (p <? 1) || (99 <? p)) pctls then Some (inr E_percentile)
      else
        cls ← match_dsts r dsts;
        match cls with
        | inr e => Some (inr e)
        | inl cls =>
            if intv <=? 0 then Some (inr E_interval)
            else if expire <=? 0 then Some (inr E_expire)
            else if expire <=? intv then Some (inr E_expire_interval)
            else
              let a := length (r_aggregators r) in
              let ds := as_dest <$> cls in
              x ← router_add_cluster w (router_add_aggregator r a)
                    (mkCl None Clusttype.AGGREGATION 0 0 0 0 false None (M_aggregation a));
              match x with
              | inr e => Some (inr e)
              | inl (w, r) =>
                  let r := add_routes r ms None stop (AGGREGATION a :: ds) in
                  if bool_decide (ds = []) then Some (inl (w, r))
                  else
                    y ← router_add_stubroute w r Clusttype.AGGRSTUB (aggr_ptr a) ds;
                    Some (inl (match y with inr _ => (w, r) | inl (w, r, _) => (w, r) end))   (* the error is ignored *)
              end
        end
  end.

(** The rules [statistics] and [send]. *)
Definition set_destinations (w : world Q) (r : router) (cls : list ccluster) : outcome :=
  x ← router_set_statistics w r rtr_ptr (as_dest <$> cls);
  Some (match x with inr e => inr e | inl (w, r, _) => inl (w, r) end).
Definition config_statistics (w : world Q) (r : router) (intv : option Z) (mode : col_mode) (prefix : option cstring)
    (dsts : list cstring) : outcome :=
  if match intv with Some i => i <=? 0 | None => false end then Some (inr E_interval)
  else
    cls ← match_dsts r dsts;
    match cls with
    | inr e => Some (inr e)
    | inl cls =>
        match router_set_collectorvals hostname hostmatch r (default (-1) intv) prefix mode with
        | inr e => Some (inr e)
        | inl r => if bool_decide (dsts = []) then Some (inl (w, r)) else set_destinations w r cls
        end
    end.
Definition config_send (w : world Q) (r : router) (dsts : list cstring) : outcome :=
  cls ← match_dsts r dsts;
  match cls with inr e => Some (inr e) | inl cls => set_destinations w r cls end.

(** The rules [receptor] and [receptors]. *)
Record receptor_spec := mkRs { rs_addr : cstring; rs_proto : con_proto }.
Record rcptr := mkRcptr { rc_ctype : con_proto; rc_ip : option cstring; rc_port : Z; rc_saddrs : list addrinfo }.
Definition receptor (rs : receptor_spec) : option (rcptr + conf_error) :=
  if bool_decide (rs_proto rs = CON_UNIX) then
    e ← router_validate_path (rs_addr rs);
    Some (match e with Some e => inr e | None => inl (mkRcptr CON_UNIX (Some (rs_addr rs)) 0 []) end)
  else
    let addr := if forallb is_digit (rs_addr rs) then snprintf_trunc 24 (ch ":" :: rs_addr rs) else rs_addr rs in
    a ← router_validate_address addr (rs_proto rs);
    Some (match a with
          | inr e => inr e
          | inl a => inl (mkRcptr (rs_proto rs) (ad_ip a) (ad_port a) (default [] (ad_saddr a)))
          end).
Definition receptors : list receptor_spec -> option (list rcptr + conf_error) := parse_all receptor.

(** The rule [listen]. *)
Fixpoint add_listeners (r : router) (type : con_type) (trnsp pem : Z) (rcs : list rcptr) : option (router + conf_error) :=
  match rcs with
  | [] => Some (inl r)
  | rc :: rcs' =>
      x ← router_add_listener r type trnsp pem (rc_ctype rc) (rc_ip rc) (rc_port rc) (rc_saddrs rc);
      match x with
      | inr e => Some (inr e)
      | inl r => add_listeners r type trnsp pem rcs'
      end
  end.
Definition config_listen (w : world Q) (r : router) (type : con_type) (trnsp pem : Z) (rss : list receptor_spec) : outcome :=
  rcs ← receptors rss;
  match rcs with
  | inr e => Some (inr e)
  | inl rcs =>
      if negb (trnsp =? W_PLAIN) && existsb (fun rc => bool_decide (rc_ctype rc = CON_UDP)) rcs then Some (inr E_udp_transport)
      else
        x ← add_listeners r type trnsp pem rcs;
        Some (match x with inr e => inr e | inl r => inl (w, r) end)
  end.

(** ** Statements *)

Inductive stmt :=
  | S_cluster (name : cstring) (type : Clusttype.clusttype) (useall dyn : bool) (repl connections ttl ts te : Z) (hosts : list host_spec)
  | S_files (name : cstring) (ip : bool) (connections ttl ts te : Z) (paths : list cstring)
  | S_match (exprs : list cstring) (val : option (cstring * bool)) (masq : option cstring) (dsts : list cstring) (stop : bool)
  | S_rewrite (expr replacement : cstring)
  | S_aggregate (exprs : list cstring) (intv expire : Z) (pctls : list Z) (dsts : list cstring) (stop : bool)
  | S_send (dsts : list cstring)
  | S_statistics (intv : option Z) (mode : col_mode) (prefix : option cstring) (dsts : list cstring)
  | S_listen (type : con_type) (trnsp pem : Z) (rss : list receptor_spec).

Definition run_stmt (w : world Q) (r : router) (s : stmt) : outcome :=
  match s with
  | S_cluster name type useall dyn repl connections ttl ts te hosts =>
      hs ← cluster_hosts hosts;
      match hs with
      | inr e => Some (inr e)
      | inl hs => config_cluster false w r name type (useall && negb (bool_decide (is_Some (ch_type_of type)))) dyn repl connections ttl ts te hs
      end
  | S_files name ip connections ttl ts te paths =>
      hs ← cluster_paths paths;
      match hs with
      | inr e => Some (inr e)
      | inl hs => config_cluster true w r name (if ip then Clusttype.FILELOGIP else Clusttype.FILELOG) false false 1 connections ttl ts te hs
      end
  | S_match exprs val masq dsts stop => config_match w r exprs val masq dsts stop
  | S_rewrite expr replacement => config_rewrite w r expr replacement
  | S_aggregate exprs intv expire pctls dsts stop => config_aggregate w r exprs intv expire pctls dsts stop
  | S_send dsts => config_send w r dsts
  | S_statistics intv mode prefix dsts => config_statistics w r intv mode prefix dsts
  | S_listen type trnsp pem rss => config_listen w r type trnsp pem rss
  end.

(** The parser stops at the first error. *)
Fixpoint run_stmts (w : world Q) (r : router) (ss : list stmt) : outcome :=
  match ss with
  | [] => Some (inl (w, r))
  | s :: ss' =>
      x ← run_stmt w r s;
      match x with
      | inr e => Some (inr e)
      | inl (w, r) => run_stmts w r ss'
      end
  end.

(** The router [router_readconfig] begins with: the virtual cluster blackhole and the
    collector's defaults. *)
Definition blackhole_cluster : ccluster := mkCl (Some (lit "blackhole")) Clusttype.BLACKHOLE 0 0 0 0 false None (M_forward []).
Definition new_router (conf : rconf) : router + conf_error :=
  router_set_collectorvals hostname hostmatch (mkRouter [blackhole_cluster] [] [] [] None 0 [] CUM [] conf)
    60 (Some (lit "carbon.relays.\.1")) CUM.

(** The end of [router_readconfig]: without a [listen] statement, the default listeners. *)
Definition default_listener (r : router) (listenport : Z) (proto : con_proto) : option router :=
  a ← router_validate_address (snprintf_trunc 128 (ch ":" :: show_nonneg listenport)) proto;
  match a with
  | inr _ => None   (* the address is used unset *)
  | inl a =>
      x ← router_add_listener r T_LINEMODE W_PLAIN 0 proto (ad_ip a) (ad_port a) (default [] (ad_saddr a));
      Some (match x with inl r => r | inr _ => r end)
  end.
Definition default_listeners (r : router) (listenport : Z) : option router :=
  if bool_decide (r_listeners r = []) then
    r ← default_listener r listenport CON_TCP;
    r ← default_listener r listenport CON_UDP;
    x ← router_add_listener r T_LINEMODE W_PLAIN 0 CON_UNIX
          (Some (snprintf_trunc 128 (lit "/tmp/.s.carbon-c-relay." ++ show_nonneg listenport))) 0 [];
    Some (match x with inl r => r | inr _ => r end)
  else Some r.

(** ** Reference counts *)

(** How often [i] occurs. *)
Definition occ (i : nat) (l : list nat) : Z := Z.of_nat (length (filter (fun j => j = i) l)).

(** Every server in use is listed once, with the number of its uses. *)
Record counted (w : world Q) (srvrs : list (nat * Z)) (refs : list nat) : Prop := mkCounted {
  cnt_nodup : NoDup srvrs.*1;
  cnt_listed : forall i, i ∈ refs -> i ∈ srvrs.*1;
  cnt_exact : Forall (fun x => x.2 = occ x.1 refs) srvrs;
  cnt_exists : Forall (fun x => x.1 < length (servers w))%nat srvrs;
}.

Lemma occ_app i l k : occ i (l ++ k) = occ i l + occ i k.
Proof. unfold occ. rewrite filter_app, length_app. lia. Qed.
Lemma occ_one i j : occ i [j] = if decide (j = i) then 1 else 0.
Proof. unfold occ. by case_decide; [rewrite filter_cons_True|rewrite filter_cons_False]. Qed.
Lemma occ_absent i l : i ∉ l -> occ i l = 0.
Proof. intros Hi. unfold occ. rewrite filter_none; [done|]. intros x Hx ->. done. Qed.

Lemma counted_more w w' srvrs refs : counted w srvrs refs -> (length (servers w) <= length (servers w'))%nat -> counted w' srvrs refs.
Proof. intros [? ? ? He] Hl. split; try done. eapply Forall_impl; [exact He|]. cbn. lia. Qed.

(** One more use of a listed server. *)
Lemma counted_again w srvrs refs k i n :
  counted w srvrs refs -> srvrs !! k = Some (i, n) -> counted w (<[k := (i, n + 1)]> srvrs) (refs ++ [i]).
Proof.
  intros [Hn Hl He Hx] Hk. pose proof (lookup_lt_Some _ _ _ Hk) as Hlt.
  assert ((<[k := (i, n + 1)]> srvrs).*1 = srvrs.*1) as Efst.
  { rewrite list_fmap_insert. cbn. apply list_insert_id. by rewrite list_lookup_fmap, Hk. }
  split; rewrite ?Efst; try done.
  - intros j [Hj|Hj%list_elem_of_singleton]%elem_of_app; [auto|]. subst j.
    apply list_elem_of_lookup. exists k. by rewrite list_lookup_fmap, Hk.
  - apply Forall_lookup. intros m [j q] Hm. cbn. rewrite occ_app, occ_one.
    destruct (decide (m = k)) as [->|Hne].
    + rewrite list_lookup_insert_eq in Hm by done. injection Hm as <- <-. rewrite decide_True by done.
      pose proof (Forall_lookup_1 _ _ _ _ He Hk) as E. cbn in E. lia.
    + rewrite list_lookup_insert_ne in Hm by done. pose proof (Forall_lookup_1 _ _ _ _ He Hm) as E. cbn in E.
      rewrite decide_False; [lia|]. intros <-. apply Hne.
      eapply (NoDup_lookup srvrs.*1); [done| |]; rewrite list_lookup_fmap; [rewrite Hm|rewrite Hk]; done.
  - apply Forall_insert; [done|]. cbn. exact (Forall_lookup_1 _ _ _ _ Hx Hk).
Qed.

(** The first use of a new server. *)
Lemma counted_new w w' srvrs refs :
  counted w srvrs refs -> length (servers w') = S (length (servers w)) ->
  counted w' (srvrs ++ [(length (servers w), 1)]) (refs ++ [length (servers w)]).
Proof.
  intros [Hn Hl He Hx] Hlen.
  assert (length (servers w) ∉ srvrs.*1) as Hfresh.
  { intros ([j n] & Ej & Hj)%list_elem_of_fmap. rewrite Forall_forall in Hx. specialize (Hx _ Hj). cbn in *. lia. }
  split.
  - rewrite fmap_app. apply NoDup_app. split_and!; [done| |apply NoDup_singleton].
    intros x Hi ->%list_elem_of_singleton. done.
  - intros i. rewrite fmap_app, !elem_of_app. intros [?|?]; [left; auto|by right].
  - apply Forall_app. split.
    + apply Forall_forall. intros [j n] Hj. rewrite Forall_forall in He, Hx. specialize (He _ Hj). specialize (Hx _ Hj).
      cbn in *. rewrite occ_app, occ_one, decide_False by lia. lia.
    + apply Forall_singleton. cbn. rewrite occ_app, occ_one, decide_True by done. rewrite occ_absent; [done|]. auto.
  - apply Forall_app. split; [eapply Forall_impl; [exact Hx|]; cbn; lia|]. apply Forall_singleton. cbn. lia.
Qed.

(** What adding servers to a cluster under construction changes. *)
Definition same_kind (ms ms' : members) : Prop :=
  match ms, ms' with
  | M_forward _, M_forward _ => True
  | M_ch p _ _, M_ch p' _ _ => p = p'
  | M_anyof _ _ _, M_anyof _ _ _ => True
  | _, _ => False
  end.

(** The members of a cluster under construction fit its type. *)
Definition typed (cl : ccluster) : Prop :=
  match cl_members cl with
  | M_forward _ => cl_type cl ∈ [Clusttype.FORWARD; Clusttype.FILELOG; Clusttype.FILELOGIP]
  | M_ch _ ring _ => is_Some ring /\ ch_type_of (cl_type cl) = r_type <$> ring
  | M_anyof count _ l => cl_type cl ∈ [Clusttype.ANYOF; Clusttype.FAILOVER; Clusttype.LB] /\ count = u16 (Z.of_nat (length l))
  | _ => False
  end.

Record grown (w : world Q) (r : router) (cl : ccluster) (w' : world Q) (r' : router) (cl' : ccluster) : Prop := mkGrown {
  gr_router : r' = set_srvrs r (r_srvrs r');
  gr_cluster : cl_name cl' = cl_name cl /\ cl_type cl' = cl_type cl /\ same_kind (cl_members cl) (cl_members cl');
  gr_typed : typed cl -> typed cl';
  gr_servers : exists new, cluster_servers cl' = cluster_servers cl ++ new /\
    forall refs, counted w (r_srvrs r) refs -> counted w' (r_srvrs r') (refs ++ new);
}.

Lemma grown_trans w r cl w1 r1 cl1 w2 r2 cl2 :
  grown w r cl w1 r1 cl1 -> grown w1 r1 cl1 w2 r2 cl2 -> grown w r cl w2 r2 cl2.
Proof.
  intros [Er (En & Et & Ek) Hty (new & Es & Hc)] [Er' (En' & Et' & Ek') Hty' (new' & Es' & Hc')]. split; [| |by auto|].
  - rewrite Er' at 1. rewrite Er. done.
  - split_and!; [congruence..|]. destruct (cl_members cl), (cl_members cl1), (cl_members cl2); cbn in *; try done; congruence.
  - exists (new ++ new'). split; [by rewrite Es', Es, (assoc_L app)|]. intros refs Hr. rewrite (assoc_L app). auto.
Qed.

Lemma find_server_lookup (w : world Q) srvrs k saddr ip h n k' :
  find_server w srvrs k saddr ip h n = Some (Some k') -> exists x, (k <= k')%nat /\ srvrs !! (k' - k)%nat = Some x.
Proof.
  revert k. induction srvrs as [|[i c] srvrs IH]; intros k; cbn [find_server]; [done|].
  destruct (servers w !! i) as [s|]; run_binds; [|done]. destruct (_ =? 0).
  - intros [= <-]. exists (i, c). by rewrite Nat.sub_diag.
  - intros (x & Hk & Hx)%IH. exists x. split; [lia|]. by replace (k' - k)%nat with (S (k' - (k + 1))) by lia.
Qed.

Lemma add_member_servers (w : world Q) cl i n cl' :
  same_kind (cl_members cl) (cl_members cl) -> add_member w cl i n = Some (inl cl') ->
  cl_name cl' = cl_name cl /\ cl_type cl' = cl_type cl /\ same_kind (cl_members cl) (cl_members cl') /\
  cluster_servers cl' = cluster_servers cl ++ [i] /\ (typed cl -> typed cl').
Proof.
  unfold add_member, cluster_servers, typed. intros Hk. destruct (cl_members cl) as [l|repl ring l|count arr l| | | |]; try done.
  - by intros [= <-].
  - destruct (ch_addnode ring i) as [[ring'|]|] eqn:Er; run_binds; try done. intros [= <-]. cbn. split_and!; try done.
    intros [_ ->]. split; [done|]. unfold ch_addnode in Er. destruct ring as [ring|]; [|done]. destruct (_ <? _); [done|].
    by injection Er as <-.
  - destruct (1 <? n); [done|]. intros [= <-]. cbn. split_and!; try done. intros [? ->]. split; [done|].
    unfold u16. rewrite length_app, Zplus_mod_idemp_l. cbn [length]. f_equal. lia.
Qed.

Lemma add_one_grown w r cl h ip hint walk w' r' cl' :
  same_kind (cl_members cl) (cl_members cl) ->
  add_one queue_of qts qte w r cl h ip hint walk = Some (inl (w', r', cl')) -> grown w r cl w' r' cl'.
Proof.
  intros Hk. unfold add_one. destruct (find_server _ _ _ _ _ _ _) as [found|] eqn:Ef; run_binds; [|done].
  set (new := match found with Some _ => _ | None => _ end).
  assert (forall w1 r1 i n, new = Some (w1, r1, i, n) ->
    r1 = set_srvrs r (r_srvrs r1) /\ (forall refs, counted w (r_srvrs r) refs -> counted w1 (r_srvrs r1) (refs ++ [i]))) as Hnew.
  { unfold new. intros w1 r1 i n. destruct found as [k|].
    - destruct (find_server_lookup _ _ _ _ _ _ _ _ Ef) as ([j c] & _ & Hj). rewrite Nat.sub_0_r in Hj. rewrite Hj. run_binds.
      intros [= <- <- <- <-]. split; [done|]. intros refs Hr. by apply counted_again.
    - destruct (server_new _ _ _ _ _ _ _ _ _ _ _ _ _ _ _ _ _ _ _) as [w2 i2] eqn:Es. intros [= <- <- <- <-]. split; [done|].
      unfold server_new in Es. intros refs Hr.
      assert (i2 = length (servers w) /\ length (servers w2) = S (length (servers w))) as [-> Hl].
      { destruct (cl_queue cl); injection Es as <- <-; cbn; rewrite length_app; cbn; split; lia. }
      by apply counted_new. }
  clearbody new. destruct new as [[[[w1 r1] i] n]|]; run_binds; [|done]. destruct (Hnew _ _ _ _ eq_refl) as [Er Hc].
  destruct (servers w1 !! i) as [s|]; run_binds; [|done]. destruct (if 1 <? n then _ else _); [done|].
  set (w2 := match h_inst h with Some _ => _ | None => _ end).
  assert (length (servers w2) = length (servers w1)) as Hl.
  { unfold w2. destruct (h_inst h); [|done]. unfold server_set_instance, update. cbn. by rewrite length_alter. }
  clearbody w2. destruct (add_member w2 cl i n) as [[cl2|]|] eqn:Em; run_binds; try done. intros [= <- <- <-].
  destruct (add_member_servers _ _ _ _ _ Hk Em) as (En & Et & Ek & Es & Hty). split; [done..|].
  exists [i]. split; [done|]. intros refs Hr. eapply counted_more; [by apply Hc|lia].
Qed.

Lemma grown_kind w r cl w' r' cl' : grown w r cl w' r' cl' -> same_kind (cl_members cl') (cl_members cl').
Proof. intros [_ (_ & _ & Hk) _ _]. by destruct (cl_members cl), (cl_members cl'). Qed.
Lemma grown_refl w r cl : same_kind (cl_members cl) (cl_members cl) -> grown w r cl w r cl.
Proof.
  intros Hk. split; [by destruct r|done|done|]. exists []. rewrite app_nil_r. split; [done|]. intros refs. by rewrite app_nil_r.
Qed.

Lemma add_all_grown saddrs w r cl h ip in_buf w' r' cl' :
  same_kind (cl_members cl) (cl_members cl) ->
  add_all queue_of qts qte w r cl h saddrs ip in_buf = Some (inl (w', r', cl')) -> grown w r cl w' r' cl'.
Proof.
  revert w r cl ip in_buf. induction saddrs as [|a saddrs IH]; intros w r cl ip in_buf Hk; cbn [add_all].
  { intros [= <- <- <-]. by apply grown_refl. }
  destruct (add_one _ _ _ _ _ _ _ _ _ _) as [[[[w1 r1] cl1]|]|] eqn:E; run_binds; try done.
  apply add_one_grown in E; [|done]. intros Ha. eapply grown_trans; [exact E|]. eapply IH; [|exact Ha]. by eapply grown_kind.
Qed.

Lemma router_add_server_grown w r h useall cl w' r' cl' :
  same_kind (cl_members cl) (cl_members cl) ->
  router_add_server queue_of qts qte w r h useall cl = Some (inl (w', r', cl')) -> grown w r cl w' r' cl'.
Proof.
  intros Hk. unfold router_add_server.
  destruct (if _ && _ then _ else _) as [w0 cl0] eqn:E0.
  assert (servers w0 = servers w /\ grown w r cl w0 r cl0) as [_ Hg].
  { destruct (_ && _); injection E0 as <- <-; [|by split; [|apply grown_refl]].
    split; [done|]. split; [by destruct r|done|done|]. exists []. rewrite app_nil_r. split; [done|].
    intros refs Hr. rewrite app_nil_r. by eapply counted_more. }
  intros Ha. eapply grown_trans; [exact Hg|]. apply grown_kind in Hg. destruct useall.
  - case_bool_decide; [done|]. by eapply add_all_grown.
  - by eapply add_one_grown.
Qed.

Lemma add_hosts_grown hosts w r cl useall w' r' cl' :
  same_kind (cl_members cl) (cl_members cl) ->
  add_hosts w r cl useall hosts = Some (inl (w', r', cl')) -> grown w r cl w' r' cl'.
Proof.
  revert w r cl. induction hosts as [|h hosts IH]; intros w r cl Hk; cbn [add_hosts].
  { intros [= <- <- <-]. by apply grown_refl. }
  destruct (router_add_server _ _ _ _ _ _ _ _) as [[[[w1 r1] cl1]|]|] eqn:E; run_binds; try done.
  apply router_add_server_grown in E; [|done]. intros Ha. eapply grown_trans; [exact E|]. eapply IH; [|exact Ha]. by eapply grown_kind.
Qed.

(** Without a ring (more than 64 servers) no server can be added. *)
Lemma add_one_no_ring w r cl h ip hint walk repl l x :
  cl_members cl = M_ch repl None l -> add_one queue_of qts qte w r cl h ip hint walk <> Some (inl x).
Proof.
  intros Em. unfold add_one. destruct (find_server _ _ _ _ _ _ _) as [found|]; run_binds; [|done].
  destruct (match found with Some _ => _ | None => _ end) as [[[[w1 r1] i] n]|]; run_binds; [|done].
  destruct (servers w1 !! i) as [s|]; run_binds; [|done]. destruct (if 1 <? n then _ else _); [done|].
  unfold add_member. rewrite Em. cbn. by run_binds.
Qed.
Lemma add_hosts_no_ring w r cl useall h hosts repl l x :
  cl_members cl = M_ch repl None l -> add_hosts w r cl useall (h :: hosts) <> Some (inl x).
Proof.
  intros Em. cbn [add_hosts]. unfold router_add_server. destruct (if _ && _ then _ else _) as [w0 cl0] eqn:E0.
  assert (cl_members cl0 = M_ch repl None l) as Em0 by (by destruct (_ && _); injection E0 as <- <-).
  clear E0. destruct useall.
  - case_bool_decide as Hs; run_binds; [done|]. destruct (h_saddrs h) as [|a saddrs]; [done|]. cbn [add_all].
    destruct (add_one _ _ _ _ _ _ _ _ _ _) as [[y|]|] eqn:E; run_binds; try done. by eapply add_one_no_ring in E.
  - destruct (add_one _ _ _ _ _ _ _ _ _ _) as [[y|]|] eqn:E; run_binds; try done. by eapply add_one_no_ring in E.
Qed.

(** ** The invariant of a configuration *)

(** The members of a cluster fit its type: the code reads the union at the member that was
    written.  [any_of], [failover] and [lb] clusters have servers, all of them in the array. *)
Definition cluster_ok (cl : ccluster) : Prop :=
  match cl_type cl, cl_members cl with
  | Clusttype.BLACKHOLE, M_forward l => l = []
  | (Clusttype.FORWARD | Clusttype.FILELOG | Clusttype.FILELOGIP), M_forward _ => True
  | (Clusttype.CARBON_CH | Clusttype.FNV1A_CH | Clusttype.JUMP_CH), M_ch _ (Some ring) _ => ch_type_of (cl_type cl) = Some (r_type ring)
  | (Clusttype.ANYOF | Clusttype.FAILOVER | Clusttype.LB), M_anyof count arr l => arr = l /\ l <> [] /\ count = Z.of_nat (length l)
  | (Clusttype.AGGRSTUB | Clusttype.STATSTUB), M_routes rs => rs <> []
  | Clusttype.AGGREGATION, M_aggregation _ => True
  | _, _ => False
  end.
(** What [router_add_cluster] is given: the array is not there yet. *)
Definition addable (cl : ccluster) : Prop :=
  match cl_members cl with M_anyof _ _ _ => typed cl | _ => cluster_ok cl end.

Lemma typed_addable cl : typed cl -> addable cl.
Proof.
  unfold typed, addable, cluster_ok, typed. destruct (cl_members cl) as [l|repl ring l|count arr l| | | |]; try done.
  - rewrite !elem_of_cons, elem_of_nil. by intros [->|[->|[->|[]]]].
  - intros [[r ->] Ht]. by destruct (cl_type cl).
Qed.

(** The rings of a router can be searched ([Router.ring_wf]). *)
Definition rings_ok (r : router) : Prop :=
  Forall (fun cl => match cl_members cl with
                    | M_ch repl (Some ring) _ => ring_wf repl ring
                    | _ => True
                    end) (r_clusters r).

(** No listener can be added twice: with the same protocol, sockets have different paths and the
    others have different ports or no addresses in common. *)
Definition apart (a b : rlistener) : Prop :=
  rl_ctype a = rl_ctype b ->
  if bool_decide (rl_saddrs b = []) then rl_ip a <> rl_ip b
  else rl_port a <> rl_port b \/ forall x y, x ∈ rl_saddrs a -> y ∈ rl_saddrs b -> overlap y x = false.
Definition listeners_apart (ls : list rlistener) : Prop :=
  forall i j a b, (i < j)%nat -> ls !! i = Some a -> ls !! j = Some b -> apart a b.

Lemma clash_any_apart ls ctype ip port saddrs type trnsp pem a :
  clash_any ls ctype ip port saddrs = Some false -> a ∈ ls -> apart a (mkRl type trnsp ctype ip port pem saddrs).
Proof.
  intros Hc Ha. induction ls as [|l ls IH]; cbn [clash_any] in Hc; [by apply elem_of_nil in Ha|].
  destruct (listener_clash l _ _ _ _) as [[|]|] eqn:E; cbn [mbind option_bind] in Hc; try done.
  apply elem_of_cons in Ha as [->|Ha]; [clear IH Hc|by apply IH]. intros Ht. cbn in *. revert E. unfold listener_clash. case_bool_decide as Hs.
  - rewrite bool_decide_true by done. destruct (rl_ip l) as [x|], ip as [y|]; try done.
    intros [= Hx%Z.eqb_neq] [= ->]. by rewrite strcmp_refl in Hx.
  - rewrite bool_decide_true by done. cbn [andb]. intros [= Hx]. apply andb_false_iff in Hx as [Hx|Hx]; [left; by apply Z.eqb_neq|right].
    intros x y Hin%list_elem_of_In Hin'%list_elem_of_In. apply not_true_is_false. intros Ho.
    rewrite <- not_true_iff_false in Hx. apply Hx. apply existsb_exists. exists y. split; [done|]. apply existsb_exists. eauto.
Qed.
Lemma listeners_apart_snoc ls l : listeners_apart ls -> (forall a, a ∈ ls -> apart a l) -> listeners_apart (ls ++ [l]).
Proof.
  intros Hls Hl i j a b Hij Hi Hj. apply lookup_app_Some in Hj as [Hj|[Hge Hj]].
  - rewrite lookup_app_l in Hi by (apply lookup_lt_Some in Hj; lia). by eapply Hls.
  - apply list_lookup_singleton_Some in Hj as [Hz <-]. rewrite lookup_app_l in Hi by lia.
    by eapply Hl, list_elem_of_lookup_2.
Qed.

(** Names are unique, destinations and routes as routing needs them. *)
Record config_shape (r : router) : Prop := mkShape {
  ci_names : forall i j a b, (i < j)%nat -> r_clusters r !! i = Some a -> r_clusters r !! j = Some b ->
    same_name (cl_name a) (cl_name b) = false;
  ci_clusters : Forall cluster_ok (r_clusters r);
  ci_routes : rings_ok r -> Forall route_wf (r_routes r);
  ci_listeners : listeners_apart (r_listeners r);
}.
Record config_inv (w : world Q) (r : router) : Prop := mkConfInv {
  ci_counted : counted w (r_srvrs r) (concat (cluster_servers <$> r_clusters r));
  ci_shape : config_shape r;
}.

Lemma rings_ok_app r cls : rings_ok (set_clusters r (r_clusters r ++ cls)) -> rings_ok r.
Proof. unfold rings_ok. cbn. by intros [? _]%Forall_app. Qed.

(** A step that leaves the clusters and servers alone. *)
Lemma inv_routes w w' r r' :
  config_inv w r -> r_clusters r' = r_clusters r -> r_srvrs r' = r_srvrs r -> (length (servers w) <= length (servers w'))%nat ->
  r_listeners r' = r_listeners r -> (rings_ok r -> Forall route_wf (r_routes r) -> Forall route_wf (r_routes r')) -> config_inv w' r'.
Proof.
  intros [Hc [Hn Hok Hr Hli]] Ec Es Hl El Hr'. split; [rewrite Ec, Es; by eapply counted_more|].
  split; rewrite ?Ec, ?El; try done.
  intros Hri. assert (rings_ok r) as Hri' by (unfold rings_ok in *; by rewrite <- Ec). auto.
Qed.

(** ** Destinations *)

Lemma as_dest_wf first cl :
  cluster_ok cl -> nameable (cl_type cl) = true ->
  match cl_members cl with M_ch repl (Some ring) _ => ring_wf repl ring | _ => True end -> dest_wf first (as_dest cl).
Proof.
  unfold cluster_ok, as_dest. intros Hok Hn Hr.
  destruct (cl_type cl), (cl_members cl) as [l|repl [ring|] l|count arr l| | | |]; try done; cbn; by destruct Hok as (-> & ? & _).
Qed.

Lemma router_validate_cluster_spec r name cl :
  router_validate_cluster r name = Some (inl cl) -> cl ∈ r_clusters r /\ nameable (cl_type cl) = true.
Proof.
  unfold router_validate_cluster. induction (r_clusters r) as [|c cls IH]; [done|].
  destruct (nameable (cl_type c)) eqn:En.
  - destruct (cl_name c) as [n|]; [|done]. destruct (_ =? 0); [intros [= <-]; split; [by left|done]|].
    intros [? ?]%IH. split; [by right|done].
  - intros [? ?]%IH. split; [by right|done].
Qed.

Lemma match_dsts_spec r names cls :
  match_dsts r names = Some (inl cls) ->
  length cls = length names /\ Forall (fun cl => cl ∈ r_clusters r /\ nameable (cl_type cl) = true) cls.
Proof.
  unfold match_dsts. revert cls. induction names as [|n names IH]; intros cls; cbn [parse_all]; [by intros [= <-]|].
  destruct (router_validate_cluster r n) as [[cl|]|] eqn:Ev; run_binds; try done.
  destruct (parse_all (router_validate_cluster r) names) as [[cls'|]|]; run_binds; try done. intros [= <-].
  destruct (IH cls' eq_refl) as [Hl Hf]. split; [cbn; lia|]. apply Forall_cons. split; [by eapply router_validate_cluster_spec|done].
Qed.

(** The destinations of a statement are well formed when the rings are. *)
Lemma dests_wf r cls first :
  config_shape r -> rings_ok r -> Forall (fun cl => cl ∈ r_clusters r /\ nameable (cl_type cl) = true) cls ->
  Forall (dest_wf first) (as_dest <$> cls).
Proof.
  intros Hi Hr Hc. apply Forall_fmap. eapply Forall_impl; [exact Hc|]. intros cl [Hin Hn].
  pose proof (ci_clusters _ Hi) as Hok. unfold rings_ok in Hr. rewrite Forall_forall in Hok, Hr.
  apply as_dest_wf; auto. by apply Hr.
Qed.
Lemma as_dest_sub cl : nameable (cl_type cl) = true -> sub_routes (as_dest cl) = [].
Proof. unfold as_dest. destruct (cl_type cl), (cl_members cl) as [l|repl [ring|] l|count arr l| | | |]; done. Qed.

Lemma add_routes_spec ms r masq stop ds :
  r_clusters (add_routes r ms masq stop ds) = r_clusters r /\ r_srvrs (add_routes r ms masq stop ds) = r_srvrs r /\
  r_listeners (add_routes r ms masq stop ds) = r_listeners r /\
  r_routes (add_routes r ms masq stop ds) = r_routes r ++ ((fun m => mkRoute m masq stop ds) <$> ms).
Proof.
  revert r. induction ms as [|m ms IH]; intros r; cbn; [by rewrite app_nil_r|].
  destruct (IH (router_add_route r (mkRoute m masq stop ds))) as (E1 & E2 & E3 & E4).
  unfold add_routes in *. cbn. split_and!; [done..|]. rewrite E4. cbn. by rewrite <- (assoc_L app).
Qed.

Lemma foldl_servers {X} (f : world Q -> X -> world Q) l w :
  (forall w x, length (servers (f w x)) = length (servers w)) -> length (servers (foldl f w l)) = length (servers w).
Proof. intros Hf. revert w. induction l as [|x l IH]; intros w; cbn; [done|]. by rewrite IH. Qed.
Lemma add_secondaries_servers (w : world Q) l secs : length (servers (add_secondaries w l secs)) = length (servers w).
Proof. apply foldl_servers. intros. unfold server_add_secondaries, update. cbn. apply length_alter. Qed.

(** ** Each statement keeps the invariant *)

Lemma router_add_cluster_inv w r cl w' r' :
  config_shape r -> counted w (r_srvrs r) (concat (cluster_servers <$> r_clusters r) ++ cluster_servers cl) ->
  addable cl -> router_add_cluster w r cl = Some (inl (w', r')) ->
  config_inv w' r' /\ exists cl', r' = set_clusters r (r_clusters r ++ [cl']) /\ cl_type cl' = cl_type cl /\
    (match cl_members cl with M_anyof _ _ _ => True | _ => cl' = cl end).
Proof.
  intros [Hn Hok Hr Hli] Hcnt Hm. unfold router_add_cluster.
  destruct (existsb _ _) eqn:Ex; [done|]. case_bool_decide as Hne; [done|]. intros Ha.
  assert (exists cl', r' = set_clusters r (r_clusters r ++ [cl']) /\ cl_type cl' = cl_type cl /\ cl_name cl' = cl_name cl /\
    cluster_servers cl' = cluster_servers cl /\ cluster_ok cl' /\ length (servers w') = length (servers w) /\
    (match cl_members cl with M_anyof _ _ _ => True | _ => cl' = cl end)) as (cl' & Er & Et & En & Es & Hok' & Hl & Hcl).
  { unfold addable in Hm. destruct (cl_members cl) as [l|repl ring l|count arr l| | | |] eqn:Em.
    3: { case_bool_decide as Hl; [done|]. destruct (Z.ltb_spec count (Z.of_nat (length l))) as [|Hge]; [done|]. injection Ha as <- <-.
         eexists. split; [done|]. cbn. unfold cluster_servers. rewrite Em. split_and!; try done.
         { unfold typed in Hm. rewrite Em in Hm. destruct Hm as [Ht Hc]. pose proof (Z.mod_le (Z.of_nat (length l)) (2 ^ 16)).
           unfold cluster_ok, u16 in *. cbn. rewrite !elem_of_cons, elem_of_nil in Ht.
           destruct Ht as [->|[->|[->|[]]]]; split_and!; try done; lia. }
         rewrite add_secondaries_servers. case_bool_decide; [|done]. apply foldl_servers. intros. apply length_alter. }
    2: { destruct (_ <? _)%nat; [done|]. injection Ha as <- <-. exists cl. split_and!; try done.
         destruct (cl_isdynamic cl); [apply add_secondaries_servers|done]. }
    all: by injection Ha as <- <-; exists cl. }
  split; [|by exists cl']. subst r'. split; [|split]; cbn.
  - rewrite fmap_app, concat_app. cbn. rewrite app_nil_r, Es. eapply counted_more; [exact Hcnt|lia].
  - intros i j a b Hij Hi Hj. apply lookup_app_Some in Hj as [Hj|[Hge Hj]].
    + rewrite lookup_app_l in Hi by (apply lookup_lt_Some in Hj; lia). by eapply Hn.
    + apply list_lookup_singleton_Some in Hj as [Hz <-].
      rewrite lookup_app_l in Hi by lia. rewrite En. apply not_true_is_false. intros Hs.
      apply list_elem_of_lookup_2, list_elem_of_In in Hi.
      assert (existsb (fun cw => same_name (cl_name cw) (cl_name cl)) (r_clusters r) = true) as Hy; [|congruence].
      apply existsb_exists. eauto.
  - apply Forall_app. split; [done|by apply Forall_singleton].
  - intros Hri. apply Hr. by eapply rings_ok_app.
  - done.
Qed.

(** The initial members fit the type, unless the cluster cannot get any servers. *)
Lemma initial_typed paths w0 r cl useall type repl hosts ms x :
  initial_members paths type repl (length hosts) = inl ms -> cl_members cl = ms -> cl_type cl = type ->
  add_hosts w0 r cl useall hosts = Some (inl x) -> typed cl.
Proof.
  unfold initial_members, typed. intros Em Ecl Ect Ha. rewrite Ecl, Ect.
  destruct paths; [destruct type; try done; injection Em as <-; rewrite !elem_of_cons; auto|].
  destruct (ch_type_of type) as [t|] eqn:Et.
  - destruct (_ || _); [done|]. injection Em as <-. destruct (ch_new _ _ _ _) as [ring|] eqn:Er.
    + split; [done|]. unfold ch_new in Er. destruct (_ <? _); [done|].
      cbn in Er. injection Er as <-. done.
    + destruct hosts as [|h hosts]; [done|].
      destruct (add_hosts_no_ring _ _ _ _ _ _ _ _ _ Ecl Ha).
  - destruct type; try done; injection Em as <-; try (split; [|done]); rewrite !elem_of_cons; auto.
Qed.

Lemma config_cluster_inv paths w r name type useall dyn repl connections ttl ts te hosts w' r' :
  config_inv w r -> config_cluster paths w r name type useall dyn repl connections ttl ts te hosts = Some (inl (w', r')) -> config_inv w' r'.
Proof.
  intros Hi. unfold config_cluster. destruct (cluster_ival_overflows _ _ _); [done|]. destruct (cluster_set_threshold ts te) as [[ts' te']|]; [|done].
  destruct (initial_members paths type repl (length hosts)) as [ms|] eqn:Em; [|done].
  assert (same_kind ms ms /\ (match ms with M_forward l | M_ch _ _ l | M_anyof _ _ l => l = [] | _ => False end)) as [Hk Hms].
  { unfold initial_members in Em. destruct paths; [destruct type; by simplify_eq|].
    destruct (ch_type_of type); [destruct (_ || _); by simplify_eq|].
    destruct type; by simplify_eq. }
  destruct (cluster_new _ _ _ _ _ _ _ _ _ _) as [w0 cl] eqn:Ec.
  assert (servers w0 = servers w /\ cl_members cl = ms /\ cl_type cl = type) as (Ew & Ecl & Ect).
  { unfold cluster_new in Ec. destruct (_ || _); by injection Ec as <- <-. }
  destruct (add_hosts w0 r cl useall hosts) as [[[[w1 r1] cl1]|]|] eqn:Ea; run_binds; try done. intros Hadd.
  assert (typed cl) as Hty by (by eapply initial_typed).
  apply add_hosts_grown in Ea; [|by rewrite Ecl]. destruct Ea as [Er _ Hty1 (new & Es & Hc)].
  assert (cluster_servers cl = []) as E0 by (unfold cluster_servers; rewrite Ecl; by destruct ms).
  assert (r_clusters r1 = r_clusters r /\ r_routes r1 = r_routes r /\ r_listeners r1 = r_listeners r) as (Erc & Err & Erl) by (by rewrite Er).
  pose proof (ci_counted _ _ Hi) as Hcnt. apply (counted_more w w0) in Hcnt; [|by rewrite Ew]. apply Hc in Hcnt.
  rewrite E0 in Es. cbn in Es. rewrite <- Es, <- Erc in Hcnt.
  eapply router_add_cluster_inv; [|exact Hcnt| |exact Hadd].
  - destruct (ci_shape _ _ Hi) as [Hn Hok Hr Hli]. split; rewrite ?Erc, ?Err, ?Erl; try done.
    intros Hri. apply Hr. unfold rings_ok in *. by rewrite <- Erc.
  - auto using typed_addable.
Qed.

Lemma config_match_inv w r exprs val masq dsts stop w' r' :
  config_inv w r -> val <> None \/ dsts <> [] -> config_match w r exprs val masq dsts stop = Some (inl (w', r')) -> config_inv w' r'.
Proof.
  intros Hi Hne. unfold config_match. destruct (match_exprs _ exprs) as [ms|]; [|done].
  set (vals := match val with Some _ => _ | None => _ end).
  assert (forall vs, vals = inl vs -> match vs with [] => val = None | v :: vs' => vs' = [] /\ exists m a, v = VALIDATION m a end) as Hv.
  { unfold vals. destruct val as [[e d]|]; intros vs; [|by intros [= <-]].
    destruct (router_validate_expression _ e); [|done]. intros [= <-]. eauto. }
  clearbody vals. destruct vals as [vs|]; [|done]. specialize (Hv vs eq_refl).
  destruct (match_dsts r dsts) as [[cls|]|] eqn:Em; run_binds; try done. destruct (match_dsts_spec _ _ _ Em) as [Hl Hcls].
  intros [= <- <-]. set (stop' := match cls with [] => _ | _ => _ end). clearbody stop'.
  destruct (add_routes_spec ms r masq stop' (vs ++ (as_dest <$> cls))) as (E1 & E2 & El & E3).
  eapply inv_routes; [exact Hi|done..|]. intros Hri Hold. rewrite E3. apply Forall_app. split; [done|].
  apply Forall_fmap, Forall_true. intros m. cbn.
  destruct vs as [|v vs].
  - destruct cls as [|c cls]; [cbn in Hl; destruct dsts; naive_solver|]. cbn [app fmap list_fmap].
    apply route_wf_intro; [by eapply (dests_wf r (c :: cls)); [apply Hi|..]|].
    apply Forall_cons in Hcls as [[_ Hn] _]. by rewrite as_dest_sub.
  - destruct Hv as (-> & mv & a & ->). cbn [app]. apply route_wf_intro; [|apply Forall_nil_2].
    apply Forall_cons. split; [done|]. by eapply dests_wf; [apply Hi|..].
Qed.

Lemma config_rewrite_inv w r expr replacement w' r' :
  config_inv w r -> config_rewrite w r expr replacement = Some (inl (w', r')) -> config_inv w' r'.
Proof.
  intros Hi. unfold config_rewrite. destruct (router_validate_expression _ _) as [m|]; [|done]. intros [= <- <-].
  eapply inv_routes; [exact Hi|done..|]. intros _ Hold. cbn. apply Forall_app. split; [done|].
  apply Forall_singleton, route_wf_intro; [by apply Forall_singleton|apply Forall_nil_2].
Qed.

(** A stub's catch-all route and the route to it. *)
Lemma stubroute_inv w r type ptr cls w' r' stub :
  config_inv w r -> cls <> [] -> Forall (fun cl => cl ∈ r_clusters r /\ nameable (cl_type cl) = true) cls ->
  router_add_stubroute w r type ptr (as_dest <$> cls) = Some (inl (w', r', stub)) -> config_inv w' r'.
Proof.
  intros Hi Hne Hcls. unfold router_add_stubroute.
  destruct (router_add_cluster _ _ _) as [[[w1 r1]|]|] eqn:Ea; run_binds; try done.
  set (catch := mkRoute _ None true (as_dest <$> cls)) in *.
  set (cl := mkCl None type _ _ _ _ _ None (M_routes [catch])) in *. intros Hs.
  assert (type = Clusttype.AGGRSTUB \/ type = Clusttype.STATSTUB) as Ht by (destruct type; try done; auto).
  destruct (router_add_cluster_inv w r cl w1 r1 (ci_shape _ _ Hi)) as (Hi1 & cl' & Er & _ & ->); [|by destruct Ht as [->| ->]|done|].
  { cbn. rewrite app_nil_r. apply Hi. }
  assert (w' = w1 /\ r_clusters r' = r_clusters r1 /\ r_srvrs r' = r_srvrs r1 /\
    r_listeners r' = r_listeners r1 /\ exists m, r_routes r' = mkRoute m None true [as_dest cl] :: r_routes r1) as (-> & E1 & E2 & El & m & E3).
  { destruct Ht as [->| ->]; injection Hs as <- <- _; by split_and!; [..|eexists]. }
  eapply inv_routes; [exact Hi1|done..|]. intros Hri Hold. rewrite E3. apply Forall_cons. split; [|done].
  assert (rings_ok r) as Hr0 by (subst r1; by eapply rings_ok_app).
  assert (Forall route_wf [catch]) as Hcatch.
  { apply Forall_singleton. unfold catch. destruct cls as [|c cls]; [done|]. cbn [fmap list_fmap].
    apply route_wf_intro; [by eapply (dests_wf r (c :: cls)); [apply Hi|..]|].
    apply Forall_cons in Hcls as [[_ Hn] _]. by rewrite as_dest_sub. }
  apply route_wf_intro; destruct Ht as [->| ->]; try (by apply Forall_singleton); exact Hcatch.
Qed.

Lemma set_destinations_inv w r cls w' r' :
  config_inv w r -> cls <> [] -> Forall (fun cl => cl ∈ r_clusters r /\ nameable (cl_type cl) = true) cls ->
  set_destinations w r cls = Some (inl (w', r')) -> config_inv w' r'.
Proof.
  intros Hi Hne Hcls. unfold set_destinations, router_set_statistics. case_bool_decide; run_binds; [|done].
  destruct (router_add_stubroute _ _ _ _ _) as [[[[w1 r1] stub]|]|] eqn:Ea; run_binds; try done. intros [= <- <-].
  by eapply stubroute_inv.
Qed.

Lemma collectorvals_inv w r intv prefix mode r' :
  config_inv w r -> router_set_collectorvals hostname hostmatch r intv prefix mode = inl r' ->
  config_inv w r' /\ r_clusters r' = r_clusters r.
Proof.
  intros Hi. unfold router_set_collectorvals.
  assert (forall s i p m, config_inv w (set_collector r s i p m) /\ r_clusters (set_collector r s i p m) = r_clusters r) as Hc.
  { intros. split; [|done]. by eapply inv_routes. }
  destruct prefix as [p|]; [|intros [= <-]; apply Hc]. destruct hostmatch as [pm|]; [|done].
  destruct (router_rewrite_metric _ _ _ _ _) as [[cp fs]|]; [|done]. intros [= <-]. apply Hc.
Qed.

Lemma config_statistics_inv w r intv mode prefix dsts w' r' :
  config_inv w r -> config_statistics w r intv mode prefix dsts = Some (inl (w', r')) -> config_inv w' r'.
Proof.
  intros Hi. unfold config_statistics. destruct (match intv with Some _ => _ | None => _ end); [done|].
  destruct (match_dsts r dsts) as [[cls|]|] eqn:Em; run_binds; try done. destruct (match_dsts_spec _ _ _ Em) as [Hl Hcls].
  destruct (router_set_collectorvals _ _ _ _ _ _) as [r1|] eqn:Ec; [|done].
  destruct (collectorvals_inv _ _ _ _ _ _ Hi Ec) as [Hi1 E1]. case_bool_decide as Hd; [by intros [= <- <-]|].
  intros Hs. eapply set_destinations_inv; [exact Hi1| | |exact Hs]; [|by rewrite E1].
  intros ->. by destruct dsts.
Qed.

Lemma config_send_inv w r dsts w' r' :
  config_inv w r -> dsts <> [] -> config_send w r dsts = Some (inl (w', r')) -> config_inv w' r'.
Proof.
  intros Hi Hne. unfold config_send. destruct (match_dsts r dsts) as [[cls|]|] eqn:Em; run_binds; try done.
  destruct (match_dsts_spec _ _ _ Em) as [Hl Hcls]. apply set_destinations_inv; try done. intros ->. by destruct dsts.
Qed.

Lemma config_aggregate_inv w r exprs intv expire pctls dsts stop w' r' :
  config_inv w r -> config_aggregate w r exprs intv expire pctls dsts stop = Some (inl (w', r')) -> config_inv w' r'.
Proof.
  intros Hi. unfold config_aggregate. destruct (match_exprs _ exprs) as [ms|]; [|done]. destruct (existsb _ _); [done|].
  destruct (match_dsts r dsts) as [[cls|]|] eqn:Em; run_binds; try done. destruct (match_dsts_spec _ _ _ Em) as [Hl Hcls].
  destruct (_ <=? _); [done|]. destruct (_ <=? _); [done|]. destruct (_ <=? _); [done|].
  set (a := length (r_aggregators r)).
  assert (config_inv w (router_add_aggregator r a)) as Hi0 by (by eapply inv_routes).
  destruct (router_add_cluster _ _ _) as [[[w1 r1]|]|] eqn:Ea; run_binds; try done.
  apply router_add_cluster_inv in Ea as (Hi1 & cl' & Er & _ & ->); [|apply Hi0| |done].
  2:
  { cbn. rewrite app_nil_r. apply Hi0. }
  set (r2 := add_routes r1 ms None stop (AGGREGATION a :: (as_dest <$> cls))).
  destruct (add_routes_spec ms r1 None stop (AGGREGATION a :: (as_dest <$> cls))) as (E1 & E2 & El & E3).
  assert (Forall (fun cl => cl ∈ r_clusters r1 /\ nameable (cl_type cl) = true) cls) as Hcls1.
  { subst r1. cbn. eapply Forall_impl; [exact Hcls|]. intros cl [? ?]. rewrite elem_of_app. auto. }
  assert (config_inv w1 r2) as Hi2.
  { eapply inv_routes; [exact Hi1|done..|]. intros Hri Hold. unfold r2. rewrite E3. apply Forall_app. split; [done|].
    apply Forall_fmap, Forall_true. intros m. cbn. apply route_wf_intro; [|apply Forall_nil_2].
    apply Forall_cons. split; [done|]. by eapply dests_wf; [apply Hi1|..]. }
  case_bool_decide as Hd; [by intros [= <- <-]|].
  destruct (router_add_stubroute _ _ _ _ _) as [[[[w3 r3] stub]|]|] eqn:Es; run_binds; try done; intros [= <- <-]; [|done].
  eapply stubroute_inv; [exact Hi2| | |exact Es]; [by intros ->|]. unfold r2. by rewrite E1.
Qed.

Lemma add_listener_inv w r type trnsp pem ctype ip port saddrs r' :
  config_inv w r -> router_add_listener r type trnsp pem ctype ip port saddrs = Some (inl r') -> config_inv w r'.
Proof.
  intros Hi El. unfold router_add_listener in El. destruct (_ && _); [done|]. destruct (clash_any _ _ _ _ _) as [[|]|] eqn:Ec; run_binds; try done.
  injection El as <-. destruct Hi as [Hc [Hn Hok Hr Hli]]. split; [done|]. split; try done.
  apply listeners_apart_snoc; [done|]. intros a Ha. by eapply clash_any_apart.
Qed.
Lemma config_listen_inv w r type trnsp pem rss w' r' :
  config_inv w r -> config_listen w r type trnsp pem rss = Some (inl (w', r')) -> config_inv w' r'.
Proof.
  intros Hi. unfold config_listen. destruct (receptors rss) as [[rcs|]|]; run_binds; try done. destruct (_ && _); [done|].
  destruct (add_listeners r type trnsp pem rcs) as [[r1|]|] eqn:Ea; run_binds; try done. intros [= <- <-].
  revert r Hi Ea. induction rcs as [|rc rcs IH]; intros r Hi; cbn [add_listeners]; [by intros [= <-]|].
  destruct (router_add_listener _ _ _ _ _ _ _ _) as [[r2|]|] eqn:El; run_binds; try done. apply IH. by eapply add_listener_inv.
Qed.
Lemma default_listener_inv w r port proto r' : config_inv w r -> default_listener r port proto = Some r' -> config_inv w r'.
Proof.
  intros Hi. unfold default_listener. destruct (router_validate_address _ _) as [[a|]|]; run_binds; try done.
  destruct (router_add_listener _ _ _ _ _ _ _ _) as [[r2|]|] eqn:El; run_binds; try done; intros [= <-]; [by eapply add_listener_inv|done].
Qed.
Lemma default_listeners_inv w r port r' : config_inv w r -> default_listeners r port = Some r' -> config_inv w r'.
Proof.
  intros Hi. unfold default_listeners. case_bool_decide; [|by intros [= <-]].
  destruct (default_listener r port CON_TCP) as [r1|] eqn:E1; run_binds; [|done]. apply (default_listener_inv w) in E1; [|done].
  destruct (default_listener r1 port CON_UDP) as [r2|] eqn:E2; run_binds; [|done]. apply (default_listener_inv w) in E2; [|done].
  destruct (router_add_listener _ _ _ _ _ _ _ _) as [[r3|]|] eqn:El; run_binds; try done; intros [= <-]; [by eapply add_listener_inv|done].
Qed.

(** What the grammar allows, except for a [match] that neither validates nor sends. *)
Definition stmt_wf (s : stmt) : Prop :=
  match s with
  | S_match _ val _ dsts _ => val <> None \/ dsts <> []
  | S_send dsts => dsts <> []
  | _ => True
  end.

Lemma run_stmt_inv w r s w' r' : config_inv w r -> stmt_wf s -> run_stmt w r s = Some (inl (w', r')) -> config_inv w' r'.
Proof.
  intros Hi Hs. destruct s; cbn [run_stmt stmt_wf] in *.
  - destruct (cluster_hosts hosts) as [[hs|]|]; run_binds; try done. by apply config_cluster_inv.
  - destruct (cluster_paths paths) as [[hs|]|]; run_binds; try done. by apply config_cluster_inv.
  - by apply config_match_inv.
  - by apply config_rewrite_inv.
  - by apply config_aggregate_inv.
  - by apply config_send_inv.
  - by apply config_statistics_inv.
  - by apply config_listen_inv.
Qed.

Lemma run_stmts_inv ss w r w' r' : config_inv w r -> Forall stmt_wf ss -> run_stmts w r ss = Some (inl (w', r')) -> config_inv w' r'.
Proof.
  intros Hi Hss. revert w r Hi. induction Hss as [|s ss Hs Hss IH]; intros w r Hi; cbn [run_stmts]; [by intros [= <- <-]|].
  destruct (run_stmt w r s) as [[[w1 r1]|]|] eqn:E; run_binds; try done. apply IH. by eapply run_stmt_inv.
Qed.

Lemma new_router_inv w conf r : new_router conf = inl r -> config_inv w r.
Proof.
  intros Hn. eapply collectorvals_inv; [|exact Hn]. split; [|split]; cbn.
  - split; cbn; [apply NoDup_nil_2|by intros i ?%elem_of_nil|apply Forall_nil_2..].
  - intros i j a b Hij Hi Hj. apply list_lookup_singleton_Some in Hj as [-> _]. lia.
  - by apply Forall_singleton.
  - intros _. apply Forall_nil_2.
  - done.
Qed.
End Actions.

Lemma inv_routing_total `{Resolver} `{Regex} {Q : Type} `{RouteServer nat} (w : world Q) (r : router) (cx : context) (line : cstring) (fs : nat) :
  config_inv w r -> rings_ok r -> exists st, router_route cx (r_routes r) line fs = Some st.
Proof.
  intros Hi Hri. pose proof (ci_routes _ (ci_shape _ _ Hi) Hri) as Hrs. unfold router_route, router_route_intern.
  destruct (run_call_total cx (r_routes r) 0 fs (mkSt false [] line [])) as [[b st] ->]; [|by exists st].
  eapply Forall_impl; [exact Hrs|]. intros rt Hw off lo st. by apply run_route_total.
Qed.

(** ** Properties *)

(** Routing with any accepted configuration returns: whatever the statements (each [match]
    validating or sending), if the parser accepts them and the rings can be searched, every line is
    routed without a missing destination, server or ring. *)
Theorem configured_routing_total `{Resolver} `{Filesystem} `{Regex} {Q : Type} `{FifoQueue Q (list Z)} (queue_of : nat -> Q)
    `{Qsort (ch_ring_entry nat)} `{RouteServer nat} (qts qte : Z) (aggr_ptr : nat -> cstring) (rtr_ptr hostname : cstring)
    (hostmatch : option (list regmatch)) (conf : rconf) (ss : list stmt) (w w' : world Q) (r r' : router)
    (cx : context) (line : cstring) (fs : nat) :
  new_router hostname hostmatch conf = inl r -> Forall stmt_wf ss ->
  run_stmts queue_of qts qte aggr_ptr rtr_ptr hostname hostmatch w r ss = Some (inl (w', r')) -> rings_ok r' ->
  exists st, router_route cx (r_routes r') line fs = Some st.
Proof.
  intros Hn Hss Hrun Hri. apply (new_router_inv _ _ w) in Hn. pose proof (run_stmts_inv _ _ _ _ _ _ _ _ _ _ _ _ Hn Hss Hrun) as Hi.
  by eapply inv_routing_total.
Qed.

(** C19: In a router built by any accepted configuration every server in use is listed exactly once, with a
    reference count that is the number of its memberships in clusters, and no two clusters have the
    same name. *)
Theorem configured_references_exact `{Resolver} `{Filesystem} `{Regex} {Q : Type} `{FifoQueue Q (list Z)} (queue_of : nat -> Q)
    `{Qsort (ch_ring_entry nat)} (qts qte : Z) (aggr_ptr : nat -> cstring) (rtr_ptr hostname : cstring)
    (hostmatch : option (list regmatch)) (conf : rconf) (ss : list stmt) (w w' : world Q) (r r' : router) :
  new_router hostname hostmatch conf = inl r -> Forall stmt_wf ss ->
  run_stmts queue_of qts qte aggr_ptr rtr_ptr hostname hostmatch w r ss = Some (inl (w', r')) ->
  let refs := concat (cluster_servers <$> r_clusters r') in
  NoDup (r_srvrs r').*1 /\ (forall i, i ∈ refs -> i ∈ (r_srvrs r').*1) /\
  (forall i n, (i, n) ∈ r_srvrs r' -> n = Z.of_nat (length (filter (fun j => j = i) refs)) /\ is_Some (servers w' !! i)) /\
  (forall i j a b, (i < j)%nat -> r_clusters r' !! i = Some a -> r_clusters r' !! j = Some b ->
     same_name (cl_name a) (cl_name b) = false).
Proof.
  intros Hn Hss Hrun refs. apply (new_router_inv _ _ w) in Hn.
  pose proof (run_stmts_inv _ _ _ _ _ _ _ _ _ _ _ _ Hn Hss Hrun) as [[Hnd Hl He Hx] [Hnm _ _]].
  split_and!; [done|done| |done]. intros i n Hin. rewrite Forall_forall in He, Hx. split; [by apply (He _ Hin)|].
  apply lookup_lt_is_Some_2, (Hx _ Hin).
Qed.

(** C21: In a router built by any accepted configuration the members of every cluster are those of its type, as the
    code assumes when it reads the union: hash clusters have a ring of their hash, [any_of], [failover] and [lb]
    clusters have an array of all their servers and its length, stubs have routes; so a cluster
    other than blackhole is never a null destination. *)
Theorem configured_members_typed `{Resolver} `{Filesystem} `{Regex} {Q : Type} `{FifoQueue Q (list Z)} (queue_of : nat -> Q)
    `{Qsort (ch_ring_entry nat)} (qts qte : Z) (aggr_ptr : nat -> cstring) (rtr_ptr hostname : cstring)
    (hostmatch : option (list regmatch)) (conf : rconf) (ss : list stmt) (w w' : world Q) (r r' : router) :
  new_router hostname hostmatch conf = inl r -> Forall stmt_wf ss ->
  run_stmts queue_of qts qte aggr_ptr rtr_ptr hostname hostmatch w r ss = Some (inl (w', r')) ->
  Forall (fun cl => cluster_ok cl /\ (cl_type cl <> Clusttype.BLACKHOLE -> as_dest cl <> BLACKHOLE)) (r_clusters r').
Proof.
  intros Hn Hss Hrun. apply (new_router_inv _ _ w) in Hn.
  pose proof (run_stmts_inv _ _ _ _ _ _ _ _ _ _ _ _ Hn Hss Hrun) as [_ [_ Hok _ _]].
  eapply Forall_impl; [exact Hok|]. intros cl Hcl. split; [done|]. revert Hcl. unfold cluster_ok, as_dest.
  by destruct (cl_type cl), (cl_members cl) as [l|repl [ring|] l|count arr l| | | |].
Qed.

(** No two listeners of a router built by any accepted configuration compete for a socket: those of the same
    protocol have different paths, different ports or no address in common. *)
Theorem configured_listeners_apart `{Resolver} `{Filesystem} `{Regex} {Q : Type} `{FifoQueue Q (list Z)} (queue_of : nat -> Q)
    `{Qsort (ch_ring_entry nat)} (qts qte : Z) (aggr_ptr : nat -> cstring) (rtr_ptr hostname : cstring)
    (hostmatch : option (list regmatch)) (conf : rconf) (ss : list stmt) (w w' : world Q) (r r' : router) :
  new_router hostname hostmatch conf = inl r -> Forall stmt_wf ss ->
  run_stmts queue_of qts qte aggr_ptr rtr_ptr hostname hostmatch w r ss = Some (inl (w', r')) ->
  listeners_apart (r_listeners r').
Proof.
  intros Hn Hss Hrun. apply (new_router_inv _ _ w) in Hn.
  apply (run_stmts_inv _ _ _ _ _ _ _ _ _ _ _ _ Hn Hss Hrun).
Qed.

(** ** A concrete configuration *)

Definition demo_resolver : Resolver := {|
  getaddrinfo host port _ _ := Some [mkAddrinfo AF_INET 1 6 (default [] host) port];
  saddr_ntop a := ai_address a;
|}.
Definition demo_files : Filesystem := {| stat_mode _ := None; open_append _ := None |}.
#[local] Existing Instance demo_resolver.
#[local] Existing Instance demo_files.
#[local] Existing Instance simple_engine.
#[local] Existing Instance isort_qsort.
#[local] Instance no_syslog : RouteServer nat := {| server_is_syslog := fun _ => false |}.

Definition demo_conf : rconf := mkConf 1 10 5 4 600.
Definition demo_host (addr : cstring) : host_spec := mkHs addr None CON_TCP T_LINEMODE W_PLAIN.
Definition demo_config : list stmt :=
  [S_cluster (lit "graphite") Clusttype.FORWARD false false 1 1 0 0 0 [demo_host (lit "10.0.0.1:2003"); demo_host (lit "10.0.0.2")];
   S_cluster (lit "spread") Clusttype.ANYOF false false 1 1 0 0 0 [demo_host (lit "10.0.0.3"); demo_host (lit "10.0.0.4")];
   S_cluster (lit "again") Clusttype.FORWARD false false 1 1 0 0 0 [demo_host (lit "10.0.0.2:2003")];
   S_files (lit "log") true 1 0 0 0 [lit "/var/log/metrics"];
   S_rewrite (lit "^old\.") (lit "new.");
   S_aggregate [lit "^sys\."] 10 30 [] [lit "graphite"] false;
   S_match [lit "cpu$"; lit "*"] None None [lit "spread"; lit "graphite"] true;
   S_statistics (Some 30) SUB None [lit "graphite"];
   S_listen T_LINEMODE W_PLAIN 0 [mkRs (lit "2003") CON_TCP; mkRs (lit "2003") CON_UDP]].

Definition demo_hostmatch : option (list regmatch) := Some [(0, 17); (0, 17); (0, 5)].
Definition demo_start : router :=
  match new_router (lit "relay.example.com") demo_hostmatch demo_conf with
  | inl r => r
  | inr _ => mkRouter [] [] [] [] None 0 [] CUM [] demo_conf
  end.
Definition demo_queue_of (n : nat) : queue (list Z) := mkQueue (replicate n None) n 0 0 0.
Definition demo_end : world (queue (list Z)) * router :=
  match run_stmts demo_queue_of 0 0 (fun _ => lit "0x1") (lit "0x2") (lit "relay.example.com") demo_hostmatch (mkWorld [] [])
          demo_start demo_config with
  | Some (inl x) => x
  | _ => (mkWorld [] [], demo_start)
  end.
Lemma demo_config_wf : Forall stmt_wf demo_config.
Proof. repeat apply Forall_cons_2; try exact I; [by right|apply Forall_nil_2]. Qed.
Lemma no_rings_ok `{Regex} (r : router) :
  forallb (fun cl => match cl_members cl with M_ch _ _ _ => false | _ => true end) (r_clusters r) = true -> rings_ok r.
Proof.
  intros Hr. apply Forall_forall. intros cl Hin%list_elem_of_In. rewrite forallb_forall in Hr. specialize (Hr cl Hin).
  by destruct (cl_members cl).
Qed.
Lemma demo_rings : rings_ok demo_end.2.
Proof. apply no_rings_ok. vm_compute. reflexivity. Qed.
Lemma demo_config_runs :
  run_stmts demo_queue_of 0 0 (fun _ => lit "0x1") (lit "0x2") (lit "relay.example.com") demo_hostmatch (mkWorld [] [])
    demo_start demo_config = Some (inl (demo_end.1, demo_end.2)).
Proof. vm_compute. reflexivity. Qed.

Example demo_end_summary :
  (r_srvrs demo_end.2, length (r_routes demo_end.2), length (r_listeners demo_end.2), r_prefix demo_end.2) =
  ([(0%nat, 1); (1%nat, 2); (2%nat, 1); (3%nat, 1); (4%nat, 1)], 6%nat, 2%nat, lit "carbon.relays.relay_example_com").
Proof. vm_compute. reflexivity. Qed.

Lemma configured_routing_total_witness :
  exists st, router_route demo_cx (r_routes demo_end.2) (lit "sys.cpu 1 2") 7 = Some st.
Proof.
  eapply (configured_routing_total demo_queue_of 0 0 (fun _ => lit "0x1") (lit "0x2") (lit "relay.example.com") demo_hostmatch
    demo_conf demo_config (mkWorld [] []) demo_end.1 demo_start demo_end.2 demo_cx (lit "sys.cpu 1 2") 7).
  - vm_compute. reflexivity.
  - exact demo_config_wf.
  - exact demo_config_runs.
  - exact demo_rings.
Defined.

Lemma configured_references_exact_witness :
  Forall (fun x => x.2 = Z.of_nat (length (filter (fun j => j = x.1) (concat (cluster_servers <$> r_clusters demo_end.2)))))
    (r_srvrs demo_end.2).
Proof.
  destruct (configured_references_exact demo_queue_of 0 0 (fun _ => lit "0x1") (lit "0x2") (lit "relay.example.com")
    demo_hostmatch demo_conf demo_config (mkWorld [] []) demo_end.1 demo_start demo_end.2) as (_ & _ & Hc & _).
  - vm_compute. reflexivity.
  - exact demo_config_wf.
  - exact demo_config_runs.
  - apply Forall_forall. intros [i n] Hin. by apply Hc.
Defined.

Lemma configured_members_typed_witness : Forall cluster_ok (r_clusters demo_end.2).
Proof.
  eapply Forall_impl.
  - eapply (configured_members_typed demo_queue_of 0 0 (fun _ => lit "0x1") (lit "0x2") (lit "relay.example.com")
      demo_hostmatch demo_conf demo_config (mkWorld [] []) demo_end.1 demo_start demo_end.2).
    + vm_compute. reflexivity.
    + exact demo_config_wf.
    + exact demo_config_runs.
  - by intros cl [? _].
Defined.

Lemma configured_listeners_apart_witness : listeners_apart (r_listeners demo_end.2).
Proof.
  eapply (configured_listeners_apart demo_queue_of 0 0 (fun _ => lit "0x1") (lit "0x2") (lit "relay.example.com")
    demo_hostmatch demo_conf demo_config (mkWorld [] []) demo_end.1 demo_start demo_end.2).
  - vm_compute. reflexivity.
  - exact demo_config_wf.
  - exact demo_config_runs.
Defined.
