(* ===== verification/Receptor.v ===== *)
(** * Opening and closing listening sockets (src/receptor.c)

    The descriptors the process has open are threaded through, as is the system the
    calls go to ([SocketEnv]); whether the SSL context can be made is given by [ssl_answers].
    [l_socks] of the C structure, up to its -1, is a list of descriptors. *)
From S2P Require Import Prelude Relay Queue ConsistentHash Rewrite Matching Router Server RouterConfig.
#[local] Open Scope Z_scope.

Definition IPPROTO_TCP : Z := 6.
Definition IPPROTO_UDP : Z := 17.
Definition EAFNOSUPPORT : Z := 97.
Definition SOCK_STREAM : Z := 1.
Definition PF_LOCAL : Z := 1.

(** What the operating system is asked for. [env_socket] is given the open descriptors: it
    returns one that is not open ([SocketLaws]), or [errno]. *)
Class SocketEnv (E : Type) := {
  env_socket : E -> gset nat -> Z -> Z -> Z -> E * (nat + Z);
  env_bind : E -> nat -> addrinfo + cstring -> E * bool;
  env_listen : E -> nat -> Z -> E * bool;
  env_unlink : E -> cstring -> E;
}.
Class SocketLaws (E : Type) `{SocketEnv E} :=
  socket_fresh : forall e fds f t p e' s, env_socket e fds f t p = (e', inl s) -> s ∉ fds.

(** The answers of [SSL_CTX_new], the loading of certificate and key and the check of the key. *)
Record ssl_answers := mkSsl { ssl_ctx : bool; ssl_cert : bool; ssl_key : bool; ssl_match : bool }.

Section Receptor.
Context {E : Type} `{SocketEnv E} (ssl : rlistener -> ssl_answers) (backlog : Z).

(** [ssllisten]: did it fail? *)
Definition ssllisten (l : rlistener) : bool :=
  let a := ssl l in
  if negb (ssl_ctx a) then true else if negb (ssl_cert a) then true else if negb (ssl_key a) then true else negb (ssl_match a).

(** [(lsnr->transport & ~0xFFFF) == W_SSL] *)
Definition is_ssl (l : rlistener) : bool := Z.land (rl_transport l) (Z.lnot 65535) =? W_SSL.

Definition usable (a : addrinfo) : bool :=
  ((ai_family a =? AF_INET) || (ai_family a =? AF_INET6)) &&
  ((ai_protocol a =? IPPROTO_TCP) || (ai_protocol a =? IPPROTO_UDP)).

(** The loop over the addresses: the sockets so far, and whether there was an error. *)
Fixpoint bind_loop (e : E) (fds : gset nat) (socks : list nat) (saddrs : list addrinfo) : E * gset nat * list nat * bool :=
  match saddrs with
  | [] => (e, fds, socks, false)
  | a :: saddrs' =>
      if negb (usable a) then bind_loop e fds socks saddrs'
      else
        match env_socket e fds (ai_family a) (ai_socktype a) (ai_protocol a) with
        | (e, inr errno) =>
            if (errno =? EAFNOSUPPORT) && (negb (bool_decide (socks = [])) || negb (bool_decide (saddrs' = [])))
            then bind_loop e fds socks saddrs' else (e, fds, socks, true)
        | (e, inl sock) =>
            let fds := {[sock]} ∪ fds in
            let socks := socks ++ [sock] in
            let '(e, bound) := env_bind e sock (inl a) in
            if negb bound then (e, fds, socks, true)
            else if ai_protocol a =? IPPROTO_TCP then
              let '(e, listening) := env_listen e sock backlog in
              if listening : bool then bind_loop e fds socks saddrs' else (e, fds, socks, true)
            else bind_loop e fds socks saddrs'
        end
  end.

Definition close_all (fds : gset nat) (socks : list nat) : gset nat := foldl (fun fds s => fds ∖ {[s]}) fds socks.

(** The functions return the sockets in the listener and the value returned, true for 1. *)
Definition bindlistenip (e : E) (fds : gset nat) (l : rlistener) (socks : list nat) : E * gset nat * list nat * bool :=
  if is_ssl l && ssllisten l then (e, fds, socks, true)
  else
    let '(e, fds, socks, binderr) := bind_loop e fds [] (rl_saddrs l) in
    if binderr : bool then (e, close_all fds (reverse socks), [], true) else (e, fds, socks, false).

(** Without a path [strncpy] reads NULL. *)
Definition bindlistenunix (e : E) (fds : gset nat) (l : rlistener) (socks : list nat) : option (E * gset nat * list nat * bool) :=
  if is_ssl l && ssllisten l then Some (e, fds, socks, true)
  else
    match env_socket e fds PF_LOCAL SOCK_STREAM 0 with
    | (e, inr _) => Some (e, fds, socks, true)
    | (e, inl sock) =>
        let fds := {[sock]} ∪ fds in
        ip ← rl_ip l;
        let e := env_unlink e ip in
        let '(e, bound) := env_bind e sock (inr (take 107 ip)) in
        Some (if negb bound then (e, fds ∖ {[sock]}, [sock], true)
              else
                let '(e, listening) := env_listen e sock backlog in
                if negb listening then (e, fds ∖ {[sock]}, [sock], true) else (e, fds, [sock], false))
    end.

Definition bindlisten (e : E) (fds : gset nat) (l : rlistener) (socks : list nat) : option (E * gset nat * list nat * bool) :=
  match rl_ctype l with
  | CON_TCP | CON_UDP => Some (bindlistenip e fds l socks)
  | CON_UNIX => bindlistenunix e fds l socks
  | _ => Some (e, fds, socks, true)
  end.

(** [shutdownclose], with [close_socks] and [destroy_usock]; removing a path that is NULL fails harmlessly
    where [unlink] checks it. *)
Definition close_socks (fds : gset nat) (socks : list nat) : gset nat := close_all fds socks.
Definition destroy_usock (e : E) (fds : gset nat) (l : rlistener) (socks : list nat) : E * gset nat :=
  let fds := match socks with [] => fds | s :: _ => fds ∖ {[s]} end in
  (match rl_ip l with Some ip => env_unlink e ip | None => e end, fds).
Definition shutdownclose (e : E) (fds : gset nat) (l : rlistener) (socks : list nat) : E * gset nat :=
  match rl_ctype l with
  | CON_TCP | CON_UDP => (e, close_socks fds socks)
  | CON_UNIX => destroy_usock e fds l socks
  | _ => (e, fds)
  end.

(** ** Lemmas *)

Lemma close_all_difference fds socks : close_all fds socks = fds ∖ list_to_set socks.
Proof.
  unfold close_all. revert fds. induction socks as [|s socks IH]; intros fds; cbn [foldl list_to_set]; [set_solver|].
  rewrite IH. set_solver.
Qed.
Lemma close_all_reverse fds socks : close_all fds (reverse socks) = close_all fds socks.
Proof.
  rewrite !close_all_difference. apply set_eq. intros x. by rewrite !elem_of_difference, !elem_of_list_to_set, elem_of_reverse.
Qed.

(** The sockets the loop opened are new, and open. *)
Lemma bind_loop_spec `{!SocketLaws E} saddrs e fds0 fds socks e' fds' socks' err :
  NoDup socks -> (forall s, s ∈ socks -> s ∉ fds0) -> fds = list_to_set socks ∪ fds0 ->
  bind_loop e fds socks saddrs = (e', fds', socks', err) ->
  NoDup socks' /\ (forall s, s ∈ socks' -> s ∉ fds0) /\ fds' = list_to_set socks' ∪ fds0 /\ socks `prefix_of` socks'.
Proof.
  revert e fds socks. induction saddrs as [|a saddrs IH]; intros e fds socks Hnd Hnew Hfds; cbn [bind_loop].
  { by intros [= <- <- <- <-]. }
  destruct (negb (usable a)); [by apply IH|].
  destruct (env_socket _ _ _ _ _) as [e1 [sock|errno]] eqn:Es.
  - apply socket_fresh in Es.
    assert (NoDup (socks ++ [sock])) as Hnd1.
    { apply NoDup_app. split_and!; [done| |apply NoDup_singleton]. intros x Hx ->%list_elem_of_singleton. set_solver. }
    assert (forall s, s ∈ socks ++ [sock] -> s ∉ fds0) as Hnew1 by (intros s; set_solver).
    assert ({[sock]} ∪ fds = list_to_set (socks ++ [sock]) ∪ fds0) as Hfds1 by set_solver.
    assert (socks `prefix_of` socks ++ [sock]) as Hp by (by eexists).
    destruct (env_bind _ _ _) as [e2 [|]]; cbn [negb]; [|by intros [= <- <- <- <-]].
    assert (forall e3, bind_loop e3 ({[sock]} ∪ fds) (socks ++ [sock]) saddrs = (e', fds', socks', err) ->
      NoDup socks' /\ (forall s, s ∈ socks' -> s ∉ fds0) /\ fds' = list_to_set socks' ∪ fds0 /\ socks `prefix_of` socks') as Hrec.
    { intros e3 (? & ? & ? & ?)%IH; [|done..]. split_and!; try done. by etrans. }
    destruct (_ =? _); [|apply Hrec]. destruct (env_listen _ _ _) as [e3 [|]]; [apply Hrec|by intros [= <- <- <- <-]].
  - destruct (_ && _); [by apply IH|]. by intros [= <- <- <- <-].
Qed.
End Receptor.

(** ** Properties *)

(** Opening a listener is all or nothing: on success exactly its sockets, all new, are open in addition (and closing it
    closes them again); on an error no more descriptors are open than before. *)
Theorem bindlisten_all_or_nothing `{SocketEnv E} `{!SocketLaws E} (ssl : rlistener -> ssl_answers) (backlog : Z)
    (e e' e2 : E) (fds fds' : gset nat) (l : rlistener) (socks : list nat) (err : bool) :
  bindlisten ssl backlog e fds l [] = Some (e', fds', socks, err) ->
  if err then fds' = fds
  else NoDup socks /\ (forall s, s ∈ socks -> s ∉ fds) /\ fds' = list_to_set socks ∪ fds /\ (shutdownclose e2 fds' l socks).2 = fds.
Proof.
  unfold bindlisten, shutdownclose.
  assert (bindlistenip ssl backlog e fds l [] = (e', fds', socks, err) ->
    if err then fds' = fds else NoDup socks /\ (forall s, s ∈ socks -> s ∉ fds) /\ fds' = list_to_set socks ∪ fds /\
      close_socks fds' socks = fds) as Hip.
  { unfold bindlistenip. destruct (_ && _); [by intros [= <- <- <- <-]|].
    destruct (bind_loop _ _ _ _ _) as [[[e1 fds1] socks1] err1] eqn:Eb.
    apply (bind_loop_spec _ _ _ fds) in Eb as (Hnd & Hnew & -> & _); [|apply NoDup_nil_2|by intros s ?%elem_of_nil|set_solver].
    assert (close_all (list_to_set socks1 ∪ fds) socks1 = fds) as Hc.
    { rewrite close_all_difference. apply set_eq. intros x. specialize (Hnew x). set_solver. }
    destruct err1; intros [= <- <- <- <-]; [by rewrite close_all_reverse|done]. }
  destruct (rl_ctype l); [intros [= Hb]; exact (Hip Hb)|intros [= Hb]; exact (Hip Hb)|by intros [= <- <- <- <-]|by intros [= <- <- <- <-]|].
  unfold bindlistenunix, destroy_usock. clear Hip. destruct (_ && _); [by intros [= <- <- <- <-]|].
  destruct (env_socket _ _ _ _ _) as [e1 [sock|errno]] eqn:Es; [|by intros [= <- <- <- <-]]. apply socket_fresh in Es.
  destruct (rl_ip l) as [ip|]; run_binds; [|done].
  assert (({[sock]} ∪ fds) ∖ {[sock]} = fds) as Hc by (apply set_eq; intros x; destruct (decide (x = sock)); set_solver).
  destruct (env_bind _ _ _) as [e3 [|]]; cbn [negb]; [|by intros [= <- <- <- <-]].
  destruct (env_listen _ _ _) as [e4 [|]]; cbn [negb]; intros [= <- <- <- <-]; [|done].
  split_and!; [apply NoDup_singleton|set_solver|set_solver|done].
Qed.

(** A system that has a new descriptor for every call, and ports that are taken. *)
Definition demo_sockets (taken : list Z) : SocketEnv unit := {|
  env_socket e fds _ _ _ := (e, inl (S (foldr Nat.max 0%nat (elements fds))));
  env_bind e _ a := (e, match a with inl a => negb (bool_decide (ai_port a ∈ taken)) | inr _ => true end);
  env_listen e _ _ := (e, true);
  env_unlink e _ := e;
|}.
Lemma demo_sockets_laws taken : @SocketLaws unit (demo_sockets taken).
Proof.
  intros e fds f t p e' s [= _ <-] Hin. apply elem_of_elements in Hin.
  assert (forall l m, m ∈ l -> (m <= foldr Nat.max 0 l)%nat) as Hm; [|specialize (Hm _ _ Hin); lia].
  intros l m Hl. induction Hl; cbn; lia.
Qed.

Definition demo_tcp (port : Z) : rlistener :=
  mkRl T_LINEMODE W_PLAIN CON_TCP None port 0
    [mkAddrinfo AF_INET 1 IPPROTO_TCP (lit "0.0.0.0") port; mkAddrinfo AF_INET6 1 IPPROTO_TCP (lit "::") port].

(** A Unix socket that cannot be bound is closed but stays in the listener. *)
Definition demo_unbound : SocketEnv unit := {|
  env_socket e fds _ _ _ := (e, inl 3%nat); env_bind e _ _ := (e, false);
  env_listen e _ _ := (e, true); env_unlink e _ := e;
|}.
Example unix_socket_left :
  @bindlistenunix unit demo_unbound (fun _ => mkSsl true true true true) 5 tt ∅
    (mkRl T_LINEMODE W_PLAIN CON_UNIX (Some (lit "/tmp/s")) 0 0 []) [] = Some (tt, ∅, [3%nat], true).
Proof. vm_compute. reflexivity. Qed.

Lemma bindlisten_all_or_nothing_witness :
  NoDup [3%nat; 4%nat] /\ forall s, s ∈ [3%nat; 4%nat] -> s ∉ ({[2%nat]} : gset nat).
Proof.
  pose proof (@bindlisten_all_or_nothing unit (demo_sockets []) (demo_sockets_laws []) (fun _ => mkSsl true true true true) 5
    tt tt tt {[2%nat]} {[4%nat; 3%nat; 2%nat]} (demo_tcp 2003) [3%nat; 4%nat] false) as Ht.
  destruct Ht as (Hnd & Hnew & _); [vm_compute; reflexivity|]. by split.
Defined.
