(* ===== verification/Reload.v ===== *)
(** * Replacing a router (src/router.c, src/server.c, src/relay.c)

    A reload reads a second router next to the one in use, in the same [world]: its
    servers and queues are new ones.  Stopping the old servers, giving their queues to
    the new ones, recognising listeners that stay, and the handler of SIGHUP.

    [None] is undefined behaviour, here a null queue. *)
From S2P Require Import Prelude Relay Queue ConsistentHash Rewrite Matching Router Server RouterConfig ConfActions.
#[local] Open Scope Z_scope.

Section Swap.
Context `{Regex} {Q : Type}.
Implicit Types (w : world Q) (new old : router) (nc oc : ccluster).

(** ** Stopping the servers *)

Definition cluster_shutdown w (c : ccluster) (swap : bool) : world Q :=
  foldl (fun w i => server_shutdown w i swap) w (cluster_servers c).

(** Will the queue the cluster's servers share be given to a cluster of the new router? *)
Definition swaps_cluster new (c : ccluster) : bool :=
  match cl_name c with
  | None => false
  | Some _ =>
      match router_cluster new (cl_name c) with
      | None => false
      | Some nc => negb (bool_decide (cl_queue c = None)) && bool_decide (cl_type c = cl_type nc)
      end
  end.

(** [router_shutdown], up to the waiting for the servers' threads; without [newrtr] nothing is
    swapped. *)
Definition router_shutdown w (rtr : router) (newrtr : option router) : world Q :=
  foldl (fun w c => cluster_shutdown w c (match newrtr with Some new => swaps_cluster new c | None => false end)) w (r_clusters rtr).

(** [server_shutdown_wait]: have the threads it waits for ended? *)
Definition stopped w (i : nat) : option bool :=
  s ← servers w !! i; Some (forallb (fun c => negb (sc_running c)) (s_conns s)).
Fixpoint all_stopped w (l : list nat) : option bool :=
  match l with
  | [] => Some true
  | i :: l' => b ← stopped w i; if b : bool then all_stopped w l' else Some false
  end.
Definition shutdown_wait_over w (i : nat) : option bool :=
  s ← servers w !! i;
  if bool_decide (s_secondaries s = []) then stopped w i else all_stopped w (s_secondaries s).

(** ** Queues *)

(** The servers are the same host, port and protocol. *)
Definition same_server (a b : server) : bool :=
  (strcmp (s_ip a) (s_ip b) =? 0) && (s_port a =? s_port b) && bool_decide (s_ctype a = s_ctype b).

Fixpoint find_old w (s : server) (os : list nat) : option (option nat) :=
  match os with
  | [] => Some None
  | o :: os' => so ← servers w !! o; if same_server s so then Some (Some o) else find_old w s os'
  end.

(** A server that is new to the cluster gets the shared queue. *)
Definition join_queue w (n : nat) (q : option nat) : option (world Q) :=
  s ← servers w !! n;
  match q with
  | Some q => '(w, _) ← server_set_shared_queue w n q; Some w
  | None => if s_shared_queue s then None else Some w
  end.

(** The loop over the servers of a cluster. *)
Fixpoint transplant_servers w (q : option nat) (ns os : list nat) : option (world Q) :=
  match ns with
  | [] => Some w
  | n :: ns' =>
      s ← servers w !! n;
      o ← find_old w s os;
      w ← match o with Some o => server_swap_queue w n o | None => join_queue w n q end;
      transplant_servers w q ns' os
  end.

(** The old cluster a new one replaces, and its place. *)
Definition partner (ocs : list ccluster) nc : option (nat * ccluster) :=
  x ← list_find (fun cl => same_name (cl_name cl) (cl_name nc) = true) ocs;
  if bool_decide (cl_type nc = cl_type x.2) then Some x else None.

(** [router_transplant_queues]: the loop over the new clusters; the queues of the clusters
    change as well. *)
Fixpoint transplant_clusters w (ocs ncs : list ccluster) : option (world Q * list ccluster * list ccluster) :=
  match ncs with
  | [] => Some (w, [], ocs)
  | nc :: ncs' =>
      match partner ocs nc with
      | Some (k, oc) =>
          w ← transplant_servers w (cl_queue oc) (cluster_servers nc) (cluster_servers oc);
          '(w, ncs', ocs) ← transplant_clusters w (<[k := set_cqueue oc (cl_queue nc)]> ocs) ncs';
          Some (w, set_cqueue nc (cl_queue oc) :: ncs', ocs)
      | None =>
          '(w, ncs', ocs) ← transplant_clusters w ocs ncs';
          Some (w, nc :: ncs', ocs)
      end
  end.
Definition router_transplant_queues w new old : option (world Q * router * router) :=
  '(w, ncs, ocs) ← transplant_clusters w (r_clusters old) (r_clusters new);
  Some (w, set_clusters new ncs, set_clusters old ocs).

(** ** What a swap changes *)

(** What identifies a server, and the queue it holds with whether it is shared. *)
Definition skey (s : server) : cstring * Z * con_proto := (s_ip s, s_port s, s_ctype s).
Definition ident w (i : nat) : option (cstring * Z * con_proto) := skey <$> servers w !! i.
Definition queue_held w (i : nat) : option (bool * nat) := (fun s => (s_shared_queue s, s_queue s)) <$> servers w !! i.

Lemma same_server_key a b a' b' : skey a = skey a' -> skey b = skey b' -> same_server a b = same_server a' b'.
Proof. unfold skey, same_server. intros [= -> -> ->] [= -> -> ->]. done. Qed.
Lemma same_server_iff a b :
  same_server a b = true <-> strcmp (s_ip a) (s_ip b) = 0 /\ s_port a = s_port b /\ s_ctype a = s_ctype b.
Proof. unfold same_server. rewrite !andb_true_iff, !Z.eqb_eq, bool_decide_eq_true. tauto. Qed.
#[export] Instance same_server_equiv : Equivalence (fun a b => same_server a b = true).
Proof.
  split; intros a.
  - apply same_server_iff. by rewrite strcmp_refl.
  - intros b. rewrite !same_server_iff, (strcmp_antisym (s_ip a) (s_ip b)). intros (-> & -> & ->). done.
  - intros b c. rewrite !same_server_iff. intros (H1 & -> & ->) (H2 & -> & ->). split_and!; try done.
    pose proof (strcmp_trans (s_ip a) (s_ip b) (s_ip c)). pose proof (strcmp_trans (s_ip c) (s_ip b) (s_ip a)).
    pose proof (strcmp_antisym (s_ip a) (s_ip b)). pose proof (strcmp_antisym (s_ip b) (s_ip c)).
    pose proof (strcmp_antisym (s_ip a) (s_ip c)). lia.
Qed.

Lemma same_server_via a b c : same_server a c = true -> same_server b c = true -> same_server a b = true.
Proof. destruct same_server_equiv as [_ Hs Ht]. intros Ha Hb. apply (Ht a c b Ha), Hs, Hb. Qed.

Lemma find_old_ident w w' s s' os :
  (forall i, ident w' i = ident w i) -> skey s' = skey s -> find_old w' s' os = find_old w s os.
Proof.
  intros Hi Hs. induction os as [|o os IH]; cbn [find_old]; [done|]. specialize (Hi o). unfold ident in Hi.
  destruct (servers w' !! o) as [a|], (servers w !! o) as [b|]; try done; cbn in Hi; run_binds.
  injection Hi as Hk. rewrite (same_server_key s' a s b) by (done || (unfold skey; congruence)). by rewrite IH.
Qed.
Lemma find_old_same w s os o : find_old w s os = Some (Some o) -> o ∈ os /\ exists so, servers w !! o = Some so /\ same_server s so = true.
Proof.
  induction os as [|x os IH]; cbn [find_old]; [done|]. destruct (servers w !! x) as [sx|] eqn:Ex; run_binds; [|done].
  destruct (same_server s sx) eqn:Es; [intros [= <-]; split; [by left|eauto]|]. intros [? ?]%IH. split; [by right|done].
Qed.
Lemma find_old_total w s os : Forall (fun o => is_Some (servers w !! o)) os -> exists x, find_old w s os = Some x.
Proof.
  induction 1 as [|o os [so Ho] _ [x IH]]; cbn [find_old]; [by eexists|]. rewrite Ho. run_binds. destruct (same_server s so); eauto.
Qed.

(** The effect of transplanting one server. *)
Record touched w w' (ids : list nat) : Prop := mkTouched {
  to_queues : queues w' = queues w;
  to_ident : forall i, ident w' i = ident w i;
  to_rest : forall i, i ∉ ids -> servers w' !! i = servers w !! i;
}.
Lemma touched_trans w1 w2 w3 ids js : touched w1 w2 ids -> touched w2 w3 js -> touched w1 w3 (ids ++ js).
Proof.
  intros [Hq Hi Hr] [Hq' Hi' Hr']. split; [congruence|congruence|]. intros i [Hn Hm]%not_elem_of_app. by rewrite Hr', Hr.
Qed.
Lemma touched_sub w w' ids js : touched w w' ids -> ids ⊆ js -> touched w w' js.
Proof. intros [Hq Hi Hr] Hs. split; [done..|]. intros i Hn. apply Hr. set_solver. Qed.

Lemma swap_queue_spec w n o sn so :
  n <> o -> servers w !! n = Some sn -> servers w !! o = Some so ->
  exists w', server_swap_queue w n o = Some w' /\ touched w w' [n; o] /\
    queue_held w' n = queue_held w o /\ queue_held w' o = queue_held w n.
Proof.
  intros Hne Hn Ho. unfold server_swap_queue. rewrite Hn, Ho. run_binds. cbn [update servers].
  rewrite list_lookup_alter_eq, list_lookup_alter_ne, Ho by done. cbn [fmap option_fmap option_map]. run_binds.
  eexists. split; [done|]. split; [split; cbn [update servers queues]; [done|..]|].
  - intros i. unfold ident. cbn [update servers]. destruct (decide (i = n)) as [->|Hin].
    + by rewrite list_lookup_alter_eq, list_lookup_alter_ne, list_lookup_alter_eq, Hn by done.
    + rewrite list_lookup_alter_ne by done. destruct (decide (i = o)) as [->|Hio].
      * by rewrite list_lookup_alter_eq, list_lookup_alter_ne, Ho by done.
      * by rewrite !list_lookup_alter_ne by done.
  - intros i Hi. apply not_elem_of_cons in Hi as [Hin Hi%not_elem_of_cons]. destruct Hi as [Hio _].
    by rewrite !list_lookup_alter_ne by done.
  - unfold queue_held. cbn [update servers].
    rewrite list_lookup_alter_eq, list_lookup_alter_ne, list_lookup_alter_eq, Hn, Ho by done.
    rewrite list_lookup_alter_ne, list_lookup_alter_eq, list_lookup_alter_ne, Ho by done. done.
Qed.
Lemma join_queue_spec w n q sn :
  servers w !! n = Some sn -> (s_shared_queue sn = true -> is_Some q) ->
  exists w', join_queue w n q = Some w' /\ touched w w' [n] /\
    queue_held w' n = if s_shared_queue sn then pair true <$> q else queue_held w n.
Proof.
  intros Hn Hq. unfold join_queue, queue_held. rewrite Hn. run_binds. assert (touched w w [n]) as Ht by (by split).
  destruct q as [q|].
  - unfold server_set_shared_queue. rewrite Hn. run_binds. destruct (s_shared_queue sn) eqn:Es; cbn [andb].
    + case_bool_decide as Eq; cbn [negb]; run_binds; eexists; (split; [done|]).
      * split; [done|]. rewrite Hn. cbn. by rewrite Es, Eq.
      * split; [split; [done|..]|]; cbn [update servers].
        -- intros i. unfold ident. cbn [update servers]. destruct (decide (i = n)) as [->|?];
             [by rewrite list_lookup_alter_eq, Hn|by rewrite list_lookup_alter_ne].
        -- intros i Hi. rewrite list_lookup_alter_ne; [done|]. intros ->. apply Hi. by left.
        -- rewrite list_lookup_alter_eq, Hn. cbn. by rewrite Es.
    + eexists. split; [done|]. split; [done|]. by rewrite Hn.
  - destruct (s_shared_queue sn); [by destruct Hq|]. eexists. split; [done|]. split; [done|]. by rewrite Hn.
Qed.

(** ** The servers of a cluster *)

(** The servers of a cluster and of the old one exchanged their queues. *)
Record exchanged w w' (q : option nat) (ns os : list nat) : Prop := mkExchanged {
  ex_new : forall n sn, n ∈ ns -> servers w !! n = Some sn ->
    queue_held w' n = match find_old w sn os with
                      | Some (Some o) => queue_held w o
                      | _ => if s_shared_queue sn then pair true <$> q else queue_held w n
                      end;
  ex_old : forall n sn o, n ∈ ns -> servers w !! n = Some sn -> find_old w sn os = Some (Some o) -> queue_held w' o = queue_held w n;
}.

(** Only the servers that found each other, and new ones of the cluster, changed. *)
Record moved w w' (q : option nat) (ns os : list nat) : Prop := mkMoved {
  mv_touched : touched w w' (ns ++ os);
  mv_exchanged : exchanged w w' q ns os;
  mv_left : forall o, o ∉ ns -> (forall n sn, n ∈ ns -> servers w !! n = Some sn -> find_old w sn os <> Some (Some o)) ->
    servers w' !! o = servers w !! o;
}.

(** No two of the servers have the same address. *)
Definition addresses_differ w (l : list nat) : Prop :=
  forall i j a b, i ∈ l -> j ∈ l -> servers w !! i = Some a -> servers w !! j = Some b -> same_server a b = true -> i = j.
(** Every shared server that does not find its old one can get a queue. *)
Definition queue_there w (q : option nat) (ns os : list nat) : Prop :=
  forall n sn, n ∈ ns -> servers w !! n = Some sn -> s_shared_queue sn = true -> find_old w sn os = Some None -> is_Some q.

(** One server. *)
Lemma transplant_one w q n os sn :
  servers w !! n = Some sn -> n ∉ os -> Forall (fun o => is_Some (servers w !! o)) os -> queue_there w q [n] os ->
  exists x w', find_old w sn os = Some x /\
    match x with Some o => server_swap_queue w n o | None => join_queue w n q end = Some w' /\ moved w w' q [n] os.
Proof.
  intros Hn Hno Hos Hq. destruct (find_old_total w sn os Hos) as [x Hx]. exists x.
  destruct x as [o|].
  - destruct (find_old_same _ _ _ _ Hx) as (Ho & so & Hso & _). assert (n <> o) as Hne by (by intros ->).
    destruct (swap_queue_spec w n o sn so Hne Hn Hso) as (w' & -> & Ht & H1 & H2). exists w'. split_and!; [done..|].
    split; [|split|].
    + eapply touched_sub; [exact Ht|set_solver].
    + intros n' sn' ->%list_elem_of_singleton Hn'. simplify_eq. by rewrite Hx.
    + intros n' sn' o' ->%list_elem_of_singleton Hn'. simplify_eq. rewrite Hx. by intros [= <-].
    + intros o' Ho' Hl. apply (to_rest _ _ _ Ht). rewrite !not_elem_of_cons. split_and!; [set_solver| |by apply not_elem_of_nil].
      intros ->. by destruct (Hl n sn (list_elem_of_here _ _) Hn).
  - destruct (join_queue_spec w n q sn Hn) as (w' & -> & Ht & H1).
    { intros Hs. by eapply Hq; [apply list_elem_of_here|..]. }
    exists w'. split_and!; [done..|]. split; [|split|].
    + eapply touched_sub; [exact Ht|set_solver].
    + intros n' sn' ->%list_elem_of_singleton Hn'. simplify_eq. by rewrite Hx.
    + intros n' sn' o' ->%list_elem_of_singleton Hn'. simplify_eq. by rewrite Hx.
    + intros o' Ho' _. by apply (to_rest _ _ _ Ht).
Qed.

Lemma moved_cons w w1 w2 q n ns os sn :
  servers w !! n = Some sn -> n ∉ ns -> (forall i, i ∈ n :: ns -> i ∉ os) -> addresses_differ w (n :: ns) ->
  moved w w1 q [n] os -> moved w1 w2 q ns os -> moved w w2 q (n :: ns) os.
Proof.
  intros Hn Hnd Hdis Hdiff [Ht1 [Hnew1 Hold1] Hleft1] [Ht2 [Hnew2 Hold2] Hleft2].
  assert (forall i, i ∈ ns -> servers w1 !! i = servers w !! i) as Hsame.
  { intros i Hi. apply (to_rest _ _ _ Ht1). rewrite not_elem_of_app, list_elem_of_singleton. split; [by intros ->|].
    apply Hdis. by right. }
  assert (forall s, find_old w1 s os = find_old w s os) as Hfind.
  { intros s. apply find_old_ident; [apply Ht1|done]. }
  (* an old server found by [n] is not found by another *)
  assert (forall i si o, i ∈ ns -> servers w !! i = Some si -> find_old w sn os = Some (Some o) -> find_old w si os = Some (Some o) -> False) as Huniq.
  { intros i si o Hi Hsi (_ & so & Hso & E1)%find_old_same (_ & so' & Hso' & E2)%find_old_same. simplify_eq.
    apply Hnd. rewrite (Hdiff n i sn si); [done|by left|by right|done|done|].
    by eapply same_server_via. }
  assert (queue_held w2 n = queue_held w1 n) as Hn2.
  { unfold queue_held. rewrite (to_rest _ _ _ Ht2); [done|]. rewrite not_elem_of_app. split; [done|]. apply Hdis. by left. }
  assert (forall o, (forall i si, i ∈ ns -> servers w !! i = Some si -> find_old w si os <> Some (Some o)) -> o ∉ ns ->
    queue_held w2 o = queue_held w1 o) as Ho2.
  { intros o Hl Ho. unfold queue_held. rewrite Hleft2; [done|done|]. intros i si Hi Hsi. rewrite Hfind. eapply Hl; [done|].
    by rewrite <- (Hsame i). }
  split; [|split|].
  - eapply touched_sub; [eapply touched_trans; [exact Ht1|exact Ht2]|set_solver].
  - intros i si [->|Hi]%elem_of_cons Hsi.
    + rewrite Hn2. by apply Hnew1; [left|].
    + rewrite (Hnew2 i si Hi) by (by rewrite Hsame). rewrite Hfind. unfold queue_held. rewrite (Hsame i Hi).
      destruct (find_old w si os) as [[o|]|] eqn:Eo; [|done..].
      rewrite Hleft1; [done|..].
      * rewrite list_elem_of_singleton. intros ->. apply (Hdis n); [by left|]. by eapply find_old_same.
      * intros ? ? ->%list_elem_of_singleton ? ?. simplify_eq. eauto.
  - intros i si o [->|Hi]%elem_of_cons Hsi Ho.
    + rewrite Ho2; [apply (Hold1 n si o); [by left|done|done]| |].
      * intros j sj Hj Hsj Hjo. simplify_eq. eauto.
      * intros Hin. apply (Hdis o); [by right|]. by eapply find_old_same.
    + rewrite (Hold2 i si o Hi); [unfold queue_held; by rewrite Hsame|by rewrite Hsame|by rewrite Hfind].
  - intros o [Hon Ho]%not_elem_of_cons Hl. rewrite (Hleft2 o Ho); [apply Hleft1|].
    + by rewrite list_elem_of_singleton.
    + intros i si ->%list_elem_of_singleton Hi. by apply (Hl n); [left|].
    + intros i si Hi Hsi. rewrite Hfind. apply (Hl i); [by right|]. by rewrite <- (Hsame i).
Qed.

Lemma transplant_servers_spec w q ns os :
  NoDup ns -> (forall i, i ∈ ns -> i ∉ os) -> Forall (fun i => is_Some (servers w !! i)) (ns ++ os) ->
  addresses_differ w ns -> queue_there w q ns os ->
  exists w', transplant_servers w q ns os = Some w' /\ moved w w' q ns os.
Proof.
  revert w. induction ns as [|n ns IH]; intros w Hnd Hdis Hall Hdiff Hq; cbn [transplant_servers].
  { exists w. split; [done|]. split; [by split|split|]; try (intros *; by rewrite elem_of_nil). }
  apply NoDup_cons in Hnd as [Hn Hnd]. apply Forall_cons in Hall as [[sn Hsn] Hall].
  rewrite Hsn. run_binds.
  destruct (transplant_one w q n os sn) as (x & w1 & -> & Hw1 & Hm1); [done|apply Hdis; by left|by apply Forall_app in Hall as [_ ?]| |].
  { intros i si ->%list_elem_of_singleton. apply Hq. by left. }
  run_binds. rewrite Hw1. run_binds.
  assert (forall i, is_Some (servers w1 !! i) <-> is_Some (servers w !! i)) as Hdom.
  { intros i. pose proof (to_ident _ _ _ (mv_touched _ _ _ _ _ Hm1) i) as E. unfold ident in E.
    destruct (servers w1 !! i), (servers w !! i); done. }
  assert (forall i, i ∈ ns -> servers w1 !! i = servers w !! i) as Hsame.
  { intros i Hi. apply (to_rest _ _ _ (mv_touched _ _ _ _ _ Hm1)). rewrite not_elem_of_app, list_elem_of_singleton.
    split; [by intros ->|]. apply Hdis. by right. }
  destruct (IH w1) as (w2 & -> & Hm2); [done|intros i Hi; apply Hdis; by right| | | |].
  - eapply Forall_impl; [exact Hall|]. intros i. by apply Hdom.
  - intros i j a b Hi Hj. rewrite !Hsame by done. apply Hdiff; by right.
  - intros i si Hi. rewrite Hsame by done. intros Hsi Hs Hf. eapply (Hq i); [by right|done|done|].
    rewrite <- Hf. symmetry. apply find_old_ident; [apply Hm1|done].
  - exists w2. split; [done|]. by eapply moved_cons.
Qed.

(** ** All clusters *)

(** A server of one of the clusters, or of one they replace. *)
Definition involved (ocs ncs : list ccluster) (i : nat) : Prop :=
  exists nc, nc ∈ ncs /\ (i ∈ cluster_servers nc \/ exists k oc, partner ocs nc = Some (k, oc) /\ i ∈ cluster_servers oc).
Record all_exchanged w w' (ocs ncs : list ccluster) : Prop := mkAll {
  al_queues : queues w' = queues w;
  al_ident : forall i, ident w' i = ident w i;
  al_rest : forall i, ~ involved ocs ncs i -> servers w' !! i = servers w !! i;
  al_pairs : forall nc k oc, nc ∈ ncs -> partner ocs nc = Some (k, oc) ->
    exchanged w w' (cl_queue oc) (cluster_servers nc) (cluster_servers oc);
}.

Definition all_servers (cls : list ccluster) : list nat := concat (cluster_servers <$> cls).

Lemma same_name_via a b c : same_name a b = true -> same_name a c = true -> same_name b c = true.
Proof.
  unfold same_name. destruct a as [a|], b as [b|], c as [c|]; try done. rewrite !Z.eqb_eq. intros H1 H2.
  pose proof (strcmp_trans b a c). pose proof (strcmp_trans c a b).
  pose proof (strcmp_antisym a b). pose proof (strcmp_antisym a c). pose proof (strcmp_antisym b c). lia.
Qed.

Lemma NoDup_concat_once {A} (ls : list (list A)) i j a b x :
  NoDup (concat ls) -> ls !! i = Some a -> ls !! j = Some b -> x ∈ a -> x ∈ b -> i = j.
Proof.
  revert i j. induction ls as [|l ls IH]; intros i j Hnd Hi Hj Ha Hb; [done|].
  cbn in Hnd. apply NoDup_app in Hnd as (_ & Hdis & Hnd).
  assert (forall k c, ls !! k = Some c -> x ∈ c -> x ∈ concat ls) as Hin.
  { intros k c Hk Hc. apply list_elem_of_In, in_concat. exists c. split; apply list_elem_of_In; [by eapply list_elem_of_lookup_2|done]. }
  destruct i as [|i], j as [|j]; cbn in Hi, Hj; simplify_eq; try done.
  - by destruct (Hdis x Ha); eapply Hin.
  - by destruct (Hdis x Hb); eapply Hin.
  - f_equal. by eapply IH.
Qed.

(** An old cluster that was used is not found again. *)
Lemma partner_lookup ocs nc k oc :
  partner ocs nc = Some (k, oc) -> ocs !! k = Some oc /\ same_name (cl_name oc) (cl_name nc) = true /\ cl_type nc = cl_type oc.
Proof.
  unfold partner. destruct (list_find _ ocs) as [[i x]|] eqn:E; run_binds; [|done]. apply list_find_Some in E as (? & ? & _).
  cbn. case_bool_decide; [|done]. by intros [= <- <-].
Qed.
Lemma list_find_insert_not {A} (P : A -> Prop) `{!forall x, Decision (P x)} l k x y :
  l !! k = Some y -> ~ P y -> ~ P x -> list_find P (<[k := x]> l) = list_find P l.
Proof.
  revert k. induction l as [|a l IH]; intros [|k] Hk Hy Hx; try done; cbn in Hk |- *.
  - simplify_eq. by rewrite !decide_False.
  - destruct (decide (P a)); [done|]. f_equal. by apply IH.
Qed.
Lemma partner_insert ocs k oc q nc nc' :
  partner ocs nc = Some (k, oc) -> same_name (cl_name nc) (cl_name nc') = false ->
  partner (<[k := set_cqueue oc q]> ocs) nc' = partner ocs nc'.
Proof.
  intros (Hk & Hs & _)%partner_lookup Hne. unfold partner.
  assert (same_name (cl_name oc) (cl_name nc') <> true) as Hno.
  { intros Hs'. by rewrite (same_name_via _ _ _ Hs Hs') in Hne. }
  by rewrite (list_find_insert_not _ _ k _ oc).
Qed.
Lemma all_servers_insert ocs k oc q : ocs !! k = Some oc -> all_servers (<[k := set_cqueue oc q]> ocs) = all_servers ocs.
Proof.
  intros Hk. unfold all_servers. rewrite list_fmap_insert. by rewrite list_insert_id by (by rewrite list_lookup_fmap, Hk).
Qed.
Lemma in_all_servers cls cl i : cl ∈ cls -> i ∈ cluster_servers cl -> i ∈ all_servers cls.
Proof.
  intros Hc Hi. apply list_elem_of_In, in_concat. exists (cluster_servers cl). split; apply list_elem_of_In; [|done].
  by apply list_elem_of_fmap_2.
Qed.

(** What the swap needs of the two routers: every server is in one cluster, new and old servers
    are different, new clusters have different names, the servers of a cluster different addresses,
    and shared servers a queue to take over. *)
Record swappable w (ocs ncs : list ccluster) : Prop := mkSwappable {
  sw_new : NoDup (all_servers ncs);
  sw_old : NoDup (all_servers ocs);
  sw_disjoint : forall i, i ∈ all_servers ncs -> i ∉ all_servers ocs;
  sw_exist : Forall (fun i => is_Some (servers w !! i)) (all_servers ncs ++ all_servers ocs);
  sw_names : forall i j a b, (i < j)%nat -> ncs !! i = Some a -> ncs !! j = Some b -> same_name (cl_name a) (cl_name b) = false;
  sw_addresses : forall nc, nc ∈ ncs -> addresses_differ w (cluster_servers nc);
  sw_queues : forall nc k oc, nc ∈ ncs -> partner ocs nc = Some (k, oc) ->
    queue_there w (cl_queue oc) (cluster_servers nc) (cluster_servers oc);
}.

Lemma swappable_tail w ocs nc ncs : swappable w ocs (nc :: ncs) -> swappable w ocs ncs.
Proof.
  unfold all_servers. intros [Hn Ho Hd He Hnm Ha Hq]. cbn in Hn, Hd, He. split; try done.
  - by apply NoDup_app in Hn as (_ & _ & ?).
  - intros i Hi. apply Hd. apply elem_of_app. by right.
  - rewrite <- (assoc_L app) in He. by apply Forall_app in He as [_ ?].
  - intros i j a b Hij. apply (Hnm (S i) (S j)). lia.
  - intros nc' Hnc. apply Ha. by right.
  - intros nc' k oc Hnc. apply Hq. by right.
Qed.
Lemma swappable_head_name w ocs nc ncs nc' : swappable w ocs (nc :: ncs) -> nc' ∈ ncs -> same_name (cl_name nc) (cl_name nc') = false.
Proof. intros Hs (i & Hi)%list_elem_of_lookup. eapply (sw_names _ _ _ Hs 0 (S i)); [lia|done|done]. Qed.

(** The servers of the first cluster and of the one it replaces are not involved with the others. *)
Lemma head_apart w ocs nc ncs k oc i :
  swappable w ocs (nc :: ncs) -> partner ocs nc = Some (k, oc) -> i ∈ cluster_servers nc ++ cluster_servers oc ->
  ~ involved ocs ncs i.
Proof.
  intros Hs Hp Hi (nc' & Hnc & Hinv). destruct (partner_lookup _ _ _ _ Hp) as (Hk & Hname & _).
  pose proof (sw_new _ _ _ Hs) as Hnd. unfold all_servers in Hnd. cbn in Hnd. apply NoDup_app in Hnd as (_ & Hdis & _).
  assert (forall cl, cl ∈ nc :: ncs -> i ∈ cluster_servers cl -> i ∉ all_servers ocs) as Hno.
  { intros cl Hcl Hin. apply (sw_disjoint _ _ _ Hs). by eapply in_all_servers. }
  assert (oc ∈ ocs) as Hoc by (by eapply list_elem_of_lookup_2).
  destruct Hinv as [Hn'|(k' & oc' & Hp' & Ho')].
  - apply elem_of_app in Hi as [Hi|Hi].
    + apply (Hdis i Hi). by eapply in_all_servers.
    + apply (Hno nc'); [by right|done|]. by eapply in_all_servers.
  - destruct (partner_lookup _ _ _ _ Hp') as (Hk' & Hname' & _). assert (oc' ∈ ocs) as Hoc' by (by eapply list_elem_of_lookup_2).
    apply elem_of_app in Hi as [Hi|Hi].
    + apply (Hno nc); [by left|done|]. by eapply in_all_servers.
    + assert (k = k') as <-.
      { eapply (NoDup_concat_once (cluster_servers <$> ocs)); [apply Hs|by rewrite list_lookup_fmap, Hk|by rewrite list_lookup_fmap, Hk'|done|done]. }
      simplify_eq. pose proof (same_name_via _ _ _ Hname Hname') as E. by rewrite (swappable_head_name _ _ _ _ _ Hs Hnc) in E.
Qed.

Lemma head_servers w ocs nc ncs k oc :
  swappable w ocs (nc :: ncs) -> partner ocs nc = Some (k, oc) ->
  exists w1, transplant_servers w (cl_queue oc) (cluster_servers nc) (cluster_servers oc) = Some w1 /\
    moved w w1 (cl_queue oc) (cluster_servers nc) (cluster_servers oc).
Proof.
  intros Hs Hp. destruct (partner_lookup _ _ _ _ Hp) as (Hk & _). assert (oc ∈ ocs) as Hoc by (by eapply list_elem_of_lookup_2).
  apply transplant_servers_spec.
  - pose proof (sw_new _ _ _ Hs) as Hnd. unfold all_servers in Hnd. cbn in Hnd. by apply NoDup_app in Hnd as (? & _ & _).
  - intros i Hi Ho. eapply (sw_disjoint _ _ _ Hs); eapply in_all_servers; [by left|done|done|done].
  - pose proof (sw_exist _ _ _ Hs) as He. rewrite Forall_forall in He |- *. intros i Hi. apply He. rewrite elem_of_app in Hi |- *.
    destruct Hi as [Hi|Hi]; [left|right]; eapply in_all_servers; eauto. by left.
  - apply (sw_addresses _ _ _ Hs). by left.
  - eapply (sw_queues _ _ _ Hs); [by left|done].
Qed.

Lemma involved_insert ocs k oc q nc ncs i :
  partner ocs nc = Some (k, oc) -> (forall nc', nc' ∈ ncs -> same_name (cl_name nc) (cl_name nc') = false) ->
  involved (<[k := set_cqueue oc q]> ocs) ncs i <-> involved ocs ncs i.
Proof.
  intros Hp Hn. unfold involved. split; intros (nc' & Hnc & Hi); exists nc'; (split; [done|]).
  - by rewrite (partner_insert _ _ _ _ _ _ Hp (Hn _ Hnc)) in Hi.
  - by rewrite (partner_insert _ _ _ _ _ _ Hp (Hn _ Hnc)).
Qed.

(** After the first cluster the rest can still be swapped. *)
Lemma swappable_next w w1 ocs nc ncs k oc q :
  swappable w ocs (nc :: ncs) -> partner ocs nc = Some (k, oc) ->
  touched w w1 (cluster_servers nc ++ cluster_servers oc) -> swappable w1 (<[k := set_cqueue oc q]> ocs) ncs.
Proof.
  intros Hs Hp Ht. destruct (partner_lookup _ _ _ _ Hp) as (Hk & _). pose proof (swappable_tail _ _ _ _ Hs) as [Hn Ho Hd He Hnm Ha Hq].
  assert (forall nc', nc' ∈ ncs -> partner (<[k := set_cqueue oc q]> ocs) nc' = partner ocs nc') as Hpart.
  { intros nc' Hnc. eapply partner_insert; [exact Hp|]. by eapply swappable_head_name. }
  assert (forall nc' i, nc' ∈ ncs -> i ∈ cluster_servers nc' -> servers w1 !! i = servers w !! i) as Hsame.
  { intros nc' i Hnc Hi. apply (to_rest _ _ _ Ht). intros Hin. eapply head_apart; [exact Hs|exact Hp|exact Hin|]. exists nc'. auto. }
  split; rewrite ?(all_servers_insert _ _ _ _ Hk); try done.
  - eapply Forall_impl; [exact He|]. intros i Hi. cbn. pose proof (to_ident _ _ _ Ht i) as E. unfold ident in E.
    destruct Hi as [si Hi]. rewrite Hi in E. by destruct (servers w1 !! i).
  - intros nc' Hnc i j a b Hi Hj. rewrite !(Hsame nc') by done. by apply (Ha nc').
  - intros nc' k' oc' Hnc. rewrite Hpart by done. intros Hp' i si Hi. rewrite (Hsame nc') by done. intros Hsi Hsh Hf.
    eapply (Hq nc' k' oc'); [done..|]. rewrite <- Hf. symmetry. apply find_old_ident; [apply Ht|done].
Qed.

(** An exchange seen from before or after steps that leave its servers alone. *)
Lemma exchanged_later w w1 w2 q ns os :
  (forall i, i ∈ ns ++ os -> servers w2 !! i = servers w1 !! i) -> exchanged w w1 q ns os -> exchanged w w2 q ns os.
Proof.
  intros Hsame [Hn Ho]. split.
  - intros n sn Hin Hsn. rewrite <- Hn by done. unfold queue_held. rewrite Hsame; [done|]. apply elem_of_app. by left.
  - intros n sn o Hin Hsn Hf. rewrite <- (Ho n sn o) by done. unfold queue_held. rewrite Hsame; [done|].
    apply elem_of_app. right. by eapply find_old_same.
Qed.
Lemma exchanged_earlier w w1 w2 q ns os :
  (forall i, ident w1 i = ident w i) -> (forall i, i ∈ ns ++ os -> servers w1 !! i = servers w !! i) ->
  exchanged w1 w2 q ns os -> exchanged w w2 q ns os.
Proof.
  intros Hid Hsame [Hn Ho].
  assert (forall s, find_old w1 s os = find_old w s os) as Hf by (intros s; by apply find_old_ident).
  assert (forall i, i ∈ ns ++ os -> queue_held w1 i = queue_held w i) as Hh by (intros i Hi; unfold queue_held; by rewrite Hsame).
  assert (forall i, i ∈ ns -> i ∈ ns ++ os) as Hns by (intros i Hi; apply elem_of_app; by left). split.
  - intros n sn Hin Hsn. rewrite (Hn n sn Hin), Hf, Hh by (by rewrite ?Hsame by auto; auto).
    destruct (find_old w sn os) as [[o|]|] eqn:E; [|done..]. apply Hh, elem_of_app. right. by eapply find_old_same.
  - intros n sn o Hin Hsn Hfo. rewrite (Ho n sn o Hin), Hh by (rewrite ?Hf, ?Hsame by auto; auto). done.
Qed.

Lemma transplant_clusters_spec w ocs ncs :
  swappable w ocs ncs ->
  exists w' ocs', transplant_clusters w ocs ncs =
      Some (w', (fun nc => match partner ocs nc with Some (_, oc) => set_cqueue nc (cl_queue oc) | None => nc end) <$> ncs, ocs') /\
    all_exchanged w w' ocs ncs.
Proof.
  revert w ocs. induction ncs as [|nc ncs IH]; intros w ocs Hs; cbn [transplant_clusters].
  { exists w, ocs. split; [done|]. split; try done. intros nc k oc Hnc. by apply elem_of_nil in Hnc. }
  destruct (partner ocs nc) as [[k oc]|] eqn:Hp.
  - destruct (head_servers _ _ _ _ _ _ Hs Hp) as (w1 & -> & Hm). run_binds. destruct Hm as [Ht He _].
    destruct (IH w1 _ (swappable_next _ _ _ _ _ _ _ (cl_queue nc) Hs Hp Ht)) as (w2 & ocs' & -> & [Hq Hi Hr Hx]). run_binds.
    assert (forall nc', nc' ∈ ncs -> partner (<[k := set_cqueue oc (cl_queue nc)]> ocs) nc' = partner ocs nc') as Hpart.
    { intros nc' Hnc. eapply partner_insert; [exact Hp|]. by eapply swappable_head_name. }
    assert (forall i, involved (<[k := set_cqueue oc (cl_queue nc)]> ocs) ncs i <-> involved ocs ncs i) as Hinv.
    { intros i. eapply involved_insert; [exact Hp|]. intros nc' Hnc. by eapply swappable_head_name. }
    exists w2, ocs'. split.
    { f_equal. f_equal. f_equal. csimpl. rewrite Hp. f_equal. apply list_fmap_ext. intros i nc' Hnc.
      by rewrite Hpart by by eapply list_elem_of_lookup_2. }
    split.
    + rewrite Hq. apply Ht.
    + intros i. rewrite Hi. apply Ht.
    + intros i Hni. rewrite Hr, (to_rest _ _ _ Ht); [done|..].
      * intros Hin. apply Hni. exists nc. split; [by left|]. apply elem_of_app in Hin as [?|?]; eauto.
      * rewrite Hinv. intros (nc' & Hnc & ?). apply Hni. exists nc'. split; [by right|done].
    + intros nc' k' oc' [->|Hnc]%elem_of_cons Hp'.
      * simplify_eq. eapply exchanged_later; [|exact He]. intros i Hin. apply Hr. rewrite Hinv. by eapply head_apart.
      * eapply exchanged_earlier; [apply Ht| |apply (Hx nc' k' oc'); [done|by rewrite Hpart]].
        intros i Hin. apply (to_rest _ _ _ Ht). intros Hin'. eapply head_apart; [exact Hs|exact Hp|exact Hin'|].
        exists nc'. split; [done|]. apply elem_of_app in Hin as [?|?]; eauto.
  - destruct (IH w ocs (swappable_tail _ _ _ _ Hs)) as (w2 & ocs' & -> & [Hq Hi Hr Hx]). run_binds.
    exists w2, ocs'. split; [by csimpl; rewrite Hp|]. split; [done|done|..].
    + intros i Hni. apply Hr. intros (nc' & Hnc & ?). apply Hni. exists nc'. split; [by right|done].
    + intros nc' k' oc' [->|Hnc]%elem_of_cons Hp'; [congruence|by eapply Hx].
Qed.
End Swap.

(** ** The threads while they are stopped *)

Section Threads.
Context `{Regex} {Q E : Type} `{FifoQueue Q (list Z)} `{ServerEnv E}.
Implicit Types (w : world Q) (e : E).

(** What a thread does not change of any server. *)
Definition fixed_part (s : server) :=
  (skey s, (s_shared_queue s, s_queue s), s_secondaries s, s_keep_running s).
Definition keeps w w' : Prop :=
  (forall i, fixed_part <$> servers w' !! i = fixed_part <$> servers w !! i) /\ length (queues w') = length (queues w).

#[export] Instance keeps_preorder : PreOrder keeps.
Proof. split; [done|]. intros w1 w2 w3 [H12 L12] [H23 L23]. split; [intros i; by rewrite H23|congruence]. Qed.

Lemma keeps_update w i f : (forall s, fixed_part (f s) = fixed_part s) -> keeps w (update w i f).
Proof.
  intros Hf. split; [|done]. intros j. cbn [update servers]. destruct (decide (i = j)) as [->|Hne].
  - rewrite list_lookup_alter_eq. destruct (servers w !! j) as [s|]; [|done]. cbn. by rewrite Hf.
  - by rewrite list_lookup_alter_ne.
Qed.
Lemma keeps_set_conn w i n c : keeps w (set_conn w i n c).
Proof. by apply keeps_update. Qed.
Lemma keeps_set_queue w q x : keeps w (set_queue w q x).
Proof. split; [done|]. apply length_insert. Qed.
Lemma server_queuesend_keeps w e self squeue source n w' e' r freed :
  server_queuesend w e self squeue source n = Some (w', e', r, freed) -> keeps w w'.
Proof.
  unfold server_queuesend. destruct (servers w !! self) as [s|]; run_binds; [|done]. destruct (s_conns s !! n) as [c|]; run_binds; [|done].
  destruct (server_poll e c) as [[e1 c1] [|]]; [|intros [= <- <- <- <-]; apply keeps_set_conn].
  destruct (queues w !! squeue) as [q|]; run_binds; [|done]. destruct (fq_dequeue_vector q (s_bsize s)) as [[q1 batch]|]; run_binds; [|done].
  case_decide; [intros [= <- <- <- <-]; etrans; [apply keeps_set_queue|apply keeps_set_conn]|].
  destruct (send_batch _ _ _ _ _ _) as [[[e2 c2] total] flushed].
  destruct (if (_ <? _)%nat then _ else _) as [e3 c3]. destruct (sc_fd c3).
  - intros [= <- <- <- <-]. etrans; [apply keeps_set_queue|apply keeps_set_conn].
  - destruct (queues _ !! squeue) as [q2|]; run_binds; [|done]. destruct (putback_loop _ _) as [[q3 dropped]|]; run_binds; [|done].
    intros [= <- <- <- <-]. etrans; [apply keeps_set_queue|]. etrans; [apply keeps_set_conn|].
    etrans; [apply keeps_set_queue|by apply keeps_update].
Qed.

Lemma help_secondaries_keeps secs w e self n qfree ret len w' e' ret' len' :
  help_secondaries w e self n qfree secs ret len = Some (w', e', ret', len') -> keeps w w'.
Proof.
  revert w e ret len. induction secs as [|i secs IH]; intros w e ret len; cbn [help_secondaries]; [by intros [= <- <- <- <-]|].
  case_decide; [apply IH|]. destruct (servers w !! i) as [x|]; run_binds; [|done]. destruct (queues w !! s_queue x) as [q|]; run_binds; [|done].
  destruct (_ && _); [|apply IH].
  destruct (server_queuesend _ _ _ _ _ _) as [[[[w1 e1] r1] freed]|] eqn:Es; run_binds; [|done]. apply server_queuesend_keeps in Es.
  destruct (r1 <? 0); [by intros [= <- <- <- <-]|]. intros Hh%IH. etrans; [exact Es|]. etrans; [|exact Hh]. by apply keeps_update.
Qed.

Lemma queueread_work_keeps w e self n qfree qsize idle0 moved o :
  queueread_work w e self n qfree qsize idle0 moved = Some o -> keeps w (ro_world o).
Proof.
  unfold queueread_work. destruct (servers w !! self) as [s|]; run_binds; [|done]. destruct (s_conns s !! n) as [c|]; run_binds; [|done].
  destruct (env_clock e) as [e1 start]. destruct (match sc_fd c with Some _ => _ | None => _ end) as [e2 c2].
  destruct (sc_fd c2) as [fd|].
  - destruct (if (qfree <? qsize)%nat then _ else _) as [[[w1 e3] len]|] eqn:Es; run_binds; [|done].
    assert (keeps w w1) as Hk1.
    { destruct (qfree <? qsize)%nat; [|injection Es as <- _ _; by apply keeps_update].
      destruct (server_queuesend _ _ _ _ _ _) as [[[[w4 e4] r4] freed]|] eqn:Eq; run_binds; [|done]. injection Es as <- _ _.
      apply server_queuesend_keeps in Eq. etrans; [|exact Eq]. by apply keeps_update. }
    destruct (len <? 0); [by intros [= <-]|].
    destruct (if negb _ then _ else _) as [[[[w2 e5] ret] len2]|] eqn:Eh; run_binds; [|done].
    assert (keeps w1 w2) as Hk2.
    { destruct (negb _); [by eapply help_secondaries_keeps|]. by injection Eh as <- _ _ _. }
    destruct (env_clock e5) as [e6 stop]. intros [= <-]. cbn [ro_world]. etrans; [exact Hk1|]. etrans; [exact Hk2|]. by apply keeps_update.
  - destruct (env_clock e2) as [e6 stop]. intros [= <-]. cbn [ro_world]. etrans; [apply keeps_set_conn|]. by apply keeps_update.
Qed.

Lemma cas_threshold_fixed from to s : fixed_part (cas_threshold from to s) = fixed_part s.
Proof. unfold cas_threshold. by destruct (_ =? _). Qed.

Lemma server_queueread_keeps w e self n shutdown idle0 o :
  server_queueread w e self n shutdown idle0 = Some o -> keeps w (ro_world o).
Proof.
  unfold server_queueread. destruct (servers w !! self) as [s|]; run_binds; [|done].
  destruct (queues w !! s_queue s) as [q|]; run_binds; [|done]. destruct (s_conns s !! n) as [c|]; run_binds; [|done].
  set (w1 := if negb _ then update w self _ else w).
  assert (keeps w w1) as Hk1.
  { unfold w1. destruct (negb _); [|done]. apply keeps_update. intros s'. destruct (_ && _); apply cas_threshold_fixed. }
  clearbody w1. destruct (if _ && _ && _ then _ else _) as [scan|]; run_binds; [|done].
  assert (forall c2, keeps w (set_conn w1 self n c2)) as Hc by (intros c2; etrans; [exact Hk1|apply keeps_set_conn]).
  assert (forall w2 e2 moved o', keeps w w2 -> queueread_work w2 e2 self n (fq_free q) (fq_size q) idle0 moved = Some o' ->
    keeps w (ro_world o')) as Hw.
  { intros w2 e2 moved o' Hk Hq. etrans; [exact Hk|by eapply queueread_work_keeps]. }
  destruct (idle_check e s c idle0) as [[e2 c2] moved].
  destruct scan as [[|]|]; [|intros [= <-]; apply Hc|].
  all: case_decide; [|by apply Hw]; destruct (negb _); [|intros [= <-]; apply Hc].
  all: destruct (if shutdown =? _ then _ else _) as [[|]|]; run_binds; try done; [by apply Hw|intros [= <-]; apply Hc].
Qed.

Lemma queuereader_turn_keeps timeout w e self n r w' e' r' go_on :
  queuereader_turn timeout w e self n r = Some (w', e', r', go_on) -> keeps w w'.
Proof.
  unfold queuereader_turn. destruct (servers w !! self) as [s|]; run_binds; [|done].
  destruct (_ =? SERVER_STOP_FORCE); [by intros [= <- <- <- <-]|].
  destruct (if r_shutdown_init r =? _ then _ else _) as [e1 r1].
  destruct (server_queueread _ _ _ _ _ _) as [o|] eqn:Eo; run_binds; [|done]. apply server_queueread_keeps in Eo.
  set (w1 := update (ro_world o) self _).
  assert (keeps w w1) as Hk by (etrans; [exact Eo|by apply keeps_update]). clearbody w1.
  destruct (_ =? SERVER_STOP).
  - destruct (env_seconds _) as [e2 ended]. destruct (_ <=? _); [by intros [= <- <- <- <-]|]. case_bool_decide; [by intros [= <- <- <- <-]|].
    destruct (still_working _ _ _); run_binds; [|done]. by intros [= <- <- <- <-].
  - destruct (0 <? _); [|by intros [= <- <- <- <-]]. destruct (env_seconds _) as [e2 ended].
    destruct (_ <=? _); [|by intros [= <- <- <- <-]]. destruct (servers w1 !! self) as [s1|]; run_binds; [|done].
    destruct (s_conns s1 !! n) as [c1|]; run_binds; [|done]. destruct (server_disconnect _ _) as [e3 c3]. intros [= <- <- <- <-].
    etrans; [exact Hk|apply keeps_set_conn].
Qed.
Lemma reader_exit_keeps w e self n w' e' : reader_exit w e self n = Some (w', e') -> keeps w w'.
Proof.
  unfold reader_exit. destruct (servers w !! self) as [s|]; run_binds; [|done]. destruct (s_conns s !! n) as [c|]; run_binds; [|done].
  destruct (match sc_fd c with Some _ => _ | None => _ end) as [e1 c1]. intros [= <- <-].
  etrans; [apply keeps_set_conn|by apply keeps_update].
Qed.

(** The threads of all servers, by server and connection: they take turns in any order, and end. *)
Abbreviation running := (world Q * E * gmap (nat * nat) reader)%type.
Inductive thread_step (timeout : Z) : running -> running -> Prop :=
  | thread_turn w e live self n r w' e' r' :
      live !! (self, n) = Some r -> queuereader_turn timeout w e self n r = Some (w', e', r', true) ->
      thread_step timeout (w, e, live) (w', e', <[(self, n) := r']> live)
  | thread_exit w e live self n r w' e' r' w2 e2 :
      live !! (self, n) = Some r -> queuereader_turn timeout w e self n r = Some (w', e', r', false) ->
      reader_exit w' e' self n = Some (w2, e2) ->
      thread_step timeout (w, e, live) (w2, e2, delete (self, n) live).

Lemma thread_steps_keep timeout st st' : rtc (thread_step timeout) st st' -> keeps st.1.1 st'.1.1.
Proof.
  induction 1 as [st|st1 st2 st3 Hs _ IH]; [done|]. etrans; [|exact IH]. destruct Hs; cbn.
  - by eapply queuereader_turn_keeps.
  - etrans; [by eapply queuereader_turn_keeps|by eapply reader_exit_keeps].
Qed.

(** ** Starting the servers *)

(** A thread sets its flags first.  [create] is what [pthread_create] returns for a connection. *)
Definition thread_begin (st : running) (self n : nat) : running :=
  let '(w, e, live) := st in
  let '(e, started) := env_seconds e in
  (set_flags w self n true true, e, <[(self, n) := mkReader 0 SERVER_KEEP_RUNNING started]> live).
Fixpoint start_conns (create : nat -> nat -> Z) (st : running) (self n todo : nat) : running * Z :=
  match todo with
  | O => (st, 0)
  | S todo' => if create self n =? 0 then start_conns create (thread_begin st self n) self (n + 1) todo' else (st, create self n)
  end.
Definition server_start (create : nat -> nat -> Z) (st : running) (self : nat) : option (running * Z) :=
  s ← servers st.1.1 !! self; Some (start_conns create st self 0 (s_nconns s)).

(** [router_start]; the flag says whether a server failed to start. *)
Fixpoint router_start (create : nat -> nat -> Z) (st : running) (srvrs : list (nat * Z)) : option (running * bool) :=
  match srvrs with
  | [] => Some (st, false)
  | (i, _) :: srvrs' =>
      '(st, err) ← server_start create st i;
      '(st, ret) ← router_start create st srvrs';
      Some (st, negb (err =? 0) || ret)
  end.

Lemma start_conns_keeps create st self n todo :
  keeps st.1.1 (start_conns create st self n todo).1.1.1 /\ queues (start_conns create st self n todo).1.1.1 = queues st.1.1.
Proof.
  revert st n. induction todo as [|todo IH]; intros st n; cbn [start_conns]; [done|]. destruct (_ =? 0); [|done].
  destruct (IH (thread_begin st self n) (n + 1)%nat) as [Hk Hq]. rewrite Hq. destruct st as [[w e] live].
  unfold thread_begin in *. cbn in *. destruct (env_seconds e). split; [|done]. etrans; [|exact Hk]. by apply keeps_update.
Qed.
Lemma router_start_keeps create st srvrs st' ret :
  router_start create st srvrs = Some (st', ret) -> keeps st.1.1 st'.1.1 /\ queues st'.1.1 = queues st.1.1.
Proof.
  revert st ret. induction srvrs as [|[i c] srvrs IH]; intros st ret; cbn [router_start]; [by intros [= <- <-]|].
  unfold server_start. destruct (servers st.1.1 !! i) as [s|]; run_binds; [|done].
  pose proof (start_conns_keeps create st i 0 (s_nconns s)) as [Hk Hq]. destruct (start_conns _ _ _ _ _) as [st1 err].
  destruct (router_start create st1 srvrs) as [[st2 ret2]|] eqn:E2; run_binds; [|done]. intros [= <- _].
  destruct (IH _ _ E2) as [Hk2 Hq2]. cbn [fst] in *. split; [by etrans|congruence].
Qed.

(** [router_swap]: between stopping the servers and the transplant their threads run until none that
    is waited for is left. *)
Inductive router_swap (timeout : Z) (create : nat -> nat -> Z) (new old : router) : running -> running * router * router -> Prop :=
  | router_swap_intro w e live w1 e1 live1 w2 new' old' st' failed :
      rtc (thread_step timeout) (router_shutdown w old (Some new), e, live) (w1, e1, live1) ->
      Forall (fun i => shutdown_wait_over w1 i = Some true) (all_servers (r_clusters old)) ->
      router_transplant_queues w1 new old = Some (w2, new', old') ->
      router_start create (w2, e1, live1) (r_srvrs new) = Some (st', failed) ->
      router_swap timeout create new old (w, e, live) (st', new', old').

(** ** The swap as a whole *)

(** Up to what threads and flags change, servers have the same addresses, secondaries and queues. *)
Definition placed (s : server) := (skey s, (s_shared_queue s, s_queue s), s_secondaries s).
Definition same_places w w' : Prop := forall i, placed <$> servers w' !! i = placed <$> servers w !! i.
Lemma keeps_places w w' : keeps w w' -> same_places w w'.
Proof.
  intros [Hk _] i. specialize (Hk i). unfold placed, fixed_part in *. destruct (servers w' !! i), (servers w !! i); cbn in *; congruence.
Qed.
Lemma same_places_trans w1 w2 w3 : same_places w1 w2 -> same_places w2 w3 -> same_places w1 w3.
Proof. intros H12 H23 i. by rewrite H23. Qed.
Lemma same_places_held w w' i : same_places w w' -> queue_held w' i = queue_held w i.
Proof.
  intros Hs. specialize (Hs i). unfold queue_held, placed in *. destruct (servers w' !! i), (servers w !! i); cbn in *; congruence.
Qed.
Lemma same_places_ident w w' i : same_places w w' -> ident w' i = ident w i.
Proof.
  intros Hs. specialize (Hs i). unfold ident, placed in *. destruct (servers w' !! i), (servers w !! i); cbn in *; congruence.
Qed.
Lemma same_places_server w w' i s' :
  same_places w w' -> servers w' !! i = Some s' -> exists s, servers w !! i = Some s /\ skey s' = skey s /\ s_shared_queue s' = s_shared_queue s.
Proof.
  intros Hs Hi. specialize (Hs i). rewrite Hi in Hs. unfold placed in Hs. destruct (servers w !! i) as [s|]; [|done].
  exists s. cbn in Hs. split_and!; congruence.
Qed.

Lemma swappable_same w w' ocs ncs : same_places w w' -> swappable w ocs ncs -> swappable w' ocs ncs.
Proof.
  intros Hs [Hn Ho Hd He Hnm Ha Hq]. split; try done.
  - eapply Forall_impl; [exact He|]. intros i [s Hi]. specialize (Hs i). rewrite Hi in Hs. by destruct (servers w' !! i).
  - intros nc Hnc i j a' b' Hi Hj Ha' Hb' Hab. destruct (same_places_server _ _ _ _ Hs Ha') as (a & Hsa & Ka & _).
    destruct (same_places_server _ _ _ _ Hs Hb') as (b & Hsb & Kb & _). eapply (Ha nc); try done.
    by rewrite (same_server_key a b a' b').
  - intros nc k oc Hnc Hp n s' Hin Hs' Hsh Hf. destruct (same_places_server _ _ _ _ Hs Hs') as (s & Hss & Ks & Kq).
    eapply (Hq nc k oc Hnc Hp n s); [done..|congruence|]. rewrite <- Hf. symmetry. apply find_old_ident; [|done].
    intros i. by apply same_places_ident.
Qed.

(** Every server of the old clusters is told to stop. *)
Lemma server_shutdown_spec w i swap :
  same_places w (server_shutdown w i swap) /\
  (forall j s', servers (server_shutdown w i swap) !! j = Some s' ->
     exists s, servers w !! j = Some s /\ (s_keep_running s <> SERVER_KEEP_RUNNING -> s_keep_running s' <> SERVER_KEEP_RUNNING) /\
       (j = i -> s_keep_running s' <> SERVER_KEEP_RUNNING)).
Proof.
  unfold server_shutdown, same_places. cbn [update servers].
  set (f := fun s : server => if s_keep_running s =? SERVER_KEEP_RUNNING then _ else s).
  assert (forall s, placed (f s) = placed s /\ s_keep_running (f s) <> SERVER_KEEP_RUNNING) as Hf.
  { intros s. unfold f. destruct (Z.eqb_spec (s_keep_running s) SERVER_KEEP_RUNNING); [|done]. by destruct swap. }
  split; intros j.
  - destruct (decide (i = j)) as [->|Hne]; [|by rewrite list_lookup_alter_ne].
    rewrite list_lookup_alter_eq. destruct (servers w !! j) as [s|]; [|done]. cbn. f_equal. apply Hf.
  - intros s'. destruct (decide (i = j)) as [->|Hne].
    + rewrite list_lookup_alter_eq. destruct (servers w !! j) as [s|]; [|done]. intros [= <-]. exists s.
      split_and!; [done|intros _; apply Hf|intros _; apply Hf].
    + rewrite list_lookup_alter_ne by done. intros Hs. exists s'. split_and!; [done..|]. by intros ->.
Qed.

Lemma cluster_shutdown_spec w c swap :
  same_places w (cluster_shutdown w c swap) /\
  (forall j s', servers (cluster_shutdown w c swap) !! j = Some s' ->
     exists s, servers w !! j = Some s /\ (s_keep_running s <> SERVER_KEEP_RUNNING -> s_keep_running s' <> SERVER_KEEP_RUNNING) /\
       (j ∈ cluster_servers c -> s_keep_running s' <> SERVER_KEEP_RUNNING)).
Proof.
  unfold cluster_shutdown. generalize (cluster_servers c). intros l. revert w. induction l as [|i l IH]; intros w; cbn [foldl].
  { split; [done|]. intros j s' Hs. exists s'. split_and!; [done..|]. by intros ?%elem_of_nil. }
  destruct (server_shutdown_spec w i swap) as [Hp1 Hk1]. destruct (IH (server_shutdown w i swap)) as [Hp2 Hk2].
  split; [by eapply same_places_trans|]. intros j s' Hs. destruct (Hk2 j s' Hs) as (s1 & Hs1 & Ha & Hb).
  destruct (Hk1 j s1 Hs1) as (s & Hs0 & Hc & Hd). exists s. split_and!; [done|auto|]. intros [->|Hj]%elem_of_cons; auto.
Qed.

Lemma clusters_shutdown_spec (swap : ccluster -> bool) cls w :
  let w' := foldl (fun w c => cluster_shutdown w c (swap c)) w cls in
  same_places w w' /\
  (forall j s', servers w' !! j = Some s' ->
     exists s, servers w !! j = Some s /\ (s_keep_running s <> SERVER_KEEP_RUNNING -> s_keep_running s' <> SERVER_KEEP_RUNNING) /\
       (j ∈ all_servers cls -> s_keep_running s' <> SERVER_KEEP_RUNNING)).
Proof.
  revert w. induction cls as [|c cls IH]; intros w; cbn [foldl].
  { split; [done|]. intros j s' Hs. exists s'. split_and!; [done..|]. by intros ?%elem_of_nil. }
  destruct (cluster_shutdown_spec w c (swap c)) as [Hp1 Hk1]. destruct (IH (cluster_shutdown w c (swap c))) as [Hp2 Hk2].
  split; [by eapply same_places_trans|]. intros j s' Hs. destruct (Hk2 j s' Hs) as (s1 & Hs1 & Ha & Hb).
  destruct (Hk1 j s1 Hs1) as (s & Hs0 & Hc & Hd). exists s. split_and!; [done|auto|].
  unfold all_servers. csimpl. intros [Hj|Hj]%elem_of_app; auto.
Qed.
Lemma router_shutdown_spec w old newrtr :
  same_places w (router_shutdown w old newrtr) /\
  (forall j s', servers (router_shutdown w old newrtr) !! j = Some s' -> j ∈ all_servers (r_clusters old) ->
     s_keep_running s' <> SERVER_KEEP_RUNNING).
Proof.
  destruct (clusters_shutdown_spec (fun c => match newrtr with Some new => swaps_cluster new c | None => false end) (r_clusters old) w)
    as [Hp Hk].
  split; [exact Hp|]. intros j s' Hs Hj. destruct (Hk j s' Hs) as (s & _ & _ & Hd). by apply Hd.
Qed.
Lemma router_swap_spec timeout create (new old new' old' : router) w w' e e' live live' :
  router_swap timeout create new old (w, e, live) (w', e', live', new', old') ->
  swappable w (r_clusters old) (r_clusters new) ->
  exists w1 e1 live1,
    rtc (thread_step timeout) (router_shutdown w old (Some new), e, live) (w1, e1, live1) /\
    (forall i s, i ∈ all_servers (r_clusters old) -> servers w1 !! i = Some s -> s_keep_running s <> SERVER_KEEP_RUNNING) /\
    queues w' = queues w1 /\ new' = set_clusters new (r_clusters new') /\
    (forall nc k oc, nc ∈ r_clusters new -> partner (r_clusters old) nc = Some (k, oc) ->
       exchanged w w' (cl_queue oc) (cluster_servers nc) (cluster_servers oc)) /\
    (forall i, ~ involved (r_clusters old) (r_clusters new) i -> queue_held w' i = queue_held w i).
Proof.
  intros Hs Hok. inversion Hs as [? ? ? w1 e1 live1 w2 new2 old2 st2 failed Hrun _ Htr Hst]; subst. clear Hs.
  destruct (router_shutdown_spec w old (Some new)) as [Hp Hk]. pose proof (thread_steps_keep _ _ _ Hrun) as Hkeep. cbn in Hkeep.
  assert (same_places w w1) as Hpl by (eapply same_places_trans; [exact Hp|by apply keeps_places]).
  destruct (transplant_clusters_spec w1 (r_clusters old) (r_clusters new)) as (w3 & ocs3 & Etr & [Hq _ Hr Hx]); [by eapply swappable_same|].
  unfold router_transplant_queues in Htr. rewrite Etr in Htr. run_binds. injection Htr as -> <- _.
  destruct (router_start_keeps _ _ _ _ _ Hst) as [Hk3 Hq3]. cbn [fst] in Hk3, Hq3. apply keeps_places in Hk3.
  exists w1, e1, live1. split_and!; [done| |congruence|done|..].
  - intros i s Hi Hsi. destruct Hkeep as [Hkeep _]. specialize (Hkeep i). rewrite Hsi in Hkeep. destruct (servers _ !! i) as [s0|] eqn:E0; [|done].
    specialize (Hk i s0 E0 Hi). cbn in Hkeep. unfold fixed_part in Hkeep. congruence.
  - intros nc k oc Hnc Hpa. destruct (Hx nc k oc Hnc Hpa) as [Hn Ho].
    assert (forall s os, find_old w1 s os = find_old w s os) as Hf.
    { intros s os. apply find_old_ident; [intros i; by apply same_places_ident|done]. }
    assert (forall i si, servers w !! i = Some si -> exists s1, servers w1 !! i = Some s1 /\ skey s1 = skey si /\ s_shared_queue s1 = s_shared_queue si) as Hsv.
    { intros i si Hi. specialize (Hpl i). rewrite Hi in Hpl. unfold placed in Hpl. destruct (servers w1 !! i) as [s1|]; [|done].
      exists s1. cbn in Hpl. split_and!; congruence. }
    split.
    + intros n sn Hin Hsn. destruct (Hsv n sn Hsn) as (s1 & Hs1 & K1 & K2).
      rewrite (same_places_held _ _ n Hk3), (Hn n s1 Hin Hs1), K2, !(same_places_held w w1) by done.
      rewrite (find_old_ident w w1 sn s1 (cluster_servers oc)); [|intros i; by apply same_places_ident|done].
      destruct (find_old w sn (cluster_servers oc)) as [[o|]|]; [|done..]. by apply same_places_held.
    + intros n sn o Hin Hsn Hfo. destruct (Hsv n sn Hsn) as (s1 & Hs1 & K1 & _).
      rewrite (same_places_held _ _ o Hk3), (Ho n s1 o Hin Hs1); [by apply same_places_held|].
      rewrite <- Hfo. apply find_old_ident; [intros i; by apply same_places_ident|done].
  - intros i Hi. rewrite (same_places_held _ _ i Hk3). unfold queue_held. rewrite Hr by done. fold (queue_held w1 i). by apply same_places_held.
Qed.
End Threads.

(** ** Properties *)

(** C11: A reload hands the queues over, when no server is in two clusters, of the old router or of the new
    ([swappable]; with one that is, [shared_server_keeps_new_queue] shows that a server that stays does not get its
    queue). Every old server is told to stop; when its threads are done, what they left in the queues is there
    unchanged, and in each cluster that has a namesake of its type in the new router every new server holds the queue
    of the old server with its address, or the queue the old cluster shares, and the others keep their own. *)
Theorem router_swap_hands_over `{Regex} {Q E : Type} `{FifoQueue Q (list Z)} `{ServerEnv E} (timeout : Z) (create : nat -> nat -> Z)
    (new old new' old' : router) (w w' : world Q) (e e' : E) (live live' : gmap (nat * nat) reader) :
  router_swap timeout create new old (w, e, live) (w', e', live', new', old') ->
  swappable w (r_clusters old) (r_clusters new) ->
  exists w1 e1 live1,
    rtc (thread_step timeout) (router_shutdown w old (Some new), e, live) (w1, e1, live1) /\
    (forall i s, i ∈ all_servers (r_clusters old) -> servers w1 !! i = Some s -> s_keep_running s <> SERVER_KEEP_RUNNING) /\
    queues w' = queues w1 /\
    (forall nc k oc, nc ∈ r_clusters new -> partner (r_clusters old) nc = Some (k, oc) ->
       exchanged w w' (cl_queue oc) (cluster_servers nc) (cluster_servers oc)) /\
    (forall i, ~ involved (r_clusters old) (r_clusters new) i -> queue_held w' i = queue_held w i).
Proof.
  intros Hs Hok. destruct (router_swap_spec _ _ _ _ _ _ _ _ _ _ _ _ Hs Hok) as (w1 & e1 & live1 & Hrun & Hst & Hq & _ & Hx & Hr).
  exists w1, e1, live1. by split_and!.
Qed.

(** A forward cluster. *)
Definition forward_cluster `{Regex} (name : cstring) (l : list nat) : ccluster :=
  mkCl (Some name) Clusttype.FORWARD 1 0 0 0 false None (M_forward l).

(** A server that two clusters share, in the old and in the new router, is swapped once for each: in the end the new server
    holds its own queue again, and what the old one had queued is freed with the old router. *)
Theorem shared_server_keeps_new_queue `{Regex} {Q : Type} (w : world Q) (new old : router) (n o : nat) (sn so : server) :
  n <> o -> servers w !! n = Some sn -> servers w !! o = Some so -> same_server sn so = true ->
  r_clusters new = [forward_cluster (lit "a") [n]; forward_cluster (lit "b") [n]] ->
  r_clusters old = [forward_cluster (lit "a") [o]; forward_cluster (lit "b") [o]] ->
  exists w' new' old', router_transplant_queues w new old = Some (w', new', old') /\
    queue_held w' n = queue_held w n /\ queue_held w' o = queue_held w o.
Proof.
  intros Hne Hn Ho Hsame Ecn Eco. unfold router_transplant_queues. rewrite Ecn, Eco.
  set (a := forward_cluster (lit "a")). set (b := forward_cluster (lit "b")).
  cbn [transplant_clusters].
  change (partner [a [o]; b [o]] (a [n])) with (Some (0%nat, a [o])). cbv iota beta.
  cbn [cluster_servers cl_members a b forward_cluster transplant_servers]. rewrite Hn. run_binds. cbn [find_old]. rewrite Ho. run_binds.
  rewrite Hsame. run_binds. destruct (swap_queue_spec w n o sn so Hne Hn Ho) as (w1 & -> & Ht1 & Hn1 & Ho1). run_binds.
  change (partner (<[0%nat := set_cqueue (a [o]) (cl_queue (a [n]))]> [a [o]; b [o]]) (b [n])) with (Some (1%nat, b [o])). cbv iota beta.
  assert (forall i si, servers w !! i = Some si -> exists si', servers w1 !! i = Some si' /\ skey si' = skey si) as Hsv.
  { intros i si Hi. pose proof (to_ident _ _ _ Ht1 i) as E. unfold ident in E. rewrite Hi in E.
    destruct (servers w1 !! i) as [si'|]; [|done]. exists si'. split; [done|]. cbn in E. congruence. }
  destruct (Hsv n sn Hn) as (sn' & Hn' & Kn). destruct (Hsv o so Ho) as (so' & Ho' & Ko).
  cbn [transplant_servers cluster_servers cl_members b forward_cluster]. rewrite Hn'. run_binds. cbn [find_old]. rewrite Ho'. run_binds.
  rewrite (same_server_key sn' so' sn so) by done. rewrite Hsame. run_binds.
  destruct (swap_queue_spec w1 n o sn' so' Hne Hn' Ho') as (w2 & -> & _ & Hn2 & Ho2). run_binds.
  eexists _, _, _. split; [done|]. by rewrite Hn2, Ho2, Ho1, Hn1.
Qed.

(** ** A concrete reload: the host of cluster [a] stays *)

#[local] Existing Instance simple_engine.
#[local] Existing Instance demo_net_env.
Definition demo_idle (q : nat) : server := with_conns (demo_server q 5 None [] 0 0 SERVER_KEEP_RUNNING) [new_con].
Definition demo_world : world (queue (list Z)) := mkWorld [demo_idle 0; demo_idle 1] [demo_queue 3 [lit "a"]; demo_queue 3 []].
Definition demo_rtr (i : nat) : router :=
  mkRouter [blackhole_cluster; forward_cluster (lit "a") [i]] [] [] [(i, 1)] None 60 [] CUM [] demo_conf.

Lemma demo_swappable : swappable demo_world (r_clusters (demo_rtr 0)) (r_clusters (demo_rtr 1)).
Proof.
  split; cbn.
  - apply NoDup_singleton.
  - apply NoDup_singleton.
  - intros i Hi%list_elem_of_singleton Hj%list_elem_of_singleton. lia.
  - repeat constructor; by eexists.
  - intros [|[|i]] [|[|j]] a b Hij Ha Hb; cbn in *; simplify_eq; try done; lia.
  - intros nc Hnc i j a b Hi Hj. assert (cluster_servers nc = [] \/ cluster_servers nc = [1%nat]) as [E|E]
      by (apply elem_of_cons in Hnc as [->|Hnc%list_elem_of_singleton]; [by left|subst; by right]);
      rewrite E in *; [by apply elem_of_nil in Hi|]. apply list_elem_of_singleton in Hi, Hj. by subst.
  - intros nc k oc Hnc _ n s Hn Hs Hsh. assert (s_shared_queue s = false) as E; [|congruence].
    destruct n as [|[|n]]; cbn in Hs; by simplify_eq.
Qed.

(** The world after the swap: the threads of the old server have ended already. *)
Definition demo_stopped : world (queue (list Z)) := router_shutdown demo_world (demo_rtr 0) (Some (demo_rtr 1)).
Definition demo_transplanted : world (queue (list Z)) * router * router :=
  default (demo_world, demo_rtr 1, demo_rtr 0) (router_transplant_queues demo_stopped (demo_rtr 1) (demo_rtr 0)).
Definition demo_started : world (queue (list Z)) * demo_net * gmap (nat * nat) reader * bool :=
  default (demo_world, mkNet [] [] [], ∅, false)
    (router_start (fun _ _ => 0) (demo_transplanted.1.1, mkNet [] [] [], ∅) (r_srvrs (demo_rtr 1))).

Lemma demo_swap :
  router_swap 30 (fun _ _ => 0) (demo_rtr 1) (demo_rtr 0) (demo_world, mkNet [] [] [], ∅)
    (demo_started.1.1.1, demo_started.1.1.2, demo_started.1.2, demo_transplanted.1.2, demo_transplanted.2).
Proof.
  eapply (router_swap_intro _ _ _ _ demo_world (mkNet [] [] []) ∅ demo_stopped (mkNet [] [] []) ∅ demo_transplanted.1.1
    demo_transplanted.1.2 demo_transplanted.2 demo_started.1 demo_started.2).
  - apply rtc_refl.
  - apply Forall_singleton. vm_compute. reflexivity.
  - vm_compute. reflexivity.
  - vm_compute. reflexivity.
Qed.

(** The new server holds the queue with the metric. *)
Lemma router_swap_hands_over_witness :
  queue_held demo_started.1.1.1 1 = Some (false, 0%nat) /\ queue_held demo_world 0 = Some (false, 0%nat).
Proof.
  destruct (router_swap_hands_over _ _ _ _ _ _ _ _ _ _ _ _ demo_swap demo_swappable) as (w1 & e1 & live1 & _ & _ & _ & Hx & _).
  split; [|reflexivity].
  rewrite (ex_new _ _ _ _ _ (Hx (forward_cluster (lit "a") [1%nat]) 1%nat (forward_cluster (lit "a") [0%nat])
    (list_elem_of_further _ _ _ (list_elem_of_here _ _)) eq_refl) 1%nat (demo_idle 1) (list_elem_of_here _ _) eq_refl).
  reflexivity.
Defined.

Lemma shared_server_keeps_new_queue_witness :
  exists w' new' old',
    router_transplant_queues demo_world (set_clusters (demo_rtr 1) [forward_cluster (lit "a") [1%nat]; forward_cluster (lit "b") [1%nat]])
      (set_clusters (demo_rtr 0) [forward_cluster (lit "a") [0%nat]; forward_cluster (lit "b") [0%nat]]) = Some (w', new', old') /\
    queue_held w' 1 = Some (false, 1%nat) /\ queue_held w' 0 = Some (false, 0%nat).
Proof.
  apply (shared_server_keeps_new_queue demo_world _ _ 1 0 (demo_idle 1) (demo_idle 0)); [lia|reflexivity..].
Defined.
