(* ===== verification/Sighup.v ===== *)
(** * The handler of SIGHUP (src/relay.c, src/router.c)

    [do_reload] puts the parts together: the new router is compared with the one in use, its
    listeners take over the sockets of the old ones or are opened, the workers are held while servers and
    aggregators change hands, and then get the new router.  Also the signals themselves.

    Reading the configuration is not part of it ([ConfActions] has its statements): [read] is what it
    comes to.  So is the program [diff] that [router_printdiffs] runs, whose verdict is [differs], and the log. *)
From S2P Require Import Prelude Relay Queue ConsistentHash Rewrite Matching Router Optimise DispatchParse Dispatcher Server RouterConfig ConfActions Receptor Reload.
#[local] Open Scope Z_scope.

Section Sighup.
Context `{Resolver} `{Regex}.
(** What follows a string's terminator in memory. *)
Context (behind : cstring -> cstring).

(** ** Recognising listeners *)

(** The characters that [strchr("0123456789.:", c)] finds: the terminator is one of them. *)
Definition address_char (c : cchar) : bool := bool_decide (c ∈ lit "0123456789.:") || (c =? 0).
Fixpoint first_other (mem : cstring) : option cchar :=
  match mem with
  | [] => None
  | c :: mem' => if address_char c then first_other mem' else Some c
  end.

(** The name a listener is compared by: what the user wrote, or the text of its first address [hn]. *)
Definition listener_name (ip : option cstring) (hn : cstring) : option cstring :=
  match ip with
  | None => Some hn
  | Some ip => c ← first_other (ip ++ 0 :: behind ip); Some (if c =? 0 then hn else ip)
  end.

Definition first_address (l : rlistener) (unknown : cstring) : cstring :=
  match rl_saddrs l with [] => unknown | a :: _ => saddr_ntop a end.

(** The comparison of two listeners; a Unix socket has a path. *)
Definition listeners_match (l r : rlistener) : option bool :=
  if (rl_transport l =? rl_transport r) && bool_decide (rl_ctype l = rl_ctype r) then
    if bool_decide (rl_ctype l = CON_UNIX) then
      a ← rl_ip l; b ← rl_ip r; Some (strcmp a b =? 0)
    else
      a ← listener_name (rl_ip l) (first_address l (lit "unknown left"));
      b ← listener_name (rl_ip r) (first_address r (lit "unknown right"));
      Some ((rl_port l =? rl_port r) && (strcmp a b =? 0) &&
            (negb (Z.land (rl_transport l) (Z.lnot 65535) =? W_SSL) || (rl_pem l =? rl_pem r)))
  else Some false.

(** [router_contains_listener]: which of the listeners it is. *)
Fixpoint router_contains_listener (ls : list rlistener) (l : rlistener) : option (option nat) :=
  match ls with
  | [] => Some None
  | r :: ls' =>
      m ← listeners_match l r;
      if m : bool then Some (Some 0%nat) else k ← router_contains_listener ls' l; Some (option_map S k)
  end.

(** ** Listeners *)

Context {D E : Type}.
(** The sockets, the certificates and the backlog; memory and events of the dispatcher. *)
Context `{SocketEnv E} (ssl : rlistener -> ssl_answers) (backlog : Z) (ans : nat -> add_answers D) (ev : nat -> bool).
Abbreviation dstate := (state router D).

(** A listener of a router, with the address the dispatcher knows it by; its addresses are freed when the
    dispatcher gives it up. *)
Abbreviation placed_listener := (nat * rlistener)%type.
Definition now_at (st : dstate) (x : placed_listener) : rlistener :=
  match listener_at st !! x.1 with
  | Some l => if l_saddrs l then x.2
              else mkRl (rl_type x.2) (rl_transport x.2) (rl_ctype x.2) (rl_ip x.2) (rl_port x.2) (rl_pem x.2) []
  | None => x.2
  end.

(** Closing the listeners that are not in the new router. *)
Fixpoint close_listeners (st : dstate) (e : E) (olds news : list placed_listener) : option (dstate * E) :=
  match olds with
  | [] => Some (st, e)
  | o :: olds' =>
      m ← router_contains_listener (now_at st <$> news) (now_at st o);
      match m with
      | Some _ => close_listeners st e olds' news
      | None =>
          '(st, _) ← dispatch_removelistener st o.1;
          l ← listener_at st !! o.1;
          let '(e, fds) := shutdownclose e (open_fds st) (now_at st o) (ls_sock <$> l_socks l) in
          close_listeners (set_fds st fds) e olds' news
      end
  end.

(** Taking sockets over, or opening them. *)
Definition with_bound (st : dstate) (a : nat) (socks : list nat) : dstate :=
  set_listeners st (alter (fun l => with_socks l ((fun s => mkLsock s 0 None) <$> socks) (l_saddrs l)) a (listener_at st)) (listeners st).
Fixpoint open_listeners (st : dstate) (e : E) (olds news : list placed_listener) : option (dstate * E) :=
  match news with
  | [] => Some (st, e)
  | n :: news' =>
      m ← router_contains_listener (now_at st <$> olds) (now_at st n);
      match m with
      | Some k =>
          o ← olds !! k;
          '(st, _) ← dispatch_transplantlistener st o.1 n.1;
          open_listeners st e olds news'
      | None =>
          '(e, fds, socks, err) ← bindlisten ssl backlog e (open_fds st) (now_at st n) [];
          let st := with_bound (set_fds st fds) n.1 socks in
          if err : bool then open_listeners st e olds news'
          else '(st, _) ← dispatch_addlistener ans ev st n.1; open_listeners st e olds news'
      end
  end.

(** ** [do_reload] *)

Context {Q N : Type} `{FifoQueue Q (list Z)} `{ServerEnv N}.
Context (timeout : Z) (create : nat -> nat -> Z) (mem : nat) (optimiserthreshold : Z).
Abbreviation running := (world Q * N * gmap (nat * nat) reader)%type.

(** The relay: the servers with their threads, the router in use ([rtr]) with its listeners, the dispatcher, the router the
    collector reports on, and the aggregators that run (none when the thread could not be started). *)
Record relay := mkRelay {
  y_servers : running; y_rtr : router; y_listeners : list placed_listener;
  y_dispatch : dstate; y_collector : router; y_aggregators : list nat;
}.

(** What reading the configuration adds: servers and queues, a router and its listeners. *)
Record reading := mkReading {
  n_world : world Q; n_rtr : router; n_listeners : list placed_listener; n_dispatch : dstate;
}.

(** The early returns, and the whole; [starts] is what [aggregator_start] says.  The collector has taken the new router
    before the workers are held, which the handler waits for. *)
Inductive do_reload (starts : bool) (rl : relay) (e : E) : option reading -> bool -> relay -> E -> Prop :=
  | reload_unreadable differs : do_reload starts rl e None differs rl e
  | reload_unchanged n : do_reload starts rl e (Some n) false rl e
  | reload_done n rs new st1 st2 e1 e2 rl' new' old' :
      router_optimise mem optimiserthreshold (r_routes (n_rtr n)) = Some rs ->
      new = set_routes (n_rtr n) rs ->
      close_listeners (n_dispatch n) e (y_listeners rl) (n_listeners n) = Some (st1, e1) ->
      open_listeners (dispatchs_hold st1) e1 (y_listeners rl) (n_listeners n) = Some (st2, e2) ->
      router_swap timeout create new (y_rtr rl) (n_world n, (y_servers rl).1.2, (y_servers rl).2) (y_servers rl', new', old') ->
      y_dispatch rl' = dispatchs_schedulereload st2 new' ->
      y_rtr rl' = new' -> y_listeners rl' = n_listeners n -> y_collector rl' = new' ->
      y_aggregators rl' = (if starts then r_aggregators new else []) ->
      do_reload starts rl e (Some n) true rl' e2.

(** ** Signals *)

Inductive signal := SIGTERM | SIGINT | SIGQUIT | SIGHUP | SIGUSR1.
Definition MODE_DEBUG : Z := 1.

(** [sig_handler]: a signal is dropped while one is pending. *)
Definition sig_handler (pending : option signal) (sig : signal) : option signal :=
  match pending with None => Some sig | Some _ => pending end.

Inductive signal_effect := FORCED_EXIT | RELOAD | DEBUG (mode : Z) | SHUTDOWN.

(** [handle_signal] *)
Definition handle_signal (keep_running : bool) (mode : Z) (sig : signal) : signal_effect :=
  if negb keep_running then FORCED_EXIT
  else match sig with
       | SIGHUP => RELOAD
       | SIGUSR1 => DEBUG (if Z.land mode MODE_DEBUG =? 0 then Z.lor mode MODE_DEBUG else Z.land mode (Z.lnot MODE_DEBUG))
       | _ => SHUTDOWN
       end.
End Sighup.

(** ** Lemmas *)

(** Whatever a string holds, the search ends at a character that is not the terminator. *)
Lemma first_other_nonzero mem c : first_other mem = Some c -> c <> 0.
Proof.
  induction mem as [|x mem IH]; cbn [first_other]; [done|]. destruct (address_char x) eqn:Ex; [done|]. intros [= <-] ->.
  by apply orb_false_iff in Ex as [_ ?].
Qed.
Lemma listener_name_user behind ip hn s : listener_name behind (Some ip) hn = Some s -> s = ip.
Proof.
  unfold listener_name. destruct (first_other _) as [c|] eqn:Ec; run_binds; [|done]. apply first_other_nonzero in Ec.
  rewrite (proj2 (Z.eqb_neq c 0)) by done. by intros [= <-].
Qed.

(** *** The routers of the workers *)

Definition routers {R D} (st : state R D) : list (option R) := w_rtr <$> workers st.
Lemma routers_alter {R} (f : worker R -> worker R) (d : nat) (ws : list (worker R)) :
  (forall w, w_rtr (f w) = w_rtr w) -> w_rtr <$> alter f d ws = w_rtr <$> ws.
Proof.
  intros Hf. apply list_eq. intros i. rewrite !list_lookup_fmap. destruct (decide (d = i)) as [->|].
  - rewrite list_lookup_alter_eq. destruct (ws !! i); cbn; [by rewrite Hf|done].
  - by rewrite list_lookup_alter_ne.
Qed.
Section Routers.
Context {R D : Type}.
Implicit Types (st : state R D).

Lemma routers_connections st d n : routers (add_connections st d n) = routers st.
Proof. by apply routers_alter. Qed.
Lemma routers_close st d c : routers (dispatch_closeconnection st d c) = routers st.
Proof. unfold routers. cbn. by apply routers_alter. Qed.
Lemma routers_find_slot gaps st sock d (ans : add_answers D) fresh st1 :
  find_slot gaps st sock d ans fresh = Slot st1 \/ find_slot gaps st sock d ans fresh = NoMemory st1 -> routers st1 = routers st.
Proof.
  revert st. induction gaps as [|n gaps IH]; intros st; cbn [find_slot]; repeat case_match; try (intros [?|?]; simplify_eq; try done; by apply routers_alter).
  intros Hs. by rewrite (IH _ Hs).
Qed.
Lemma routers_addconnection gaps (ans : add_answers D) st st' sock lsnr d aggr noexp r :
  dispatch_addconnection gaps ans st sock lsnr d aggr noexp = Some (st', r) -> routers st' = routers st.
Proof.
  unfold dispatch_addconnection. cbv zeta. destruct (find_slot _ _ _ _ _ _) as [|st1| |st1] eqn:Ef; [by intros [= <- _]| |done|].
  - intros [= <- _]. eapply routers_find_slot. by right.
  - rewrite <- (routers_find_slot _ _ _ _ _ _ _ (or_introl Ef)). destruct (an_strm ans) as [b|].
    + unfold dispatch_connection_to_worker. destruct (an_event ans).
      * change (0 =? -1) with false. cbv iota. by intros [= <- _].
      * change (-1 =? -1) with true. cbv iota. intros [= <- _]. unfold routers. cbn. rewrite !routers_alter; done.
    + intros [= <- _]. by apply routers_alter.
Qed.
Lemma routers_add_udp (ans : nat -> add_answers D) l todo acc st st' socks r :
  add_udp ans l todo acc st = Some (st', socks, r) -> routers st' = routers st.
Proof.
  revert acc st. induction todo as [|s todo IH]; intros acc st; cbn [add_udp]; [by intros [= <- _ _]|].
  destruct (dispatch_worker_with_low_connections st) as [[d st1]|] eqn:Ep; [|done].
  assert (routers st1 = routers st) as <-.
  { unfold dispatch_worker_with_low_connections in Ep. destruct (drop 1 _); [done|]. injection Ep as _ <-. apply routers_connections. }
  destruct (dispatch_addconnection _ _ _ _ _ _ _ _) as [[st2 [c|]]|] eqn:Ea; [| |done]; apply routers_addconnection in Ea as <-.
  - intros Hr. by rewrite (IH _ _ Hr).
  - by intros [= <- _ _].
Qed.
Lemma routers_addlistener (ans : nat -> add_answers D) ev st a st' r : dispatch_addlistener ans ev st a = Some (st', r) -> routers st' = routers st.
Proof.
  unfold dispatch_addlistener. destruct (listener_at st !! a) as [l|]; [|done]. case_decide.
  - destruct (add_udp _ _ _ _ _) as [[[st1 socks] r1]|] eqn:Eu; [|done]. apply routers_add_udp in Eu. intros [= <- _]. exact Eu.
  - destruct (free_slot _); [|by intros [= <- _]]. destruct (add_events _ _ _). by intros [= <- _].
Qed.
Lemma routers_remove_socks udp socks st st' : remove_socks udp socks st = Some st' -> routers st' = routers st.
Proof.
  revert st. induction socks as [|s socks IH]; intros st; cbn [remove_socks]; [by intros [= <-]|].
  destruct udp; [|intros Hr; by rewrite (IH _ Hr)]. destruct (connections st !! ls_sock s) as [[c|]|]; [|done..]. intros Hr. by rewrite (IH _ Hr), routers_close.
Qed.
Lemma routers_removelistener st a st' r : dispatch_removelistener st a = Some (st', r) -> routers st' = routers st.
Proof.
  unfold dispatch_removelistener. destruct (listener_at st !! a) as [l|]; [|done]. cbv zeta. case_decide; [|destruct (slot_of _ _); [|by intros [= <- _]]];
    (destruct (remove_socks _ _ _) as [st1|] eqn:E; run_binds; [|done]; apply routers_remove_socks in E; intros [= <- _]; exact E).
Qed.
Lemma routers_transplant st oa na st' r : dispatch_transplantlistener st oa na = Some (st', r) -> routers st' = routers st.
Proof. unfold dispatch_transplantlistener. repeat (case_match; try done); by intros [= <- _]. Qed.
Lemma routers_hold st : routers (dispatchs_hold st) = routers st.
Proof.
  unfold dispatchs_hold. generalize (conn_workers st). intros ds. revert st. induction ds as [|d ds IH]; intros st; cbn [foldl]; [done|].
  rewrite IH. by apply routers_alter.
Qed.
End Routers.

Lemma routers_close_listeners `{Resolver} `{Regex} {D E : Type} `{SocketEnv E} behind (st st' : state router D) (e e' : E) olds news :
  close_listeners behind st e olds news = Some (st', e') -> routers st' = routers st.
Proof.
  revert st e. induction olds as [|o olds IH]; intros st e; cbn [close_listeners]; [by intros [= <- _]|].
  destruct (router_contains_listener _ _ _) as [[k|]|]; run_binds; [apply IH| |done].
  destruct (dispatch_removelistener st o.1) as [[st1 r]|] eqn:Er; run_binds; [|done].
  destruct (listener_at st1 !! o.1) as [l|]; run_binds; [|done]. destruct (shutdownclose _ _ _ _) as [e1 fds].
  intros Hc. rewrite (IH _ _ Hc). by eapply routers_removelistener in Er.
Qed.
Lemma routers_open_listeners `{Resolver} `{Regex} {D E : Type} `{SocketEnv E} behind ssl backlog (ans : nat -> add_answers D) ev (st st' : state router D) (e e' : E) olds news :
  open_listeners behind ssl backlog ans ev st e olds news = Some (st', e') -> routers st' = routers st.
Proof.
  revert st e. induction news as [|n news IH]; intros st e; cbn [open_listeners]; [by intros [= <- _]|].
  destruct (router_contains_listener _ _ _) as [[k|]|]; run_binds; [| |done].
  - destruct (olds !! k) as [o|]; run_binds; [|done]. destruct (dispatch_transplantlistener _ _ _) as [[st1 r]|] eqn:Et; run_binds; [|done].
    intros Ho. rewrite (IH _ _ Ho). by eapply routers_transplant in Et.
  - destruct (bindlisten _ _ _ _ _ _) as [[[[e1 fds] socks] err]|]; run_binds; [|done]. destruct err; [intros Ho; by rewrite (IH _ _ Ho)|].
    destruct (dispatch_addlistener _ _ _ _) as [[st1 r]|] eqn:Ea; run_binds; [|done]. intros Ho. rewrite (IH _ _ Ho). by eapply routers_addlistener in Ea.
Qed.

(** ** Properties *)

(** C40: When a reload with a readable configuration that differs is done, every connection worker routes by the new router
    and none is held or has anything pending; the worker that accepts keeps the pointer it had, which it does not route
    by.  The new router has the optimised routes of the configuration.  If no server is in two clusters ([swappable]), the
    queues of the clusters that stay, and of their servers, have been handed over.  (Aggregations go on only if their
    thread could be started, [starts].) *)
Theorem reload_switches_routers `{Resolver} `{Regex} {D E Q N : Type} `{SocketEnv E} `{FifoQueue Q (list Z)} `{ServerEnv N}
    behind ssl backlog (ans : nat -> add_answers D) ev timeout create mem threshold (starts : bool) (rl rl' : relay) (e e' : E) (n : reading) :
  do_reload (Q := Q) (N := N) behind ssl backlog ans ev timeout create mem threshold starts rl e (Some n) true rl' e' ->
  (forall d w, (0 < d)%nat -> workers (y_dispatch rl') !! d = Some w ->
     w_rtr w = Some (y_rtr rl') /\ w_pending_rtr w = None /\ w_route_refresh_pending w = false /\ w_hold w = false) /\
  w_rtr <$> workers (y_dispatch rl') !! 0%nat = w_rtr <$> workers (n_dispatch n) !! 0%nat /\
  router_optimise mem threshold (r_routes (n_rtr n)) = Some (r_routes (y_rtr rl')) /\
  (forall nc k oc, swappable (n_world n) (r_clusters (y_rtr rl)) (r_clusters (n_rtr n)) -> nc ∈ r_clusters (n_rtr n) ->
     partner (r_clusters (y_rtr rl)) nc = Some (k, oc) ->
     exchanged (n_world n) (y_servers rl').1.1 (cl_queue oc) (cluster_servers nc) (cluster_servers oc)).
Proof.
  intros Hr. inversion Hr as [| |n0 rs new st1 st2 e1 e2 rl0 new' old' Ho -> Hcl Hop Hs Ed Er El Ec Ea]; subst n0 rl0 e2. clear Hr.
  assert (new' = set_clusters (set_routes (n_rtr n) rs) (r_clusters new')) as Enew.
  { inversion Hs as [? ? ? w1 e3 live1 w2 new2 old2 st' failed _ _ Htr _]. subst. unfold router_transplant_queues in Htr.
    destruct (transplant_clusters _ _ _) as [[[w3 ncs] ocs]|]; run_binds; [|done]. injection Htr as _ E2 _. by rewrite <- E2. }
  destruct (schedulereloads_state new' (conn_workers st2) st2 (NoDup_seq _ _)) as (Rw & _).
  { unfold conn_workers. apply Forall_seq. lia. }
  split_and!.
  - intros d w Hd. rewrite Ed, Er. unfold dispatchs_schedulereload.
    intros Hw. assert (d < length (workers st2))%nat as Hlt.
    { rewrite Rw in Hw. destruct (workers st2 !! d) eqn:E0; [|done]. by eapply lookup_lt_Some. }
    rewrite Rw in Hw. rewrite decide_True in Hw by (unfold conn_workers; apply elem_of_seq; lia).
    destruct (workers st2 !! d) as [w0|]; [|done]. injection Hw as <-. done.
  - rewrite Ed. unfold dispatchs_schedulereload. rewrite Rw, decide_False by (unfold conn_workers; rewrite elem_of_seq; lia).
    rewrite option_fmap_id, <- !list_lookup_fmap. fold (routers st2) (routers (n_dispatch n)).
    by rewrite (routers_open_listeners _ _ _ _ _ _ _ _ _ _ _ Hop), routers_hold, (routers_close_listeners _ _ _ _ _ _ _ Hcl).
  - rewrite Ho, Er, Enew. done.
  - intros nc k oc Hsw Hnc Hp. destruct (y_servers rl') as [[w' n'] live'].
    destruct (router_swap_spec _ _ _ _ _ _ _ _ _ _ _ _ Hs) as (w1 & e3 & live1 & _ & _ & _ & _ & Hx & _); [done|].
    by apply (Hx nc k oc).
Qed.

(** ** A concrete reload *)

Section Demo.
#[local] Existing Instance simple_engine.
#[local] Existing Instance demo_resolver.
#[local] Existing Instance demo_net_env.
#[local] Existing Instance demo_unbound.

Definition demo_worker (i : nat) : worker router :=
  mkWorker (demo_disp false) LISTENER true true 0 0 0 (mkPrevs 0 0 0 0 0) (Some (demo_rtr i)) None false false (mkTv 0 0).
Definition demo_dispatchers : state router cstring := mkState [demo_worker 0; demo_worker 0] ∅ [] [] 0 0 0 ∅.
Definition demo_before : relay (D := cstring) (Q := queue (list Z)) (N := demo_net) :=
  mkRelay (demo_world, mkNet [] [] [], ∅) (demo_rtr 0) [] demo_dispatchers (demo_rtr 0) [].
Definition demo_after : relay (D := cstring) (Q := queue (list Z)) (N := demo_net) :=
  mkRelay (demo_started.1.1.1, demo_started.1.1.2, demo_started.1.2) demo_transplanted.1.2 []
    (dispatchs_schedulereload (dispatchs_hold demo_dispatchers) demo_transplanted.1.2) demo_transplanted.1.2 [].
Lemma demo_reload (ans : nat -> add_answers cstring) :
  do_reload (fun _ => []) (fun _ => mkSsl true true true true) 5 ans (fun _ => true) 30 (fun _ _ => 0) 100 50 true demo_before tt
    (Some (mkReading demo_world (demo_rtr 1) [] demo_dispatchers)) true demo_after tt.
Proof.
  by eapply (reload_done _ _ _ _ _ _ _ _ _ _ _ tt _ [] (demo_rtr 1) demo_dispatchers (dispatchs_hold demo_dispatchers) tt tt
    demo_after demo_transplanted.1.2 demo_transplanted.2); [..|exact demo_swap| | | | |].
Qed.

Lemma reload_switches_routers_witness  :
  w_rtr <$> workers (y_dispatch demo_after) !! 1%nat = Some (Some (y_rtr demo_after)).
Proof.
  destruct (reload_switches_routers _ _ _ _ _ _ _ _ _ _ _ _ _ _ _ (demo_reload (fun _ => demo_answers))) as (Hw & _).
  destruct (workers (y_dispatch demo_after) !! 1%nat) as [w|] eqn:E; [|vm_compute in E; done].
  destruct (Hw 1%nat w ltac:(lia) E) as (Ew & _). change (Some (w_rtr w) = Some (Some (y_rtr demo_after))). by rewrite Ew.
Defined.
End Demo.

(** Listeners are compared by what the user wrote: the search for a character that does not belong to an address takes the
    terminator for one that does, and reads on behind the string, so addresses are never brought to a canonical form. *)
Theorem listener_addresses_not_canonical (behind : cstring -> cstring) :
  (forall ip hn s, listener_name behind (Some ip) hn = Some s -> s = ip) /\
  (forall ip hn, forallb address_char ip = true -> behind ip = [] -> listener_name behind (Some ip) hn = None).
Proof.
  split; [intros ip hn s; apply listener_name_user|]. intros ip hn Hip Hb. unfold listener_name. rewrite Hb.
  assert (first_other (ip ++ [0]) = None) as ->; [|done]. clear Hb.
  induction ip as [|c ip IH]; [done|]. cbn in Hip |- *. apply andb_true_iff in Hip as [-> Hip]. by apply IH.
Qed.
Lemma listener_addresses_not_canonical_witness :
  listener_name (fun _ => lit "x") (Some (lit "0:0:0:0:0:0:0:1")) (lit "::1") = Some (lit "0:0:0:0:0:0:0:1") /\
  listener_name (fun _ => []) (Some (lit "127.0.0.1")) (lit "127.0.0.1") = None.
Proof.
  split; [exact eq_refl|].
  exact (proj2 (listener_addresses_not_canonical (fun _ => [])) (lit "127.0.0.1") (lit "127.0.0.1") eq_refl eq_refl).
Defined.

(** A UDP listener that stays loses its sockets: it is not in the dispatcher's table, so nothing is taken over, and
    removing the new listener later closes no socket. *)
Theorem udp_listener_loses_sockets {R D : Type} (st : state R D) (oa na : nat) (l : listener) :
  slot_of (listeners st) oa = None -> listener_at st !! na = Some l -> l_ctype l = CON_UDP -> l_socks l = [] ->
  dispatch_transplantlistener st oa na = Some (st, 0) /\
  exists st', dispatch_removelistener st na = Some (st', 0) /\ connections st' = connections st /\ open_fds st' = open_fds st.
Proof.
  intros Hs Hl Hu Hsocks. unfold dispatch_transplantlistener. rewrite Hs. split; [done|].
  unfold dispatch_removelistener. rewrite Hl, Hsocks. rewrite decide_True by done. by eexists.
Qed.
Lemma udp_listener_loses_sockets_witness :
  let new := mkListener W_PLAIN CON_UDP [] true in
  let st : state nat nat := mkState [] {[1%nat := new]} [None] [] 0 0 0 {[5%nat]} in
  exists st', dispatch_removelistener st 1 = Some (st', 0) /\ connections st' = connections st /\ open_fds st' = open_fds st.
Proof.
  intros new st. apply (udp_listener_loses_sockets st 0 1 new); [reflexivity..].
Defined.
