(* ===== verification/Free.v ===== *)
(** * Freeing a router (src/router.c, src/server.c)

    [router_free] and what it calls, after a failed read, after a reload or at the end.
    What is allocated outside the router's region is a [resource]; [mem] has those that
    were freed.  Freeing one again, or looking at a queue that is gone, is undefined
    behaviour.  A queue's owner is its server, or the cluster whose servers share it.

    Routes carry what the code compares as pointers here: the identity of the list of
    destinations they share with the other routes of their statement, and that of their
    array of compiled expressions. *)
From S2P Require Import Prelude Relay Queue ConsistentHash Rewrite Matching Router Optimise Server RouterConfig ConfActions Reload.
From Stdlib Require Import Sorting.Permutation.
#[local] Open Scope Z_scope.

(** ** Resources *)

(** What belongs to one server. *)
Inductive piece := P_batch (n : nat) | P_nextstrm (n : nat) | P_strm (n : nat) | P_instance | P_saddr | P_hint | P_ip | P_secpos | P_struct.
(** An expression is compiled once for each dispatcher, [k]. *)
Inductive resource := R_queue (q : nat) | R_server (i : nat) (p : piece) | R_regex (rule k : nat).
#[export] Instance piece_eq_dec : EqDecision piece.
Proof. solve_decision. Defined.
#[export] Instance resource_eq_dec : EqDecision resource.
Proof. solve_decision. Defined.

#[export] Instance R_queue_inj : Inj (=) (=) R_queue.
Proof. by intros x y [= ->]. Qed.
#[export] Instance R_server_inj i : Inj (=) (=) (R_server i).
Proof. by intros x y [= ->]. Qed.

(** What was freed, the last first, and the messages about dropped metrics: server and number. *)
Record mem := mkMem { m_freed : list resource; m_log : list (nat * nat) }.

(** Why freeing does not come to its end (yet): undefined behaviour, or a thread that is joined runs. *)
Inductive stuck := Undefined | Joining (i n : nat).
Definition sum_bind {A B S : Type} (x : A + S) (f : A -> B + S) : B + S := match x with inl a => f a | inr e => inr e end.
Notation "x ←? a ; b" := (sum_bind a (fun x => b)) (at level 20, a at level 100, b at level 200, right associativity).
Definition or_undefined {A : Type} (x : option A) : A + stuck := match x with Some a => inl a | None => inr Undefined end.

Definition release_one (x : resource) (m : mem) : mem + stuck :=
  if decide (x ∈ m_freed m) then inr Undefined else inl (mkMem (x :: m_freed m) (m_log m)).
Fixpoint release_all (xs : list resource) (m : mem) : mem + stuck :=
  match xs with
  | [] => inl m
  | x :: xs' => m ←? release_one x m; release_all xs' m
  end.

Section Free.
Context `{Regex} {Q : Type} `{FifoQueue Q (list Z)}.
Implicit Types (w : world Q) (m : mem) (r : router).

(** ** Routes *)

Inductive lcluster :=
  | L_group (name : cstring) (rs : list lroute)
  | L_aggrstub (rs : list lroute)
  | L_statstub (rs : list lroute)
  | L_validation (rule : lroute) (action : validate_action)
  | L_other (c : cluster nat nat)
with lroute := mkL (m : matcher) (rule : nat) (masq : option cstring) (stop : bool) (dests_id : nat) (dests : list lcluster).
Definition l_id (x : lroute) : nat := let 'mkL _ _ _ _ id _ := x in id.

(** The route without identities. *)
Definition l_match (x : lroute) : matcher := let 'mkL mt _ _ _ _ _ := x in mt.
Fixpoint erase (x : lroute) : route nat nat :=
  match x with
  | mkL mt _ masq stop _ dests =>
      mkRoute mt masq stop (map (fun d =>
        match d with
        | L_group name rs => GROUP name (map erase rs)
        | L_aggrstub rs => AGGRSTUB (map erase rs)
        | L_statstub rs => STATSTUB (map erase rs)
        | L_validation rule a => VALIDATION (l_match rule) a
        | L_other c => c
        end) dests)
  end.

(** Does the next route have other destinations? *)
Definition last_with (x : lroute) (rest : list lroute) : bool :=
  match rest with [] => true | y :: _ => negb (l_id y =? l_id x)%nat end.

(** The calls of [regfree] by [router_free_intern], in order: for one route, and for a list. *)
Definition rule_calls (workercnt : nat) (mt : matcher) (rule : nat) : list resource :=
  if bool_decide (m_type mt = REGEX) then R_regex rule <$> seq 0 workercnt else [].
Fixpoint route_calls (workercnt : nat) (last : bool) (x : lroute) : list resource :=
  match x with
  | mkL mt rule _ _ _ dests =>
      rule_calls workercnt mt rule ++
      (if last then
         concat (map (fun d =>
           match d with
           | L_group _ rs | L_aggrstub rs | L_statstub rs =>
               (fix on_routes (rs : list lroute) : list resource :=
                  match rs with
                  | [] => []
                  | y :: rs' => route_calls workercnt (last_with y rs') y ++ on_routes rs'
                  end) rs
           | L_validation rule _ => route_calls workercnt true rule
           | L_other _ => []
           end) dests)
       else [])
  end.
Fixpoint regfree_calls (workercnt : nat) (rs : list lroute) : list resource :=
  match rs with
  | [] => []
  | x :: rs' => route_calls workercnt (last_with x rs') x ++ regfree_calls workercnt rs'
  end.
Definition router_free_intern (workercnt : nat) (rs : list lroute) m : mem + stuck := release_all (regfree_calls workercnt rs) m.

(** ** Servers *)

(** A compressor's stream is in front of the socket's. *)
Definition has_nextstrm (s : server) : bool :=
  let t := Z.land (s_transport s) 65535 in (t =? W_GZIP) || (t =? W_LZ4) || (t =? W_SNAPPY).
Definition con_pieces (s : server) (n : nat) : list piece :=
  P_batch n :: (if has_nextstrm s then [P_nextstrm n] else []) ++ [P_strm n].
Definition server_pieces (s : server) : list piece :=
  concat (con_pieces s <$> seq 0 (s_nconns s)) ++
  match s_instance s with Some _ => [P_instance] | None => [] end ++ match s_saddr s with Some _ => [P_saddr] | None => [] end ++
  (if s_reresolve s then [P_hint] else []) ++ [P_ip; P_secpos; P_struct].

(** [server_cleanup] *)
Definition server_cleanup w (i : nat) m : mem + stuck :=
  s ←? or_undefined (servers w !! i);
  m ←? (if bool_decide (s_ctype s = CON_TCP) then
          if decide (R_queue (s_queue s) ∈ m_freed m) then inr Undefined
          else
            q ←? or_undefined (queues w !! s_queue s);
            inl (if (0 <? fq_len q)%nat then mkMem (m_freed m) (m_log m ++ [(i, fq_len q)]) else m)
        else inl m);
  m ←? (if s_shared_queue s then inl m else release_one (R_queue (s_queue s)) m);
  release_all (R_server i <$> server_pieces s) m.

(** [server_free]: the threads that run are joined first. *)
Definition server_free (live : gmap (nat * nat) reader) w (i : nat) m : mem + stuck :=
  s ←? or_undefined (servers w !! i);
  match list_find (fun n => is_Some (live !! (i, n))) (seq 0 (s_nconns s)) with
  | Some (_, n) => inr (Joining i n)
  | None => server_cleanup w i m
  end.

Fixpoint free_servers (live : gmap (nat * nat) reader) w (l : list nat) m : mem + stuck :=
  match l with
  | [] => inl m
  | i :: l' => m ←? server_free live w i m; free_servers live w l' m
  end.

(** [cluster_free] *)
Definition cluster_free (cl : ccluster) m : mem + stuck :=
  match cl_queue cl with Some q => release_one (R_queue q) m | None => inl m end.
Fixpoint free_clusters (cls : list ccluster) m : mem + stuck :=
  match cls with
  | [] => inl m
  | cl :: cls' => m ←? cluster_free cl m; free_clusters cls' m
  end.

(** [router_free]; the region with the rest of the router goes last. *)
Definition router_free (live : gmap (nat * nat) reader) w (rs : list lroute) r m : mem + stuck :=
  m ←? router_free_intern (f_workercnt (r_conf r)) rs m;
  m ←? free_servers live w (r_srvrs r).*1 m;
  free_clusters (r_clusters r) m.

(** ** What is freed *)

(** The queues that servers have for themselves, those of a router, and everything it frees. *)
Definition own_queue w (i : nat) : option nat := s ← servers w !! i; if s_shared_queue s then None else Some (s_queue s).
Definition own_queues w r : list nat := omap (own_queue w) (r_srvrs r).*1 ++ omap cl_queue (r_clusters r).
Definition server_owned w (i : nat) : list resource :=
  match servers w !! i with
  | Some s => (if s_shared_queue s then [] else [R_queue (s_queue s)]) ++ (R_server i <$> server_pieces s)
  | None => []
  end.
Definition router_owned w (rs : list lroute) r : list resource :=
  regfree_calls (f_workercnt (r_conf r)) rs ++ concat (server_owned w <$> (r_srvrs r).*1) ++ (R_queue <$> omap cl_queue (r_clusters r)).

Lemma release_all_spec xs m :
  NoDup (xs ++ m_freed m) -> release_all xs m = inl (mkMem (rev xs ++ m_freed m) (m_log m)).
Proof.
  revert m. induction xs as [|x xs IH]; intros m; cbn [release_all rev app]; [by destruct m|].
  intros [Hx Hn]%NoDup_cons. apply not_elem_of_app in Hx as [Hx Hf]. unfold release_one. rewrite decide_False by done. cbn [sum_bind].
  rewrite IH; cbn [m_freed m_log]; [by rewrite <- (assoc_L app)|]. rewrite cons_middle, (assoc_L app).
  rewrite (Permutation_app_comm xs [x]), <- (assoc_L app). apply NoDup_cons. split; [|done]. by apply not_elem_of_app.
Qed.
Lemma release_all_twice xs m : ~ NoDup xs -> release_all xs m = inr Undefined.
Proof.
  enough (forall m', release_all xs m = inl m' -> NoDup xs /\ (forall x, x ∈ xs -> x ∉ m_freed m)) as Hok.
  { intros Hn. destruct (release_all xs m) as [m'|e] eqn:E; [by destruct (Hok m' eq_refl)|]. clear Hok Hn.
    revert m E. induction xs as [|x xs IH]; intros m; cbn [release_all]; [done|]. unfold release_one.
    case_decide; cbn [sum_bind]; [congruence|by apply IH]. }
  intros m'. revert m. induction xs as [|x xs IH]; intros m; cbn [release_all].
  { intros _. split; [apply NoDup_nil_2|]. by intros x ?%elem_of_nil. }
  unfold release_one. case_decide as Hx; cbn [sum_bind]; [done|]. intros [Hn Hf]%IH. cbn in Hf. split.
  - apply NoDup_cons. split; [|done]. intros Hin. apply (Hf x Hin). by left.
  - intros y [->|Hy]%elem_of_cons; [done|]. specialize (Hf y Hy). by apply not_elem_of_cons in Hf as [_ ?].
Qed.

(** The threads of the server have ended. *)
Definition ended (live : gmap (nat * nat) reader) (i : nat) : Prop := forall n, live !! (i, n) = None.
(** What freeing the server looks at is there. *)
Definition cleanable w (fr : list resource) (i : nat) : Prop :=
  exists s, servers w !! i = Some s /\ is_Some (queues w !! s_queue s) /\ R_queue (s_queue s) ∉ fr.

Lemma server_free_spec live w i m :
  ended live i -> cleanable w (m_freed m) i -> NoDup (server_owned w i ++ m_freed m) ->
  exists log, server_free live w i m = inl (mkMem (rev (server_owned w i) ++ m_freed m) log).
Proof.
  intros He (s & Hs & (q & Hq) & Hf) Hn. unfold server_free, server_cleanup, server_owned in *. rewrite Hs in *. cbn [or_undefined sum_bind].
  replace (list_find _ _) with (@None (nat * nat)).
  2: { symmetry. apply list_find_None, Forall_true. intros n. rewrite He. by intros [? ?]. }
  set (looked := if bool_decide (s_ctype s = CON_TCP) then _ else _).
  assert (exists log, looked = inl (mkMem (m_freed m) log)) as (log & ->).
  { unfold looked. case_bool_decide; [|exists (m_log m); by destruct m]. rewrite decide_False, Hq by done. cbn [or_undefined sum_bind].
    destruct (_ <? _)%nat; [by eexists|exists (m_log m); by destruct m]. }
  cbn [sum_bind]. destruct (s_shared_queue s); cbn [app sum_bind] in *.
  - rewrite release_all_spec by done. by eexists.
  - unfold release_one. cbn [m_freed m_log]. rewrite decide_False by done. cbn [sum_bind]. rewrite release_all_spec; cbn [m_freed m_log].
    + eexists. cbn [rev]. by rewrite <- (assoc_L app).
    + by rewrite Permutation_app_comm, <- app_comm_cons, Permutation_app_comm.
Qed.

(** A list of servers can be freed: their queues are there, and the shared ones stay. *)
Definition cleanables w (l : list nat) (fr : list resource) : Prop :=
  forall i, i ∈ l -> cleanable w fr i /\ (own_queue w i = None -> cleanable w (concat (server_owned w <$> l)) i).

Lemma own_queue_owned w i s : servers w !! i = Some s -> own_queue w i <> None -> R_queue (s_queue s) ∈ server_owned w i.
Proof. unfold own_queue, server_owned. intros ->. run_binds. destruct (s_shared_queue s); [done|]. intros _. by left. Qed.
Lemma cleanables_cons w i l fr :
  NoDup (concat (server_owned w <$> i :: l) ++ fr) -> cleanables w (i :: l) fr -> cleanables w l (rev (server_owned w i) ++ fr).
Proof.
  cbn [fmap list_fmap concat]. intros Hn Hc j Hj. destruct (Hc j (list_elem_of_further _ _ _ Hj)) as [(s & Hs & Hq & Hf) Hsh].
  assert (R_queue (s_queue s) ∉ server_owned w i) as Hi.
  { destruct (own_queue w j) as [q|] eqn:Eq.
    - assert (R_queue (s_queue s) ∈ server_owned w j) as Hin by (apply own_queue_owned; [done|by rewrite Eq]).
      rewrite <- (assoc_L app) in Hn. apply NoDup_app in Hn as (_ & Hd & _). intros Hi. apply (Hd _ Hi), elem_of_app. left.
      apply list_elem_of_In, in_concat. exists (server_owned w j). split; apply list_elem_of_In; [by apply list_elem_of_fmap_2|done].
    - destruct (Hsh eq_refl) as (s' & Hs' & _ & Hf'). simplify_eq. cbn in Hf'. by apply not_elem_of_app in Hf' as [? _]. }
  split.
  - exists s. split_and!; [done..|]. apply not_elem_of_app. split; [|done]. by rewrite list_elem_of_In, <- in_rev, <- list_elem_of_In.
  - intros Eq. destruct (Hsh Eq) as (s' & Hs' & Hq' & Hf'). exists s'. split_and!; [done..|]. cbn in Hf'. by apply not_elem_of_app in Hf' as [_ ?].
Qed.
Lemma free_servers_spec live w l m :
  Forall (ended live) l -> cleanables w l (m_freed m) -> NoDup (concat (server_owned w <$> l) ++ m_freed m) ->
  exists log, free_servers live w l m = inl (mkMem (rev (concat (server_owned w <$> l)) ++ m_freed m) log).
Proof.
  intros He. revert m. induction He as [|i l Hi He IH]; intros m Hc Hn; cbn [free_servers]; [exists (m_log m); by destruct m|].
  assert (NoDup (server_owned w i ++ m_freed m)) as Hn1.
  { cbn in Hn. rewrite <- (assoc_L app), (Permutation_app_comm (concat _)), (assoc_L app) in Hn. by apply NoDup_app in Hn as (? & _ & _). }
  destruct (server_free_spec live w i m Hi) as (log & ->); [apply Hc; by left|done|]. cbn [sum_bind].
  destruct (IH (mkMem (rev (server_owned w i) ++ m_freed m) log)) as (log' & ->); cbn [m_freed].
  - by apply cleanables_cons.
  - cbn in Hn. rewrite <- (Permutation_rev (server_owned w i)), (assoc_L app), (Permutation_app_comm (concat _)). done.
  - exists log'. cbn. by rewrite rev_app_distr, <- (assoc_L app).
Qed.
Lemma free_clusters_spec cls m :
  NoDup ((R_queue <$> omap cl_queue cls) ++ m_freed m) ->
  free_clusters cls m = inl (mkMem (rev (R_queue <$> omap cl_queue cls) ++ m_freed m) (m_log m)).
Proof.
  intros Hn. rewrite <- (release_all_spec _ _ Hn). clear Hn. revert m. induction cls as [|cl cls IH]; intros m; cbn [free_clusters]; [done|].
  unfold cluster_free. cbn. destruct (cl_queue cl); cbn [sum_bind fmap list_fmap release_all]; [|by apply IH].
  destruct (release_one _ m); cbn [sum_bind]; [by apply IH|done].
Qed.

(** The routes below a destination, and induction on them. *)
Definition l_sub (d : lcluster) : list lroute :=
  match d with L_group _ rs | L_aggrstub rs | L_statstub rs => rs | L_validation x _ => [x] | L_other _ => [] end.
Section LInduction.
Context (P : lroute -> Prop).
Context (Hstep : forall mt rule masq stop id dests, Forall (fun d => Forall P (l_sub d)) dests -> P (mkL mt rule masq stop id dests)).
Fixpoint lroute_tree_ind (x : lroute) : P x :=
  match x with
  | mkL mt rule masq stop id dests =>
      Hstep mt rule masq stop id dests
        ((fix on_dests (ds : list lcluster) : Forall (fun d => Forall P (l_sub d)) ds :=
            match ds with
            | [] => Forall_nil_2 _
            | d :: ds' =>
                Forall_cons_2 _ d ds'
                  (let on_routes := fix on_routes (rs : list lroute) : Forall P rs :=
                     match rs with
                     | [] => Forall_nil_2 _
                     | y :: rs' => Forall_cons_2 _ y rs' (lroute_tree_ind y) (on_routes rs')
                     end in
                   match d as d0 return Forall P (l_sub d0) with
                   | L_group _ rs | L_aggrstub rs | L_statstub rs => on_routes rs
                   | L_validation y _ => Forall_cons_2 _ y [] (lroute_tree_ind y) (Forall_nil_2 _)
                   | L_other _ => Forall_nil_2 _
                   end)
                  (on_dests ds')
            end) dests)
  end.
End LInduction.

(** The calls for one destination. *)
Definition dest_calls (workercnt : nat) (d : lcluster) : list resource :=
  match d with
  | L_group _ rs | L_aggrstub rs | L_statstub rs => regfree_calls workercnt rs
  | L_validation x _ => route_calls workercnt true x
  | L_other _ => []
  end.
Lemma route_calls_eq workercnt last mt rule masq stop id dests :
  route_calls workercnt last (mkL mt rule masq stop id dests) =
  rule_calls workercnt mt rule ++ (if last then concat (dest_calls workercnt <$> dests) else []).
Proof.
  cbn [route_calls]. destruct last; [|done]. do 2 f_equal.
  assert (forall rs, (fix on_routes (rs : list lroute) : list resource :=
    match rs with [] => [] | y :: rs' => route_calls workercnt (last_with y rs') y ++ on_routes rs' end) rs = regfree_calls workercnt rs) as E.
  { induction rs as [|y rs IH]; cbn [regfree_calls]; [done|]. by rewrite <- IH. }
  apply map_ext. intros [] ; cbn [dest_calls]; by rewrite ?E.
Qed.

(** Every call is for one of the first [workercnt] expressions of a rule. *)
Lemma route_calls_regex workercnt x last : Forall (fun y => exists k n, y = R_regex k n /\ (n < workercnt)%nat) (route_calls workercnt last x).
Proof.
  revert last. apply (lroute_tree_ind (fun x => forall last, Forall _ (route_calls workercnt last x))).
  intros mt rule masq stop id dests IH last. rewrite route_calls_eq. apply Forall_app. split.
  - unfold rule_calls. case_bool_decide; [|apply Forall_nil_2]. apply Forall_fmap, Forall_forall. intros n [_ Hn]%elem_of_seq. cbn. eauto.
  - destruct last; [|apply Forall_nil_2]. apply Forall_concat, Forall_fmap. eapply Forall_impl; [exact IH|]. intros d Hd.
    assert (forall rs, Forall (fun x => forall last, Forall (fun y => exists k n, y = R_regex k n /\ (n < workercnt)%nat) (route_calls workercnt last x)) rs ->
      Forall (fun y => exists k n, y = R_regex k n /\ (n < workercnt)%nat) (regfree_calls workercnt rs)) as Hl.
    { induction 1 as [|y rs Hy _ IHrs]; cbn [regfree_calls]; [apply Forall_nil_2|]. by apply Forall_app. }
    unfold compose. destruct d; cbn [dest_calls l_sub] in *; try (by apply Hl); [|apply Forall_nil_2]. by apply Forall_cons in Hd as [? _].
Qed.
Lemma regfree_calls_regex workercnt rs : Forall (fun y => exists k n, y = R_regex k n /\ (n < workercnt)%nat) (regfree_calls workercnt rs).
Proof. induction rs as [|x rs IH]; cbn [regfree_calls]; [apply Forall_nil_2|]. apply Forall_app. split; [apply route_calls_regex|done]. Qed.

Lemma router_free_spec live w rs r :
  Forall (ended live) (r_srvrs r).*1 -> cleanables w (r_srvrs r).*1 [] -> NoDup (router_owned w rs r) ->
  exists log, router_free live w rs r (mkMem [] []) = inl (mkMem (rev (router_owned w rs r)) log).
Proof.
  intros He Hc Hn. unfold router_free, router_free_intern, router_owned in *.
  pose proof (regfree_calls_regex (f_workercnt (r_conf r)) rs) as Hrx. rewrite Forall_forall in Hrx.
  set (calls := regfree_calls _ _) in *. set (own := concat _) in *. set (cls := R_queue <$> _) in *.
  assert (forall xs, NoDup (calls ++ xs) -> NoDup (xs ++ rev calls)) as Hmove.
  { intros xs. rewrite <- Permutation_rev. by rewrite Permutation_app_comm. }
  rewrite release_all_spec by (apply NoDup_app in Hn as (? & _ & _); by rewrite app_nil_r). cbn [sum_bind m_freed m_log]. rewrite app_nil_r.
  destruct (free_servers_spec live w (r_srvrs r).*1 (mkMem (rev calls) [])) as (log & ->); cbn [m_freed sum_bind].
  - done.
  - intros i Hi. destruct (Hc i Hi) as [(s & Hs & Hq & _) Hsh]. split; [|done]. exists s. split_and!; [done..|].
    rewrite list_elem_of_In, <- in_rev, <- list_elem_of_In. intros (? & ? & ? & _)%Hrx. done.
  - apply Hmove. rewrite (assoc_L app) in Hn. by apply NoDup_app in Hn as (? & _ & _).
  - rewrite free_clusters_spec; cbn [m_freed m_log].
    + exists log. by rewrite !rev_app_distr, (assoc_L app).
    + fold own cls. rewrite <- Permutation_rev. rewrite (assoc_L app), (Permutation_app_comm cls). by apply Hmove.
Qed.

(** ** When a router can be freed *)

(** Each queue has one owner, and servers that share one do not look at a server's own. *)
Record freeable w r : Prop := mkFreeable {
  fb_srvrs : NoDup (r_srvrs r).*1;
  fb_exist : forall i, i ∈ (r_srvrs r).*1 -> exists s, servers w !! i = Some s /\ (s_queue s < length (queues w))%nat;
  fb_queues : NoDup (own_queues w r);
  fb_shared : forall i s, i ∈ (r_srvrs r).*1 -> servers w !! i = Some s -> s_shared_queue s = true ->
    s_queue s ∉ omap (own_queue w) (r_srvrs r).*1;
}.

Lemma concat_bind {A B} (f : A -> list B) l : concat (f <$> l) = l ≫= f.
Proof. induction l as [|x l IH]; [done|]. cbn. by rewrite IH. Qed.
Lemma server_pieces_nodup s : NoDup (server_pieces s).
Proof.
  unfold server_pieces. rewrite concat_bind. apply NoDup_app. split_and!.
  - apply NoDup_bind; [| |apply NoDup_seq].
    + intros m n p _ _ Hm Hn. unfold con_pieces in *. destruct (has_nextstrm s); cbn in *; set_solver.
    + intros n _. unfold con_pieces. destruct (has_nextstrm s); cbn; repeat (apply NoDup_cons; split; [set_solver|]); apply NoDup_nil_2.
  - intros p (n & Hp & _)%list_elem_of_bind. unfold con_pieces in Hp. destruct (has_nextstrm s), (s_instance s), (s_saddr s), (s_reresolve s);
      cbn in *; set_solver.
  - destruct (s_instance s), (s_saddr s), (s_reresolve s); cbn; repeat (apply NoDup_cons; split; [set_solver|]); apply NoDup_nil_2.
Qed.

Definition pieces_of w (i : nat) : list resource :=
  match servers w !! i with Some s => R_server i <$> server_pieces s | None => [] end.
Lemma owned_split w l :
  concat (server_owned w <$> l) ≡ₚ (R_queue <$> omap (own_queue w) l) ++ (l ≫= pieces_of w).
Proof.
  induction l as [|i l IH]; [done|]. csimpl. rewrite IH. unfold server_owned, pieces_of at 2, own_queue at 2.
  destruct (servers w !! i) as [s|]; run_binds; [|done]. destruct (s_shared_queue s); cbn.
  - by rewrite (Permutation_app_swap_app _ (R_queue <$> _)).
  - apply Permutation_skip. by rewrite (Permutation_app_swap_app _ (R_queue <$> _)).
Qed.
Lemma pieces_of_server w l x : x ∈ l ≫= pieces_of w -> exists i p, x = R_server i p /\ i ∈ l.
Proof.
  intros (i & Hx & Hi)%list_elem_of_bind. unfold pieces_of in Hx. destruct (servers w !! i) as [s|]; [|by apply elem_of_nil in Hx].
  apply list_elem_of_fmap in Hx as (p & -> & _). eauto.
Qed.
Lemma queue_owned w l q : R_queue q ∈ concat (server_owned w <$> l) <-> q ∈ omap (own_queue w) l.
Proof.
  rewrite owned_split, elem_of_app. split.
  - intros [(q' & [= ->] & ?)%list_elem_of_fmap|(i & p & ? & _)%pieces_of_server]; done.
  - intros Hq. left. by apply list_elem_of_fmap_2.
Qed.

Lemma router_owned_split w rs r :
  router_owned w rs r ≡ₚ regfree_calls (f_workercnt (r_conf r)) rs ++ (R_queue <$> own_queues w r) ++ ((r_srvrs r).*1 ≫= pieces_of w).
Proof.
  unfold router_owned, own_queues. rewrite owned_split, fmap_app. rewrite <- !(assoc_L app). do 2 f_equiv. apply Permutation_app_comm.
Qed.
Lemma router_owned_nodup w rs r : freeable w r -> NoDup (regfree_calls (f_workercnt (r_conf r)) rs) -> NoDup (router_owned w rs r).
Proof.
  intros Hf Hrx. pose proof (regfree_calls_regex (f_workercnt (r_conf r)) rs) as Hall. rewrite Forall_forall in Hall.
  rewrite router_owned_split. apply NoDup_app. split_and!; [done| |apply NoDup_app; split_and!].
  - intros x (k & n & -> & _)%Hall [(q & ? & _)%list_elem_of_fmap|(i & p & ? & _)%pieces_of_server]%elem_of_app; done.
  - apply (NoDup_fmap_2 R_queue), Hf.
  - intros x (q & -> & _)%list_elem_of_fmap (i & p & ? & _)%pieces_of_server. done.
  - apply NoDup_bind; [| |apply Hf].
    + intros i j x _ _ Hi Hj. unfold pieces_of in *. destruct (servers w !! i), (servers w !! j); set_solver.
    + intros i _. unfold pieces_of. destruct (servers w !! i); [|apply NoDup_nil_2]. apply (NoDup_fmap_2 (R_server i)), server_pieces_nodup.
Qed.

(** The router is freed, all of it and each part once. *)
Lemma freeable_freed live w rs r :
  freeable w r -> NoDup (regfree_calls (f_workercnt (r_conf r)) rs) -> Forall (ended live) (r_srvrs r).*1 ->
  exists m, router_free live w rs r (mkMem [] []) = inl m /\ NoDup (m_freed m) /\ (forall x, x ∈ m_freed m <-> x ∈ router_owned w rs r).
Proof.
  intros Hf Hrx He. assert (NoDup (router_owned w rs r)) as Hn by (by apply router_owned_nodup).
  destruct (router_free_spec live w rs r He) as (log & Hr); [|done|].
  - intros i Hi. destruct (fb_exist _ _ Hf i Hi) as (s & Hs & Hq). apply lookup_lt_is_Some in Hq. split.
    + exists s. split_and!; [done..|]. apply not_elem_of_nil.
    + intros Eo. exists s. split_and!; [done..|]. rewrite queue_owned. apply (fb_shared _ _ Hf i); [done..|].
      unfold own_queue in Eo. rewrite Hs in Eo. revert Eo. run_binds. by destruct (s_shared_queue s).
  - eexists. split; [done|]. cbn [m_freed]. split; [by rewrite <- Permutation_rev|]. intros x. by rewrite <- Permutation_rev.
Qed.
Lemma router_owned_queue w rs r q : R_queue q ∈ router_owned w rs r <-> q ∈ own_queues w r.
Proof.
  rewrite router_owned_split, !elem_of_app. split.
  - pose proof (regfree_calls_regex (f_workercnt (r_conf r)) rs) as Hrx. rewrite Forall_forall in Hrx.
    intros [(k & n & ? & _)%Hrx|[(q' & [= ->] & ?)%list_elem_of_fmap|(i & p & ? & _)%pieces_of_server]]; done.
  - intros Hq. right. left. by apply list_elem_of_fmap_2.
Qed.

Lemma router_owned_server w rs r i : R_server i P_struct ∈ router_owned w rs r <-> i ∈ (r_srvrs r).*1 /\ is_Some (servers w !! i).
Proof.
  rewrite router_owned_split, !elem_of_app. split.
  - pose proof (regfree_calls_regex (f_workercnt (r_conf r)) rs) as Hrx. rewrite Forall_forall in Hrx.
    intros [(k & n & ? & _)%Hrx|[(q' & ? & ?)%list_elem_of_fmap|(j & Hj & Hin)%list_elem_of_bind]]; [done..|].
    unfold pieces_of in Hj. destruct (servers w !! j) as [s|] eqn:Ej; [|by apply elem_of_nil in Hj].
    apply list_elem_of_fmap in Hj as (p & [= -> _] & _). by rewrite Ej.
  - intros [Hi [s Hs]]. right. right. apply list_elem_of_bind. exists i. split; [|done]. unfold pieces_of. rewrite Hs.
    apply (list_elem_of_fmap_2 (R_server i)). unfold server_pieces. rewrite !elem_of_app. do 4 right. set_solver.
Qed.

End Free.

(** ** The routers that are configured *)

Section Configured.
Context `{Resolver} `{Filesystem} `{Regex} {Q : Type} `{FifoQueue Q (list Z)} (queue_of : nat -> Q) `{Qsort (ch_ring_entry nat)}.
Context (qts qte : Z) (aggr_ptr : nat -> cstring) (rtr_ptr : cstring) (hostname : cstring) (hostmatch : option (list regmatch)).
Implicit Types (w : world Q) (r : router).

(** A router that was built from world [w0] on, with clusters [cls] that are not part of it yet: its servers and queues
    are the new ones, and a server that shares a queue is in the cluster that has it. *)
Record config_owned (w0 w : world Q) r (cls : list ccluster) : Prop := mkCo {
  co_servers : (length (servers w0) <= length (servers w))%nat;
  co_before : forall i, (i < length (servers w0))%nat -> queue_held w i = queue_held w0 i;
  co_srvrs : (r_srvrs r).*1 = seq (length (servers w0)) (length (servers w) - length (servers w0));
  co_more : (length (queues w0) <= length (queues w))%nat;
  co_queues : omap (own_queue w) (r_srvrs r).*1 ++ omap cl_queue (r_clusters r ++ cls)
    ≡ₚ seq (length (queues w0)) (length (queues w) - length (queues w0));
  co_shared : forall i s, i ∈ (r_srvrs r).*1 -> servers w !! i = Some s -> s_shared_queue s = true ->
    exists cl, cl ∈ r_clusters r ++ cls /\ i ∈ cluster_servers cl /\ cl_queue cl = Some (s_queue s);
}.

Lemma own_queue_held w i : own_queue w i = match queue_held w i with Some (false, q) => Some q | _ => None end.
Proof. unfold own_queue, queue_held. destruct (servers w !! i) as [s|]; run_binds; [|done]. cbn. by destruct (s_shared_queue s). Qed.
Lemma held_server w w' i s' :
  queue_held w' i = queue_held w i -> servers w' !! i = Some s' ->
  exists s, servers w !! i = Some s /\ s_shared_queue s = s_shared_queue s' /\ s_queue s = s_queue s'.
Proof. unfold queue_held. intros Hh Hs. rewrite Hs in Hh. destruct (servers w !! i) as [s|]; [|done]. exists s. cbn in Hh. split_and!; congruence. Qed.
Lemma omap_ext_in {A B} (f g : A -> option B) (l : list A) : (forall x, x ∈ l -> f x = g x) -> omap f l = omap g l.
Proof.
  induction l as [|x l IH]; intros Hx; [done|]. csimpl. rewrite (Hx x) by left. rewrite IH; [done|]. intros y Hy. apply Hx. by right.
Qed.

(** Steps that leave the queues with their owners. *)
Lemma co_held w0 w w' r cls :
  (forall i, queue_held w' i = queue_held w i) -> length (servers w') = length (servers w) -> length (queues w') = length (queues w) ->
  config_owned w0 w r cls -> config_owned w0 w' r cls.
Proof.
  intros Hh Es Eq [Hs Hb Hsr Hm Hq Hsh]. split; rewrite ?Es, ?Eq; try done.
  - intros i Hi. by rewrite Hh, Hb.
  - rewrite (omap_ext_in (own_queue w') (own_queue w)); [done|]. intros i _. by rewrite !own_queue_held, Hh.
  - intros i s' Hi Hs' Hshr. destruct (held_server w w' i s' (Hh i) Hs') as (s & Hss & E1 & E2). rewrite <- E2. apply (Hsh i s); congruence.
Qed.
Lemma co_update w0 w r cls i f :
  (forall s, s_shared_queue (f s) = s_shared_queue s /\ s_queue (f s) = s_queue s) ->
  config_owned w0 w r cls -> config_owned w0 (update w i f) r cls.
Proof.
  intros Hf. apply co_held; [|by cbn; rewrite length_alter|done]. intros j. unfold queue_held. cbn. destruct (decide (i = j)) as [->|Hne].
  - rewrite list_lookup_alter_eq. destruct (servers w !! j) as [s|]; [|done]. cbn. by destruct (Hf s) as [-> ->].
  - by rewrite list_lookup_alter_ne.
Qed.
Lemma co_foldl {X} (f : world Q -> X -> world Q) w0 w r cls l :
  (forall w x, config_owned w0 w r cls -> config_owned w0 (f w x) r cls) -> config_owned w0 w r cls -> config_owned w0 (foldl f w l) r cls.
Proof. intros Hf. revert w. induction l as [|x l IH]; intros w Hw; cbn; auto. Qed.
Lemma co_router w0 w r r' cls cls' :
  (r_srvrs r').*1 = (r_srvrs r).*1 -> omap cl_queue (r_clusters r' ++ cls') ≡ₚ omap cl_queue (r_clusters r ++ cls) ->
  (forall cl, cl ∈ r_clusters r ++ cls -> exists cl', cl' ∈ r_clusters r' ++ cls' /\ cluster_servers cl ⊆ cluster_servers cl' /\ cl_queue cl' = cl_queue cl) ->
  config_owned w0 w r cls -> config_owned w0 w r' cls'.
Proof.
  intros Es Eq Hc [Hs Hb Hsr Hm Hq Hsh]. split; rewrite ?Es; try done; [by rewrite Eq|].
  intros i s Hi Hss Hshr. destruct (Hsh i s Hi Hss Hshr) as (cl & Hcl & Hin & Hcq). destruct (Hc cl Hcl) as (cl' & Hcl' & Hsub & Ecq).
  exists cl'. split_and!; [done|by apply Hsub|congruence].
Qed.
(** A cluster's servers. *)
Lemma co_cluster w0 w r cl cl' :
  cl_queue cl' = cl_queue cl -> cluster_servers cl ⊆ cluster_servers cl' -> config_owned w0 w r [cl] -> config_owned w0 w r [cl'].
Proof.
  intros Eq Hs. apply co_router; [done|rewrite !omap_app; cbn; by rewrite Eq|]. intros c [Hc|Hc%list_elem_of_singleton]%elem_of_app.
  - exists c. rewrite elem_of_app. auto.
  - subst c. exists cl'. split_and!; [|done..]. apply elem_of_app. right. by left.
Qed.
Lemma seq_snoc a k : seq a (S k) = seq a k ++ [(a + k)%nat].
Proof. by rewrite seq_S. Qed.
(** A new queue for the cluster. *)
Lemma co_new_queue w0 w r cl cl' x :
  cl_queue cl = None -> cl_queue cl' = Some (length (queues w)) -> cluster_servers cl ⊆ cluster_servers cl' ->
  config_owned w0 w r [cl] -> config_owned w0 (mkWorld (servers w) (queues w ++ [x])) r [cl'].
Proof.
  intros E0 E1 Hsub [Hs Hb Hsr Hm Hq Hsh]. split; cbn; rewrite ?length_app; cbn; try done; [lia|..].
  - rewrite omap_app in Hq |- *. cbn in Hq |- *. rewrite E0 in Hq. rewrite E1. rewrite app_nil_r in Hq.
    replace (length (queues w) + 1 - length (queues w0))%nat with (S (length (queues w) - length (queues w0))) by lia.
    rewrite seq_snoc, <- Hq. replace (length (queues w0) + (length (queues w) - length (queues w0)))%nat with (length (queues w)) by lia.
    by rewrite <- (assoc_L app).
  - intros i s Hi Hss Hshr. destruct (Hsh i s Hi Hss Hshr) as (c & Hc & Hin & Hcq). exists c. split_and!; [|done..].
    apply elem_of_app in Hc as [Hc|Hc%list_elem_of_singleton]; [apply elem_of_app; by left|]. subst c. congruence.
Qed.

(** A new server, which joins the cluster it is made for. *)
Lemma co_new_server w0 w r cl cl' s x n w' :
  let k := length (servers w) in
  w' = mkWorld (servers w ++ [s]) (match cl_queue cl with Some _ => queues w | None => queues w ++ [x] end) ->
  s_shared_queue s = match cl_queue cl with Some _ => true | None => false end ->
  s_queue s = default (length (queues w)) (cl_queue cl) ->
  cl_queue cl' = cl_queue cl -> cluster_servers cl' = cluster_servers cl ++ [k] ->
  config_owned w0 w r [cl] -> config_owned w0 w' (set_srvrs r (r_srvrs r ++ [(k, n)])) [cl'].
Proof.
  intros k -> Esh Esq Ecq Ecs [Hs Hb Hsr Hm Hq Hsh]. set (w' := mkWorld _ _).
  assert (forall i, i ∈ (r_srvrs r).*1 -> servers w' !! i = servers w !! i) as Hold.
  { intros i Hi. rewrite Hsr in Hi. apply elem_of_seq in Hi. cbn. apply lookup_app_l. lia. }
  assert (servers w' !! k = Some s) as Hk by (cbn; by rewrite lookup_app_r, Nat.sub_diag by lia).
  assert (length (servers w') = S k) as Elen by (cbn; rewrite length_app; cbn; lia).
  assert (length (queues w0) <= length (queues w'))%nat as Hm' by (cbn; destruct (cl_queue cl); rewrite ?length_app; cbn; lia).
  assert (omap (own_queue w') (r_srvrs r).*1 = omap (own_queue w) (r_srvrs r).*1) as Eold.
  { apply omap_ext_in. intros i Hi. unfold own_queue. by rewrite Hold. }
  split; rewrite ?Elen; cbn [set_srvrs r_srvrs r_clusters]; [lia| | |done|..].
  { intros i Hi. rewrite <- Hb by done. unfold queue_held. cbn. by rewrite lookup_app_l by lia. }
  all: rewrite fmap_app; cbn [fmap list_fmap fst].
  - replace (S k - length (servers w0))%nat with (S (k - length (servers w0))) by lia. rewrite seq_snoc, Hsr. repeat f_equal. lia.
  - rewrite !omap_app, Eold. cbn [omap list_omap]. rewrite omap_app in Hq. cbn [omap list_omap] in Hq. rewrite Ecq.
    unfold own_queue at 2. rewrite Hk. run_binds. rewrite Esh, Esq. destruct (cl_queue cl) as [q|] eqn:Ec; cbn [default].
    + by rewrite app_nil_r.
    + cbn [w' queues]. rewrite app_nil_r in *. rewrite length_app. cbn [length].
      replace (length (queues w) + 1 - length (queues w0))%nat with (S (length (queues w) - length (queues w0))) by lia.
      rewrite seq_snoc, <- Hq. replace (length (queues w0) + (length (queues w) - length (queues w0)))%nat with (length (queues w)) by lia.
      rewrite <- !(assoc_L app). f_equiv. apply Permutation_app_comm.
  - intros i s' [Hi|Hi%list_elem_of_singleton]%elem_of_app Hs' Hshr.
    + rewrite Hold in Hs' by done. destruct (Hsh i s' Hi Hs' Hshr) as (c & Hc & Hin & Hcq).
      apply elem_of_app in Hc as [Hc|Hc%list_elem_of_singleton]; [exists c; rewrite elem_of_app; auto|]. subst c.
      exists cl'. rewrite Ecs, Ecq, !elem_of_app. split_and!; auto. right. by left.
    + subst i. rewrite Hk in Hs'. injection Hs' as <-. exists cl'. rewrite Ecs, Ecq, Esq, !elem_of_app.
      rewrite Esh in Hshr. destruct (cl_queue cl); [|done]. split_and!; [right; by left|right; by left|done].
Qed.

Lemma add_member_queue w cl i n cl' : add_member w cl i n = Some (inl cl') -> cl_queue cl' = cl_queue cl.
Proof.
  unfold add_member. destruct (cl_members cl) as [l|repl ring l|count arr l| | | |]; try (by intros [= <-]).
  - destruct (ch_addnode ring i) as [[ring'|]|]; run_binds; try done. by intros [= <-].
  - destruct (_ <? _); [done|]. by intros [= <-].
Qed.

Lemma add_one_owned w0 w r cl h ip hint walk w' r' cl' :
  same_kind (cl_members cl) (cl_members cl) -> config_owned w0 w r [cl] ->
  add_one queue_of qts qte w r cl h ip hint walk = Some (inl (w', r', cl')) -> config_owned w0 w' r' [cl'].
Proof.
  intros Hk Ho. unfold add_one. destruct (find_server _ _ _ _ _ _ _) as [found|] eqn:Ef; run_binds; [|done].
  set (new := match found with Some _ => _ | None => _ end).
  assert (forall w1 r1 i n cl1, new = Some (w1, r1, i, n) -> cl_queue cl1 = cl_queue cl -> cluster_servers cl1 = cluster_servers cl ++ [i] ->
    config_owned w0 w1 r1 [cl1]) as Hnew.
  { unfold new. intros w1 r1 i n cl1. destruct found as [k|].
    - destruct (find_server_lookup _ _ _ _ _ _ _ _ Ef) as ([j c] & _ & Hj). rewrite Nat.sub_0_r in Hj. rewrite Hj. run_binds.
      intros [= <- <- <- <-] Eq Es. assert (cluster_servers cl ⊆ cluster_servers cl1) as Hsub by (rewrite Es; set_solver).
      eapply co_router; [| | |exact (co_cluster _ _ _ _ cl1 Eq Hsub Ho)]; cbn; [|done|eauto].
      rewrite list_fmap_insert. apply list_insert_id. by rewrite list_lookup_fmap, Hj.
    - unfold server_new. destruct (cl_queue cl) as [q|] eqn:Ec; intros [= <- <- <- <-] Eq Es;
        (eapply (co_new_server _ _ _ _ _ _ (queue_of (f_queuesize (r_conf r)))); [cbn; rewrite Ec; reflexivity|..|exact Ho]); cbn; rewrite ?Ec; done. }
  clearbody new. destruct new as [[[[w1 r1] i] n]|]; run_binds; [|done].
  destruct (servers w1 !! i) as [s|]; run_binds; [|done]. destruct (if 1 <? n then _ else _); [done|].
  set (w2 := match h_inst h with Some _ => _ | None => _ end).
  destruct (add_member w2 cl i n) as [[cl2|]|] eqn:Em; run_binds; try done. intros [= <- <- <-].
  destruct (add_member_servers _ _ _ _ _ Hk Em) as (_ & _ & _ & Es & _).
  assert (config_owned w0 w1 r1 [cl2]) as Ho1 by (eapply Hnew; [done|by eapply add_member_queue|done]).
  unfold w2. destruct (h_inst h); [|done]. by apply co_update.
Qed.
Lemma add_all_owned saddrs w0 w r cl h ip in_buf w' r' cl' :
  same_kind (cl_members cl) (cl_members cl) -> config_owned w0 w r [cl] ->
  add_all queue_of qts qte w r cl h saddrs ip in_buf = Some (inl (w', r', cl')) -> config_owned w0 w' r' [cl'].
Proof.
  revert w r cl ip in_buf. induction saddrs as [|a saddrs IH]; intros w r cl ip in_buf Hk Ho; cbn [add_all].
  { by intros [= <- <- <-]. }
  destruct (add_one _ _ _ _ _ _ _ _ _ _) as [[[[w1 r1] cl1]|]|] eqn:E; run_binds; try done.
  apply IH; [|by eapply add_one_owned]. eapply grown_kind. by eapply add_one_grown.
Qed.
Lemma router_add_server_owned w0 w r h useall cl w' r' cl' :
  same_kind (cl_members cl) (cl_members cl) -> config_owned w0 w r [cl] ->
  router_add_server queue_of qts qte w r h useall cl = Some (inl (w', r', cl')) -> config_owned w0 w' r' [cl'].
Proof.
  intros Hk Ho. unfold router_add_server. destruct (if _ && _ then _ else _) as [w1 cl1] eqn:E0.
  assert (config_owned w0 w1 r [cl1] /\ cl_members cl1 = cl_members cl) as [Ho1 Em].
  { destruct (_ && _) eqn:Eb; injection E0 as <- <-; [|done]. apply andb_prop in Eb as [_ Eq%bool_decide_eq_true].
    split; [|done]. eapply co_new_queue; [exact Eq|done|by intros ? ?|exact Ho]. }
  clear E0. destruct useall.
  - destruct (bool_decide (h_saddrs h = [])); [done|]. apply add_all_owned; [rewrite Em; exact Hk|exact Ho1].
  - apply add_one_owned; [rewrite Em; exact Hk|exact Ho1].
Qed.
Lemma add_hosts_owned hosts w0 w r cl useall w' r' cl' :
  same_kind (cl_members cl) (cl_members cl) -> config_owned w0 w r [cl] ->
  add_hosts queue_of qts qte w r cl useall hosts = Some (inl (w', r', cl')) -> config_owned w0 w' r' [cl'].
Proof.
  revert w r cl. induction hosts as [|h hosts IH]; intros w r cl Hk Ho; cbn [add_hosts]; [by intros [= <- <- <-]|].
  destruct (router_add_server _ _ _ _ _ _ _ _) as [[[[w1 r1] cl1]|]|] eqn:E; run_binds; try done.
  apply IH; [|by eapply router_add_server_owned]. eapply grown_kind. by eapply router_add_server_grown.
Qed.

(** [router_add_cluster] takes a cluster into the router. *)
Lemma router_add_cluster_owned w0 w r cl w' r' :
  config_owned w0 w r [cl] -> router_add_cluster w r cl = Some (inl (w', r')) -> config_owned w0 w' r' [].
Proof.
  intros Ho. unfold router_add_cluster. destruct (existsb _ _); [done|]. destruct (bool_decide (r_clusters r = [])); [done|].
  assert (forall w1 cl1, config_owned w0 w1 r [cl] -> cl_queue cl1 = cl_queue cl -> cluster_servers cl1 = cluster_servers cl ->
    config_owned w0 w1 (set_clusters r (r_clusters r ++ [cl1])) []) as Hin.
  { intros w1 cl1 Ho1 Eq Es. eapply co_router; [| | |exact Ho1]; cbn; rewrite ?app_nil_r; [done|rewrite !omap_app; cbn; by rewrite Eq|].
    intros c [Hc|Hc%list_elem_of_singleton]%elem_of_app; [exists c; rewrite elem_of_app; auto|]. subst c. exists cl1.
    rewrite Es, elem_of_app. split_and!; [right; by left|done..]. }
  assert (forall w1 l secs, config_owned w0 w1 r [cl] -> config_owned w0 (add_secondaries w1 l secs) r [cl]) as Hsec.
  { intros w1 l secs. apply co_foldl. intros w2 i. by apply co_update. }
  destruct (cl_members cl) as [l|repl ring l|count arr l| | | |] eqn:Em; try (intros [= <- <-]; by apply Hin).
  - destruct (_ <? _)%nat; [done|]. intros [= <- <-]. apply Hin; [|done..]. destruct (cl_isdynamic cl); auto.
  - destruct (bool_decide (l = [])); [done|]. destruct (_ <? _); [done|]. intros [= <- <-].
    apply Hin; [|done|unfold cluster_servers; by rewrite Em]. apply Hsec. destruct (bool_decide _); [|done].
    apply co_foldl; [|done]. intros w2 i. by apply co_update.
Qed.
(** A cluster without servers and queue can be added. *)
Lemma co_bare w0 w r cl : cl_queue cl = None -> config_owned w0 w r [] -> config_owned w0 w r [cl].
Proof.
  intros Eq. apply co_router; [done|rewrite !omap_app; cbn; by rewrite Eq|]. intros c Hc. rewrite app_nil_r in Hc. exists c.
  rewrite elem_of_app. auto.
Qed.
Lemma co_routes w0 w r r' :
  r_srvrs r' = r_srvrs r -> r_clusters r' = r_clusters r -> config_owned w0 w r [] -> config_owned w0 w r' [].
Proof. intros Es Ec. apply co_router; rewrite ?Es, ?Ec; [done..|eauto]. Qed.

Ltac keep_owned := match goal with Ho : config_owned ?w0 ?w ?r [] |- config_owned ?w0 ?w _ [] => apply (co_routes w0 w r); [by cbn|by cbn|exact Ho] end.

Lemma config_cluster_owned paths w0 w r name type useall dyn repl connections ttl ts te hosts w' r' :
  config_owned w0 w r [] -> config_cluster queue_of qts qte paths w r name type useall dyn repl connections ttl ts te hosts = Some (inl (w', r')) ->
  config_owned w0 w' r' [].
Proof.
  intros Ho. unfold config_cluster. destruct (cluster_ival_overflows _ _ _); [done|]. destruct (cluster_set_threshold ts te) as [[ts' te']|]; [|done].
  destruct (initial_members paths type repl (length hosts)) as [ms|] eqn:Em; [|done].
  assert (same_kind ms ms) as Hk.
  { unfold initial_members in Em. destruct paths; [destruct type; by simplify_eq|].
    destruct (ch_type_of type); [destruct (_ || _); by simplify_eq|]. destruct type; by simplify_eq. }
  destruct (cluster_new _ _ _ _ _ _ _ _ _ _) as [w1 cl] eqn:Ec.
  assert (config_owned w0 w1 r [cl] /\ cl_members cl = ms) as [Ho1 Ecl].
  { unfold cluster_new in Ec. destruct (_ || _); injection Ec as <- <-; (split; [|done]); [|by apply co_bare].
    eapply (co_new_queue _ _ _ blackhole_cluster); [done|done|by intros i ?%elem_of_nil|by apply co_bare]. }
  destruct (add_hosts _ _ _ w1 r cl useall hosts) as [[[[w2 r2] cl2]|]|] eqn:Ea; run_binds; try done.
  apply router_add_cluster_owned. eapply add_hosts_owned; [by rewrite Ecl|exact Ho1|exact Ea].
Qed.
Lemma stubroute_owned w0 w r type ptr dw w' r' stub :
  config_owned w0 w r [] -> router_add_stubroute w r type ptr dw = Some (inl (w', r', stub)) -> config_owned w0 w' r' [].
Proof.
  intros Ho. unfold router_add_stubroute. destruct (router_add_cluster _ _ _) as [[[w1 r1]|]|] eqn:Ea; run_binds; try done.
  apply (router_add_cluster_owned w0) in Ea; [|by apply co_bare]. destruct type; try done; intros [= <- <- _]; keep_owned.
Qed.
Lemma set_destinations_owned w0 w r cls w' r' :
  config_owned w0 w r [] -> set_destinations rtr_ptr w r cls = Some (inl (w', r')) -> config_owned w0 w' r' [].
Proof.
  intros Ho. unfold set_destinations, router_set_statistics. case_bool_decide; run_binds; [|done].
  destruct (router_add_stubroute _ _ _ _ _) as [[[[w1 r1] stub]|]|] eqn:Ea; run_binds; try done. intros [= <- <-]. by eapply stubroute_owned.
Qed.
Lemma collectorvals_owned w0 w r intv prefix mode r' :
  config_owned w0 w r [] -> router_set_collectorvals hostname hostmatch r intv prefix mode = inl r' -> config_owned w0 w r' [].
Proof.
  intros Ho. unfold router_set_collectorvals. destruct prefix as [p|]; [|intros [= <-]; keep_owned].
  destruct hostmatch as [pm|]; [|done]. destruct (router_rewrite_metric _ _ _ _ _) as [[cp fs]|]; [|done]. intros [= <-]. keep_owned.
Qed.
Lemma config_aggregate_owned w0 w r exprs intv expire pctls dsts stop w' r' :
  config_owned w0 w r [] -> config_aggregate aggr_ptr w r exprs intv expire pctls dsts stop = Some (inl (w', r')) -> config_owned w0 w' r' [].
Proof.
  intros Ho. unfold config_aggregate. destruct (match_exprs _ exprs) as [ms|]; [|done]. destruct (existsb _ _); [done|].
  destruct (match_dsts r dsts) as [[cls|]|]; run_binds; try done.
  destruct (_ <=? _); [done|]. destruct (_ <=? _); [done|]. destruct (_ <=? _); [done|].
  destruct (router_add_cluster _ _ _) as [[[w1 r1]|]|] eqn:Ea; run_binds; try done.
  apply (router_add_cluster_owned w0) in Ea; [|apply co_bare; [done|keep_owned]].
  match goal with |- context [add_routes r1 ms ?a ?b ?c] => destruct (add_routes_spec ms r1 a b c) as (E1 & E2 & _ & _) end.
  case_bool_decide as Hd; [intros [= <- <-]; keep_owned|].
  destruct (router_add_stubroute _ _ _ _ _) as [[[[w3 r3] stub]|]|] eqn:Es; run_binds; try done; intros [= <- <-].
  - eapply stubroute_owned; [|exact Es]. keep_owned.
  - keep_owned.
Qed.
Lemma listeners_owned w0 w r type trnsp pem rcs r' :
  config_owned w0 w r [] -> add_listeners r type trnsp pem rcs = Some (inl r') -> config_owned w0 w r' [].
Proof.
  revert r. induction rcs as [|rc rcs IH]; intros r Ho; cbn [add_listeners]; [by intros [= <-]|].
  destruct (router_add_listener _ _ _ _ _ _ _ _) as [[r2|]|] eqn:El; run_binds; try done. apply IH.
  unfold router_add_listener in El. destruct (_ && _); [done|]. destruct (clash_any _ _ _ _ _) as [[|]|]; run_binds; try done.
  injection El as <-. keep_owned.
Qed.

Lemma run_stmt_owned w0 w r s w' r' :
  config_owned w0 w r [] -> run_stmt queue_of qts qte aggr_ptr rtr_ptr hostname hostmatch w r s = Some (inl (w', r')) -> config_owned w0 w' r' [].
Proof.
  intros Ho. destruct s; cbn [run_stmt].
  - destruct (cluster_hosts hosts) as [[hs|]|]; run_binds; try done. by apply config_cluster_owned.
  - destruct (cluster_paths paths) as [[hs|]|]; run_binds; try done. by apply config_cluster_owned.
  - unfold config_match. destruct (match_exprs _ _) as [ms|]; [|done]. destruct (match val with Some _ => _ | None => _ end) as [vs|]; [|done].
    destruct (match_dsts r dsts) as [[cls|]|]; run_binds; try done. intros [= <- <-].
    match goal with |- context [add_routes r ms ?a ?b ?c] => destruct (add_routes_spec ms r a b c) as (E1 & E2 & _ & _) end. keep_owned.
  - unfold config_rewrite. destruct (router_validate_expression _ _); [|done]. intros [= <- <-]. keep_owned.
  - by apply config_aggregate_owned.
  - unfold config_send. destruct (match_dsts r dsts) as [[cls|]|]; run_binds; try done. by apply set_destinations_owned.
  - unfold config_statistics. destruct (match intv with Some _ => _ | None => _ end); [done|].
    destruct (match_dsts r dsts) as [[cls|]|]; run_binds; try done. destruct (router_set_collectorvals _ _ _ _ _ _) as [r1|] eqn:Ec; [|done].
    apply (collectorvals_owned w0 w) in Ec; [|done]. case_bool_decide; [by intros [= <- <-]|]. by apply set_destinations_owned.
  - unfold config_listen. destruct (receptors rss) as [[rcs|]|]; run_binds; try done. destruct (_ && _); [done|].
    destruct (add_listeners r type trnsp pem rcs) as [[r1|]|] eqn:Ea; run_binds; try done. intros [= <- <-]. by eapply listeners_owned.
Qed.
Lemma run_stmts_owned w0 ss w r w' r' :
  config_owned w0 w r [] -> run_stmts queue_of qts qte aggr_ptr rtr_ptr hostname hostmatch w r ss = Some (inl (w', r')) -> config_owned w0 w' r' [].
Proof.
  revert w r. induction ss as [|s ss IH]; intros w r Ho; cbn [run_stmts]; [by intros [= <- <-]|].
  destruct (run_stmt _ _ _ _ _ _ _ w r s) as [[[w1 r1]|]|] eqn:E; run_binds; try done. apply IH. by eapply run_stmt_owned.
Qed.
Lemma new_router_owned w conf r : new_router hostname hostmatch conf = inl r -> config_owned w w r [].
Proof. intros Hn. eapply collectorvals_owned; [|exact Hn]. split; cbn; rewrite ?Nat.sub_diag; try done. by intros i s ?%elem_of_nil. Qed.

(** Such a router can be freed, if the servers refer to queues that exist. *)
Lemma config_owned_freeable w0 w r : config_owned w0 w r [] -> freeable w r.
Proof.
  intros [Hs _ Hsr Hm Hq Hsh]. rewrite app_nil_r in *.
  assert (NoDup (own_queues w r)) as Hn by (unfold own_queues; rewrite Hq; apply NoDup_seq).
  assert (forall q, q ∈ own_queues w r -> (q < length (queues w))%nat) as Hlt.
  { intros q Hin. unfold own_queues in Hin. rewrite Hq in Hin. apply elem_of_seq in Hin. lia. }
  assert (forall cl q, cl ∈ r_clusters r -> cl_queue cl = Some q -> q ∈ omap cl_queue (r_clusters r)) as Hcl.
  { intros cl q Hcl Hcq. apply list_elem_of_omap. eauto. }
  split; [rewrite Hsr; apply NoDup_seq| |done|].
  - intros i Hi. pose proof Hi as Hi'. rewrite Hsr in Hi'. apply elem_of_seq in Hi'.
    destruct (lookup_lt_is_Some_2 (servers w) i) as [s Hss]; [lia|]. exists s. split; [done|]. apply Hlt. unfold own_queues.
    apply elem_of_app. destruct (s_shared_queue s) eqn:Esh.
    + right. destruct (Hsh i s Hi Hss Esh) as (cl & Hc & _ & Hcq). by eapply Hcl.
    + left. apply list_elem_of_omap. exists i. split; [done|]. unfold own_queue. rewrite Hss. run_binds. by rewrite Esh.
  - intros i s Hi Hss Esh Hin. destruct (Hsh i s Hi Hss Esh) as (cl & Hc & _ & Hcq). apply NoDup_app in Hn as (_ & Hd & _).
    by eapply Hd, Hcl.
Qed.
End Configured.

(** ** The labels that the parser gives *)

Section Labels.
Context `{Regex}.

(** A statement: its expressions, each with a rule of its own, and the destinations that its routes share. *)
Record lstmt := mkLs { st_exprs : list (matcher * nat); st_masq : option cstring; st_stop : bool; st_id : nat; st_dests : list lcluster }.
Definition stmt_routes (s : lstmt) : list lroute :=
  (fun e => mkL e.1 e.2 (st_masq s) (st_stop s) (st_id s) (st_dests s)) <$> st_exprs s.
Definition parsed_routes (ss : list lstmt) : list lroute := ss ≫= stmt_routes.

(** The destinations before routes are optimised: no groups, and stubs with their catch-all route only. *)
Definition other (d : lcluster) : Prop := match d with L_other _ => True | _ => False end.
Definition parsed_dest (d : lcluster) : Prop :=
  match d with
  | L_other _ | L_validation (mkL _ _ _ _ _ []) _ => True
  | L_aggrstub [mkL mt _ _ _ _ ds] | L_statstub [mkL mt _ _ _ _ ds] => m_type mt <> REGEX /\ Forall other ds
  | _ => False
  end.
Definition parsed_stmt (s : lstmt) : Prop := st_exprs s <> [] /\ Forall parsed_dest (st_dests s).

(** The rules that were compiled. *)
Definition regex_rule (mt : matcher) (rule : nat) : list nat := if bool_decide (m_type mt = REGEX) then [rule] else [].
Definition dest_rules (d : lcluster) : list nat := match d with L_validation (mkL mt rule _ _ _ _) _ => regex_rule mt rule | _ => [] end.
Definition stmt_rules (s : lstmt) : list nat := (st_exprs s ≫= fun e => regex_rule e.1 e.2) ++ (st_dests s ≫= dest_rules).
Definition rule_regexes (workercnt : nat) (rule : nat) : list resource := R_regex rule <$> seq 0 workercnt.

Lemma rule_calls_eq workercnt mt rule : rule_calls workercnt mt rule = regex_rule mt rule ≫= rule_regexes workercnt.
Proof. unfold rule_calls, regex_rule. case_bool_decide; [|done]. cbn. by rewrite app_nil_r. Qed.
Lemma bind_bind_app {A B} (f : A -> list B) l k : (l ++ k) ≫= f = (l ≫= f) ++ (k ≫= f).
Proof. apply bind_app. Qed.
Lemma parsed_dest_calls workercnt d : parsed_dest d -> dest_calls workercnt d = dest_rules d ≫= rule_regexes workercnt.
Proof.
  assert (forall ds, Forall other ds -> concat (dest_calls workercnt <$> ds) = []) as Ho.
  { induction 1 as [|d' ds Hd _ IH]; [done|]. by destruct d'. }
  destruct d as [name rs|rs|rs|x a|c]; cbn [parsed_dest dest_rules dest_calls]; [done| | | |done].
  - destruct rs as [|[mt k masq stop id ds] [|]]; try done. intros [Hm Hds]. cbn [regfree_calls]. rewrite route_calls_eq, Ho by done.
    unfold rule_calls. rewrite bool_decide_false by done. by destruct (last_with _ _).
  - destruct rs as [|[mt k masq stop id ds] [|]]; try done. intros [Hm Hds]. cbn [regfree_calls]. rewrite route_calls_eq, Ho by done.
    unfold rule_calls. rewrite bool_decide_false by done. by destruct (last_with _ _).
  - destruct x as [mt k masq stop id [|]]; [|done]. intros _. rewrite route_calls_eq. cbn. by rewrite app_nil_r, rule_calls_eq.
Qed.

Lemma stmt_calls workercnt s rest :
  parsed_stmt s -> (forall x rs, rest = x :: rs -> l_id x <> st_id s) ->
  regfree_calls workercnt (stmt_routes s ++ rest) ≡ₚ (stmt_rules s ≫= rule_regexes workercnt) ++ regfree_calls workercnt rest.
Proof.
  intros [Hne Hd] Hrest. unfold stmt_rules, stmt_routes. rewrite bind_app.
  assert (concat (dest_calls workercnt <$> st_dests s) = (st_dests s ≫= dest_rules) ≫= rule_regexes workercnt) as Ed.
  { clear Hne Hrest. induction Hd as [|d ds Hd Hds IH]; [done|]. csimpl. by rewrite IH, parsed_dest_calls, bind_app. }
  destruct s as [exprs masq stop id ds]. cbn [st_exprs st_masq st_stop st_id st_dests] in *.
  induction exprs as [|[mt k] [|e exprs] IH]; [done|..].
  - cbn [fmap list_fmap app regfree_calls mbind list_bind fst snd]. rewrite route_calls_eq.
    assert (last_with (mkL mt k masq stop id ds) rest = true) as ->.
    { destruct rest as [|x rs]; [done|]. unfold last_with. apply negb_true_iff, Nat.eqb_neq. cbn. by eapply Hrest. }
    rewrite Ed, rule_calls_eq, app_nil_r. by rewrite <- !(assoc_L app).
  - change (((fun e => mkL e.1 e.2 masq stop id ds) <$> (mt, k) :: e :: exprs) ++ rest)
      with (mkL mt k masq stop id ds :: (((fun e => mkL e.1 e.2 masq stop id ds) <$> e :: exprs) ++ rest)).
    change (((mt, k) :: e :: exprs) ≫= (fun e => regex_rule e.1 e.2)) with (regex_rule mt k ++ ((e :: exprs) ≫= fun e => regex_rule e.1 e.2)).
    cbn [regfree_calls]. rewrite route_calls_eq.
    assert (last_with (mkL mt k masq stop id ds) (((fun e => mkL e.1 e.2 masq stop id ds) <$> e :: exprs) ++ rest) = false) as ->.
    { cbn. by rewrite Nat.eqb_refl. } rewrite app_nil_r, rule_calls_eq.
    rewrite bind_app, <- !(assoc_L app). f_equiv. rewrite (assoc_L app). apply IH; done.
Qed.

Lemma parsed_calls workercnt ss :
  Forall parsed_stmt ss -> NoDup (st_id <$> ss) ->
  regfree_calls workercnt (parsed_routes ss) ≡ₚ (ss ≫= stmt_rules) ≫= rule_regexes workercnt.
Proof.
  intros Hss. induction Hss as [|s ss Hs Hss IH]; csimpl; [done|]. intros [Hn Hnd]%NoDup_cons. unfold parsed_routes. csimpl.
  rewrite stmt_calls, bind_app; [by rewrite IH|done|]. intros x rs Ex. destruct ss as [|s' ss]; [done|]. csimpl in Ex.
  apply Forall_cons in Hss as [[Hne _] _]. unfold stmt_routes in Ex at 1. destruct (st_exprs s'); [done|]. cbn in Ex. injection Ex as <- _. cbn.
  intros Eid. apply Hn. rewrite <- Eid. by left.
Qed.
Lemma rule_regexes_nodup workercnt rules : NoDup rules -> NoDup (rules ≫= rule_regexes workercnt).
Proof.
  intros Hn. apply NoDup_bind; [| |done].
  - intros x y z _ _ (m & -> & _)%list_elem_of_fmap (n & [= -> ->] & _)%list_elem_of_fmap. done.
  - intros x _. apply NoDup_fmap_2; [|apply NoDup_seq]. by intros m n [= ->].
Qed.
End Labels.

(** ** Reloads *)

Section Reloads.
Context `{Regex} {Q : Type} `{FifoQueue Q (list Z)}.
Implicit Types (w : world Q) (r : router) (L : list nat).

Lemma omap_swap {A B} (f g : A -> option B) (l : list A) (a b : A) :
  NoDup l -> a ∈ l -> b ∈ l -> a <> b -> g a = f b -> g b = f a -> (forall x, x <> a -> x <> b -> g x = f x) -> omap g l ≡ₚ omap f l.
Proof.
  intros Hn (l1 & El1)%elem_of_Permutation Hb Hab Ha' Hb' Hrest. rewrite El1 in Hb, Hn. apply elem_of_cons in Hb as [?|Hb]; [congruence|].
  apply elem_of_Permutation in Hb as (l2 & El2). rewrite El1, El2 in *. apply NoDup_cons in Hn as [Hna Hn]. apply NoDup_cons in Hn as [Hnb _].
  assert (omap g l2 = omap f l2) as Er.
  { apply omap_ext_in. intros x Hx. apply Hrest; intros ->; [apply Hna; by right|done]. }
  cbn. rewrite Ha', Hb', Er. destruct (f a), (f b); try done. apply Permutation_swap.
Qed.

(** Where the queues are: a server has its own, or one of the clusters' [C]. *)
Definition shared_in w (C : list nat) (i : nat) : Prop := forall s, servers w !! i = Some s -> s_shared_queue s = true -> s_queue s ∈ C.
Lemma shared_in_held w C i : shared_in w C i <-> (forall q, queue_held w i = Some (true, q) -> q ∈ C).
Proof.
  unfold shared_in, queue_held. destruct (servers w !! i) as [s|]; cbn; [|by split].
  split; [intros Hs q [= E <-]; by apply Hs|]. intros Hq s' [= <-] E. apply Hq. by rewrite E.
Qed.
Record conserved w w' L (C : list nat) : Prop := mkConserved {
  cv_own : omap (own_queue w') L ≡ₚ omap (own_queue w) L;
  cv_shared : (forall i, i ∈ L -> shared_in w C i) -> forall i, i ∈ L -> shared_in w' C i;
  cv_queues : queues w' = queues w;
  cv_rest : forall i, i ∉ L -> servers w' !! i = servers w !! i;
  cv_exist : forall i, is_Some (servers w' !! i) <-> is_Some (servers w !! i);
}.
Lemma conserved_refl w L C : conserved w w L C.
Proof. by split. Qed.
Lemma conserved_trans w1 w2 w3 L C : conserved w1 w2 L C -> conserved w2 w3 L C -> conserved w1 w3 L C.
Proof.
  intros [O1 S1 Q1 R1 E1] [O2 S2 Q2 R2 E2]. split; [by rewrite O2|auto|congruence|intros i Hi; by rewrite R2, R1|]. intros i. by rewrite E2.
Qed.

Lemma swap_conserved w n o L C w' :
  NoDup L -> n ∈ L -> o ∈ L -> n <> o -> server_swap_queue w n o = Some w' -> conserved w w' L C.
Proof.
  intros HL Hn Ho Hne Hs. unfold server_swap_queue in Hs.
  destruct (servers w !! n) as [sn|] eqn:En; run_binds; [|done]. destruct (servers w !! o) as [so|] eqn:Eo; revert Hs; run_binds; [|done].
  intros Hs. destruct (swap_queue_spec w n o sn so Hne En Eo) as (w2 & Ew & [Hq Hi Hr] & H1 & H2).
  unfold server_swap_queue in Ew. rewrite En, Eo in Ew. revert Ew. run_binds. rewrite Hs. intros [= <-]. clear Hs.
  assert (forall i, i <> n -> i <> o -> queue_held w' i = queue_held w i) as Hh.
  { intros i Hin Hio. unfold queue_held. rewrite Hr; [done|]. set_solver. }
  split.
  - eapply (omap_swap _ _ L n o); try done; rewrite ?own_queue_held, ?H1, ?H2; try done. intros i Hin Hio. by rewrite !own_queue_held, Hh.
  - intros Hsh i HiL. rewrite shared_in_held. intros q. destruct (decide (i = n)) as [->|Hin]; [|destruct (decide (i = o)) as [->|Hio]].
    + rewrite H1. by apply shared_in_held, Hsh.
    + rewrite H2. by apply shared_in_held, Hsh.
    + rewrite Hh by done. by apply shared_in_held, Hsh.
  - done.
  - intros i HiL. apply Hr. set_solver.
  - intros i. pose proof (Hi i) as E. unfold ident in E. by destruct (servers w' !! i), (servers w !! i).
Qed.
Lemma join_conserved w n q L C w' :
  n ∈ L -> (forall x, q = Some x -> x ∈ C) -> join_queue w n q = Some w' -> conserved w w' L C.
Proof.
  intros Hn Hq Hj. unfold join_queue in Hj. destruct (servers w !! n) as [s|] eqn:En; revert Hj; run_binds; [|done].
  destruct q as [q|]; [|destruct (s_shared_queue s); [done|]; intros [= <-]; apply conserved_refl].
  unfold server_set_shared_queue. rewrite En. run_binds. destruct (s_shared_queue s && _) eqn:Eb; run_binds; [|intros [= <-]; apply conserved_refl].
  intros [= <-]. apply andb_prop in Eb as [Esh _].
  assert (forall i, i <> n -> servers (update w n (fun s => with_queue s (s_shared_queue s) q)) !! i = servers w !! i) as Hne
    by (intros i Hi; by cbn; rewrite list_lookup_alter_ne).
  assert (servers (update w n (fun s => with_queue s (s_shared_queue s) q)) !! n = Some (with_queue s true q)) as Hnn
    by (cbn; by rewrite list_lookup_alter_eq, En; cbn; rewrite Esh).
  split.
  - rewrite (omap_ext_in _ (own_queue w)); [done|]. intros i _. unfold own_queue. destruct (decide (i = n)) as [->|Hi]; [|by rewrite Hne].
    rewrite Hnn, En. run_binds. cbn. by rewrite Esh.
  - intros Hsh i Hi s'. destruct (decide (i = n)) as [->|Hin]; [rewrite Hnn; intros [= <-] _; by apply Hq|]. rewrite Hne by done. by apply Hsh.
  - done.
  - intros i Hi. apply Hne. by intros ->.
  - intros i. destruct (decide (i = n)) as [->|Hin]; [rewrite Hnn, En|rewrite Hne by done]; split; eauto.
Qed.
Lemma transplant_servers_conserved w q ns os L C w' :
  NoDup L -> ns ⊆ L -> os ⊆ L -> (forall i, i ∈ ns -> i ∉ os) -> (forall x, q = Some x -> x ∈ C) ->
  transplant_servers w q ns os = Some w' -> conserved w w' L C.
Proof.
  intros HL Hns Hos Hdis Hq. revert w. induction ns as [|n ns IH]; intros w; cbn [transplant_servers]; [intros [= <-]; apply conserved_refl|].
  destruct (servers w !! n) as [s|] eqn:En; run_binds; [|done]. destruct (find_old w s os) as [x|] eqn:Ef; run_binds; [|done].
  destruct (match x with Some _ => _ | None => _ end) as [w1|] eqn:E1; run_binds; [|done]. intros Ht.
  eapply conserved_trans; [|apply IH; [set_solver|intros i Hi; apply Hdis; by right|exact Ht]].
  assert (n ∈ L) as HnL by (apply Hns; by left).
  destruct x as [o|]; [|by eapply join_conserved]. destruct (find_old_same _ _ _ _ Ef) as (Ho & _).
  eapply swap_conserved; [done|done|by apply Hos| |exact E1]. intros ->. apply (Hdis o); [by left|done].
Qed.

(** The clusters keep their servers; their queues change hands. *)
Definition same_members (a b : ccluster) : Prop := exists q, b = set_cqueue a q.
Lemma same_members_refl a : same_members a a.
Proof. exists (cl_queue a). by destruct a. Qed.
Lemma Forall2_same_refl (l : list ccluster) : Forall2 same_members l l.
Proof. induction l; constructor; auto using same_members_refl. Qed.
Lemma Forall2_same_trans (l1 l2 l3 : list ccluster) : Forall2 same_members l1 l2 -> Forall2 same_members l2 l3 -> Forall2 same_members l1 l3.
Proof.
  intros H12. revert l3. induction H12 as [|a b l1 l2 [q ->] _ IH]; intros l3; inversion_clear 1 as [|? c ? ? [q' ->]]; constructor; [by exists q'|auto].
Qed.
Lemma same_members_servers (l l' : list ccluster) : Forall2 same_members l l' -> cluster_servers <$> l' = cluster_servers <$> l.
Proof. induction 1 as [|a b l l' [q ->] _ IH]; [done|]. csimpl. by rewrite IH. Qed.
Lemma insert_queue_perm ocs k oc (q : option nat) :
  ocs !! k = Some oc ->
  option_list q ++ omap cl_queue ocs ≡ₚ option_list (cl_queue oc) ++ omap cl_queue (<[k := set_cqueue oc q]> ocs).
Proof.
  intros Hk. pose proof (lookup_lt_Some _ _ _ Hk) as Hlt.
  rewrite <- (take_drop_middle ocs k oc Hk) at 1. rewrite insert_take_drop by done. rewrite !omap_app. csimpl.
  destruct (cl_queue oc), q; csimpl; rewrite ?app_nil_l; rewrite <- ?Permutation_middle; try done. apply Permutation_swap.
Qed.
Lemma app_subseteq_l {A} (l k m : list A) : l ++ k ⊆ m -> l ⊆ m.
Proof. intros Hs x Hx. apply Hs, elem_of_app. by left. Qed.
Lemma app_subseteq_r {A} (l k m : list A) : l ++ k ⊆ m -> k ⊆ m.
Proof. intros Hs x Hx. apply Hs, elem_of_app. by right. Qed.
Lemma omap_cons_list (cl : ccluster) cls : omap cl_queue (cl :: cls) = option_list (cl_queue cl) ++ omap cl_queue cls.
Proof. csimpl. by destruct (cl_queue cl). Qed.
Lemma transplant_clusters_conserved w ocs ncs L C w' ncs' ocs' :
  NoDup L -> all_servers ncs ⊆ L -> all_servers ocs ⊆ L -> (forall i, i ∈ all_servers ncs -> i ∉ all_servers ocs) ->
  omap cl_queue ncs ++ omap cl_queue ocs ⊆ C -> transplant_clusters w ocs ncs = Some (w', ncs', ocs') ->
  conserved w w' L C /\ Forall2 same_members ncs ncs' /\ Forall2 same_members ocs ocs' /\
  omap cl_queue ncs' ++ omap cl_queue ocs' ≡ₚ omap cl_queue ncs ++ omap cl_queue ocs.
Proof.
  intros HL. revert w ocs w' ncs' ocs'. induction ncs as [|nc ncs IH]; intros w ocs w' ncs' ocs' Hn Ho Hd Hc; cbn [transplant_clusters].
  { intros [= <- <- <-]. split_and!; [apply conserved_refl|by constructor|apply Forall2_same_refl|done]. }
  unfold all_servers in *. csimpl in Hn. csimpl in Hd. destruct (partner ocs nc) as [[k oc]|] eqn:Hp.
  - destruct (partner_lookup _ _ _ _ Hp) as (Hk & _). assert (cluster_servers oc ⊆ concat (cluster_servers <$> ocs)) as Hoc.
    { intros i Hi. eapply in_all_servers; [by eapply list_elem_of_lookup_2|done]. }
    destruct (transplant_servers _ _ _ _) as [w1|] eqn:E1; run_binds; [|done].
    destruct (transplant_clusters w1 _ ncs) as [[[w2 ncs2] ocs2]|] eqn:E2; run_binds; [|done]. intros [= <- <- <-].
    pose proof (insert_queue_perm ocs k oc (cl_queue nc) Hk) as Hperm.
    assert (Forall2 same_members ocs (<[k := set_cqueue oc (cl_queue nc)]> ocs)) as Hsm.
    { rewrite <- (list_insert_id ocs k oc Hk) at 1. apply Forall2_insert; [apply Forall2_same_refl|by eexists]. }
    rewrite omap_cons_list in Hc.
    assert (forall x, cl_queue oc = Some x -> x ∈ C) as Hq.
    { intros x Hx. apply Hc, elem_of_app. right. apply list_elem_of_omap. exists oc. split; [by eapply list_elem_of_lookup_2|done]. }
    destruct (IH w1 (<[k := set_cqueue oc (cl_queue nc)]> ocs) w2 ncs2 ocs2) as (Hcv & Hs1 & Hs2 & Hp2); [by eapply app_subseteq_r| | | |exact E2|].
    + by rewrite (same_members_servers _ _ Hsm).
    + rewrite (same_members_servers _ _ Hsm). intros i Hi. apply Hd, elem_of_app. by right.
    + intros x [Hx|Hx]%elem_of_app; apply Hc; rewrite !elem_of_app; [auto|].
      assert (x ∈ option_list (cl_queue oc) ++ omap cl_queue (<[k := set_cqueue oc (cl_queue nc)]> ocs)) as Hx'
        by (apply elem_of_app; by right).
      rewrite <- Hperm, elem_of_app in Hx'. tauto.
    + split_and!.
      * eapply conserved_trans; [|exact Hcv]. eapply transplant_servers_conserved; [done| | | |exact Hq|exact E1]; [by eapply app_subseteq_l|by etrans|].
        intros i Hi Hio. apply (Hd i); [apply elem_of_app; by left|by apply Hoc].
      * constructor; [by eexists|done].
      * by eapply Forall2_same_trans.
      * rewrite !omap_cons_list. cbn [set_cqueue cl_queue]. rewrite <- !(assoc_L app), Hp2.
        rewrite (Permutation_app_swap_app (option_list (cl_queue nc))), Hperm. by rewrite (Permutation_app_swap_app (omap cl_queue ncs)).
  - destruct (transplant_clusters w ocs ncs) as [[[w2 ncs2] ocs2]|] eqn:E2; run_binds; [|done]. intros [= <- <- <-].
    rewrite omap_cons_list in Hc.
    destruct (IH w ocs w2 ncs2 ocs2) as (Hcv & Hs1 & Hs2 & Hp2); [by eapply app_subseteq_r|done| |by eapply app_subseteq_r; rewrite (assoc_L app)|done|].
    + intros i Hi. apply Hd, elem_of_app. by right.
    + split_and!; [done|constructor; [apply same_members_refl|done]|done|]. rewrite !omap_cons_list, <- !(assoc_L app). by rewrite Hp2.
Qed.

(** ** A router and its queues *)

(** As [freeable], and a server that shares a queue is in the cluster that has it. *)
Record owned w r : Prop := mkOwned {
  ow_srvrs : NoDup (r_srvrs r).*1;
  ow_listed : all_servers (r_clusters r) ⊆ (r_srvrs r).*1;
  ow_exist : forall i, i ∈ (r_srvrs r).*1 -> is_Some (servers w !! i);
  ow_there : forall q, q ∈ own_queues w r -> (q < length (queues w))%nat;
  ow_shared : forall i s, i ∈ (r_srvrs r).*1 -> servers w !! i = Some s -> s_shared_queue s = true ->
    exists cl, cl ∈ r_clusters r /\ i ∈ cluster_servers cl /\ cl_queue cl = Some (s_queue s);
}.
Definition queues_of (r : router) : list nat := omap cl_queue (r_clusters r).
(** Two routers in one world. *)
Record apart_in w (new old : router) : Prop := mkApart {
  ap_new : owned w new; ap_old : owned w old;
  ap_servers : NoDup ((r_srvrs new).*1 ++ (r_srvrs old).*1);
  ap_queues : NoDup (own_queues w new ++ own_queues w old);
}.

Lemma owned_shared w r i : owned w r -> i ∈ (r_srvrs r).*1 -> shared_in w (queues_of r) i.
Proof.
  intros Ho Hi s Hs Hsh. destruct (ow_shared _ _ Ho i s Hi Hs Hsh) as (cl & Hcl & _ & Hq). apply list_elem_of_omap. eauto.
Qed.
Lemma own_queues_split w new old :
  own_queues w new ++ own_queues w old ≡ₚ omap (own_queue w) ((r_srvrs new).*1 ++ (r_srvrs old).*1) ++ (queues_of new ++ queues_of old).
Proof.
  unfold own_queues, queues_of. rewrite omap_app, <- !(assoc_L app). f_equiv. by rewrite (Permutation_app_swap_app (omap cl_queue _)).
Qed.
(** All queues have one owner: both routers can be freed. *)
Lemma freeable_part w L C r :
  (r_srvrs r).*1 ⊆ L -> NoDup (r_srvrs r).*1 -> (forall i, i ∈ L -> is_Some (servers w !! i)) -> NoDup (own_queues w r) ->
  NoDup (omap (own_queue w) L ++ C) -> (forall q, q ∈ omap (own_queue w) L ++ C -> (q < length (queues w))%nat) ->
  (forall i, i ∈ L -> shared_in w C i) -> freeable w r.
Proof.
  intros HrL Hnd Hex Hn Hall Hlt Hsh. split; [done| |done|].
  - intros i Hi. destruct (Hex i) as [s Hs]; [auto|]. exists s. split; [done|]. apply Hlt, elem_of_app. destruct (s_shared_queue s) eqn:E.
    + right. apply (Hsh i); auto.
    + left. apply list_elem_of_omap. exists i. split; [auto|]. unfold own_queue. rewrite Hs. run_binds. by rewrite E.
  - intros i s Hi Hs E Hin. apply NoDup_app in Hall as (_ & Hd & _). apply (Hd (s_queue s)).
    + apply list_elem_of_omap in Hin as (j & Hj & Hq). apply list_elem_of_omap. eauto.
    + by apply (Hsh i); auto.
Qed.
Lemma owned_freeable w r : owned w r -> NoDup (own_queues w r) -> freeable w r.
Proof.
  intros Ho Hn. eapply (freeable_part w (r_srvrs r).*1 (queues_of r)); try done; try apply Ho. intros i Hi. by apply owned_shared.
Qed.

Lemma transplant_apart w new old w' new' old' :
  apart_in w new old -> router_transplant_queues w new old = Some (w', new', old') ->
  freeable w' new' /\ freeable w' old' /\ NoDup (own_queues w' new' ++ own_queues w' old') /\
  r_srvrs new' = r_srvrs new /\ r_srvrs old' = r_srvrs old /\ queues w' = queues w /\
  Forall2 same_members (r_clusters new) (r_clusters new') /\
  own_queues w' new' ++ own_queues w' old' ≡ₚ own_queues w new ++ own_queues w old.
Proof.
  intros [Hn Ho Hs Hq] Ht. unfold router_transplant_queues in Ht.
  destruct (transplant_clusters w (r_clusters old) (r_clusters new)) as [[[w2 ncs] ocs]|] eqn:Et; revert Ht; run_binds; [|done]. intros [= <- <- <-].
  set (L := (r_srvrs new).*1 ++ (r_srvrs old).*1) in *. set (C := queues_of new ++ queues_of old).
  apply NoDup_app in Hs as Hs'. destruct Hs' as (_ & Hdis & _).
  destruct (transplant_clusters_conserved w (r_clusters old) (r_clusters new) L C w2 ncs ocs) as ([Hown Hsh Hqs Hrest Hex] & Hsn & Hso & Hpc); try done.
  { etrans; [apply Hn|]. intros i Hi. apply elem_of_app. by left. }
  { etrans; [apply Ho|]. intros i Hi. apply elem_of_app. by right. }
  { intros i Hi Hj. apply (Hdis i); [by apply Hn|by apply Ho]. }
  set (new' := set_clusters new ncs). set (old' := set_clusters old ocs).
  assert (queues_of new' ++ queues_of old' ≡ₚ C) as HC by exact Hpc.
  assert (omap (own_queue w2) L ++ C ≡ₚ own_queues w new ++ own_queues w old) as Htot by (rewrite own_queues_split; by rewrite Hown).
  assert (own_queues w2 new' ++ own_queues w2 old' ≡ₚ own_queues w new ++ own_queues w old) as Hall.
  { rewrite <- Htot, <- HC. apply own_queues_split. }
  assert (NoDup (own_queues w2 new' ++ own_queues w2 old')) as Hn' by by rewrite Hall.
  assert (forall i, i ∈ L -> is_Some (servers w2 !! i)) as Hex'.
  { intros i [Hi|Hi]%elem_of_app; apply Hex; [by apply Hn|by apply Ho]. }
  assert (forall q, q ∈ omap (own_queue w2) L ++ C -> (q < length (queues w2))%nat) as Hlt.
  { intros q. rewrite Htot, Hqs. intros [Hin|Hin]%elem_of_app; [by apply Hn|by apply Ho]. }
  assert (forall i, i ∈ L -> shared_in w2 C i) as Hsh'.
  { apply Hsh. intros i [Hi|Hi]%elem_of_app s Hss E; apply elem_of_app; [left|right]; by eapply owned_shared. }
  apply NoDup_app in Hn' as Hnn. destruct Hnn as (Hnn & _ & Hno). split_and!; try done.
  - eapply (freeable_part w2 L C); try done; [intros i Hi; apply elem_of_app; by left|apply Hn|by rewrite Htot].
  - eapply (freeable_part w2 L C); try done; [intros i Hi; apply elem_of_app; by right|apply Ho|by rewrite Htot].
Qed.

(** ** The queues that are in use *)

Lemma transplant_untouched w ocs ncs w' ncs' ocs' i :
  swappable w ocs ncs -> transplant_clusters w ocs ncs = Some (w', ncs', ocs') ->
  (forall nc k oc, nc ∈ ncs -> partner ocs nc = Some (k, oc) -> i ∉ cluster_servers nc ++ cluster_servers oc) -> servers w' !! i = servers w !! i.
Proof.
  revert w ocs ncs' ocs'. induction ncs as [|nc ncs IH]; intros w ocs ncs' ocs' Hs; cbn [transplant_clusters]; [by intros [= <- _ _]|].
  destruct (partner ocs nc) as [[k oc]|] eqn:Hp.
  - destruct (head_servers _ _ _ _ _ _ Hs Hp) as (w1 & -> & Hm). run_binds. destruct Hm as [Ht _ _].
    destruct (transplant_clusters w1 _ ncs) as [[[w2 ncs2] ocs2]|] eqn:E2; run_binds; [|done]. intros [= <- _ _] Hi.
    rewrite (IH w1 _ _ _ (swappable_next _ _ _ _ _ _ _ _ Hs Hp Ht) E2).
    + apply (to_rest _ _ _ Ht). eapply Hi; [by left|exact Hp].
    + intros nc' k' oc' Hnc Hp'. eapply Hi; [by right|].
      rewrite <- Hp'. symmetry. eapply partner_insert; [exact Hp|]. by eapply swappable_head_name.
  - destruct (transplant_clusters w ocs ncs) as [[[w2 ncs2] ocs2]|] eqn:E2; run_binds; [|done]. intros [= <- _ _] Hi.
    eapply IH; [by eapply swappable_tail|exact E2|]. intros nc' k' oc' Hnc. apply Hi. by right.
Qed.

(** A server is in one cluster only. *)
Lemma one_cluster (cls : list ccluster) a b i :
  NoDup (all_servers cls) -> a ∈ cls -> b ∈ cls -> i ∈ cluster_servers a -> i ∈ cluster_servers b -> a = b.
Proof.
  intros Hn (j & Ha)%list_elem_of_lookup (k & Hb)%list_elem_of_lookup Hia Hib.
  assert (j = k) as <-; [|congruence].
  eapply (NoDup_concat_once (cluster_servers <$> cls)); [exact Hn|by rewrite list_lookup_fmap, Ha|by rewrite list_lookup_fmap, Hb|done|done].
Qed.

(** After the transplant the new servers that share a queue share that of their cluster. *)
Lemma transplant_in_place w new old w' new' old' :
  apart_in w new old -> swappable w (r_clusters old) (r_clusters new) -> router_transplant_queues w new old = Some (w', new', old') -> owned w' new'.
Proof.
  intros Ha Hs Ht. destruct (transplant_apart _ _ _ _ _ _ Ha Ht) as (Hf & _ & _ & Es & _ & Eq & Hsm & _). destruct Ha as [Hn Ho Hsv _].
  unfold router_transplant_queues in Ht.
  destruct (transplant_clusters_spec w (r_clusters old) (r_clusters new) Hs) as (w2 & ocs2 & Et & [_ _ _ Hx]). rewrite Et in Ht.
  revert Ht. run_binds. intros [= -> <- _]. set (ncs := _ <$> r_clusters new) in *.
  assert (forall i, i ∈ (r_srvrs new).*1 -> i ∉ all_servers (r_clusters old)) as Hdis.
  { intros i Hi Hj. apply NoDup_app in Hsv as (_ & Hd & _). apply (Hd i Hi). by apply Ho. }
  split; rewrite ?Es; cbn [set_clusters r_clusters].
  - apply Hn.
  - unfold all_servers. cbn [set_clusters r_clusters] in Hsm. rewrite (same_members_servers _ _ Hsm). apply Hn.
  - intros i Hi. destruct (fb_exist _ _ Hf i Hi) as (s & -> & _). by eexists.
  - intros q [Hin|Hin]%elem_of_app.
    + apply list_elem_of_omap in Hin as (i & Hi & Hq). destruct (fb_exist _ _ Hf i Hi) as (s & Hs' & Hlt). unfold own_queue in Hq.
      rewrite Hs' in Hq. revert Hq. run_binds. destruct (s_shared_queue s); [done|]. by intros [= <-].
    + rewrite Eq. apply list_elem_of_omap in Hin as (cl & Hcl & Hq). cbn in Hcl. apply list_elem_of_fmap in Hcl as (nc & -> & Hnc).
      destruct (partner (r_clusters old) nc) as [[k oc]|] eqn:Hp.
      * cbn in Hq. destruct (partner_lookup _ _ _ _ Hp) as (Hk & _). apply (ow_there _ _ Ho), elem_of_app. right. apply list_elem_of_omap.
        exists oc. split; [by eapply list_elem_of_lookup_2|done].
      * apply (ow_there _ _ Hn), elem_of_app. right. apply list_elem_of_omap. eauto.
  - intros i s' Hi Hs' Hsh.
    destruct (ow_exist _ _ Hn i Hi) as [sn Hsn].
    assert (forall nc, nc ∈ r_clusters new -> i ∈ cluster_servers nc -> forall k oc, partner (r_clusters old) nc = Some (k, oc) ->
      exists cl, cl ∈ ncs /\ i ∈ cluster_servers cl /\ cl_queue cl = Some (s_queue s')) as Hpart.
    { intros nc Hnc Hin k oc Hp. exists (set_cqueue nc (cl_queue oc)). split_and!; [|done|].
      { apply list_elem_of_fmap. exists nc. by rewrite Hp. }
      cbn. pose proof (ex_new _ _ _ _ _ (Hx nc k oc Hnc Hp) i sn Hin Hsn) as Hh. unfold queue_held at 1 in Hh. rewrite Hs' in Hh. cbn in Hh.
      rewrite Hsh in Hh. destruct (partner_lookup _ _ _ _ Hp) as (Hk & _). assert (oc ∈ r_clusters old) as Hoc by (by eapply list_elem_of_lookup_2).
      destruct (find_old w sn (cluster_servers oc)) as [[o|]|] eqn:Ef.
      - destruct (find_old_same _ _ _ _ Ef) as (Hio & so & Hso & _). unfold queue_held in Hh. rewrite Hso in Hh. cbn in Hh. injection Hh as E1 E2.
        assert (o ∈ (r_srvrs old).*1) as Hol by (apply Ho; by eapply in_all_servers).
        destruct (ow_shared _ _ Ho o so Hol Hso (eq_sym E1)) as (cl & Hcl & Hcin & Hcq).
        rewrite (one_cluster (r_clusters old) oc cl o); [congruence|apply Hs|done..].
      - destruct (s_shared_queue sn) eqn:Esn; [destruct (cl_queue oc); cbn in Hh; congruence|].
        unfold queue_held in Hh. rewrite Hsn in Hh. cbn in Hh. congruence.
      - destruct (s_shared_queue sn) eqn:Esn; [destruct (cl_queue oc); cbn in Hh; congruence|].
        unfold queue_held in Hh. rewrite Hsn in Hh. cbn in Hh. congruence. }
    destruct (decide (Exists (fun nc => i ∈ cluster_servers nc /\ is_Some (partner (r_clusters old) nc)) (r_clusters new))) as [Hex|Hno].
    { apply Exists_exists in Hex as (nc & Hnc & Hin & [k oc] & Hp). by eapply Hpart. }
    rewrite <- Forall_Exists_neg in Hno. setoid_rewrite Forall_forall in Hno.
    assert (s' = sn) as ->.
    { rewrite (transplant_untouched _ _ _ _ _ _ i Hs Et) in Hs'; [congruence|]. intros nc k oc Hnc Hp [Hin|Hin]%elem_of_app.
      - apply (Hno nc Hnc). by rewrite Hp.
      - destruct (partner_lookup _ _ _ _ Hp) as (Hk & _). apply (Hdis i Hi). eapply in_all_servers; [by eapply list_elem_of_lookup_2|done]. }
    destruct (ow_shared _ _ Hn i sn Hi Hsn Hsh) as (cl & Hcl & Hin & Hq). exists cl. split_and!; [|done..].
    apply list_elem_of_fmap. exists cl. split; [|done]. specialize (Hno cl Hcl). destruct (partner (r_clusters old) cl); [|done].
    destruct Hno. by split.
Qed.

(** ** Threads and flags do not matter *)

Lemma owned_held w w' r : (forall i, queue_held w' i = queue_held w i) -> length (queues w') = length (queues w) -> owned w r -> owned w' r.
Proof.
  intros Hh El [Hs Hl Hex Hth Hsh].
  assert (own_queues w' r = own_queues w r) as Eo.
  { unfold own_queues. f_equal. apply omap_ext_in. intros i _. by rewrite !own_queue_held, Hh. }
  split; rewrite ?Eo, ?El; try done.
  - intros i Hi. specialize (Hh i). unfold queue_held in Hh. destruct (Hex i Hi) as [s E]. rewrite E in Hh. by destruct (servers w' !! i).
  - intros i s' Hi Hs' E. destruct (held_server w w' i s' (Hh i) Hs') as (s & Hss & E1 & E2). rewrite <- E2. apply (Hsh i s); congruence.
Qed.
Lemma own_queues_held w w' r : (forall i, queue_held w' i = queue_held w i) -> own_queues w' r = own_queues w r.
Proof. intros Hh. unfold own_queues. f_equal. apply omap_ext_in. intros i _. by rewrite !own_queue_held, Hh. Qed.
Lemma apart_held w w' new old :
  (forall i, queue_held w' i = queue_held w i) -> length (queues w') = length (queues w) -> apart_in w new old -> apart_in w' new old.
Proof. intros Hh El [Hn Ho Hs Hq]. split; rewrite ?(own_queues_held w w') by done; try done; by eapply owned_held. Qed.
Lemma freeable_held w w' r :
  (forall i, queue_held w' i = queue_held w i) -> length (queues w') = length (queues w) -> freeable w r -> freeable w' r.
Proof.
  intros Hh El [Hs Hex Hq Hsh]. split; rewrite ?(own_queues_held w w') by done; try done.
  - intros i Hi. destruct (Hex i Hi) as (s & Hss & Hlt). specialize (Hh i). unfold queue_held in Hh. rewrite Hss in Hh.
    destruct (servers w' !! i) as [s'|]; [|done]. exists s'. cbn in Hh. split; [done|]. injection Hh as _ ->. lia.
  - intros i s' Hi Hs' E. destruct (held_server w w' i s' (Hh i) Hs') as (s & Hss & E1 & E2).
    rewrite (omap_ext_in (own_queue w') (own_queue w)); [|intros j _; by rewrite !own_queue_held, Hh]. rewrite <- E2. apply (Hsh i s); congruence.
Qed.
Lemma shutdown_queues w r newrtr : queues (router_shutdown w r newrtr) = queues w.
Proof.
  unfold router_shutdown. generalize (r_clusters r). intros cls. revert w. induction cls as [|c cls IH]; intros w; cbn; [done|].
  rewrite IH. unfold cluster_shutdown. generalize (cluster_servers c). intros l. revert w. induction l as [|i l IHl]; intros w; cbn; [done|].
  by rewrite IHl.
Qed.

(** The servers and queues of a router that was configured are its own, also next to one that was there before. *)
Lemma configured_owned `{Resolver} w0 w r : config_owned w0 w r [] -> config_inv w r -> owned w r /\ NoDup (own_queues w r).
Proof.
  intros [Hs _ Hsr Hm Hq Hsh] Hi. rewrite app_nil_r in *. split; [|unfold own_queues; rewrite Hq; apply NoDup_seq]. split; [|..].
  - rewrite Hsr. apply NoDup_seq.
  - intros i Hin. by apply (cnt_listed _ _ _ (ci_counted _ _ Hi)).
  - intros i Hin. rewrite Hsr in Hin. apply elem_of_seq in Hin. apply lookup_lt_is_Some. lia.
  - intros q Hin. unfold own_queues in Hin. rewrite Hq in Hin. apply elem_of_seq in Hin. lia.
  - done.
Qed.
Lemma configured_apart `{Resolver} w0 w1 w2 old new :
  config_owned w0 w1 old [] -> config_inv w1 old -> config_owned w1 w2 new [] -> config_inv w2 new -> apart_in w2 new old.
Proof.
  intros Ho Hio Hn Hin. destruct (configured_owned _ _ _ Hn Hin) as [Hown Hnq]. destruct (configured_owned _ _ _ Ho Hio) as [Hoo Hoq].
  destruct Ho as [Hs _ Hsr Hm Hq _]. destruct Hn as [Hs' Hb Hsr' Hm' Hq' _]. rewrite app_nil_r in *.
  assert (forall i, i ∈ (r_srvrs old).*1 -> (i < length (servers w1))%nat) as Hlt by (intros i Hi; rewrite Hsr in Hi; apply elem_of_seq in Hi; lia).
  assert (own_queues w2 old = own_queues w1 old) as Eo.
  { unfold own_queues. f_equal. apply omap_ext_in. intros i Hi. rewrite !own_queue_held, Hb; [done|auto]. }
  split; [done| | |].
  - destruct Hoo as [O1 O2 O3 O4 O5]. split; rewrite ?Eo; try done.
    + intros i Hi. apply lookup_lt_is_Some. specialize (Hlt i Hi). lia.
    + intros q Hq0. specialize (O4 q Hq0). lia.
    + intros i s' Hi Hs2 E. destruct (held_server w1 w2 i s' (Hb i (Hlt i Hi)) Hs2) as (s & Hss & E1 & E2). rewrite <- E2. apply (O5 i s); congruence.
  - apply NoDup_app. split_and!; [apply Hown| |apply Hoo]. intros i Hi Hj%Hlt. rewrite Hsr' in Hi. apply elem_of_seq in Hi. lia.
  - rewrite Eo. apply NoDup_app. split_and!; [done| |done]. intros q Hq1 Hq2. unfold own_queues in Hq1, Hq2. rewrite Hq' in Hq1. rewrite Hq in Hq2.
    apply elem_of_seq in Hq1, Hq2. lia.
Qed.

Lemma swap_parts `{ServerEnv E} timeout create (new old new' old' : router) w w' (e e' : E) live live' :
  router_swap timeout create new old (w, e, live) (w', e', live', new', old') ->
  exists w1 w2, (forall i, queue_held w1 i = queue_held w i) /\ same_places w w1 /\ length (queues w1) = length (queues w) /\
    router_transplant_queues w1 new old = Some (w2, new', old') /\ (forall i, queue_held w' i = queue_held w2 i) /\ queues w' = queues w2.
Proof.
  intros Hs. inversion Hs as [? ? ? w1 e1 live1 w2 new2 old2 st2 failed Hrun _ Htr Hst]; subst. clear Hs.
  destruct (router_shutdown_spec w old (Some new)) as [Hp _]. pose proof (thread_steps_keep _ _ _ Hrun) as Hkeep. cbn in Hkeep.
  assert (same_places w w1) as Hpl by (eapply same_places_trans; [exact Hp|by apply keeps_places]).
  destruct (router_start_keeps _ _ _ _ _ Hst) as [Hk3 Hq3]. cbn [fst] in Hk3, Hq3. apply keeps_places in Hk3.
  exists w1, w2. split_and!; [intros i; by apply same_places_held|done| |done|intros i; by apply same_places_held|done].
  destruct Hkeep as [_ ->]. by rewrite shutdown_queues.
Qed.
End Reloads.

(** Freeing a router whose routes are as parsed. *)
Lemma parsed_freed `{Regex} {Q : Type} `{FifoQueue Q (list Z)} live (w : world Q) labels r :
  freeable w r -> Forall parsed_stmt labels -> NoDup (st_id <$> labels) -> NoDup (labels ≫= stmt_rules) ->
  Forall (ended live) (r_srvrs r).*1 ->
  exists m, router_free live w (parsed_routes labels) r (mkMem [] []) = inl m /\ NoDup (m_freed m) /\
    (forall i, R_server i P_struct ∈ m_freed m <-> i ∈ (r_srvrs r).*1 /\ is_Some (servers w !! i)) /\
    (forall q, R_queue q ∈ m_freed m <-> q ∈ own_queues w r) /\
    (forall k n, R_regex k n ∈ m_freed m <-> k ∈ (labels ≫= stmt_rules) /\ (n < f_workercnt (r_conf r))%nat).
Proof.
  intros Hf Hp Hid Hrules He. destruct (freeable_freed live w (parsed_routes labels) r Hf) as (m & Hm & Hn & Hall); [|done|].
  { rewrite parsed_calls by done. by apply rule_regexes_nodup. }
  exists m. split_and!; [done|done|..].
  - intros i. by rewrite Hall, router_owned_server.
  - intros q. by rewrite Hall, router_owned_queue.
  - intros k n. rewrite Hall, router_owned_split, !elem_of_app, parsed_calls, list_elem_of_bind by done. split.
    + intros [(k' & (n' & [= -> ->] & Hn')%list_elem_of_fmap & Hk)|[(? & ? & _)%list_elem_of_fmap|(? & ? & ? & _)%pieces_of_server]]; [|done..].
      apply elem_of_seq in Hn'. split; [done|lia].
    + intros [Hk Hlt]. left. exists k. split; [|done]. apply (list_elem_of_fmap_2 (R_regex k)), elem_of_seq. lia.
Qed.

(** ** Properties *)

(** C20: Freeing a router that was read, with routes as parsed (before the optimiser, which can make the expressions be
    freed twice: [optimised_validation_freed_twice]) and the threads of its servers ended: [router_free] comes to its end
    and frees every server and every queue that the statements made and nothing that was there before, nothing twice.  Of
    each compiled rule it frees the expressions of all dispatchers but the last, whose expression is left. *)
Theorem configured_router_freed `{Resolver} `{Filesystem} `{Regex} {Q : Type} `{FifoQueue Q (list Z)} (queue_of : nat -> Q)
    `{Qsort (ch_ring_entry nat)} (qts qte : Z) (aggr_ptr : nat -> cstring) (rtr_ptr hostname : cstring) (hostmatch : option (list regmatch))
    (conf : rconf) (ss : list stmt) (w0 w : world Q) (r0 r : router) (labels : list lstmt) (live : gmap (nat * nat) reader) :
  new_router hostname hostmatch conf = inl r0 ->
  run_stmts queue_of qts qte aggr_ptr rtr_ptr hostname hostmatch w0 r0 ss = Some (inl (w, r)) ->
  map erase (parsed_routes labels) = r_routes r -> Forall parsed_stmt labels -> NoDup (st_id <$> labels) -> NoDup (labels ≫= stmt_rules) ->
  Forall (ended live) (r_srvrs r).*1 ->
  exists m, router_free live w (parsed_routes labels) r (mkMem [] []) = inl m /\ NoDup (m_freed m) /\
    (forall i, R_server i P_struct ∈ m_freed m <-> (length (servers w0) <= i < length (servers w))%nat) /\
    (forall q, R_queue q ∈ m_freed m <-> (length (queues w0) <= q < length (queues w))%nat) /\
    (forall k n, R_regex k n ∈ m_freed m <-> k ∈ (labels ≫= stmt_rules) /\ (n < f_workercnt (r_conf r))%nat).
Proof.
  intros Hnew Hrun _ Hp Hid Hrules He. apply (new_router_owned hostname hostmatch w0) in Hnew.
  pose proof (run_stmts_owned _ _ _ _ _ _ _ _ _ _ _ _ _ Hnew Hrun) as Ho. pose proof (config_owned_freeable _ _ _ Ho) as Hf.
  destruct (parsed_freed live w labels r Hf Hp Hid Hrules He) as (m & Hm & Hn & Hsv & Hqs & Hrx).
  exists m. split_and!; [done|done|..|done].
  - intros i. rewrite Hsv. destruct Ho as [Hs _ -> _ _ _]. rewrite elem_of_seq, lookup_lt_is_Some. lia.
  - intros q. rewrite Hqs. destruct Ho as [_ _ _ Hm0 Hq _]. rewrite app_nil_r in Hq. unfold own_queues. rewrite Hq, elem_of_seq. lia.
Qed.

(** C12: A reload frees the old router while the new one works.  For two routers with servers and queues of their own
    ([apart_in]), that are [swappable], no server being in two clusters (with one that is,
    [reload_frees_queue_in_use] shows a queue in use freed), the old one having unoptimised routes as parsed: after the
    swap, with the old threads ended, freeing the old router comes to its end.  Nothing is freed twice.  Freed are exactly
    the old servers, the queues the old router is left with and, of each of its compiled rules, the expressions of all
    dispatchers but the last; no queue that a server or a cluster of the new router holds.  The queues there were before
    all have one owner, in the new router or in the old. *)
Theorem reload_frees_safely `{Regex} {Q E : Type} `{FifoQueue Q (list Z)} `{ServerEnv E} (timeout : Z) (create : nat -> nat -> Z)
    (new old new' old' : router) (w w' : world Q) (e e' : E) (live live' : gmap (nat * nat) reader) (labels : list lstmt) :
  router_swap timeout create new old (w, e, live) (w', e', live', new', old') ->
  apart_in w new old -> swappable w (r_clusters old) (r_clusters new) ->
  map erase (parsed_routes labels) = r_routes old -> Forall parsed_stmt labels -> NoDup (st_id <$> labels) -> NoDup (labels ≫= stmt_rules) ->
  Forall (ended live') (r_srvrs old).*1 ->
  exists m, router_free live' w' (parsed_routes labels) old' (mkMem [] []) = inl m /\ NoDup (m_freed m) /\
    (forall i, R_server i P_struct ∈ m_freed m <-> i ∈ (r_srvrs old).*1) /\
    (forall q, R_queue q ∈ m_freed m <-> q ∈ own_queues w' old') /\
    (forall k n, R_regex k n ∈ m_freed m <-> k ∈ (labels ≫= stmt_rules) /\ (n < f_workercnt (r_conf old))%nat) /\
    (forall i s, i ∈ (r_srvrs new).*1 -> servers w' !! i = Some s -> R_queue (s_queue s) ∉ m_freed m) /\
    (forall cl q, cl ∈ r_clusters new' -> cl_queue cl = Some q -> R_queue q ∉ m_freed m) /\
    owned w' new' /\ own_queues w' new' ++ own_queues w' old' ≡ₚ own_queues w new ++ own_queues w old.
Proof.
  intros Hsw Ha Hs _ Hps Hid Hrules He. destruct (swap_parts _ _ _ _ _ _ _ _ _ _ _ _ Hsw) as (w1 & w2 & Hh1 & Hp1 & Hl1 & Ht & Hh2 & Hq2).
  assert (apart_in w1 new old) as Ha1 by (by eapply apart_held). assert (swappable w1 (r_clusters old) (r_clusters new)) as Hs1 by (by eapply swappable_same).
  destruct (transplant_apart _ _ _ _ _ _ Ha1 Ht) as (_ & Hfo & Hnd & En & Eo & _ & _ & Hperm).
  pose proof (transplant_in_place _ _ _ _ _ _ Ha1 Hs1 Ht) as Hown.
  assert (length (queues w') = length (queues w2)) as Hl2 by (by rewrite Hq2).
  assert (freeable w' old') as Hfo' by (by eapply freeable_held). assert (owned w' new') as Hown' by (by eapply owned_held).
  assert (r_conf old' = r_conf old) as Ec.
  { unfold router_transplant_queues in Ht. destruct (transplant_clusters _ _ _) as [[[a b] c]|]; revert Ht; run_binds; [|done]. by intros [= _ _ <-]. }
  rewrite <- !(own_queues_held w2 w' _ Hh2) in Hnd, Hperm. rewrite !(own_queues_held w w1 _ Hh1) in Hperm.
  apply NoDup_app in Hnd as (_ & Hd & _).
  destruct (parsed_freed live' w' labels old' Hfo' Hps Hid Hrules) as (m & Hm & Hnm & Hsv & Hqs & Hrx); [by rewrite Eo|].
  assert (forall cl q, cl ∈ r_clusters new' -> cl_queue cl = Some q -> R_queue q ∉ m_freed m) as Hcl.
  { intros cl q Hcl Hq. rewrite Hqs. apply Hd, elem_of_app. right. apply list_elem_of_omap. eauto. }
  exists m. split_and!; [done|done| |done|by rewrite <- Ec| |done|done|done].
  - intros i. rewrite Hsv, Eo. split; [by intros [? _]|]. intros Hi. split; [done|].
    rewrite <- Eo in Hi. destruct (fb_exist _ _ Hfo' i Hi) as (s & Hss & _). by exists s.
  - intros i s Hi Hss. rewrite <- En in Hi. destruct (s_shared_queue s) eqn:Esh.
    + destruct (ow_shared _ _ Hown' i s Hi Hss Esh) as (cl & Hin & _ & Hq). by eapply Hcl.
    + rewrite Hqs. apply Hd, elem_of_app. left. apply list_elem_of_omap. exists i. split; [done|].
      unfold own_queue. rewrite Hss. run_binds. by rewrite Esh.
Qed.

(** The optimiser takes the routes of a statement apart: the expression that validates their metrics is then freed twice.
    The three routes are those of a statement with two expressions and [validate], and of one that ends as the first does. *)
Theorem optimised_validation_freed_twice `{Regex} (rx : regex_t) (workercnt : nat) :
  (0 < workercnt)%nat ->
  exists l1 l2 l3 : lroute,
    router_optimise 10 0 (erase <$> [l1; l2; l3]) = Some (erase <$> [l1; l3; l2]) /\
    (exists m, router_free_intern workercnt [l1; l2; l3] (mkMem [] []) = inl m) /\
    router_free_intern workercnt [l1; l3; l2] (mkMem [] []) = inr Undefined.
Proof.
  intros Hw.
  set (regex := fun pat => mkMatcher _ (lit pat) (replicate (S workercnt) rx) 0 [] REGEX).
  set (ds := [L_validation (mkL (regex "^[0-9.]+ ") 3 None false 2 []) VAL_LOG; L_other (FORWARD [0%nat])]).
  set (l1 := mkL (regex "^a.*load") 0 None false 0 ds). set (l2 := mkL (regex "^a.*users") 1 None false 0 ds).
  set (l3 := mkL (regex "^b.*load") 2 None false 1 [L_other (FORWARD [0%nat])]).
  exists l1, l2, l3. split_and!.
  - vm_compute. reflexivity.
  - unfold router_free_intern. rewrite release_all_spec; [by eexists|]. rewrite app_nil_r.
    change [l1; l2; l3] with (parsed_routes [mkLs [(regex "^a.*load", 0%nat); (regex "^a.*users", 1%nat)] None false 0 ds;
      mkLs [(regex "^b.*load", 2%nat)] None false 1 [L_other (FORWARD [0%nat])]]).
    rewrite parsed_calls.
    + apply rule_regexes_nodup. apply (bool_decide_unpack _). vm_compute. exact I.
    + repeat constructor; done.
    + apply (bool_decide_unpack _). vm_compute. exact I.
  - assert (forall mt k id, R_regex 3 0 ∈ route_calls workercnt true (mkL mt k None false id ds)) as Htwice.
    { intros mt k id. rewrite route_calls_eq, elem_of_app. right. unfold ds. cbn [fmap list_fmap concat]. apply elem_of_app. left.
      unfold dest_calls. rewrite route_calls_eq, elem_of_app. left. unfold rule_calls. rewrite bool_decide_true by done.
      apply (list_elem_of_fmap_2 (R_regex 3)), elem_of_seq. lia. }
    apply release_all_twice. change (regfree_calls workercnt [l1; l3; l2])
      with (route_calls workercnt true l1 ++ route_calls workercnt true l3 ++ route_calls workercnt true l2 ++ []).
    intros (_ & Hd & _)%NoDup_app. apply (Hd (R_regex 3 0)); [apply Htwice|]. rewrite !elem_of_app. right. left. apply Htwice.
Qed.

(** *** A server in two clusters *)

#[local] Existing Instance demo_resolver.
#[local] Existing Instance demo_files.
#[local] Existing Instance simple_engine.
#[local] Existing Instance isort_qsort.

(** Reading a configuration in a world where there may be others. *)
Definition built (w : world (queue (list Z))) (ss : list stmt) : world (queue (list Z)) * router :=
  match run_stmts demo_queue_of 0 0 (fun _ => lit "0x1") (lit "0x2") (lit "relay.example.com") demo_hostmatch w demo_start ss with
  | Some (inl x) => x
  | _ => (w, demo_start)
  end.
Definition twice_config : list stmt :=
  [S_cluster (lit "a") Clusttype.LB false false 1 1 0 0 0 [demo_host (lit "10.0.0.1:2003")];
   S_cluster (lit "b") Clusttype.FORWARD false false 1 1 0 0 0 [demo_host (lit "10.0.0.1:2003")]].
Definition twice_old : world (queue (list Z)) * router := built (mkWorld [] []) twice_config.
Definition twice_new : world (queue (list Z)) * router :=
  built twice_old.1 (twice_config ++ [S_match [lit "*"] None None [lit "a"] true]).

(** A server that is in two clusters loses its queue in a reload.  It shares the queue of the first, an [lb] cluster; its queue is
    swapped once for each cluster, the cluster's once.  In the end the new server holds the queue that the old cluster has
    now, and it is freed with the old router. *)
Theorem reload_frees_queue_in_use :
  exists w' new' old' m,
    router_transplant_queues (router_shutdown twice_new.1 twice_old.2 (Some twice_new.2)) twice_new.2 twice_old.2 = Some (w', new', old') /\
    (r_srvrs new').*1 = [1%nat] /\ queue_held w' 1 = Some (true, 1%nat) /\
    router_free ∅ w' [] old' (mkMem [] []) = inl m /\ R_queue 1 ∈ m_freed m.
Proof.
  eexists _, _, _, _. split_and!; [vm_compute; reflexivity|vm_compute; reflexivity|vm_compute; reflexivity|vm_compute; reflexivity|].
  apply (bool_decide_unpack _). vm_compute. exact I.
Qed.

Lemma reload_frees_safely_witness :
  exists m, router_free demo_started.1.2 demo_started.1.1.1 [] demo_transplanted.2 (mkMem [] []) = inl m /\ (R_queue 0 ∉ m_freed m) /\ R_queue 1 ∈ m_freed m.
Proof.
  destruct (reload_frees_safely _ _ _ _ _ _ _ _ _ _ _ _ [] demo_swap) as (m & Hm & _ & _ & _ & _ & Hq & _).
  - assert (forall i, (i < 2)%nat -> owned demo_world (demo_rtr i)) as Ho.
    { intros i Hi. assert (i = 0 \/ i = 1)%nat as [-> | ->] by lia; split; cbn.
      1, 6: apply NoDup_singleton.
      1, 5: by intros i Hin.
      1, 4: intros i ->%list_elem_of_singleton; by eexists.
      1, 3: intros q'; unfold own_queues; cbn; rewrite list_elem_of_singleton; lia.
      all: intros i s ->%list_elem_of_singleton [= <-]; done. }
    split; [apply Ho; lia|apply Ho; lia|..]; apply (bool_decide_unpack _); vm_compute; exact I.
  - exact demo_swappable.
  - reflexivity.
  - by constructor.
  - apply NoDup_nil_2.
  - apply NoDup_nil_2.
  - apply Forall_singleton. intros n.
    assert (exists x, demo_started.1.2 = {[(1%nat, 0%nat) := x]}) as (x & ->) by (eexists; vm_compute; reflexivity). by apply lookup_singleton_ne.
  - exists m. split_and!; [exact Hm|by apply (Hq 1%nat _ (list_elem_of_here _ _) eq_refl)|].
    revert Hm. vm_compute. intros [= <-]. repeat (apply list_elem_of_here || apply list_elem_of_further).
Defined.

Lemma optimised_validation_freed_twice_witness :
  exists l1 l2 l3 : lroute,
    router_optimise 10 0 (erase <$> [l1; l2; l3]) = Some (erase <$> [l1; l3; l2]) /\
    (exists m, router_free_intern 1 [l1; l2; l3] (mkMem [] []) = inl m) /\
    router_free_intern 1 [l1; l3; l2] (mkMem [] []) = inr Undefined.
Proof. apply (optimised_validation_freed_twice (H := simple_engine) (mkSimple false [] false : simple) 1). lia. Defined.

(** *** A router with expressions *)

(** An engine that compiles every expression. *)
Definition any_engine : Regex := {| regex_t := cstring; regcomp pat := Some pat; re_nsub _ := 0%nat; regexec _ _ := None |}.
#[local] Existing Instance any_engine.
Definition regex_config : list stmt :=
  [S_cluster (lit "a") Clusttype.LB false false 1 1 0 0 0 [demo_host (lit "10.0.0.1"); demo_host (lit "10.0.0.2")];
   S_cluster (lit "b") Clusttype.FORWARD false false 1 1 0 0 0 [demo_host (lit "10.0.0.3")];
   S_match [lit "^a.*b"; lit "c+"] (Some (lit "^[0-9]+ ", true)) None [lit "a"] true].
Definition regex_start : router :=
  match new_router (lit "relay.example.com") demo_hostmatch demo_conf with
  | inl r => r
  | inr _ => mkRouter [] [] [] [] None 0 [] CUM [] demo_conf
  end.
Definition regex_end : world (queue (list Z)) * router :=
  match run_stmts demo_queue_of 0 0 (fun _ => lit "0x1") (lit "0x2") (lit "relay.example.com") demo_hostmatch (mkWorld [] [])
          regex_start regex_config with
  | Some (inl x) => x
  | _ => (mkWorld [] [], regex_start)
  end.
Definition regex_matcher (pat : cstring) : matcher := mkMatcher _ pat [pat : regex_t; pat] 0 [] REGEX.
Definition regex_labels : list (lstmt) :=
  [mkLs [(regex_matcher (lit "^a.*b"), 0%nat); (regex_matcher (lit "c+"), 1%nat)] None true 0
     [L_validation (mkL (regex_matcher (lit "^[0-9]+ ")) 2 None false 1 []) VAL_DROP;
      L_other (LB [0; 1]%nat)]].
Lemma configured_router_freed_witness :
  exists m, router_free ∅ regex_end.1 (parsed_routes regex_labels) regex_end.2 (mkMem [] []) = inl m /\
    NoDup (m_freed m) /\ R_queue 0 ∈ m_freed m /\ R_regex 2 0 ∈ m_freed m /\ ~ R_regex 2 1 ∈ m_freed m.
Proof.
  destruct (configured_router_freed demo_queue_of 0 0 (fun _ => lit "0x1") (lit "0x2") (lit "relay.example.com") demo_hostmatch
    demo_conf regex_config (mkWorld [] []) regex_end.1 regex_start regex_end.2 regex_labels ∅) as (m & Hm & Hn & _ & Hq & Hx).
  - vm_compute. reflexivity.
  - vm_compute. reflexivity.
  - vm_compute. reflexivity.
  - apply Forall_singleton. split; [done|]. by repeat constructor.
  - apply NoDup_singleton.
  - apply (bool_decide_unpack _). vm_compute. exact I.
  - apply Forall_forall. intros i _ n. apply lookup_empty.
  - exists m. split_and!; [exact Hm|exact Hn| | |].
    + apply Hq. vm_compute. lia.
    + apply Hx. split; [|vm_compute; lia]. vm_compute. repeat (apply list_elem_of_here || apply list_elem_of_further).
    + intros [_ Hlt]%Hx. vm_compute in Hlt. lia.
Defined.
