(* ===== verification/Options.v ===== *)
(** * The options of the relay (src/relay.c, [main])

    From the words of the command line to the settings the relay runs with: [getopt]
    with the option string of the source, the loop over its results, and the checks that
    follow it.  The relay ends early by a value of [inr], its exit status.  [None] is
    undefined behaviour: the signed overflow of a threshold.

    Texts that are printed are left out.  What the operating system answers when a buffer
    size is tried, and the number of processors, are arguments. *)
From S2P Require Import Prelude Relay Server RouterConfig Sighup Lexer.
#[local] Open Scope Z_scope.

(** ** [getopt] *)

Definition optstring : cstring := lit ":hvdstf:F:S:W:l:p:w:b:q:L:C:T:c:m:M:H:B:U:EDP:O:".
(** Does the option take an argument?  [None] when there is no such option. *)
Fixpoint opt_kind (opts : cstring) (c : cchar) : option bool :=
  match opts with
  | [] => None
  | o :: opts' =>
      if (o =? c) && negb (c =? ch ":") then Some (match opts' with a :: _ => a =? ch ":" | [] => false end) else opt_kind opts' c
  end.

(** A result of [getopt]: the option, ['?'] or [':'], and [optarg]. *)
Abbreviation got := (cchar * cstring)%type.

(** The options in one word, and one whose argument is the next word. *)
Fixpoint word_options (word : cstring) : list got * option cchar :=
  match word with
  | [] => ([], None)
  | c :: rest =>
      match opt_kind optstring c with
      | Some true => if bool_decide (rest = []) then ([], Some c) else ([(c, rest)], None)
      | Some false => let '(l, p) := word_options rest in ((c, []) :: l, p)
      | None => let '(l, p) := word_options rest in ((ch "?", []) :: l, p)
      end
  end.

(** Words that are no options are passed over.  The flag says whether [optind] moved. *)
Fixpoint getopt_words (pending : option cchar) (args : list cstring) : list got * bool :=
  match args with
  | [] => (match pending with Some _ => [(ch ":", [])] | None => [] end, false)
  | a :: args' =>
      match pending with
      | Some c => ((c, a) :: (getopt_words None args').1, true)
      | None =>
          match a with
          | d :: rest =>
              if (d =? ch "-") && negb (bool_decide (rest = [])) then
                if bool_decide (rest = [ch "-"]) then ([], true)
                else let '(l, p) := word_options rest in (l ++ (getopt_words p args').1, true)
              else getopt_words None args'
          | [] => getopt_words None args'
          end
      end
  end.
Definition getopt (args : list cstring) : list got * bool := getopt_words None args.

(** ** The variables that options set *)

Definition MODE_SUBMISSION : Z := 2.
Definition MODE_TEST : Z := 4.
Definition MODE_DAEMON : Z := 8.
Definition MODE_TRACE : Z := 16.
Definition MODE_CONFIGTEST : Z := 32.
Definition has_mode (mode bit : Z) : bool := negb (Z.land mode bit =? 0).

Record options := mkOpts {
  v_mode : Z; v_config : option cstring; v_logfile : option cstring; v_listenport : Z; v_workercount : Z;
  v_batchsize : Z; v_queuesize : Z; v_threshold_start : Z; v_threshold_end : Z; v_shutdown_timeout : Z;
  v_maxstalls : Z; v_sslCA : option cstring; v_iotimeout : Z; v_noexpire : bool; v_allowed_chars : option cstring;
  v_maxmetriclen : Z; v_maxinplen : Z; v_hostname : cstring; v_backlog : Z; v_sockbufsize : Z;
  v_pidfile : option cstring; v_optimiserthreshold : Z;
}.
(** The initial values; [hostname] is the machine's. *)
Definition defaults (hostname : cstring) : options :=
  mkOpts 0 None None GRAPHITE_PORT 0 2500 25000 0 0 120 4 None 600 false None (-1) (-1) hostname 32 0 None 50.

(** The calls that try a buffer size: whether there is a socket, whether the size is accepted, and what is
    read back, with whether its length is that of an [int]. *)
Record bufsize_answers := mkBuf { ba_socket : bool; ba_set : bool; ba_get : option Z; ba_len : bool }.

(** One turn of the loop. *)
Definition set_mode (o : options) mode : options :=
  mkOpts mode (v_config o) (v_logfile o) (v_listenport o) (v_workercount o) (v_batchsize o) (v_queuesize o) (v_threshold_start o) (v_threshold_end o)
    (v_shutdown_timeout o) (v_maxstalls o) (v_sslCA o) (v_iotimeout o) (v_noexpire o) (v_allowed_chars o) (v_maxmetriclen o) (v_maxinplen o)
    (v_hostname o) (v_backlog o) (v_sockbufsize o) (v_pidfile o) (v_optimiserthreshold o).
Definition set_files (o : options) config logfile ca pidfile : options :=
  mkOpts (v_mode o) config logfile (v_listenport o) (v_workercount o) (v_batchsize o) (v_queuesize o) (v_threshold_start o) (v_threshold_end o)
    (v_shutdown_timeout o) (v_maxstalls o) ca (v_iotimeout o) (v_noexpire o) (v_allowed_chars o) (v_maxmetriclen o) (v_maxinplen o)
    (v_hostname o) (v_backlog o) (v_sockbufsize o) pidfile (v_optimiserthreshold o).
Definition set_numbers (o : options) listenport workercount backlog sockbufsize : options :=
  mkOpts (v_mode o) (v_config o) (v_logfile o) listenport workercount (v_batchsize o) (v_queuesize o) (v_threshold_start o) (v_threshold_end o)
    (v_shutdown_timeout o) (v_maxstalls o) (v_sslCA o) (v_iotimeout o) (v_noexpire o) (v_allowed_chars o) (v_maxmetriclen o) (v_maxinplen o)
    (v_hostname o) backlog sockbufsize (v_pidfile o) (v_optimiserthreshold o).
Definition set_queueing (o : options) batchsize queuesize threshold_start threshold_end shutdown_timeout maxstalls iotimeout : options :=
  mkOpts (v_mode o) (v_config o) (v_logfile o) (v_listenport o) (v_workercount o) batchsize queuesize threshold_start threshold_end
    shutdown_timeout maxstalls (v_sslCA o) iotimeout (v_noexpire o) (v_allowed_chars o) (v_maxmetriclen o) (v_maxinplen o)
    (v_hostname o) (v_backlog o) (v_sockbufsize o) (v_pidfile o) (v_optimiserthreshold o).
Definition set_limits (o : options) noexpire allowed_chars maxmetriclen maxinplen hostname optimiserthreshold : options :=
  mkOpts (v_mode o) (v_config o) (v_logfile o) (v_listenport o) (v_workercount o) (v_batchsize o) (v_queuesize o) (v_threshold_start o) (v_threshold_end o)
    (v_shutdown_timeout o) (v_maxstalls o) (v_sslCA o) (v_iotimeout o) noexpire allowed_chars maxmetriclen maxinplen
    hostname (v_backlog o) (v_sockbufsize o) (v_pidfile o) optimiserthreshold.

(** The queueing options, by letter: the others stay. *)
Definition q_batchsize (o : options) x := set_queueing o x (v_queuesize o) (v_threshold_start o) (v_threshold_end o) (v_shutdown_timeout o) (v_maxstalls o) (v_iotimeout o).
Definition q_queuesize (o : options) x := set_queueing o (v_batchsize o) x (v_threshold_start o) (v_threshold_end o) (v_shutdown_timeout o) (v_maxstalls o) (v_iotimeout o).
Definition q_start (o : options) x := set_queueing o (v_batchsize o) (v_queuesize o) x (v_threshold_end o) (v_shutdown_timeout o) (v_maxstalls o) (v_iotimeout o).
Definition q_end (o : options) x := set_queueing o (v_batchsize o) (v_queuesize o) (v_threshold_start o) x (v_shutdown_timeout o) (v_maxstalls o) (v_iotimeout o).
Definition q_timeout (o : options) x := set_queueing o (v_batchsize o) (v_queuesize o) (v_threshold_start o) (v_threshold_end o) x (v_maxstalls o) (v_iotimeout o).
Definition q_maxstalls (o : options) x := set_queueing o (v_batchsize o) (v_queuesize o) (v_threshold_start o) (v_threshold_end o) (v_shutdown_timeout o) x (v_iotimeout o).
Definition q_iotimeout (o : options) x := set_queueing o (v_batchsize o) (v_queuesize o) (v_threshold_start o) (v_threshold_end o) (v_shutdown_timeout o) (v_maxstalls o) x.

Section Main.
Context (buf : Z -> bufsize_answers).

(** Case ['U']: the size is tried on a socket. *)
Definition try_bufsize (o : options) (val : Z) : options + Z :=
  let a := buf val in
  let size := if ba_socket a then default val (ba_get a) else val in
  if ba_socket a && negb (bool_decide (ba_get a = None)) && negb (ba_len a) then inr 1
  else inl (set_numbers o (v_listenport o) (v_workercount o) (v_backlog o) size).

Definition option_step (o : options) (g : got) : options + Z :=
  let c := g.1 in let arg := g.2 in let n := atoi arg in let usage := inr 1 in
  let mode := v_mode o in
  if c =? ch "v" then inr 0
  else if c =? ch "d" then
    inl (set_mode o (if has_mode mode MODE_DEBUG then Z.ldiff (Z.lor mode MODE_TRACE) MODE_DEBUG else Z.lor mode MODE_DEBUG))
  else if c =? ch "s" then inl (set_mode o (Z.lor mode MODE_SUBMISSION))
  else if c =? ch "t" then inl (set_mode o (Z.lor mode (if has_mode mode MODE_TEST then MODE_CONFIGTEST else MODE_TEST)))
  else if c =? ch "f" then inl (set_files o (Some arg) (v_logfile o) (v_sslCA o) (v_pidfile o))
  else if c =? ch "l" then inl (set_files o (v_config o) (Some arg) (v_sslCA o) (v_pidfile o))
  else if c =? ch "p" then
    if u16 n =? 0 then usage else inl (set_numbers o (u16 n) (v_workercount o) (v_backlog o) (v_sockbufsize o))
  else if c =? ch "w" then
    if s8 n <=? 0 then usage else inl (set_numbers o (v_listenport o) (s8 n) (v_backlog o) (v_sockbufsize o))
  else if c =? ch "b" then if n <=? 0 then usage else inl (q_batchsize o n)
  else if c =? ch "q" then if n <=? 0 then usage else inl (q_queuesize o n)
  else if c =? ch "S" then inl (q_start o n)
  else if c =? ch "F" then inl (q_end o n)
  else if c =? ch "W" then if (strtol arg).1 <? 0 then usage else inl (q_timeout o (strtol arg).1)
  else if c =? ch "L" then if (n <? 0) || (2 ^ SERVER_STALL_BITS <=? n) then usage else inl (q_maxstalls o n)
  else if c =? ch "C" then inl (set_files o (v_config o) (v_logfile o) (Some arg) (v_pidfile o))
  else if c =? ch "T" then if (n <=? 0) || (60000 <=? n) then usage else inl (q_iotimeout o (u16 n))
  else if c =? ch "E" then
    inl (set_limits o true (v_allowed_chars o) (v_maxmetriclen o) (v_maxinplen o) (v_hostname o) (v_optimiserthreshold o))
  else if c =? ch "c" then
    inl (set_limits o (v_noexpire o) (Some arg) (v_maxmetriclen o) (v_maxinplen o) (v_hostname o) (v_optimiserthreshold o))
  else if c =? ch "m" then
    if n <? 0 then usage else inl (set_limits o (v_noexpire o) (v_allowed_chars o) n (v_maxinplen o) (v_hostname o) (v_optimiserthreshold o))
  else if c =? ch "M" then
    if (n <=? 0) || (METRIC_BUFSIZ <? n) then usage
    else inl (set_limits o (v_noexpire o) (v_allowed_chars o) (v_maxmetriclen o) n (v_hostname o) (v_optimiserthreshold o))
  else if c =? ch "H" then
    inl (set_limits o (v_noexpire o) (v_allowed_chars o) (v_maxmetriclen o) (v_maxinplen o) (snprintf_trunc 256 arg) (v_optimiserthreshold o))
  else if c =? ch "B" then if n <=? 0 then usage else inl (set_numbers o (v_listenport o) (v_workercount o) n (v_sockbufsize o))
  else if c =? ch "U" then if n <=? 0 then usage else try_bufsize o n
  else if c =? ch "D" then inl (set_mode o (Z.lor mode MODE_DAEMON))
  else if c =? ch "P" then inl (set_files o (v_config o) (v_logfile o) (v_sslCA o) (Some arg))
  else if c =? ch "O" then
    inl (set_limits o (v_noexpire o) (v_allowed_chars o) (v_maxmetriclen o) (v_maxinplen o) (v_hostname o) (if n <? 0 then -1 else n))
  else if (c =? ch "?") || (c =? ch ":") then usage
  else inr 0.   (* h *)

Fixpoint option_loop (o : options) (gs : list got) : options + Z :=
  match gs with
  | [] => inl o
  | g :: gs' => match option_step o g with inl o => option_loop o gs' | inr e => inr e end
  end.

(** ** The checks *)

(** What a threshold comes to: a number of batches, or a percentage of the queue.  The quotient of doubles, rounded
    towards 0 as the result is an [int], is that of the integers: both are below [2 ^ 53]. *)
Definition int_product (a b : Z) : option Z := if (- 2 ^ 31 <=? a * b) && (a * b <? 2 ^ 31) then Some (a * b) else None.
Definition threshold (percent batches batchsize queuesize : Z) : option Z :=
  if percent =? 0 then int_product batches batchsize else Some (Z.quot (percent * queuesize) 100).
Definition percentage (x : Z) : bool := (0 <=? x) && (x <=? 100).

Definition check_options (cores : Z) (o : options) (moved : bool) : option (options + Z) :=
  if negb moved || bool_decide (v_config o = None) then Some (inr 1)
  else if negb (percentage (v_threshold_start o) && percentage (v_threshold_end o)) then Some (inr 1)
  else
    start ← threshold (v_threshold_start o) 2 (v_batchsize o) (v_queuesize o);
    stop ← threshold (v_threshold_end o) 3 (v_batchsize o) (v_queuesize o);
    if stop <=? start then Some (inr 1)
    else
      let o := q_end (q_start o start) stop in
      let workers := if v_workercount o =? 0 then if has_mode (v_mode o) MODE_SUBMISSION then 2 else s8 cores else v_workercount o in
      let o := set_numbers o (v_listenport o) workers (v_backlog o) (v_sockbufsize o) in
      if v_queuesize o <? v_batchsize o then Some (inr 1)
      else if (0 <? v_maxinplen o) && (0 <? v_maxmetriclen o) && (v_maxinplen o <=? v_maxmetriclen o) then Some (inr 1)
      else
        let inplen := if v_maxinplen o =? -1 then METRIC_BUFSIZ else v_maxinplen o in
        let metriclen := if v_maxmetriclen o =? -1 then inplen else v_maxmetriclen o in
        Some (inl (set_limits o (v_noexpire o) (v_allowed_chars o) metriclen inplen (v_hostname o) (v_optimiserthreshold o))).

(** The beginning of [main]. *)
Definition main_options (hostname : cstring) (cores : Z) (args : list cstring) : option (options + Z) :=
  let '(gs, moved) := getopt args in
  match option_loop (defaults hostname) gs with
  | inr e => Some (inr e)
  | inl o => check_options cores o moved
  end.
End Main.

(** ** What the options can be *)

Record opts_ok (o : options) : Prop := mkOptsOk {
  ok_port : 1 <= v_listenport o <= 65535;
  ok_workers : v_workercount o = 0 \/ 1 <= v_workercount o <= 127;
  ok_batch : 1 <= v_batchsize o < 2 ^ 31;
  ok_queue : 1 <= v_queuesize o < 2 ^ 31;
  ok_timeout : 0 <= v_shutdown_timeout o < 2 ^ 63;
  ok_stalls : 0 <= v_maxstalls o <= 15;
  ok_iotimeout : 1 <= v_iotimeout o < 60000;
  ok_metriclen : v_maxmetriclen o = -1 \/ 0 <= v_maxmetriclen o < 2 ^ 31;
  ok_inplen : v_maxinplen o = -1 \/ 1 <= v_maxinplen o <= METRIC_BUFSIZ;
  ok_backlog : 1 <= v_backlog o < 2 ^ 31;
  ok_optimiser : -1 <= v_optimiserthreshold o < 2 ^ 31;
}.

Lemma atoi_range s : - 2 ^ 31 <= atoi s < 2 ^ 31.
Proof. unfold atoi, s32. pose proof (Z.mod_pos_bound ((strtol s).1 + 2 ^ 31) (2 ^ 32)). lia. Qed.
Lemma strtol_range s : - 2 ^ 63 <= (strtol s).1 < 2 ^ 63.
Proof.
  unfold strtol. destruct (match list_find _ s with Some _ => _ | None => _ end) as [|c t]; [cbn; lia|].
  destruct (if _ =? _ then _ else _) as [neg [|d u]]; [cbn; lia|]. destruct (is_digit d); [|cbn; lia].
  destruct (digits_value 0 (d :: u)) as [v rest]. cbn [fst]. lia.
Qed.
Lemma defaults_ok hostname : opts_ok (defaults hostname).
Proof. split; cbn; unfold GRAPHITE_PORT, METRIC_BUFSIZ; lia. Qed.

(** Each group of options. *)
Section Steps.
Context (o : options) (Ho : opts_ok o).
Lemma set_mode_ok mode : opts_ok (set_mode o mode).
Proof. by destruct Ho. Qed.
Lemma set_files_ok config logfile ca pidfile : opts_ok (set_files o config logfile ca pidfile).
Proof. by destruct Ho. Qed.
Lemma set_counts_ok port workers backlog size :
  1 <= port <= 65535 -> workers = 0 \/ 1 <= workers <= 127 -> 1 <= backlog < 2 ^ 31 -> opts_ok (set_numbers o port workers backlog size).
Proof. by destruct Ho. Qed.
Lemma set_queueing_ok batchsize queuesize ts te timeout maxstalls iotimeout :
  1 <= batchsize < 2 ^ 31 -> 1 <= queuesize < 2 ^ 31 -> 0 <= timeout < 2 ^ 63 -> 0 <= maxstalls <= 15 -> 1 <= iotimeout < 60000 ->
  opts_ok (set_queueing o batchsize queuesize ts te timeout maxstalls iotimeout).
Proof. by destruct Ho. Qed.
Lemma set_limits_ok noexpire chars metriclen inplen hostname optimiser :
  metriclen = -1 \/ 0 <= metriclen < 2 ^ 31 -> inplen = -1 \/ 1 <= inplen <= METRIC_BUFSIZ -> -1 <= optimiser < 2 ^ 31 ->
  opts_ok (set_limits o noexpire chars metriclen inplen hostname optimiser).
Proof. by destruct Ho. Qed.

(** A value that is checked and then stored. *)
Lemma checked_ok (b : bool) (x o' : options) : (b = false -> opts_ok x) -> (if b then inr 1 else inl x) = inl o' -> opts_ok o'.
Proof. destruct b; [done|]. intros Hx [= <-]. auto. Qed.
End Steps.
Ltac checked := apply checked_ok; intros Hb; repeat (apply orb_false_iff in Hb as [Hb ?]);
  rewrite ?Z.leb_gt, ?Z.ltb_ge, ?Z.eqb_neq in *.
Ltac stored := intros [= <-].

Lemma option_step_ok buf o g o' : opts_ok o -> option_step buf o g = inl o' -> opts_ok o'.
Proof.
  intros Ho. destruct g as [c arg]. unfold option_step. cbn [fst snd]. cbv zeta.
  pose proof (atoi_range arg) as Ha. pose proof (strtol_range arg) as Hs. generalize dependent (atoi arg). intros n Ha.
  pose proof (Z.mod_pos_bound n (2 ^ 16) ltac:(lia)) as Hu. fold (u16 n) in Hu.
  assert (- 128 <= s8 n < 128) as Hc by (unfold s8; pose proof (Z.mod_pos_bound (n + 2 ^ 7) (2 ^ 8)); lia).
  destruct (c =? ch "v"); [done|]. destruct (c =? ch "d"); [stored; by apply set_mode_ok|].
  destruct (c =? ch "s"); [stored; by apply set_mode_ok|]. destruct (c =? ch "t"); [stored; by apply set_mode_ok|].
  destruct (c =? ch "f"); [stored; by apply set_files_ok|]. destruct (c =? ch "l"); [stored; by apply set_files_ok|].
  destruct (c =? ch "p"); [checked; apply set_counts_ok; [done|lia|apply Ho..]|].
  destruct (c =? ch "w"); [checked; apply set_counts_ok; [done|apply Ho|lia|apply Ho]|].
  destruct (c =? ch "b"); [checked; apply set_queueing_ok; try apply Ho; lia|].
  destruct (c =? ch "q"); [checked; apply set_queueing_ok; try apply Ho; lia|].
  destruct (c =? ch "S"); [stored; apply set_queueing_ok; by try apply Ho|].
  destruct (c =? ch "F"); [stored; apply set_queueing_ok; by try apply Ho|].
  destruct (c =? ch "W"); [checked; apply set_queueing_ok; try apply Ho; lia|].
  destruct (c =? ch "L"); [checked; apply set_queueing_ok; try apply Ho; unfold SERVER_STALL_BITS in *; lia|].
  destruct (c =? ch "C"); [stored; by apply set_files_ok|].
  destruct (c =? ch "T"); [checked; apply set_queueing_ok; try apply Ho; unfold u16; rewrite Z.mod_small; lia|].
  destruct (c =? ch "E"); [stored; apply set_limits_ok; by try apply Ho|].
  destruct (c =? ch "c"); [stored; apply set_limits_ok; by try apply Ho|].
  destruct (c =? ch "m"); [checked; apply set_limits_ok; try apply Ho; lia|].
  destruct (c =? ch "M"); [checked; apply set_limits_ok; try apply Ho; lia|].
  destruct (c =? ch "H"); [stored; apply set_limits_ok; by try apply Ho|].
  destruct (c =? ch "B"); [checked; apply set_counts_ok; [done|apply Ho|apply Ho|lia]|].
  destruct (c =? ch "U").
  { destruct (n <=? 0); [done|]. unfold try_bufsize. destruct (_ && _ && _); [done|]. stored. by apply set_counts_ok; try apply Ho. }
  destruct (c =? ch "D"); [stored; by apply set_mode_ok|]. destruct (c =? ch "P"); [stored; by apply set_files_ok|].
  destruct (c =? ch "O"); [stored; apply set_limits_ok; try apply Ho; destruct (Z.ltb_spec n 0); lia|].
  by destruct (_ || _).
Qed.
Lemma option_loop_ok buf gs o o' : opts_ok o -> option_loop buf o gs = inl o' -> opts_ok o'.
Proof.
  revert o. induction gs as [|g gs IH]; intros o Ho; cbn [option_loop]; [by intros [= <-]|].
  destruct (option_step buf o g) as [o1|] eqn:E; [|done]. apply IH. by eapply option_step_ok.
Qed.

(** ** Properties *)

Lemma option_step_status buf o g e : option_step buf o g = inr e -> e = 0 \/ e = 1.
Proof. unfold option_step, try_bufsize. intros Hs. repeat (case_match; simplify_eq; auto). Qed.
Lemma option_loop_status buf gs o e : option_loop buf o gs = inr e -> e = 0 \/ e = 1.
Proof.
  revert o. induction gs as [|g gs IH]; intros o; cbn [option_loop]; [done|].
  destruct (option_step buf o g) as [o1|e1] eqn:E; [apply IH|]. intros [= <-]. by eapply option_step_status.
Qed.
(** Ranges of a threshold, and when there is none. *)
Lemma threshold_range pc k b q : 0 <= pc <= 100 -> 2 <= k <= 3 -> 1 <= b < 2 ^ 31 -> 1 <= q < 2 ^ 31 ->
  match threshold pc k b q with Some t => 0 <= t < 2 ^ 31 | None => 2 ^ 31 <= k * b end.
Proof.
  intros Hpc Hk Hb Hq. unfold threshold, int_product. destruct (Z.eqb_spec pc 0) as [->|].
  - destruct (Z.leb_spec (- 2 ^ 31) (k * b)), (Z.ltb_spec (k * b) (2 ^ 31)); cbn [andb]; nia.
  - rewrite Z.quot_div_nonneg by nia. split; [apply Z.div_pos; nia|]. apply Z.div_lt_upper_bound; nia.
Qed.

(** C35: What comes of a command line, whatever its words are and however many processors there are.  Either the relay starts; then there is a
    configuration file, a port, a batch fits in a queue, the thresholds are ordered, no metric is longer than the buffers, the
    limits are in their ranges, and there are 1 to 127 workers or, when no number was given, as many as the processors cut to a [char].
    Or it ends with status 0 or 1.  Or a threshold overflows, which takes a batch size of more than a third of an [int]'s range. *)
Theorem options_sane (buf : Z -> bufsize_answers) (hostname : cstring) (cores : Z) (args : list cstring) :
  match main_options buf hostname cores args with
  | Some (inl o) =>
      is_Some (v_config o) /\ 1 <= v_listenport o <= 65535 /\ (1 <= v_workercount o <= 127 \/ v_workercount o = s8 cores) /\
      1 <= v_batchsize o <= v_queuesize o /\ v_queuesize o < 2 ^ 31 /\ 0 <= v_threshold_start o < v_threshold_end o /\ v_threshold_end o < 2 ^ 31 /\
      0 <= v_maxstalls o <= 15 /\ 1 <= v_iotimeout o < 60000 /\ 1 <= v_maxinplen o <= METRIC_BUFSIZ /\ 0 <= v_maxmetriclen o < 2 ^ 31
  | Some (inr status) => status = 0 \/ status = 1
  | None => exists o, option_loop buf (defaults hostname) (getopt args).1 = inl o /\ 2 ^ 31 <= 3 * v_batchsize o
  end.
Proof.
  unfold main_options. destruct (getopt args) as [gs moved]. cbn [fst].
  destruct (option_loop buf (defaults hostname) gs) as [o1|e1] eqn:El; [|by eapply option_loop_status].
  apply option_loop_ok in El as Ho; [|apply defaults_ok].
  unfold check_options. destruct (negb moved || _) eqn:Em; [by right|]. apply orb_false_iff in Em as [_ Hconf%bool_decide_eq_false].
  destruct (negb _) eqn:Ep; [by right|]. apply negb_false_iff, andb_true_iff in Ep as [Hp1 Hp2]. unfold percentage in Hp1, Hp2.
  apply andb_true_iff in Hp1 as [Hs1 Hs2], Hp2 as [He1 He2]. apply Z.leb_le in Hs1, Hs2, He1, He2.
  destruct Ho as [H1 H2 H3 H4 H5 H6 H7 H8 H9 H10 H11].
  pose proof (threshold_range (v_threshold_start o1) 2 (v_batchsize o1) (v_queuesize o1) ltac:(lia) ltac:(lia) H3 H4) as E1.
  pose proof (threshold_range (v_threshold_end o1) 3 (v_batchsize o1) (v_queuesize o1) ltac:(lia) ltac:(lia) H3 H4) as E2.
  destruct (threshold (v_threshold_start o1) 2 _ _) as [ts|]; run_binds; [|exists o1; split; [done|lia]].
  destruct (threshold (v_threshold_end o1) 3 _ _) as [te|]; run_binds; [|exists o1; split; [done|lia]].
  destruct (Z.leb_spec te ts); [by right|]. cbv zeta. cbn [v_batchsize v_queuesize v_maxinplen v_maxmetriclen set_numbers q_end q_start set_queueing].
  destruct (Z.ltb_spec (v_queuesize o1) (v_batchsize o1)); [by right|]. destruct (_ && _ && _); [by right|]. cbn.
  destruct (Z.eqb_spec (v_workercount o1) 0), (Z.eqb_spec (v_maxinplen o1) (-1)); unfold METRIC_BUFSIZ in *;
    split_and!; try lia; try (by apply not_eq_None_Some); try (destruct (has_mode _ _); [left; lia|by right]); destruct (Z.eqb_spec (v_maxmetriclen o1) (-1)); lia.
Qed.
Definition no_answers (val : Z) : bufsize_answers := mkBuf true true (Some (2 * val)) true.
Definition demo_args : list cstring := [lit "-f"; lit "relay.conf"; lit "-dw4"; lit "-q"; lit "1000"; lit "-b100"; lit "-U"; lit "65536"].
Definition demo_opts : options :=
  match main_options no_answers (lit "host") 8 demo_args with Some (inl o) => o | _ => defaults [] end.
(** Numbers are cut to the width of their variables before they are checked: port 65539 is port 3, 260 workers are 4, and
    on a machine of 200 processors the number of workers is negative. *)
Theorem options_truncated :
  (exists o, main_options no_answers [] 8 [lit "-f"; lit "c"; lit "-p"; lit "65539"; lit "-w"; lit "260"] = Some (inl o) /\
     v_listenport o = 3 /\ v_workercount o = 4) /\
  (exists o, main_options no_answers [] 200 [lit "-f"; lit "c"] = Some (inl o) /\ v_workercount o = -56).
Proof. split; eexists; (split; [vm_compute; reflexivity|]); vm_compute; auto. Qed.

(** The threshold of a batch size that is accepted can overflow. *)
Theorem threshold_overflows : main_options no_answers [] 8 [lit "-f"; lit "c"; lit "-b"; lit "1073741824"; lit "-q"; lit "2000000000"] = None.
Proof. vm_compute. reflexivity. Qed.
