(* ===== verification/Main.v ===== *)
(** * The relay from start to end (src/relay.c, [main]; src/dispatcher.c)

    What [main] starts, waits for, and stops, in order, once the options are known
    ([Options]).  [life] says which threads run and which structures exist; a step that
    joins a thread that does not run, or uses a structure that is not there, is
    undefined behaviour.  Which calls fail is the record [answers].

    The reload is that of [Sighup] reduced to what it does to the aggregator.  The text that is
    written to the log is left out, except for the summary of the settings. *)
From S2P Require Import Prelude Relay Sighup Options.
#[local] Open Scope Z_scope.

(** ** Loops over the workers *)

(** [dispatch_start_connections]: [start] is what [dispatch_start] returns for an id.  Both the counter and the
    returned value are [unsigned char]s. *)
Fixpoint start_connections (start : Z -> Z) (todo : nat) (id : Z) : Z :=
  match todo with
  | O => id
  | S todo' => if start id =? -1 then u8 (-1) else start_connections start todo' (u8 (id + 1))
  end.
Definition dispatch_start_connections (start : Z -> Z) (workercnt : nat) : Z := start_connections start (1 + workercnt) 0.

(** Did all threads start? *)
Definition all_start (start : Z -> Z) (workercnt : nat) : bool := forallb (fun i => negb (start (Z.of_nat i) =? -1)) (seq 0 (1 + workercnt)).

(** The loop of [main] that joins the workers: its counter is a [char], [dispatch_wait_shutdown_byid] takes an [unsigned
    char].  Behind the workers there is a NULL. *)
Fixpoint join_workers (fuel : nat) (workercnt : Z) (id : Z) : option (list Z) :=
  match fuel with
  | O => None
  | S fuel' =>
      if id <? 1 + workercnt then
        if u8 id <? 1 + workercnt then l ← join_workers fuel' workercnt (s8 (id + 1)); Some (u8 id :: l) else None
      else Some []
  end.

Arguments join_workers : simpl never.

(** ** What lives *)

(** The threads: collector, aggregator, all workers, servers of the router, of the submission server; the structures: workers,
    router, submission server; and the number of listeners that are open. *)
Record life := mkLife {
  f_collector : bool; f_aggregator : bool; f_workers : bool; f_servers : bool; f_submitting : bool;
  f_workers_mem : bool; f_router : bool; f_submission : bool; f_open : nat;
}.
Definition nothing : life := mkLife false false false false false false false false 0.

(** How the relay ends: with a status and what is left, or by undefined behaviour. *)
Inductive ending := Exited (status : Z) (left : life) | Undefined_end.

(** What fails, in order: the workers' memory, the configuration (with its number of aggregators and, for each listener,
    whether it can be bound and added), the signal handlers, the table of listeners, the workers' threads,
    the submission server and its thread, the aggregator's thread, the collector's, those of the servers. *)
Record answers := mkAns {
  a_workers : bool; a_config : option (nat * list (bool * bool)); a_signals : bool; a_table : bool; a_start : Z -> Z;
  a_submission : bool; a_submission_start : bool; a_aggregator : bool; a_collector : bool; a_servers : bool;
}.

(** The listeners are opened one by one; an error ends the relay. *)
Fixpoint open_all (l : life) (ls : list (bool * bool)) : life + ending :=
  match ls with
  | [] => inl l
  | (bound, added) :: ls' =>
      if negb bound then inr (Exited 1 l)
      else
        let l := mkLife (f_collector l) (f_aggregator l) (f_workers l) (f_servers l) (f_submitting l) (f_workers_mem l) (f_router l) (f_submission l) (S (f_open l)) in
        if negb added then inr (Exited 1 l) else open_all l ls'
  end.

(** The start, up to the waiting: what lives then, [keep_running], [numaggregators] and the number of listeners. *)
Record started := mkStarted { z_life : life; z_keep_running : bool; z_aggregators : nat; z_listeners : nat }.
Definition main_start (o : options) (a : answers) : started + ending :=
  if negb (a_workers a) then inr (Exited 1 nothing)
  else
    let l := mkLife false false false false false true false false 0 in
    match a_config a with
    | None => inr (Exited 1 l)
    | Some (aggrs, lsnrs) =>
        let l := mkLife false false false false false true true false 0 in
        if has_mode (v_mode o) MODE_CONFIGTEST || has_mode (v_mode o) MODE_TEST then inr (Exited 0 l)
        else if negb (a_signals a && a_table a) then inr (Exited 1 l)
        else
          let keep := negb (dispatch_start_connections (a_start a) (Z.to_nat (v_workercount o)) <? v_workercount o) in
          let l := mkLife false false (all_start (a_start a) (Z.to_nat (v_workercount o))) false false true true false 0 in
          match open_all l lsnrs with
          | inr e => inr e
          | inl l =>
              (* the submission server is freed again when its thread does not start *)
              let sub := a_submission a && a_submission_start a in
              let aggr := negb (aggrs =? 0)%nat && a_aggregator a in
              let keep := keep && sub && ((aggrs =? 0)%nat || a_aggregator a) && a_servers a in
              inl (mkStarted (mkLife (sub && a_collector a) aggr (f_workers l) (a_servers a) sub true true sub (f_open l)) keep aggrs (length lsnrs))
          end
    end.

(** ** Signals *)

(** A signal, with what a reload comes to: nothing when the configuration is not read or is the same, or a number of
    aggregators, listeners that are open, and whether the aggregator's thread starts. *)
Inductive event := Reload (new : option (nat * nat * bool)) | Debug | Terminate.

(** [do_reload] and the aggregator; [aggrs] is the number of aggregators of the router in use. *)
Definition reload (l : life) (aggrs : nat) (new : option (nat * nat * bool)) : option (life * nat) :=
  match new with
  | None => Some (l, aggrs)
  | Some (aggrs', lsnrs, starts) =>
      (* [aggregator_stop] joins the thread *)
      if negb (aggrs =? 0)%nat && negb (f_aggregator l) then None
      else
        let running := if (aggrs' =? 0)%nat then f_aggregator l && (aggrs =? 0)%nat else starts in
        Some (mkLife (f_collector l) running (f_workers l) (f_servers l) (f_submitting l) (f_workers_mem l) (f_router l) (f_submission l) lsnrs, aggrs')
  end.

(** The waiting loop, until a signal ends it. *)
Fixpoint wait (l : life) (aggrs : nat) (evs : list event) : option life :=
  match evs with
  | [] | Terminate :: _ => Some l
  | Debug :: evs' => wait l aggrs evs'
  | Reload new :: evs' => '(l, aggrs) ← reload l aggrs new; wait l aggrs evs'
  end.

(** ** The end *)

Definition main_stop (workers : Z) (success : bool) (numaggregators : nat) (l : life) : ending :=
  (* the listeners are closed; the collector is stopped *)
  if negb (f_collector l) then Undefined_end
  else if negb (f_submission l) then Undefined_end   (* NULL *)
  else if negb (numaggregators =? 0)%nat && negb (f_aggregator l) then Undefined_end
  else
    if negb (f_workers l) then Undefined_end   (* a thread that never was *)
    else match join_workers 256 workers 0 with
    | None => Undefined_end
    | Some _ =>
        Exited (if success then 0 else 1)
          (mkLife false (f_aggregator l && (numaggregators =? 0)%nat) false false false false false false 0)
    end.

(** [main], after the options: [numaggregators] is that of the first configuration. *)
Definition main_run (o : options) (a : answers) (evs : list event) : ending :=
  match main_start o a with
  | inr e => e
  | inl s =>
      if z_keep_running s then
        match wait (z_life s) (z_aggregators s) evs with
        | Some l => main_stop (v_workercount o) true (z_aggregators s) l
        | None => Undefined_end
        end
      else main_stop (v_workercount o) false (z_aggregators s) (z_life s)
  end.

(** ** Daemons, test mode and the log *)

(** The first process of a daemon: what it read from the one that stays, and the status it ends with. *)
Fixpoint strncmp (a b : cstring) (n : nat) : Z :=
  match n with
  | O => 0
  | S n' =>
      let x := default 0 (head a) in let y := default 0 (head b) in
      if u8 x =? u8 y then if x =? 0 then 0 else strncmp (tail a) (tail b) n' else if u8 x <? u8 y then -1 else 1
  end.
Definition parent_status (msg : option cstring) : Z :=
  match msg with
  | None => 1
  | Some [] => 1
  | Some m => if strncmp m (lit "OK") (length m) =? 0 then 0 else 1
  end.
(** What the process that stays writes, with the terminator: [exit_ok], and [exit_err] of a message. *)
Definition write_ok : cstring := lit "OK" ++ [0].
Definition write_err (msg : cstring) : cstring := snprintf_trunc 1024 msg ++ [0].

(** A line of the standard input in test mode, and what is tested of it. *)
Definition test_line (line : cstring) : option cstring :=
  let metricbuf := match list_find (fun c => c = 10) line with Some (i, _) => take i line | None => line end in
  if forallb is_space metricbuf then None else Some metricbuf.

(** [relaylog]: the text that goes to a stream, which may be the console; [stamp] is the time.  Without a stream
    nothing is written. *)
Inductive logdst := LOGOUT | LOGERR.
Definition relaylog (stream : option bool) (stamp : cstring) (dest : logdst) (msg : cstring) : option cstring :=
  console ← stream;
  let prefix := stamp ++
    (if console : bool then [] else take (63 - length stamp) (match dest with LOGOUT => lit " (MSG)" | LOGERR => lit " (ERR)" end)) in
  Some (prefix ++ lit " " ++ msg).

(** The streams: a log file, nothing for the messages when only the configuration is tested, or the console. *)
Definition log_streams (o : options) (opened : bool) : (option bool * option bool) + Z :=
  if negb (bool_decide (v_logfile o = None)) && negb (has_mode (v_mode o) MODE_TEST) then
    if opened then inl (Some false, Some false) else inr 1
  else if has_mode (v_mode o) MODE_CONFIGTEST then inl (None, Some true)
  else inl (Some true, Some true).
(** The checks for a daemon. *)
Definition daemon_allowed (o : options) : bool :=
  negb (has_mode (v_mode o) MODE_DAEMON) || (negb (bool_decide (v_logfile o = None)) && negb (has_mode (v_mode o) MODE_TEST)).

(** The summary of the settings. *)
Definition setting (name : string) (value : cstring) : cstring := lit "    " ++ lit name ++ lit " = " ++ value ++ [10].
Definition settings_text (o : options) : cstring :=
  lit "configuration:" ++ [10] ++ setting "relay hostname" (v_hostname o) ++ setting "workers" (show_Z (v_workercount o)) ++
  setting "send batch size" (show_Z (v_batchsize o)) ++ setting "server queue size" (show_Z (v_queuesize o)) ++
  setting "server max stalls" (show_Z (v_maxstalls o)) ++ setting "listen backlog" (show_Z (v_backlog o)) ++
  (if 0 <? v_sockbufsize o then setting "socket bufsize" (show_Z (v_sockbufsize o)) else []) ++
  match v_sslCA o with Some ca => setting "tls/ssl CA" ca | None => [] end ++
  setting "server connection IO timeout" (show_Z (v_iotimeout o) ++ lit "ms") ++
  setting "idle connections disconnect timeout" (if v_noexpire o then lit "never" else lit "10m") ++
  match v_allowed_chars o with Some c => setting "extra allowed characters" c | None => [] end ++
  (if v_maxinplen o <? METRIC_BUFSIZ then setting "max input length" (show_Z (v_maxinplen o)) else []) ++
  (if v_maxmetriclen o <? v_maxinplen o then setting "max metric length" (show_Z (v_maxmetriclen o)) else []) ++
  (if has_mode (v_mode o) MODE_DEBUG then setting "debug" (lit "true")
   else if has_mode (v_mode o) MODE_SUBMISSION then setting "submission" (lit "true")
   else if has_mode (v_mode o) MODE_DAEMON then setting "daemon" (lit "true") else []) ++
  setting "configuration" (default [] (v_config o)) ++ [10].

Example parent_statuses :
  (parent_status (Some write_ok), parent_status (Some (write_err (lit "failed to setup listener"))), parent_status (Some [])) = (0, 1, 1).
Proof. vm_compute. reflexivity. Qed.

(** ** Loops *)

Lemma start_connections_ok start n id :
  0 <= id -> id + Z.of_nat n <= 255 -> (forall i, id <= i < id + Z.of_nat n -> start i <> -1) -> start_connections start n id = id + Z.of_nat n.
Proof.
  revert id. induction n as [|n IH]; intros id H0 H1 Hs; cbn [start_connections]; [lia|].
  destruct (Z.eqb_spec (start id) (-1)) as [E|_]; [by destruct (Hs id ltac:(lia) E)|].
  unfold u8. rewrite Z.mod_small by lia. rewrite IH; [lia..|]. intros i Hi. apply Hs. lia.
Qed.
Lemma start_connections_fail start n id i :
  0 <= id <= i -> i < id + Z.of_nat n -> id + Z.of_nat n <= 255 -> start i = -1 -> start_connections start n id = 255.
Proof.
  revert id. induction n as [|n IH]; intros id Hid Hi Hn Hf; [lia|]. cbn [start_connections].
  destruct (Z.eqb_spec (start id) (-1)) as [|Hne]; [done|]. assert (id <> i) by congruence.
  unfold u8. rewrite Z.mod_small by lia. apply IH; [lia..|done].
Qed.
Lemma all_start_spec start n : all_start start n = true <-> (forall i, 0 <= i <= Z.of_nat n -> start i <> -1).
Proof.
  unfold all_start. rewrite forallb_forall. split.
  - intros Hf i Hi E. specialize (Hf (Z.to_nat i)). rewrite Z2Nat.id in Hf by lia. rewrite E in Hf. discriminate Hf. apply in_seq. lia.
  - intros Hs i Hi%in_seq. apply negb_true_iff, Z.eqb_neq, Hs. lia.
Qed.
Lemma join_workers_ok fuel cnt id :
  0 <= id <= 1 + cnt -> cnt <= 126 -> (Z.to_nat (1 + cnt - id) < fuel)%nat -> is_Some (join_workers fuel cnt id).
Proof.
  revert id. induction fuel as [|fuel IH]; intros id Hi Hc Hf; [lia|]. unfold join_workers; fold join_workers. destruct (Z.ltb_spec id (1 + cnt)); [|done].
  unfold u8 at 1. rewrite Z.mod_small by lia. destruct (Z.ltb_spec id (1 + cnt)); [|lia].
  assert (s8 (id + 1) = id + 1) as -> by (unfold s8; rewrite Z.mod_small; lia).
  destruct (IH (id + 1)) as [l ->]; [lia..|]. run_binds. by eexists.
Qed.

(** ** Properties *)

(** A reload that keeps having, or not having, aggregations, and whose aggregator starts. *)
Definition same_aggregation (aggrs : nat) (e : event) : Prop :=
  match e with Reload (Some (aggrs', _, starts)) => (aggrs' =? 0)%nat = (aggrs =? 0)%nat /\ starts = true | _ => True end.
Lemma wait_keeps l aggrs n evs :
  (aggrs =? 0)%nat = (n =? 0)%nat -> f_aggregator l = negb (n =? 0)%nat -> Forall (same_aggregation n) evs ->
  exists l', wait l aggrs evs = Some l' /\ f_collector l' = f_collector l /\ f_aggregator l' = f_aggregator l /\ f_workers l' = f_workers l /\
    f_submission l' = f_submission l.
Proof.
  intros Ha Hf Hevs. revert l aggrs Ha Hf. induction Hevs as [|e evs He Hevs IH]; intros l aggrs Ha Hf; cbn [wait]; [by exists l|].
  destruct e as [[[[aggrs' lsnrs] starts]|]| |]; cbn [reload]; [|by apply IH..|by exists l].
  destruct He as [Ha' ->]. replace (negb (aggrs =? 0)%nat && negb (f_aggregator l)) with false by (rewrite Ha, Hf; by destruct (n =? 0)%nat).
  run_binds. set (l1 := mkLife _ _ _ _ _ _ _ _ _).
  assert (f_aggregator l1 = negb (n =? 0)%nat) as E1 by (cbn; rewrite Ha', Ha, Hf; by destruct (n =? 0)%nat).
  destruct (IH l1 aggrs' Ha' E1) as (l' & -> & Hc & Hag & Hw & Hs). exists l'. split_and!; [done|done|congruence|done|done].
Qed.

Lemma open_all_ok ls l : Forall (fun x => x = (true, true)) ls -> exists l', open_all l ls = inl l' /\ f_workers l' = f_workers l.
Proof.
  intros Hls. revert l. induction Hls as [|x ls -> _ IH]; intros l; cbn [open_all negb]; [by exists l|].
  match goal with |- context [open_all ?l1 ls] => destruct (IH l1) as (l' & -> & E) end. by exists l'.
Qed.

(** A start at which every call succeeds. *)
Record well (o : options) (a : answers) (aggrs : nat) (lsnrs : list (bool * bool)) : Prop := mkWell {
  wl_mode : has_mode (v_mode o) MODE_CONFIGTEST = false /\ has_mode (v_mode o) MODE_TEST = false;
  wl_workers : a_workers a = true; wl_config : a_config a = Some (aggrs, lsnrs);
  wl_listeners : Forall (fun x => x = (true, true)) lsnrs; wl_signals : a_signals a = true /\ a_table a = true;
  wl_submission : a_submission a = true /\ a_submission_start a = true; wl_aggregator : a_aggregator a = true;
  wl_collector : a_collector a = true; wl_servers : a_servers a = true;
}.
Lemma start_well o a aggrs lsnrs :
  well o a aggrs lsnrs ->
  exists k, main_start o a =
    inl (mkStarted (mkLife true (negb (aggrs =? 0)%nat) (all_start (a_start a) (Z.to_nat (v_workercount o))) true true true true true k)
           (negb (dispatch_start_connections (a_start a) (Z.to_nat (v_workercount o)) <? v_workercount o)) aggrs (length lsnrs)).
Proof.
  intros [[M1 M2] A1 A2 Hls [A3 A4] [A5 A6] A7 A8 A9]. unfold main_start. rewrite A1, A2, M1, M2, A3, A4, A5, A6, A7, A8, A9. cbn [negb andb orb].
  match goal with |- context [open_all ?l lsnrs] => destruct (open_all_ok lsnrs l Hls) as (l' & -> & E) end. cbn in E. rewrite E.
  exists (f_open l'). rewrite orb_true_r, !andb_true_r. done.
Qed.
Lemma workers_start o start :
  1 <= v_workercount o <= 126 -> (forall i, 0 <= i <= v_workercount o -> start i <> -1) ->
  all_start start (Z.to_nat (v_workercount o)) = true /\
  (dispatch_start_connections start (Z.to_nat (v_workercount o)) <? v_workercount o) = false.
Proof.
  intros Hw Hst. split; [apply all_start_spec; intros i Hi; apply Hst; lia|]. unfold dispatch_start_connections.
  rewrite start_connections_ok; [apply Z.ltb_ge; lia|lia|lia|]. intros i Hi. apply Hst. lia.
Qed.

(** A relay that starts ends in order.  With up to 126 workers and every call at the start successful, whatever
    signals arrive, if reloads do not begin or cease to have aggregations: [main] returns 0, and every thread it started was
    joined and every structure freed, none while it was used. *)
Theorem orderly_run (o : options) (a : answers) (aggrs : nat) (lsnrs : list (bool * bool)) (evs : list event) :
  1 <= v_workercount o <= 126 -> well o a aggrs lsnrs -> (forall i, 0 <= i <= v_workercount o -> a_start a i <> -1) ->
  Forall (same_aggregation aggrs) evs -> main_run o a evs = Exited 0 nothing.
Proof.
  intros Hw Hwl Hst Hevs. unfold main_run. destruct (start_well o a aggrs lsnrs Hwl) as (k & ->). destruct (workers_start o (a_start a) Hw Hst) as [-> ->].
  cbn [z_keep_running z_life z_aggregators negb].
  destruct (wait_keeps (mkLife true (negb (aggrs =? 0)%nat) true true true true true true k) aggrs aggrs evs)
    as (l' & -> & Hc & Hag & Hwk & Hsub); [done|done|done|].
  unfold main_stop. rewrite Hc, Hag, Hsub, Hwk. cbn [f_collector f_submission f_aggregator f_workers negb].
  destruct (join_workers_ok 256 (v_workercount o) 0) as [l ->]; [lia..|]. by destruct (aggrs =? 0)%nat.
Qed.
Definition all_well (aggrs lsnrs : nat) : answers :=
  mkAns true (Some (aggrs, replicate lsnrs (true, true))) true true (fun _ => 0) true true true true true.
Lemma all_well_ok o aggrs lsnrs :
  has_mode (v_mode o) MODE_CONFIGTEST = false -> has_mode (v_mode o) MODE_TEST = false -> well o (all_well aggrs lsnrs) aggrs (replicate lsnrs (true, true)).
Proof. intros H1 H2. split; try done. cbn. by apply Forall_replicate. Qed.
Lemma orderly_run_witness : main_run demo_opts (all_well 2 3) [Debug; Reload (Some (5%nat, 2%nat, true)); Reload None; Terminate] = Exited 0 nothing.
Proof.
  apply (orderly_run _ _ 2 (replicate 3 (true, true))).
  - vm_compute. split; discriminate.
  - by apply all_well_ok; vm_compute.
  - intros i _. vm_compute. discriminate.
  - by repeat constructor.
Defined.

(** Only the first number of aggregators is known at the end: aggregations that a reload brought are not expired, and
    after one that removed them a thread is joined twice. *)
Theorem reload_confuses_shutdown (o : options) (lsnrs n : nat) :
  1 <= v_workercount o <= 126 -> has_mode (v_mode o) MODE_CONFIGTEST = false -> has_mode (v_mode o) MODE_TEST = false ->
  (exists l, main_run o (all_well 0 lsnrs) [Reload (Some (S n, lsnrs, true))] = Exited 0 l /\ f_aggregator l = true) /\
  main_run o (all_well (S n) lsnrs) [Reload (Some (O, lsnrs, true))] = Undefined_end.
Proof.
  intros Hw H1 H2. unfold main_run. destruct (workers_start o (fun _ => 0) Hw ltac:(done)) as [E1 E2].
  destruct (start_well _ _ _ _ (all_well_ok o 0 lsnrs H1 H2)) as (k & ->). destruct (start_well _ _ _ _ (all_well_ok o (S n) lsnrs H1 H2)) as (k' & ->).
  cbn [a_start all_well]. rewrite E1, E2. cbn. unfold main_stop. cbn.
  destruct (join_workers_ok 256 (v_workercount o) 0) as [l ->]; [lia..|]. split; [by eexists|done].
Qed.
Lemma reload_confuses_shutdown_witness :
  main_run demo_opts (all_well 1 1) [Reload (Some (O, 1%nat, true))] = Undefined_end.
Proof.
  destruct (reload_confuses_shutdown demo_opts 1 0) as [_ E]; [vm_compute; split; discriminate|vm_compute; reflexivity|vm_compute; reflexivity|exact E].
Defined.

(** A worker that does not start goes unnoticed: the -1 that says so is 255 when it is compared with the number of workers.
    The relay goes on, and joins a thread that never was at the end. *)
Theorem worker_failure_unnoticed (o : options) (a : answers) (aggrs : nat) (lsnrs : list (bool * bool)) (i : Z) :
  1 <= v_workercount o <= 127 -> well o a aggrs lsnrs -> 0 <= i <= v_workercount o -> a_start a i = -1 ->
  (exists s, main_start o a = inl s /\ z_keep_running s = true) /\ main_run o a [] = Undefined_end.
Proof.
  intros Hw Hwl Hi Hf. unfold main_run. destruct (start_well o a aggrs lsnrs Hwl) as (k & ->).
  unfold dispatch_start_connections. rewrite (start_connections_fail _ _ _ i) by (done || lia).
  replace (255 <? v_workercount o) with false by (symmetry; apply Z.ltb_ge; lia).
  destruct (all_start _ _) eqn:E; [by destruct (proj1 (all_start_spec _ _) E i ltac:(lia))|].
  split; [by eexists|]. cbn [z_keep_running z_life z_aggregators negb wait]. unfold main_stop. cbn. by destruct aggrs.
Qed.
Lemma worker_failure_unnoticed_witness :
  main_run demo_opts (mkAns true (Some (1%nat, [(true, true)])) true true (fun i => if i =? 1 then -1 else 0) true true true true true) [] = Undefined_end.
Proof.
  destruct (worker_failure_unnoticed demo_opts (mkAns true (Some (1%nat, [(true, true)])) true true (fun i => if i =? 1 then -1 else 0) true true true true true)
    1 [(true, true)] 1) as [_ E].
  - vm_compute. split; discriminate.
  - split; try (vm_compute; done). by repeat constructor.
  - vm_compute. split; discriminate.
  - reflexivity.
  - exact E.
Defined.

(** With 127 workers, which the options allow, the counter of the loop that joins them turns negative, and the relay ends by reading
    behind them. *)
Theorem too_many_to_join (o : options) (a : answers) (aggrs : nat) (lsnrs : list (bool * bool)) :
  v_workercount o = 127 -> well o a aggrs lsnrs -> (forall i, 0 <= i <= 127 -> a_start a i <> -1) -> main_run o a [] = Undefined_end.
Proof.
  intros Hw Hwl Hst. unfold main_run. destruct (start_well o a aggrs lsnrs Hwl) as (k & ->). rewrite Hw.
  unfold dispatch_start_connections. rewrite start_connections_ok by (try (intros i Hi; apply Hst); lia).
  cbn [z_keep_running z_life z_aggregators wait].
  replace (negb (0 + Z.of_nat (1 + Z.to_nat 127) <? 127)) with true by (vm_compute; reflexivity). unfold main_stop.
  replace (join_workers 256 127 0) with (@None (list Z)) by (vm_compute; reflexivity).
  cbn [f_collector f_submission f_aggregator f_workers negb]. by repeat case_match.
Qed.

(** Without the submission server there is nothing to stop at the end: a NULL is used, whatever else was started. *)
Theorem failed_submission_crashes (o : options) (a : answers) (s : started) (evs : list event) :
  main_start o a = inl s -> a_submission a && a_submission_start a = false -> main_run o a evs = Undefined_end.
Proof.
  intros Hs Hsub. unfold main_run. rewrite Hs. unfold main_start in Hs. rewrite Hsub in Hs.
  repeat case_match; simplify_eq/=; try done; by rewrite andb_false_r in *.
Qed.
