(* ===== verification/Aggregator.v ===== *)
(** * Aggregations (src/aggregator.c)

    An aggregator has a list of computes.  A compute keeps, in a hash table, an
    invocation per metric name it produces, and an invocation a row of buckets,
    one per interval.  [aggregator_putmetric] adds a value to the bucket of its
    time; [aggregator_expire] sends what buckets past their expiry time hold and
    moves them to the end of the row.

    Reading a bucket or a value outside its array has no defined behaviour: the
    functions return [None] there.  The locks make [putmetric] and a pass of
    [expire] exclude each other where both write; the model takes them one after
    the other.  Memory is available except where an argument says otherwise. *)
From S2P Require Import Prelude Relay Fnv ConsistentHash Rewrite Double.
#[local] Open Scope Z_scope.

Definition AGGR_HT_POW_SIZE : Z := 12.
Definition E_I_SZ : nat := 64.

Inductive aggr_timestamp := TS_START | TS_MIDDLE | TS_END.
Inductive compute_type := SUM | CNT | MAX | MIN | AVG | MEDN | PCTL | VAR | SDEV.
Inductive bucket_state := A_OPEN | A_EXPIRE.
#[export] Instance bucket_state_eq_dec : EqDecision bucket_state.
Proof. solve_decision. Defined.
#[export] Instance compute_type_eq_dec : EqDecision compute_type.
Proof. solve_decision. Defined.

(** [b_size] and [b_values] are the entries: the room and what has been stored. *)
Record bucket := mkBucket {
  b_state : bucket_state; b_start : Z; b_cnt : nat;
  b_sum : double; b_max : double; b_min : double;
  b_size : nat; b_values : list double;
}.
Record invocation := mkInv { i_metric : cstring; i_hash : Z; i_expire : Z; i_buckets : list bucket }.
Record compute := mkCompute {
  c_type : compute_type; c_metric : cstring; c_ht : list (list invocation);
  c_entries_needed : bool; c_percentile : Z;
}.
Record aggregator := mkAggr {
  a_interval : Z; a_expire : Z; a_tswhen : aggr_timestamp; a_bucketcnt : Z;
  a_received : Z; a_sent : Z; a_dropped : Z;
  a_computes : list compute;
}.

Definition with_computes (s : aggregator) (cs : list compute) : aggregator :=
  mkAggr (a_interval s) (a_expire s) (a_tswhen s) (a_bucketcnt s) (a_received s) (a_sent s) (a_dropped s) cs.
Definition with_stats (s : aggregator) (received sent dropped : Z) : aggregator :=
  mkAggr (a_interval s) (a_expire s) (a_tswhen s) (a_bucketcnt s) received sent dropped (a_computes s).
Definition with_ht (c : compute) (ht : list (list invocation)) : compute :=
  mkCompute (c_type c) (c_metric c) ht (c_entries_needed c) (c_percentile c).
Definition with_buckets (inv : invocation) (bs : list bucket) : invocation :=
  mkInv (i_metric inv) (i_hash inv) (i_expire inv) bs.

(** ** Creation *)

(** [aggregator_new], once its pipe is there; [None] is a failed assertion. *)
Definition aggregator_new (interval expire : Z) (tswhen : aggr_timestamp) : option aggregator :=
  if (interval =? 0) || (expire <=? interval) then None
  else Some (mkAggr (u16 interval) (u16 expire) tswhen (u8 (u32 (expire + (interval - 1)) / interval + 1 + 1)) 0 0 0 []).

Definition aggregator_add_compute (s : aggregator) (metric : cstring) (act : compute_type) (pctl : Z) : aggregator :=
  let pctl := if decide (act = MEDN) then 50 else pctl in
  let store := bool_decide (act ∈ [MEDN; PCTL; VAR; SDEV]) in
  with_computes s (a_computes s ++ [mkCompute act metric (replicate (Z.to_nat (2 ^ AGGR_HT_POW_SIZE)) []) store (pctl mod 2 ^ 7)]).

Definition aggregator_set_stub (s : aggregator) (stubname : cstring) : aggregator :=
  with_computes s ((fun c => mkCompute (c_type c) (snprintf_trunc (Z.to_nat METRIC_BUFSIZ) (stubname ++ c_metric c)) (c_ht c)
                                (c_entries_needed c) (c_percentile c)) <$> a_computes s).

(** ** Adding a value *)

(** The hash of a name, and its slot in the table. *)
Definition omhash (name : cstring) : Z :=
  foldl (fun h c => u32 (Z.lxor h (u32 c) * FNV1A_32_PRIME)) FNV1A_32_OFFSET name.
Definition omhtbucket (hash : Z) : Z :=
  Z.land (Z.lxor (Z.shiftr hash AGGR_HT_POW_SIZE) hash) (Z.shiftl 1 AGGR_HT_POW_SIZE - 1).

(** The search along a chain. *)
Definition find_invocation (hash : Z) (name : cstring) (chain : list invocation) : option nat :=
  fst <$> list_find (fun inv => i_hash inv = hash /\ strcmp name (i_metric inv) = 0) chain.

(** A fresh bucket's sum, maximum and minimum are not set; they are not read while it
    is empty. *)
Definition new_bucket (start : Z) : bucket := mkBucket A_OPEN start 0 SpecFloat.S754_nan SpecFloat.S754_nan SpecFloat.S754_nan 0 [].
Definition new_invocation (s : aggregator) (name : cstring) (now rnd : Z) : invocation :=
  let now := Z.quot (now - a_expire s) (a_interval s) * a_interval s in
  mkInv name (omhash name) (u16 (a_expire s + rnd mod a_interval s))
    ((fun i => new_bucket (now + Z.of_nat i * a_interval s)) <$> seq 0 (Z.to_nat (a_bucketcnt s))).

(** Writing one element of the array of values. *)
Definition store (i : nat) (v : double) (vs : list double) : list double := take i vs ++ v :: drop (S i) vs.

(** The critical section of a bucket; [alloc]: does [realloc] succeed? *)
Definition add_value (needed alloc : bool) (val : double) (b : bucket) : bucket :=
  let '(sum, mx, mn) :=
    if decide (b_cnt b = 0%nat) then (val, val, val)
    else (dadd (b_sum b) val, if dltb (b_max b) val then val else b_max b, if dltb val (b_min b) then val else b_min b) in
  let size := if needed && bool_decide (b_cnt b = b_size b) && alloc then (b_size b + E_I_SZ)%nat else b_size b in
  let values := if needed && bool_decide (b_cnt b < size)%nat then store (b_cnt b) val (b_values b) else b_values b in
  mkBucket (b_state b) (b_start b) (S (b_cnt b)) sum mx mn size values.

(** The end of the loop body: the buckets, and whether the value was dropped. *)
Definition put_invocation (s : aggregator) (needed alloc : bool) (epoch : Z) (val : double) (bs : list bucket) :
    option (list bucket * bool) :=
  b0 ← bs !! 0%nat;
  let itime := epoch - b_start b0 in
  if itime <? 0 then Some (bs, true)
  else if a_bucketcnt s * a_interval s <=? itime then Some (bs, true)
  else
    let i := Z.to_nat (itime / a_interval s) in
    b ← bs !! i;
    if decide (b_state b = A_EXPIRE) then Some (bs, true)
    else Some (<[i := add_value needed alloc val b]> bs, false).

(** What the system answers while a compute gets a value: memory for an invocation,
    memory for entries, the clock and [rand]. *)
Record put_answers := mkPut { pa_invocation : bool; pa_entries : bool; pa_now : Z; pa_rand : Z }.

(** The name a compute gives a metric; [None]: it is skipped. *)
Definition compute_name (c : compute) (name rest : cstring) (nmatch : Z) (pmatch : list regmatch) : option cstring :=
  if nmatch =? 0 then Some (c_metric c)
  else '(line, fs) ← router_rewrite_metric name rest (c_metric c) nmatch pmatch; Some (take fs line).

(** The value for metric [ometric] of a compute: the table and whether it was dropped. *)
Definition put_compute (s : aggregator) (c : compute) (ans : put_answers) (ometric : cstring) (epoch : Z) (val : double) :
    option (compute * bool) :=
  let hash := omhash ometric in
  let h := Z.to_nat (omhtbucket hash) in
  chain ← c_ht c !! h;
  '(chain, j) ←
    (match find_invocation hash ometric chain with
     | Some j => Some (chain, Some j)
     | None =>
         if pa_invocation ans then Some (new_invocation s ometric (pa_now ans) (pa_rand ans) :: chain, Some 0%nat)
         else Some (chain, None)
     end);
  match j with
  | None => Some (c, false)
  | Some j =>
      inv ← chain !! j;
      '(bs, dropped) ← put_invocation s (c_entries_needed c) (pa_entries ans) epoch val (i_buckets inv);
      Some (with_ht c (<[h := <[j := with_buckets inv bs]> chain]> (c_ht c)), dropped)
  end.

(** The loop over the computes. *)
Fixpoint put_computes (s : aggregator) (cs : list compute) (i : nat) (ans : nat -> put_answers) (name rest : cstring)
    (nmatch : Z) (pmatch : list regmatch) (epoch : Z) (val : double) : option (list compute * Z) :=
  match cs with
  | [] => Some ([], 0)
  | c :: cs' =>
      '(c, d) ← match compute_name c name rest nmatch pmatch with
                | None => Some (c, false)
                | Some ometric => put_compute s c (ans i) ometric epoch val
                end;
      '(cs', d') ← put_computes s cs' (S i) ans name rest nmatch pmatch epoch val;
      Some (c :: cs', (if d : bool then 1 else 0) + d')
  end.

(** [aggregator_putmetric] of a line with its [firstspace]; [running] is [keep_running]. *)
Definition aggregator_putmetric (running : bool) (s : aggregator) (ans : nat -> put_answers) (metric : cstring) (firstspace : nat)
    (nmatch : Z) (pmatch : list regmatch) : option aggregator :=
  if running then
    let text := drop (firstspace + 1) metric in
    match list_find (fun c => c = ch " ") text with
    | None => Some s
    | Some (v, _) =>
        let val := atof text in
        let epoch := (strtol (drop (v + 1) text)).1 in
        '(cs, dropped) ← put_computes s (a_computes s) 0 ans (take firstspace metric) (drop firstspace metric) nmatch pmatch epoch val;
        Some (with_computes (with_stats s (a_received s + 1) (a_sent s) (a_dropped s + dropped)) cs)
    end
  else Some s.

(** ** Sending a bucket *)

Definition cmp_entry (l r : double) : Z := int_of_double (dsub l r).

(** [(int)(((double)percentile/100.0 * (double)cnt) + 0.9)] *)
Definition rank (percentile : Z) (cnt : nat) : Z :=
  int_of_double (dadd (dmul (ddiv (double_of_Z percentile) (double_of_Z 100)) (double_of_Z (Z.of_nat cnt))) (decimal false 9 (-1))).

(** The value of a bucket.  (Sorting reorders the bucket's values, which are not read
    again.) *)
Definition bucket_value `{Qsort double} (c : compute) (b : bucket) : option cstring :=
  let cnt := double_of_Z (Z.of_nat (b_cnt b)) in
  let values := if decide (b_cnt b <= length (b_values b))%nat then Some (take (b_cnt b) (b_values b)) else None in
  match c_type c with
  | SUM => Some (show_f (b_sum b))
  | CNT => Some (show_nonneg (Z.of_nat (b_cnt b)))
  | MAX => Some (show_f (b_max b))
  | MIN => Some (show_f (b_min b))
  | AVG => Some (show_f (ddiv (b_sum b) cnt))
  | MEDN | PCTL =>
      vs ← values;
      let k := rank (c_percentile c) (b_cnt b) in
      if k <? 1 then None else v ← qsort cmp_entry vs !! Z.to_nat (k - 1); Some (show_f v)
  | VAR | SDEV =>
      vs ← values;
      let avg := ddiv (b_sum b) cnt in
      let ksum := foldl (fun a v => dadd a (dsquare (dsub v avg))) (SpecFloat.S754_zero false) vs in
      let ksum := ddiv ksum cnt in
      Some (show_f (if decide (c_type c = VAR) then ksum else dsqrt ksum))
  end.

(** The line [write_metric] writes. *)
Definition metric_line `{Qsort double} (s : aggregator) (b : bucket) (c : compute) (invmetric : cstring) : option cstring :=
  let ts := match a_tswhen s with
            | TS_START => b_start b
            | TS_MIDDLE => b_start b + a_interval s / 2
            | TS_END => b_start b + a_interval s
            end in
  v ← bucket_value c b;
  let line := invmetric ++ lit " " ++ v ++ lit " " ++ show_Z ts ++ [10] in
  if METRIC_BUFSIZ <=? Z.of_nat (length line) then None else Some line.

Section Expire.
(** [pipe e line] is [write]: what it returns. *)
Context {E : Type} (pipe : E -> cstring -> E * Z) `{Qsort double}.

(** [write_metric] *)
Definition write_metric (s : aggregator) (b : bucket) (c : compute) (invmetric : cstring) (e : E) : option (aggregator * E) :=
  line ← metric_line s b c invmetric;
  let '(e, r) := pipe e line in
  if r <? Z.of_nat (length line) then Some (with_stats s (a_received s) (a_sent s) (a_dropped s + 1), e)
  else Some (with_stats s (a_received s) (a_sent s + 1) (a_dropped s), e).

Definition expired (b : bucket) : bucket :=
  mkBucket A_EXPIRE (b_start b) (b_cnt b) (b_sum b) (b_max b) (b_min b) (b_size b) (b_values b).

(** The loop over the buckets of an invocation that are past [expire]; the walk has
    no end but a bucket that is not. *)
Fixpoint expire_walk (now expire : Z) (c : compute) (invmetric : cstring) (bs : list bucket) (s : aggregator) (e : E) (work : Z) :
    option (list bucket * aggregator * E * Z) :=
  match bs with
  | [] => None
  | b :: bs' =>
      if b_start b + expire <? now then
        '(b, s, e, work) ←
          (if decide (b_state b = A_OPEN) then
             '(s, e) ← (if (0 <? b_cnt b)%nat then write_metric s b c invmetric e else Some (s, e));
             Some (expired b, s, e, work + 1)
           else Some (b, s, e, work));
        '(bs', s, e, work) ← expire_walk now expire c invmetric bs' s e work;
        Some (b :: bs', s, e, work)
      else Some (b :: bs', s, e, work)
  end.

(** Over a chain, and over the chains of a table. *)
Fixpoint expire_chain (running : bool) (now : Z) (c : compute) (chain : list invocation) (s : aggregator) (e : E) (work : Z) :
    option (list invocation * aggregator * E * Z) :=
  match chain with
  | [] => Some ([], s, e, work)
  | inv :: chain' =>
      '(bs, s, e, work) ← expire_walk now (if running then i_expire inv else a_expire s) c (i_metric inv) (i_buckets inv) s e work;
      '(chain', s, e, work) ← expire_chain running now c chain' s e work;
      Some (with_buckets inv bs :: chain', s, e, work)
  end.
Fixpoint expire_table (running : bool) (now : Z) (c : compute) (ht : list (list invocation)) (s : aggregator) (e : E) (work : Z) :
    option (list (list invocation) * aggregator * E * Z) :=
  match ht with
  | [] => Some ([], s, e, work)
  | chain :: ht' =>
      '(chain, s, e, work) ← expire_chain running now c chain s e work;
      '(ht', s, e, work) ← expire_table running now c ht' s e work;
      Some (chain :: ht', s, e, work)
  end.

(** Moving the expired buckets at the front to the end; the bucket that is re-used at
    the end keeps the sums of the one before it, which are not read. *)
Fixpoint rotate (fuel : nat) (interval : Z) (bs : list bucket) : option (list bucket) :=
  match bs with
  | [] => None
  | b :: rest =>
      if decide (b_state b = A_EXPIRE) then
        match fuel with
        | O => None
        | S fuel' =>
            l ← list.last rest;
            rotate fuel' interval
              (rest ++ [mkBucket A_OPEN (b_start l + interval) 0 (b_sum l) (b_max l) (b_min l) (b_size b) (b_values b)])
        end
      else Some bs
  end.

Definition isempty (bs : list bucket) : bool := forallb (fun b => (b_cnt b =? 0)%nat) bs.

(** Cleaning a chain: empty invocations are unlinked. *)
Fixpoint clean_chain (interval : Z) (chain : list invocation) : option (list invocation) :=
  match chain with
  | [] => Some []
  | inv :: chain' =>
      bs ← rotate (length (i_buckets inv)) interval (i_buckets inv);
      chain' ← clean_chain interval chain';
      Some (if isempty bs then chain' else with_buckets inv bs :: chain')
  end.
Fixpoint clean_table (interval : Z) (ht : list (list invocation)) : option (list (list invocation)) :=
  match ht with
  | [] => Some []
  | chain :: ht' => chain ← clean_chain interval chain; ht' ← clean_table interval ht'; Some (chain :: ht')
  end.

Fixpoint expire_computes (running : bool) (now : Z) (cs : list compute) (s : aggregator) (e : E) (work : Z) :
    option (list compute * aggregator * E * Z) :=
  match cs with
  | [] => Some ([], s, e, work)
  | c :: cs' =>
      '(ht, s, e, work) ← expire_table running now c (c_ht c) s e work;
      '(cs', s, e, work) ← expire_computes running now cs' s e work;
      Some (with_ht c ht :: cs', s, e, work)
  end.
Fixpoint clean_computes (interval : Z) (cs : list compute) : option (list compute) :=
  match cs with
  | [] => Some []
  | c :: cs' => ht ← clean_table interval (c_ht c); cs' ← clean_computes interval cs'; Some (with_ht c ht :: cs')
  end.

(** A turn of [aggregator_expire] for one aggregator; [time] is [time(NULL)]. *)
Definition expire_aggregator (running : bool) (time : Z) (s : aggregator) (e : E) (work : Z) : option (aggregator * E * Z) :=
  let now := time + (if running then 0 else a_expire s - a_interval s) in
  '(cs, s, e, work) ← expire_computes running now (a_computes s) s e work;
  cs ← clean_computes (a_interval s) cs;
  Some (with_computes s cs, e, work).

(** A turn over all of them: does the thread end after it? *)
Fixpoint expire_turn (running : bool) (time : Z) (aggrs : list aggregator) (e : E) (work : Z) :
    option (list aggregator * E * bool) :=
  match aggrs with
  | [] => Some ([], e, (work =? 0) && negb running)
  | s :: aggrs' =>
      '(s, e, work) ← expire_aggregator running time s e work;
      '(aggrs', e, done) ← expire_turn running time aggrs' e work;
      Some (s :: aggrs', e, done)
  end.
End Expire.

(** ** Statistics *)

Definition aggregator_numaggregators (aggrs : list aggregator) : nat := length aggrs.
Definition aggregator_numcomputes (aggrs : list aggregator) : nat := foldl (fun n s => (n + length (a_computes s))%nat) 0%nat aggrs.
Definition aggregator_get_received (aggrs : list aggregator) : Z := foldl (fun n s => n + a_received s) 0 aggrs.
Definition aggregator_get_sent (aggrs : list aggregator) : Z := foldl (fun n s => n + a_sent s) 0 aggrs.
Definition aggregator_get_dropped (aggrs : list aggregator) : Z := foldl (fun n s => n + a_dropped s) 0 aggrs.
(** The [_sub] functions: the remembered value and the growth. *)
Definition aggregator_get_received_sub (aggrs : list aggregator) (prevreceived : Z) : Z * Z := counter_sub (aggregator_get_received aggrs) prevreceived.
Definition aggregator_get_sent_sub (aggrs : list aggregator) (prevsent : Z) : Z * Z := counter_sub (aggregator_get_sent aggrs) prevsent.
Definition aggregator_get_dropped_sub (aggrs : list aggregator) (prevdropped : Z) : Z * Z := counter_sub (aggregator_get_dropped aggrs) prevdropped.

(** ** Buckets and what was put in them *)

Definition max_of (v : double) (vs : list double) : double := foldl (fun m x => if dltb m x then x else m) v vs.
Definition min_of (v : double) (vs : list double) : double := foldl (fun m x => if dltb x m then x else m) v vs.

(** Bucket [b] holds the values [vs], in the order they arrived. *)
Record bucket_rep (needed : bool) (b : bucket) (vs : list double) : Prop := {
  br_cnt : b_cnt b = length vs;
  br_sums : match vs with
            | [] => True
            | v :: vs' => b_sum b = foldl dadd v vs' /\ b_max b = max_of v vs' /\ b_min b = min_of v vs'
            end;
  br_values : needed = true -> take (length vs) (b_values b) = vs /\ (length vs <= b_size b)%nat;
}.

Lemma new_bucket_rep needed t : bucket_rep needed (new_bucket t) [].
Proof. split; [done|done|]. intros _. split; [done|cbn; lia]. Qed.

(** With memory there is always room for one more value, which is stored at the end. *)
Lemma stored_values val b vs :
  length vs = b_cnt b -> take (length vs) (b_values b) = vs -> (length vs <= b_size b)%nat ->
  let b' := add_value true true val b in
  take (length (vs ++ [val])) (b_values b') = vs ++ [val] /\ (length (vs ++ [val]) <= b_size b')%nat.
Proof.
  intros Hc Htake Hle. unfold add_value. destruct (if decide (b_cnt b = 0%nat) then _ else _) as [[sum mx] mn].
  cbn [b_values b_size andb]. rewrite <- Hc.
  assert (length vs < (if bool_decide (length vs = b_size b) && true then b_size b + E_I_SZ else b_size b))%nat as Hlt.
  { case_bool_decide; cbn [andb]; unfold E_I_SZ; lia. }
  rewrite bool_decide_eq_true_2 by done. rewrite length_app, Nat.add_1_r. split; [|exact Hlt].
  unfold store. rewrite Htake, take_app_ge by lia. by replace (S (length vs) - length vs)%nat with 1%nat by lia.
Qed.

Lemma add_value_rep needed val b vs :
  bucket_rep needed b vs -> bucket_rep needed (add_value needed true val b) (vs ++ [val]).
Proof.
  intros [Hc Hs Hv]. split.
  - unfold add_value. destruct (if decide _ then _ else _) as [[? ?] ?]. cbn [b_cnt]. rewrite length_app, Hc. cbn. lia.
  - unfold add_value. destruct vs as [|v vs].
    + by rewrite decide_True by done.
    + rewrite decide_False by (rewrite Hc; done). destruct Hs as (-> & -> & ->). cbn [app b_sum b_max b_min].
      unfold max_of, min_of. by rewrite !foldl_snoc.
  - intros ->. destruct (Hv eq_refl). by apply stored_values.
Qed.

Lemma add_value_open needed alloc val b :
  b_state (add_value needed alloc val b) = b_state b /\ b_start (add_value needed alloc val b) = b_start b.
Proof. unfold add_value. by destruct (if decide _ then _ else _) as [[? ?] ?]. Qed.

(** The maximum is one of the values and at least each of them, if none is NaN; the
    minimum likewise. *)
Lemma max_of_spec v vs :
  Forall (fun x => is_nan x = false) (v :: vs) ->
  max_of v vs ∈ v :: vs /\ Forall (fun x => dge (max_of v vs) x) (v :: vs).
Proof.
  unfold max_of. induction vs as [|x vs IH] using rev_ind; intros Hn.
  { split; [by left|]. apply Forall_singleton, dge_refl. }
  rewrite app_comm_cons, Forall_app in Hn. destruct Hn as [Hn Hx]. rewrite Forall_singleton in Hx. destruct (IH Hn) as [Hin Hge].
  rewrite foldl_snoc, app_comm_cons. set (mx := foldl _ v vs) in *.
  assert (is_nan mx = false) as Hm by (rewrite Forall_forall in Hn; by apply Hn).
  destruct (dltb mx x) eqn:El; rewrite elem_of_app, Forall_app, Forall_singleton.
  - split; [right; by left|]. split; [|apply dge_refl]. apply dltb_dge in El. rewrite Forall_forall in Hge, Hn |- *.
    intros y Hy. apply (dge_trans x mx y); [done|done|by apply Hn|done|by apply Hge].
  - split; [by left|]. by split.
Qed.
Lemma min_of_spec v vs :
  Forall (fun x => is_nan x = false) (v :: vs) ->
  min_of v vs ∈ v :: vs /\ Forall (fun x => dge x (min_of v vs)) (v :: vs).
Proof.
  unfold min_of. induction vs as [|x vs IH] using rev_ind; intros Hn.
  { split; [by left|]. apply Forall_singleton, dge_refl. }
  rewrite app_comm_cons, Forall_app in Hn. destruct Hn as [Hn Hx]. rewrite Forall_singleton in Hx. destruct (IH Hn) as [Hin Hge].
  rewrite foldl_snoc, app_comm_cons. set (mn := foldl _ v vs) in *.
  assert (is_nan mn = false) as Hm by (rewrite Forall_forall in Hn; by apply Hn).
  destruct (dltb x mn) eqn:El; rewrite elem_of_app, Forall_app, Forall_singleton.
  - split; [right; by left|]. split; [|apply dge_refl]. apply dltb_dge in El. rewrite Forall_forall in Hge, Hn |- *.
    intros y Hy. apply (dge_trans y mn x); [by apply Hn|done|done|by apply Hge|done].
  - split; [by left|]. by split.
Qed.


(** ** Rows of buckets *)

(** Consecutive intervals from [t0] on, a multiple of the interval, all open. *)
Record row_ok (interval : Z) (n : nat) (t0 : Z) (bs : list bucket) : Prop := {
  ro_length : length bs = n;
  ro_aligned : t0 mod interval = 0;
  ro_open : Forall (fun b => b_state b = A_OPEN) bs;
  ro_start : forall i b, bs !! i = Some b -> b_start b = t0 + Z.of_nat i * interval;
}.

Lemma put_invocation_spec s needed epoch val bs t0 :
  0 < a_interval s -> 0 < a_bucketcnt s -> row_ok (a_interval s) (Z.to_nat (a_bucketcnt s)) t0 bs ->
  exists bs' d, put_invocation s needed true epoch val bs = Some (bs', d) /\
    row_ok (a_interval s) (Z.to_nat (a_bucketcnt s)) t0 bs' /\
    if d then bs' = bs /\ (epoch < t0 \/ t0 + a_bucketcnt s * a_interval s <= epoch)
    else exists i b, bs !! i = Some b /\ b_start b <= epoch < b_start b + a_interval s /\
    bs' = <[i := add_value needed true val b]> bs.
Proof.
  intros Hi Hn Hrow. pose proof Hrow as [Hlen Hal Hopen Hstart]. unfold put_invocation.
  destruct (lookup_lt_is_Some_2 bs 0) as [b0 Hb0]; [lia|]. rewrite Hb0. run_binds.
  rewrite (Hstart 0%nat b0 Hb0). replace (t0 + Z.of_nat 0 * a_interval s) with t0 by lia.
  destruct (Z.ltb_spec (epoch - t0) 0); [eexists _, true; split_and!; [done|done|done|lia]|].
  destruct (Z.leb_spec (a_bucketcnt s * a_interval s) (epoch - t0)); [eexists _, true; split_and!; [done|done|done|lia]|].
  pose proof (Z.div_mod (epoch - t0) (a_interval s) ltac:(lia)). pose proof (Z.mod_pos_bound (epoch - t0) (a_interval s) Hi).
  assert (0 <= (epoch - t0) / a_interval s < a_bucketcnt s) as Hq by (split; [apply Z.div_pos; lia|apply Z.div_lt_upper_bound; lia]).
  set (i := Z.to_nat ((epoch - t0) / a_interval s)) in *.
  destruct (lookup_lt_is_Some_2 bs i) as [b Hb]; [lia|]. rewrite Hb. run_binds.
  rewrite Forall_lookup in Hopen. pose proof (Hopen i b Hb) as Ho. rewrite Ho, decide_False by done.
  destruct (add_value_open needed true val b) as [Ho' Hs'].
  eexists _, false. split; [done|]. split.
  - split; [by rewrite length_insert|done| |].
    + apply Forall_lookup. intros j x Hx. destruct (decide (i = j)) as [<-|Hne].
      * rewrite list_lookup_insert_eq in Hx by by eapply lookup_lt_Some. injection Hx as <-. by rewrite Ho'.
      * rewrite list_lookup_insert_ne in Hx by done. by eapply Hopen.
    + intros j x Hx. destruct (decide (i = j)) as [<-|Hne].
      * rewrite list_lookup_insert_eq in Hx by by eapply lookup_lt_Some. injection Hx as <-. rewrite Hs'. by apply Hstart.
      * rewrite list_lookup_insert_ne in Hx by done. by apply Hstart.
  - exists i, b. split_and!; try done; rewrite (Hstart i b Hb); unfold i; rewrite Z2Nat.id by lia; lia.
Qed.

(** ** Names and their slots *)

Lemma omhtbucket_range hash : (Z.to_nat (omhtbucket hash) < Z.to_nat (2 ^ AGGR_HT_POW_SIZE))%nat.
Proof.
  unfold omhtbucket. change (Z.shiftl 1 AGGR_HT_POW_SIZE - 1) with (Z.ones 12). rewrite Z.land_ones by lia.
  change (2 ^ AGGR_HT_POW_SIZE) with (2 ^ 12).
  pose proof (Z.mod_pos_bound (Z.lxor (Z.shiftr hash AGGR_HT_POW_SIZE) hash) (2 ^ 12) ltac:(lia)). lia.
Qed.

(** The value of a table: the values put, by name and start of interval. *)
Abbreviation view := (gmap (list Z * Z) (list double)).
Definition values_at (m : view) (name : cstring) (t : Z) : list double := default [] (m !! (name, t)).

(** An invocation in its place: chain [h], position [j]. *)
Definition inv_at (ht : list (list invocation)) (h j : nat) (inv : invocation) : Prop :=
  exists chain, ht !! h = Some chain /\ chain !! j = Some inv.

(** An invocation, with the view. *)
Record inv_rep (iv : Z) (n : nat) (needed : bool) (m : view) (h : nat) (inv : invocation) : Prop := {
  ir_char : Forall is_char (i_metric inv);
  ir_hash : i_hash inv = omhash (i_metric inv);
  ir_slot : h = Z.to_nat (omhtbucket (omhash (i_metric inv)));
  ir_row : exists t0, row_ok iv n t0 (i_buckets inv);
  ir_buckets : forall i b, i_buckets inv !! i = Some b -> bucket_rep needed b (values_at m (i_metric inv) (b_start b));
}.

(** The table of a compute represents [m]. *)
Record table_rep (iv : Z) (n : nat) (c : compute) (m : view) : Prop := {
  tr_length : length (c_ht c) = Z.to_nat (2 ^ AGGR_HT_POW_SIZE);
  tr_inv : forall h j inv, inv_at (c_ht c) h j inv -> inv_rep iv n (c_entries_needed c) m h inv;
  tr_unique : forall h j j' inv inv', inv_at (c_ht c) h j inv -> inv_at (c_ht c) h j' inv' ->
    i_metric inv = i_metric inv' -> j = j';
  tr_complete : forall name t v vs, m !! (name, t) = Some (v :: vs) ->
    exists h j inv i b, inv_at (c_ht c) h j inv /\ i_metric inv = name /\ i_buckets inv !! i = Some b /\ b_start b = t;
}.

Lemma find_invocation_Some hash name chain j :
  find_invocation hash name chain = Some j ->
  exists inv, chain !! j = Some inv /\ i_hash inv = hash /\ strcmp name (i_metric inv) = 0.
Proof.
  unfold find_invocation. destruct (list_find _ chain) as [[k inv]|] eqn:Ef; [|done]. cbn. intros [= <-].
  apply list_find_Some in Ef as (? & [? ?] & _). eauto.
Qed.
Lemma find_invocation_None hash name chain :
  find_invocation hash name chain = None ->
  forall j inv, chain !! j = Some inv -> i_hash inv = hash -> strcmp name (i_metric inv) <> 0.
Proof.
  unfold find_invocation. destruct (list_find _ chain) as [[k inv]|] eqn:Ef; [done|]. intros _ j inv Hj Hh Hs.
  apply list_find_None in Ef. rewrite Forall_lookup in Ef. by destruct (Ef j inv Hj).
Qed.

(** Replacing the buckets of one invocation. *)
Lemma inv_at_insert ht h j chain inv inv' h' j' x :
  ht !! h = Some chain -> chain !! j = Some inv ->
  inv_at (<[h := <[j := inv']> chain]> ht) h' j' x <->
  (h' = h /\ j' = j /\ x = inv') \/ (~ (h' = h /\ j' = j) /\ inv_at ht h' j' x).
Proof.
  intros Hh Hj. unfold inv_at. destruct (decide (h' = h)) as [->|Hne].
  - rewrite list_lookup_insert_eq by by eapply lookup_lt_Some. destruct (decide (j' = j)) as [->|Hnj].
    + split.
      * intros (k & [= <-] & Hk). rewrite list_lookup_insert_eq in Hk by by eapply lookup_lt_Some. injection Hk as ->. by left.
      * intros [(_ & _ & ->)|[Hn _]]; [|by destruct Hn]. eexists. split; [done|]. rewrite list_lookup_insert_eq; [done|by eapply lookup_lt_Some].
    + split.
      * intros (k & [= <-] & Hk). rewrite list_lookup_insert_ne in Hk by done. right. split; [by intros [_ ?]|]. eauto.
      * intros [(_ & ? & _)|[_ (k & Hk & Hx)]]; [done|]. rewrite Hh in Hk. injection Hk as <-.
        eexists. split; [done|]. by rewrite list_lookup_insert_ne.
  - rewrite list_lookup_insert_ne by done. split; [intros (k & ? & ?); right; split; [by intros [? _]|eauto]|].
    intros [(? & _)|[_ ?]]; done.
Qed.

(** Adding an invocation at the front of a chain. *)
Lemma inv_at_cons ht h chain inv' h' j' x :
  ht !! h = Some chain ->
  inv_at (<[h := inv' :: chain]> ht) h' j' x <->
  (h' = h /\ j' = 0%nat /\ x = inv') \/ (h' = h /\ exists k, j' = S k /\ inv_at ht h k x) \/ (h' <> h /\ inv_at ht h' j' x).
Proof.
  intros Hh. unfold inv_at. destruct (decide (h' = h)) as [->|Hne].
  - rewrite list_lookup_insert_eq by by eapply lookup_lt_Some. split.
    + intros (k & [= <-] & Hk). destruct j' as [|j']; [injection Hk as ->; by left|]. right. left. split; [done|]. eauto.
    + intros [(_ & -> & ->)|[(_ & k & -> & (c & Hc & Hk))|[? _]]]; [by eauto| |done].
      rewrite Hh in Hc. injection Hc as <-. by eauto.
  - rewrite list_lookup_insert_ne by done. split; [intros (k & ? & ?); right; right; eauto|].
    intros [(? & _)|[(? & _)|[_ ?]]]; done.
Qed.

(** The start of the interval a time is in. *)
Definition slot_start (s : aggregator) (epoch : Z) : Z := epoch / a_interval s * a_interval s.

Lemma aligned_start interval t epoch : 0 < interval -> t mod interval = 0 -> t <= epoch < t + interval -> epoch / interval * interval = t.
Proof.
  intros Hi Hm Ht. rewrite (Z.div_mod t interval), Hm in Ht |- * by lia.
  assert (epoch / interval = t / interval) as -> by (symmetry; apply Z.div_unique with (epoch - interval * (t / interval)); lia). lia.
Qed.

(** Does the row that starts at [t0] reach to [epoch]? *)
Definition in_row (s : aggregator) (t0 epoch : Z) : bool := (t0 <=? epoch) && (epoch <? t0 + a_bucketcnt s * a_interval s).
Lemma in_row_true s t0 epoch : in_row s t0 epoch = true <-> t0 <= epoch < t0 + a_bucketcnt s * a_interval s.
Proof. unfold in_row. rewrite andb_true_iff, Z.leb_le, Z.ltb_lt. done. Qed.
Lemma in_row_false s t0 epoch : in_row s t0 epoch = false <-> epoch < t0 \/ t0 + a_bucketcnt s * a_interval s <= epoch.
Proof. unfold in_row. rewrite andb_false_iff, Z.leb_gt, Z.ltb_ge. done. Qed.

(** Putting a value in the invocation found. *)
Lemma table_put s c m h j chain inv epoch val :
  0 < a_interval s -> 0 < a_bucketcnt s -> table_rep (a_interval s) (Z.to_nat (a_bucketcnt s)) c m -> c_ht c !! h = Some chain -> chain !! j = Some inv ->
  exists bs' d t0, put_invocation s (c_entries_needed c) true epoch val (i_buckets inv) = Some (bs', d) /\
    row_ok (a_interval s) (Z.to_nat (a_bucketcnt s)) t0 (i_buckets inv) /\ d = negb (in_row s t0 epoch) /\
    let c' := with_ht c (<[h := <[j := with_buckets inv bs']> chain]> (c_ht c)) in
    if d then table_rep (a_interval s) (Z.to_nat (a_bucketcnt s)) c' m
    else table_rep (a_interval s) (Z.to_nat (a_bucketcnt s)) c' (<[(i_metric inv, slot_start s epoch) := values_at m (i_metric inv) (slot_start s epoch) ++ [val]]> m).
Proof.
  intros Hi Hn [Hlen Hinv Huniq Hcomp] Hh Hj.
  assert (inv_at (c_ht c) h j inv) as Hat by (by exists chain).
  destruct (Hinv _ _ _ Hat) as [Hchar Hhash Hslot [t0 Hrow] Hbuckets].
  destruct (put_invocation_spec s (c_entries_needed c) epoch val (i_buckets inv) t0 Hi Hn Hrow) as (bs' & d & Hput & Hrow' & Hd).
  exists bs', d, t0. split; [done|]. split; [done|]. split.
  { symmetry. destruct d; [apply negb_true_iff, in_row_false, Hd|]. destruct Hd as (i & b & Hb & Hin & _). apply negb_false_iff, in_row_true.
    rewrite (ro_start _ _ _ _ Hrow i b Hb) in Hin. apply lookup_lt_Some in Hb. rewrite (ro_length _ _ _ _ Hrow) in Hb. nia. }
  cbv zeta.
  assert (forall ht', (forall h' j' x, inv_at ht' h' j' x <-> (h' = h /\ j' = j /\ x = with_buckets inv bs') \/ (~ (h' = h /\ j' = j) /\ inv_at (c_ht c) h' j' x)) ->
    forall h' j1 j2 x y, inv_at ht' h' j1 x -> inv_at ht' h' j2 y -> i_metric x = i_metric y -> j1 = j2) as Hu.
  { intros ht' Hht h' j1 j2 x y Hx%Hht Hy%Hht Heq.
    destruct Hx as [(-> & -> & ->)|[Hnx Hx]], Hy as [(? & -> & ->)|[Hny Hy]]; try done.
    - by apply (Huniq h j j2 inv y).
    - subst h'. by apply (Huniq h j1 j x inv).
    - by apply (Huniq h' j1 j2 x y). }
  pose proof (fun h' j' x => inv_at_insert (c_ht c) h j chain inv (with_buckets inv bs') h' j' x Hh Hj) as Hht.
  specialize (Hu _ Hht). destruct d.
  - destruct Hd as [-> Hout]. assert (with_buckets inv (i_buckets inv) = inv) as Heta by (by destruct inv).
    rewrite Heta, (list_insert_id chain j inv Hj), (list_insert_id (c_ht c) h chain Hh). assert (with_ht c (c_ht c) = c) as -> by (by destruct c).
    by split.
  - destruct Hd as (i & b & Hb & Hin & ->).
    assert (slot_start s epoch = b_start b) as Hst.
    { apply aligned_start; [done| |done]. rewrite (ro_start _ _ _ _ Hrow i b Hb), Z.mod_add by lia. apply (ro_aligned _ _ _ _ Hrow). }
    rewrite Hst. set (m' := <[(i_metric inv, b_start b) := _]> m).
    assert (forall name t, (name, t) <> (i_metric inv, b_start b) -> values_at m' name t = values_at m name t) as Hother.
    { intros name t Hne. unfold values_at, m'. by rewrite lookup_insert_ne. }
    assert (values_at m' (i_metric inv) (b_start b) = values_at m (i_metric inv) (b_start b) ++ [val]) as Hthis.
    { unfold values_at at 1, m'. by rewrite lookup_insert_eq. }
    set (b' := add_value (c_entries_needed c) true val b) in *.
    destruct (add_value_open (c_entries_needed c) true val b) as [_ Hb's]. fold b' in Hb's.
    split; [by cbn; rewrite length_insert| |done|].
    + intros h' j' x [(-> & -> & ->)|[Hne Hx]]%Hht.
      * split; [done|done|done|by exists t0|]. cbn. intros k y Hy. destruct (decide (i = k)) as [<-|Hnk].
        -- rewrite list_lookup_insert_eq in Hy by by eapply lookup_lt_Some. injection Hy as <-. rewrite Hb's, Hthis.
           apply add_value_rep. by apply (Hbuckets i).
        -- rewrite list_lookup_insert_ne in Hy by done. rewrite Hother; [by apply (Hbuckets k)|].
           intros [= Heq]. apply Hnk. rewrite (ro_start _ _ _ _ Hrow i b Hb), (ro_start _ _ _ _ Hrow k y Hy) in Heq. nia.
      * destruct (Hinv _ _ _ Hx) as [Xchar Xhash Xslot Xrow Xb]. split; try done. intros k y Hy. rewrite Hother; [by apply (Xb k)|].
        intros [= Hname _]. apply Hne. assert (h' = h) as -> by (by rewrite Xslot, Hslot, Hname). split; [done|].
        by apply (Huniq h j' j x inv).
    + intros name t v vs Hm'. unfold m' in Hm'. destruct (decide ((name, t) = (i_metric inv, b_start b))) as [[= -> ->]|Hne].
      * exists h, j, (with_buckets inv (<[i:=b']> (i_buckets inv))), i, b'. cbn. split_and!; [apply Hht; by left|done| |done].
        rewrite list_lookup_insert_eq; [done|by eapply lookup_lt_Some].
      * rewrite lookup_insert_ne in Hm' by congruence. destruct (Hcomp name t v vs Hm') as (h' & j' & x & k & y & Hx & Hxn & Hy & Hyt).
        destruct (decide (h' = h /\ j' = j)) as [[-> ->]|Hn'].
        -- assert (x = inv) as ->.
           { destruct Hx as (ch1 & Hc1 & Hx). rewrite Hh in Hc1. injection Hc1 as <-. rewrite Hj in Hx. by injection Hx. }
           destruct (decide (i = k)) as [<-|Hnk]; [rewrite Hb in Hy; injection Hy as <-; by destruct Hne; subst|].
           exists h, j, (with_buckets inv (<[i:=b']> (i_buckets inv))), k, y. cbn. split_and!; [apply Hht; by left|done| |done].
           by rewrite list_lookup_insert_ne.
        -- exists h', j', x, k, y. split_and!; [|done..]. apply Hht. by right.
Qed.

Lemma new_invocation_row s name now rnd :
  0 < a_interval s ->
  row_ok (a_interval s) (Z.to_nat (a_bucketcnt s)) (Z.quot (now - a_expire s) (a_interval s) * a_interval s) (i_buckets (new_invocation s name now rnd)).
Proof.
  intros Hi. split.
  - cbn. by rewrite length_fmap, length_seq.
  - by apply Z_mod_mult.
  - cbn. apply Forall_fmap, Forall_true. done.
  - intros i b Hb. cbn in Hb. rewrite list_lookup_fmap in Hb. destruct (seq 0 _ !! i) as [k|] eqn:Ek; [|done].
    apply lookup_seq in Ek as [-> _]. by injection Hb as <-.
Qed.

(** A name that is not in its chain has no values. *)
Lemma table_new iv n c m name chain :
  table_rep iv n c m -> Forall is_char name ->
  c_ht c !! Z.to_nat (omhtbucket (omhash name)) = Some chain -> find_invocation (omhash name) name chain = None ->
  (forall j inv, inv_at (c_ht c) (Z.to_nat (omhtbucket (omhash name))) j inv -> i_metric inv <> name) /\
  forall t, values_at m name t = [].
Proof.
  intros [_ Hinv _ Hcomp] Hchar Hh Hf.
  assert (forall j inv, inv_at (c_ht c) (Z.to_nat (omhtbucket (omhash name))) j inv -> i_metric inv <> name) as Hno.
  { intros j inv Hat Heq. pose proof Hat as (ch1 & Hc1 & Hj). rewrite Hh in Hc1. injection Hc1 as <-.
    destruct (Hinv _ _ _ Hat) as [_ Hhash _ _ _]. eapply (find_invocation_None _ _ _ Hf j inv Hj); [by rewrite Hhash, Heq|].
    rewrite Heq. apply strcmp_refl. }
  split; [done|]. intros t. unfold values_at. destruct (m !! (name, t)) as [[|v vs]|] eqn:Em; [done| |done].
  destruct (Hcomp _ _ _ _ Em) as (h & j & inv & _ & _ & Hat & Hname & _). exfalso.
  destruct (Hinv _ _ _ Hat) as [_ _ Hslot _ _]. rewrite Hname in Hslot. subst h. by eapply Hno.
Qed.

Lemma table_add s c m name chain now rnd :
  0 < a_interval s -> table_rep (a_interval s) (Z.to_nat (a_bucketcnt s)) c m -> Forall is_char name ->
  c_ht c !! Z.to_nat (omhtbucket (omhash name)) = Some chain -> find_invocation (omhash name) name chain = None ->
  table_rep (a_interval s) (Z.to_nat (a_bucketcnt s))
    (with_ht c (<[Z.to_nat (omhtbucket (omhash name)) := new_invocation s name now rnd :: chain]> (c_ht c))) m.
Proof.
  intros Hi Hrep Hchar Hh Hf. destruct (table_new _ _ _ _ _ _ Hrep Hchar Hh Hf) as [Hno Hempty].
  destruct Hrep as [Hlen Hinv Huniq Hcomp]. set (h := Z.to_nat (omhtbucket (omhash name))) in *.
  pose proof (fun h' j' x => inv_at_cons (c_ht c) h chain (new_invocation s name now rnd) h' j' x Hh) as Hht.
  split; [by cbn; rewrite length_insert| | |].
  - intros h' j' x [(-> & -> & ->)|[(-> & k & -> & Hx)|[_ Hx]]]%Hht; [|by eapply Hinv..].
    split; [done|done|done|by eexists; apply new_invocation_row|]. intros i b Hb. cbn [i_metric new_invocation]. rewrite Hempty.
    cbn in Hb. rewrite list_lookup_fmap in Hb. destruct (seq 0 _ !! i); [|done]. injection Hb as <-. apply new_bucket_rep.
  - intros h' j1 j2 x y Hx%Hht Hy%Hht Heq.
    destruct Hx as [(-> & -> & ->)|[(-> & k1 & -> & Hx)|[Hne Hx]]], Hy as [(Hh' & -> & ->)|[(Hh' & k2 & -> & Hy)|[Hne' Hy]]]; try done.
    + cbn in Heq. exfalso. by apply (Hno k2 y).
    + cbn in Heq. exfalso. by apply (Hno k1 x).
    + f_equal. by apply (Huniq h k1 k2 x y).
    + by apply (Huniq h' j1 j2 x y).
  - intros nm t v vs Hm. destruct (Hcomp _ _ _ _ Hm) as (h' & j & inv & i & b & Hat & ? & ? & ?).
    destruct (decide (h' = h)) as [->|Hne].
    + exists h, (S j), inv, i, b. split_and!; try done. apply Hht. right. left. split; [done|]. eauto.
    + exists h', j, inv, i, b. split_and!; try done. apply Hht. right. by right.
Qed.

(** Where the row of a name starts: that of its invocation in the table, or of the one that is made when there is none, with the clock's
    time less the expiry time, cut to the interval. *)
Definition row_starts (s : aggregator) (c : compute) (now : Z) (name : cstring) (t0 : Z) : Prop :=
  (exists h j inv, inv_at (c_ht c) h j inv /\ i_metric inv = name /\ row_ok (a_interval s) (Z.to_nat (a_bucketcnt s)) t0 (i_buckets inv)) \/
  ((forall h j inv, inv_at (c_ht c) h j inv -> i_metric inv <> name) /\ t0 = Z.quot (now - a_expire s) (a_interval s) * a_interval s).
(** Putting a value in a compute: it is dropped exactly when the row of its name does not reach to its time, and else the view
    gets it at the end of its interval's values. *)
Definition put_effect (s : aggregator) (c : compute) (now : Z) (m m' : view) (name : cstring) (epoch : Z) (val : double) (dropped : bool) : Prop :=
  (forall t0, row_starts s c now name t0 -> dropped = negb (in_row s t0 epoch)) /\ (exists t0, row_starts s c now name t0) /\
  m' = if dropped then m else <[(name, slot_start s epoch) := values_at m name (slot_start s epoch) ++ [val]]> m.

(** The start is unique. *)
Lemma row_ok_unique iv n t t' bs : (0 < n)%nat -> row_ok iv n t bs -> row_ok iv n t' bs -> t = t'.
Proof.
  intros Hn [Hl _ _ Hs] [_ _ _ Hs']. destruct (lookup_lt_is_Some_2 bs 0) as [b Hb]; [lia|].
  specialize (Hs 0%nat b Hb). specialize (Hs' 0%nat b Hb). lia.
Qed.
Lemma row_starts_unique s c m now name t t' :
  0 < a_bucketcnt s -> table_rep (a_interval s) (Z.to_nat (a_bucketcnt s)) c m -> row_starts s c now name t -> row_starts s c now name t' -> t = t'.
Proof.
  intros Hn Hrep [(h & j & inv & Hat & Hname & Hr)|[Hno ->]] [(h' & j' & inv' & Hat' & Hname' & Hr')|[Hno' ->]]; [|by destruct (Hno' _ _ _ Hat)|by destruct (Hno _ _ _ Hat')|done].
  assert (h = h') as ->.
  { by rewrite (ir_slot _ _ _ _ _ _ (tr_inv _ _ _ _ Hrep _ _ _ Hat)), (ir_slot _ _ _ _ _ _ (tr_inv _ _ _ _ Hrep _ _ _ Hat')), Hname, Hname'. }
  assert (j = j') as -> by (by apply (tr_unique _ _ _ _ Hrep h' j j' inv inv'); [..|congruence]).
  destruct Hat as (ch1 & Hc1 & Hi1), Hat' as (ch2 & Hc2 & Hi2). assert (inv = inv') as <- by congruence.
  eapply row_ok_unique; [|done..]. lia.
Qed.

Lemma put_compute_spec s c m ans name epoch val :
  0 < a_interval s -> 0 < a_bucketcnt s -> table_rep (a_interval s) (Z.to_nat (a_bucketcnt s)) c m ->
  Forall is_char name -> pa_invocation ans = true -> pa_entries ans = true ->
  exists c' d m', put_compute s c ans name epoch val = Some (c', d) /\
    table_rep (a_interval s) (Z.to_nat (a_bucketcnt s)) c' m' /\ put_effect s c (pa_now ans) m m' name epoch val d.
Proof.
  intros Hi Hn Hrep Hchar Ha He. unfold put_compute. cbv zeta. rewrite Ha, He.
  destruct (lookup_lt_is_Some_2 (c_ht c) (Z.to_nat (omhtbucket (omhash name)))) as [chain Hh].
  { rewrite (tr_length _ _ _ _ Hrep). apply omhtbucket_range. }
  rewrite Hh. run_binds.
  assert (forall c1 chain1 j inv, c_ht c1 !! Z.to_nat (omhtbucket (omhash name)) = Some chain1 -> chain1 !! j = Some inv ->
    i_metric inv = name -> c_entries_needed c1 = c_entries_needed c ->
    table_rep (a_interval s) (Z.to_nat (a_bucketcnt s)) c1 m ->
    (forall t0, row_ok (a_interval s) (Z.to_nat (a_bucketcnt s)) t0 (i_buckets inv) -> row_starts s c (pa_now ans) name t0) ->
    exists bs d m', put_invocation s (c_entries_needed c) true epoch val (i_buckets inv) = Some (bs, d) /\
      table_rep (a_interval s) (Z.to_nat (a_bucketcnt s))
        (with_ht c1 (<[Z.to_nat (omhtbucket (omhash name)) := <[j := with_buckets inv bs]> chain1]> (c_ht c1))) m' /\
      put_effect s c (pa_now ans) m m' name epoch val d) as Hput.
  { intros c1 chain1 j inv Hh1 Hj <- <- Hrep1 Hst.
    destruct (table_put s c1 m _ j chain1 inv epoch val Hi Hn Hrep1 Hh1 Hj) as (bs & d & t0 & -> & Hrow & Ed & Hd). cbv zeta in Hd.
    exists bs, d, (if d then m else <[(i_metric inv, slot_start s epoch) := values_at m (i_metric inv) (slot_start s epoch) ++ [val]]> m).
    split; [done|]. split; [by destruct d|]. split; [|split; [exists t0; by apply Hst|done]].
    intros t Ht. by rewrite (row_starts_unique _ _ _ _ _ _ _ Hn Hrep Ht (Hst _ Hrow)). }
  destruct (find_invocation (omhash name) name chain) as [j|] eqn:Ef; run_binds.
  - destruct (find_invocation_Some _ _ _ _ Ef) as (inv & Hj & Hhash & Hcmp). rewrite Hj. run_binds.
    assert (i_metric inv = name) as Hname.
    { symmetry. apply strcmp_eq; [done| |done]. eapply ir_char, (tr_inv _ _ _ _ Hrep). by exists chain. }
    destruct (Hput c chain j inv Hh Hj Hname eq_refl Hrep) as (bs & d & m' & -> & ? & ?).
    { intros t0 Ht0. left. exists (Z.to_nat (omhtbucket (omhash name))), j, inv. split; [by exists chain|done]. }
    run_binds. eexists _, _, _. by split_and!.
  - pose proof (table_add s c m name chain (pa_now ans) (pa_rand ans) Hi Hrep Hchar Hh Ef) as Hrep1. cbn [lookup list_lookup].
    destruct (Hput (with_ht c (<[Z.to_nat (omhtbucket (omhash name)) := new_invocation s name (pa_now ans) (pa_rand ans) :: chain]> (c_ht c)))
      (new_invocation s name (pa_now ans) (pa_rand ans) :: chain) 0%nat (new_invocation s name (pa_now ans) (pa_rand ans))
      (list_lookup_insert_eq _ _ _ (lookup_lt_Some _ _ _ Hh)) eq_refl eq_refl eq_refl Hrep1) as (bs & d & m' & Hp & Hr & ?).
    { intros t0 Ht0. right. split.
      { intros h j x Hx Hxn. apply (proj1 (table_new _ _ _ _ _ _ Hrep Hchar Hh Ef) j x); [|done].
        by rewrite (ir_slot _ _ _ _ _ _ (tr_inv _ _ _ _ Hrep _ _ _ Hx)), Hxn in Hx. }
      eapply row_ok_unique; [|exact Ht0|by apply new_invocation_row]. lia. }
    run_binds. rewrite Hp. run_binds. cbn in Hr. rewrite list_insert_insert_eq in Hr. eexists _, _, _. split; [done|]. by split.
Qed.

(** What a line does to the views of the computes: the number dropped, and the views. *)
Inductive put_effects (s : aggregator) (ans : nat -> put_answers) (name rest : cstring) (nmatch : Z) (pmatch : list regmatch) (epoch : Z) (val : double) :
    nat -> list compute -> list view -> Z -> list view -> Prop :=
  | pe_nil i : put_effects s ans name rest nmatch pmatch epoch val i [] [] 0 []
  | pe_skip i c cs m ms d ms' :
      compute_name c name rest nmatch pmatch = None -> put_effects s ans name rest nmatch pmatch epoch val (S i) cs ms d ms' ->
      put_effects s ans name rest nmatch pmatch epoch val i (c :: cs) (m :: ms) d (m :: ms')
  | pe_put i c cs m m' ms d n (dropped : bool) ms' :
      compute_name c name rest nmatch pmatch = Some n -> put_effect s c (pa_now (ans i)) m m' n epoch val dropped ->
      put_effects s ans name rest nmatch pmatch epoch val (S i) cs ms d ms' ->
      put_effects s ans name rest nmatch pmatch epoch val i (c :: cs) (m :: ms) ((if dropped then 1 else 0) + d) (m' :: ms').

(** The aggregator represents a view per compute. *)
Record aggr_rep (s : aggregator) (ms : list view) : Prop := {
  ar_interval : 0 < a_interval s;
  ar_bucketcnt : 0 < a_bucketcnt s;
  ar_tables : Forall2 (table_rep (a_interval s) (Z.to_nat (a_bucketcnt s))) (a_computes s) ms;
}.

Lemma put_computes_spec s cs ms i ans name rest nmatch pmatch epoch val :
  0 < a_interval s -> 0 < a_bucketcnt s -> Forall2 (table_rep (a_interval s) (Z.to_nat (a_bucketcnt s))) cs ms ->
  (forall c n, c ∈ cs -> compute_name c name rest nmatch pmatch = Some n -> Forall is_char n) ->
  (forall k, pa_invocation (ans k) = true /\ pa_entries (ans k) = true) ->
  exists cs' d ms', put_computes s cs i ans name rest nmatch pmatch epoch val = Some (cs', d) /\
    Forall2 (table_rep (a_interval s) (Z.to_nat (a_bucketcnt s))) cs' ms' /\
    put_effects s ans name rest nmatch pmatch epoch val i cs ms d ms'.
Proof.
  intros Hi Hn Hrep Hchar Hans. revert i. induction Hrep as [|c m cs ms Hc Hcs IH]; intros i; cbn [put_computes].
  { eexists _, _, _. split; [done|]. split; constructor. }
  destruct (IH ltac:(intros c' n ?; apply Hchar; by constructor) (S i)) as (cs' & d & ms' & Hput & Hr & He).
  destruct (compute_name c name rest nmatch pmatch) as [n|] eqn:En.
  - destruct (Hans i). destruct (put_compute_spec s c m (ans i) n epoch val Hi Hn Hc) as (c' & dr & m' & -> & Hc' & He');
      [by apply (Hchar c n); [constructor|]|done|done|]. run_binds. rewrite Hput. run_binds.
    eexists _, _, _. split; [done|]. split; [by constructor|]. by apply (pe_put s ans name rest nmatch pmatch epoch val i c cs m m' ms d n dr ms').
  - run_binds. rewrite Hput. run_binds. eexists _, _, _. split; [done|]. split; [by constructor|]. by constructor.
Qed.

(** ** Expiry *)

Section Expiry.
Context {E : Type} (pipe : E -> cstring -> E * Z) `{Qsort double}.

(** Writing the buckets that have something, in order. *)
Fixpoint write_all (c : compute) (invmetric : cstring) (bs : list bucket) (s : aggregator) (e : E) : option (aggregator * E) :=
  match bs with
  | [] => Some (s, e)
  | b :: bs' =>
      if decide (b_cnt b = 0%nat) then write_all c invmetric bs' s e
      else '(s, e) ← write_metric pipe s b c invmetric e; write_all c invmetric bs' s e
  end.

(** The number of buckets at the front that are past their expiry. *)
Fixpoint due (now expire : Z) (bs : list bucket) : nat :=
  match bs with
  | b :: bs' => if b_start b + expire <? now then S (due now expire bs') else 0%nat
  | [] => 0%nat
  end.

Lemma expire_walk_spec now expire c invmetric bs s e work s' e' :
  Forall (fun b => b_state b = A_OPEN) bs -> (due now expire bs < length bs)%nat ->
  write_all c invmetric (take (due now expire bs) bs) s e = Some (s', e') ->
  expire_walk pipe now expire c invmetric bs s e work =
    Some ((expired <$> take (due now expire bs) bs) ++ drop (due now expire bs) bs, s', e', work + Z.of_nat (due now expire bs)).
Proof.
  revert s e work. induction bs as [|b bs IH]; intros s e work Ho Hd; cbn [due length] in *; [lia|].
  apply Forall_cons in Ho as [Hb Ho]. cbn [expire_walk]. destruct (b_start b + expire <? now).
  - cbn [take write_all]. intros Hw. rewrite (decide_True (P := b_state b = A_OPEN)) by done.
    destruct (decide (b_cnt b = 0%nat)) as [Hz|Hz].
    + rewrite Hz. change (0 <? 0)%nat with false. run_binds. rewrite (IH s e (work + 1) Ho ltac:(lia) Hw). run_binds.
      rewrite fmap_cons. cbn [drop app]. do 2 f_equal. lia.
    + rewrite (proj2 (Nat.ltb_lt 0 (b_cnt b))) by lia. destruct (write_metric pipe s b c invmetric e) as [[s1 e1]|]; [|done].
      revert Hw. run_binds. intros Hw. rewrite (IH s1 e1 (work + 1) Ho ltac:(lia) Hw). run_binds.
      rewrite fmap_cons. cbn [drop app]. do 2 f_equal. lia.
  - cbn. intros [= -> ->]. by rewrite Z.add_0_r.
Qed.

(** The walk leaves its array exactly when every bucket is past its expiry. *)
Lemma expire_walk_overrun now expire c invmetric bs s e work :
  due now expire bs = length bs -> expire_walk pipe now expire c invmetric bs s e work = None.
Proof.
  revert s e work. induction bs as [|b bs IH]; intros s e work; cbn [due length]; [done|]. cbn [expire_walk].
  destruct (b_start b + expire <? now); [|done]. intros [= Hd].
  destruct (decide (b_state b = A_OPEN)); run_binds; [|by rewrite IH].
  destruct (if (0 <? b_cnt b)%nat then _ else _) as [[s1 e1]|]; run_binds; [|done]. by rewrite IH.
Qed.

(** What the expired buckets become at the end of the row. *)
Lemma rotate_spec interval n t0 bs k fuel :
  row_ok interval n t0 bs -> (k < n)%nat -> (k <= fuel)%nat ->
  exists fresh, rotate fuel interval ((expired <$> take k bs) ++ drop k bs) = Some (drop k bs ++ fresh) /\
    length fresh = k /\ Forall (fun b => b_cnt b = 0%nat) fresh /\
    row_ok interval n (t0 + Z.of_nat k * interval) (drop k bs ++ fresh).
Proof.
  intros [Hlen Hal Hopen Hstart] Hk.
  (* generalise: [done] buckets have already been moved *)
  assert (forall rest fresh t fuel, Forall (fun b => b_state b = A_EXPIRE) rest ->
    row_ok interval (n - length rest) t (drop k bs ++ fresh) -> Forall (fun b => b_cnt b = 0%nat) fresh ->
    (length rest <= fuel)%nat -> (length rest < n)%nat ->
    exists fresh', rotate fuel interval (rest ++ drop k bs ++ fresh) = Some (drop k bs ++ fresh') /\
      length fresh' = (length rest + length fresh)%nat /\ Forall (fun b => b_cnt b = 0%nat) fresh' /\
      row_ok interval n t (drop k bs ++ fresh')) as Hgen.
  { induction rest as [|b rest IH]; intros fresh t fu Hexp Hrow Hz Hf Hl.
    - cbn [length] in *. rewrite Nat.sub_0_r in Hrow. exists fresh. cbn [app]. split_and!; try done.
      destruct (drop k bs ++ fresh) as [|x l] eqn:Ex; [apply ro_length in Hrow; cbn in Hrow; lia|].
      pose proof (ro_open _ _ _ _ Hrow) as Ho. apply Forall_cons in Ho as [Hx _].
      destruct fu; cbn [rotate]; by rewrite decide_False by (rewrite Hx; done).
    - apply Forall_cons in Hexp as [Hb Hexp]. destruct fu as [|fu]; [cbn in Hf; lia|]. cbn [rotate app length] in *.
      rewrite decide_True by done.
      pose proof Hrow as [Rlen Ral Ropen Rstart].
      destruct (list.last (drop k bs ++ fresh)) as [l|] eqn:El; [|apply last_None in El; rewrite El in Rlen; cbn in Rlen; lia].
      assert (list.last (rest ++ drop k bs ++ fresh) = Some l) as -> by (rewrite last_app, El; done). run_binds.
      rewrite <- (assoc_L (++) rest), <- (assoc_L (++) (drop k bs)).
      match goal with |- context [fresh ++ [?x]] => set (nb := x) end.
      assert (b_start l = t + Z.of_nat (n - S (length rest) - 1) * interval) as Hl1.
      { rewrite last_lookup, Rlen in El. apply Rstart. by rewrite Nat.sub_1_r. }
      destruct (IH (fresh ++ [nb]) t fu Hexp) as (fresh' & Hr & Hlen' & Hz' & Hrow').
      { split.
        - rewrite (assoc_L (++)), length_app, Rlen. cbn. lia.
        - done.
        - rewrite (assoc_L (++)). apply Forall_app. split; [done|]. by apply Forall_singleton.
        - intros i y Hy. rewrite (assoc_L (++)) in Hy. apply lookup_app_Some in Hy as [Hy|[Hge Hy]]; [by apply Rstart|].
          rewrite Rlen in Hge, Hy. apply list_lookup_singleton_Some in Hy as [Hi <-]. cbn. rewrite Hl1.
          replace (Z.of_nat i) with (Z.of_nat (n - S (length rest) - 1) + 1) by lia. lia. }
      { apply Forall_app. split; [done|]. by apply Forall_singleton. }
      { lia. } { lia. }
      exists fresh'. rewrite Hr. split_and!; try done. rewrite Hlen', length_app. cbn. lia. }
  intros Hf. assert (length (expired <$> take k bs) = k) as Hlk by (rewrite length_fmap, length_take; lia).
  destruct (Hgen (expired <$> take k bs) [] (t0 + Z.of_nat k * interval) fuel) as (fresh & Hr & Hl & Hz & Hrow).
  - apply Forall_fmap, Forall_true. done.
  - rewrite app_nil_r, Hlk. split.
    + rewrite length_drop. lia.
    + rewrite <- Zplus_mod_idemp_l, Hal, Z.add_0_l. apply Z_mod_mult.
    + by apply Forall_drop.
    + intros i b Hb. rewrite lookup_drop in Hb. rewrite (Hstart _ _ Hb). lia.
  - constructor.
  - by rewrite Hlk.
  - by rewrite Hlk.
  - exists fresh. rewrite app_nil_r in Hr. rewrite Hr, Hl, Hlk. cbn. by split_and!.
Qed.
End Expiry.

(** A new compute represents the empty view. *)
Lemma table_empty iv n ty metric needed pctl :
  table_rep iv n (mkCompute ty metric (replicate (Z.to_nat (2 ^ AGGR_HT_POW_SIZE)) []) needed pctl) ∅.
Proof.
  assert (forall h j inv, ~ inv_at (replicate (Z.to_nat (2 ^ AGGR_HT_POW_SIZE)) []) h j inv) as Hno.
  { intros h j inv (ch & Hc & Hj). apply lookup_replicate in Hc as [Hc _]. subst ch. by destruct j. }
  split.
  - apply length_replicate.
  - intros h j inv Hat. by destruct (Hno _ _ _ Hat).
  - intros h j j' inv inv' Hat. by destruct (Hno _ _ _ Hat).
  - intros name t v vs Hm. by rewrite lookup_empty in Hm.
Qed.

(** What the value of a bucket says about the values put in it. *)
Lemma bucket_value_spec `{Qsort double} c b v vs :
  bucket_rep (c_entries_needed c) b (v :: vs) -> Forall (fun x => is_nan x = false) (v :: vs) ->
  match c_type c with
  | SUM => bucket_value c b = Some (show_f (foldl dadd v vs))
  | CNT => bucket_value c b = Some (show_nonneg (Z.of_nat (length (v :: vs))))
  | MAX => exists x, x ∈ v :: vs /\ Forall (fun y => dge x y) (v :: vs) /\ bucket_value c b = Some (show_f x)
  | MIN => exists x, x ∈ v :: vs /\ Forall (fun y => dge y x) (v :: vs) /\ bucket_value c b = Some (show_f x)
  | AVG => bucket_value c b = Some (show_f (ddiv (foldl dadd v vs) (double_of_Z (Z.of_nat (length (v :: vs))))))
  | MEDN | PCTL => True
  | VAR | SDEV => c_entries_needed c = true ->
      let n := double_of_Z (Z.of_nat (length (v :: vs))) in
      let avg := ddiv (foldl dadd v vs) n in
      let var := ddiv (foldl (fun a y => dadd a (dsquare (dsub y avg))) (SpecFloat.S754_zero false) (v :: vs)) n in
      bucket_value c b = Some (show_f (if decide (c_type c = VAR) then var else dsqrt var))
  end.
Proof.
  intros [Hc (Hs & Hmax & Hmin) Hv] Hn. unfold bucket_value. rewrite Hc, Hs.
  assert (c_entries_needed c = true ->
    (if decide (length (v :: vs) <= length (b_values b))%nat then Some (take (length (v :: vs)) (b_values b)) else None) = Some (v :: vs)) as Hval.
  { intros He. destruct (Hv He) as [Ht _]. rewrite decide_True, Ht; [done|]. rewrite <- Ht at 1. rewrite length_take. lia. }
  destruct (c_type c) eqn:Et.
  1, 2, 5: done.
  - destruct (max_of_spec v vs Hn). exists (max_of v vs). by rewrite Hmax.
  - destruct (min_of_spec v vs Hn). exists (min_of v vs). by rewrite Hmin.
  - done.
  - done.
  - intros He. rewrite (Hval He). done.
  - intros He. rewrite (Hval He). done.
Qed.

(** ** Concrete aggregators, for evaluating the theorems *)

Definition demo_log (e : list cstring) (line : cstring) : list cstring * Z := (e ++ [line], Z.of_nat (length line)).
Definition demo_answers : nat -> put_answers := fun _ => mkPut true true 1000 7.
Definition demo_aggregator (ty : compute_type) (pctl : Z) : aggregator :=
  aggregator_add_compute (mkAggr 10 40 TS_END 6 0 0 0 []) (lit "sum") ty pctl.
(** A bucket that got [vs]. *)
Definition demo_bucket (needed : bool) (start : Z) (vs : list double) : bucket :=
  foldl (fun b v => add_value needed true v b) (new_bucket start) vs.

Lemma demo_bucket_rep needed start vs : bucket_rep needed (demo_bucket needed start vs) vs.
Proof.
  unfold demo_bucket. induction vs as [|v vs IH] using rev_ind; [apply new_bucket_rep|].
  rewrite foldl_snoc. by apply add_value_rep.
Qed.

Definition demo_compute (ty : compute_type) (pctl : Z) : compute := mkCompute ty (lit "sum") [] true pctl.
Definition demo_row : list bucket :=
  [demo_bucket true 960 [atof (lit "1"); atof (lit "2.5")]; demo_bucket true 970 []; demo_bucket true 980 [atof (lit "4")]].

Lemma demo_row_ok : row_ok 10 3 960 demo_row.
Proof.
  split; [done|done|repeat constructor|].
  intros [|[|[|i]]] b; cbn; [by intros [= <-]..|done].
Qed.

(** ** Properties *)

(** C28: An aggregator is a map from metric name and interval to the values received.
    When memory is available and the names are characters, putting a line that has a
    timestamp succeeds, is counted as received, and for each compute that gives it a name:
    if the row of buckets of that name (the one in the table, or the one made at the clock's
    time) contains the timestamp, the value is appended to those of its interval; if and only
    if it does not, the value is dropped, and counted.  Nothing else changes. *)
Theorem putmetric_refines (s : aggregator) (ms : list view) (ans : nat -> put_answers) (metric : cstring) (firstspace v : nat)
    (nmatch : Z) (pmatch : list regmatch) :
  aggr_rep s ms -> (forall k, pa_invocation (ans k) = true /\ pa_entries (ans k) = true) ->
  (forall c n, c ∈ a_computes s ->
     compute_name c (take firstspace metric) (drop firstspace metric) nmatch pmatch = Some n -> Forall is_char n) ->
  fst <$> list_find (fun c => c = ch " ") (drop (firstspace + 1) metric) = Some v ->
  let text := drop (firstspace + 1) metric in
  exists s' ms' d, aggregator_putmetric true s ans metric firstspace nmatch pmatch = Some s' /\ aggr_rep s' ms' /\
    put_effects s ans (take firstspace metric) (drop firstspace metric) nmatch pmatch (strtol (drop (v + 1) text)).1 (atof text)
      0 (a_computes s) ms d ms' /\
    a_received s' = a_received s + 1 /\ a_dropped s' = a_dropped s + d /\ a_sent s' = a_sent s.
Proof.
  intros [Hi Hn Ht] Hans Hchar Hv text. unfold aggregator_putmetric. fold text in Hv |- *.
  destruct (list_find _ text) as [[v' x]|] eqn:Ef; [|done]. injection Hv as <-.
  destruct (put_computes_spec s (a_computes s) ms 0 ans (take firstspace metric) (drop firstspace metric) nmatch pmatch
    (strtol (drop (v' + 1) text)).1 (atof text) Hi Hn Ht Hchar Hans) as (cs' & d & ms' & -> & Hr & He).
  run_binds. eexists _, ms', d. split; [done|]. split; [by split|]. by split_and!.
Qed.

Lemma putmetric_refines_witness :
  let s := demo_aggregator SUM 0 in
  aggr_rep s [∅] /\
  exists s' ms' d, aggregator_putmetric true s demo_answers (lit "x 5.5 985" ++ [10]) 1 0 [] = Some s' /\
    put_effects s demo_answers (lit "x") (lit " 5.5 985" ++ [10]) 0 [] 985 (atof (lit "5.5")) 0 (a_computes s) [∅] d ms' /\
    a_received s' = 1 /\ d = 0.
Proof.
  intros s.
  assert (aggr_rep s [∅]) as Hrep.
  { split; [done|done|]. apply Forall2_cons_2; [apply table_empty|apply Forall2_nil_2]. }
  split; [exact Hrep|].
  destruct (putmetric_refines s [∅] demo_answers (lit "x 5.5 985" ++ [10]) 1 3 0 [] Hrep) as (s' & ms' & d & Hput & _ & He & Hr & Hd & _).
  - intros k. by split.
  - intros c n Hc. apply list_elem_of_singleton in Hc as ->. intros [= <-]. repeat constructor; done.
  - reflexivity.
  - exists s', ms', d. split; [exact Hput|]. split; [exact He|]. split; [exact Hr|].
    assert (a_dropped <$> Some s' = Some 0) as Hz by (rewrite <- Hput; vm_compute; reflexivity).
    apply (inj Some) in Hz. rewrite Hz in Hd. exact (eq_sym Hd).
Defined.

(** C29: Expiry sends every interval once, if some bucket of the row is not yet due (when all are, the code walks out
    of the row) and the values of those that are can be computed and written: a pass writes the buckets that are due
    and hold something, oldest first, and after the clean-up the row starts at the first bucket that is not due, with
    as many empty open buckets for the following intervals at its end. *)
Theorem expire_emits_once {E : Type} `{Qsort double} (pipe : E -> cstring -> E * Z) (interval now expire t0 work : Z) (n : nat)
    (c : compute) (invmetric : cstring) (bs : list bucket) (s s' : aggregator) (e e' : E) :
  row_ok interval n t0 bs -> (due now expire bs < n)%nat ->
  write_all pipe c invmetric (take (due now expire bs) bs) s e = Some (s', e') ->
  exists bs1 fresh, expire_walk pipe now expire c invmetric bs s e work = Some (bs1, s', e', work + Z.of_nat (due now expire bs)) /\
    rotate (length bs1) interval bs1 = Some (drop (due now expire bs) bs ++ fresh) /\
    length fresh = due now expire bs /\ Forall (fun b => b_cnt b = 0%nat) fresh /\
    row_ok interval n (t0 + Z.of_nat (due now expire bs) * interval) (drop (due now expire bs) bs ++ fresh).
Proof.
  intros Hrow Hd Hw. pose proof (ro_length _ _ _ _ Hrow) as Hlen.
  destruct (rotate_spec interval n t0 bs (due now expire bs)
    (length ((expired <$> take (due now expire bs) bs) ++ drop (due now expire bs) bs)) Hrow Hd) as (fresh & Hr & Hl & Hz & Hrow').
  { rewrite length_app, length_fmap, length_take. lia. }
  eexists _, fresh. split; [apply expire_walk_spec; [apply (ro_open _ _ _ _ Hrow)|lia|exact Hw]|]. by split_and!.
Qed.

Lemma expire_emits_once_witness :
  let s := demo_aggregator SUM 0 in
  let _ := @isort_qsort double in
  due 1015 40 demo_row = 2%nat /\
  exists s' e' bs1 fresh, expire_walk demo_log 1015 40 (demo_compute SUM 0) (lit "m") demo_row s [] 0 = Some (bs1, s', e', 2) /\
    e' = [lit "m 3.500000 970" ++ [10]] /\
    rotate (length bs1) 10 bs1 = Some (drop 2 demo_row ++ fresh) /\ row_ok 10 3 980 (drop 2 demo_row ++ fresh).
Proof.
  intros s Hq. split; [vm_compute; reflexivity|].
  destruct (write_all demo_log (demo_compute SUM 0) (lit "m") (take 2 demo_row) s []) as [[s' e']|] eqn:Ew; [|vm_compute in Ew; discriminate].
  destruct (expire_emits_once demo_log 10 1015 40 960 0 3 (demo_compute SUM 0) (lit "m") demo_row s s' [] e' demo_row_ok
    (Nat.lt_succ_diag_r 2) Ew) as (bs1 & fresh & Hwalk & Hrot & _ & _ & Hrow).
  exists s', e', bs1, fresh. split; [exact Hwalk|]. split; [|split; [exact Hrot|exact Hrow]].
  apply (f_equal (fmap snd)) in Ew. vm_compute in Ew. by injection Ew as <-.
Defined.

(** C30: For every compute but medians and percentiles (which come out wrong, [percentile_errors]), the value sent for a bucket that
    has values, none of them not a number, is the aggregate of the values put in it: their sum and mean as added in order of arrival,
    their number, one of them that is at least (at most) every other, the variance and deviation from the mean. *)
Theorem bucket_value_aggregates `{Qsort double} (c : compute) (b : bucket) (v : double) (vs : list double) :
  bucket_rep (c_entries_needed c) b (v :: vs) -> Forall (fun x => is_nan x = false) (v :: vs) ->
  match c_type c with
  | SUM => bucket_value c b = Some (show_f (foldl dadd v vs))
  | CNT => bucket_value c b = Some (show_nonneg (Z.of_nat (length (v :: vs))))
  | MAX => exists x, x ∈ v :: vs /\ Forall (fun y => dge x y) (v :: vs) /\ bucket_value c b = Some (show_f x)
  | MIN => exists x, x ∈ v :: vs /\ Forall (fun y => dge y x) (v :: vs) /\ bucket_value c b = Some (show_f x)
  | AVG => bucket_value c b = Some (show_f (ddiv (foldl dadd v vs) (double_of_Z (Z.of_nat (length (v :: vs))))))
  | MEDN | PCTL => True
  | VAR | SDEV => c_entries_needed c = true ->
      let n := double_of_Z (Z.of_nat (length (v :: vs))) in
      let avg := ddiv (foldl dadd v vs) n in
      let var := ddiv (foldl (fun a y => dadd a (dsquare (dsub y avg))) (SpecFloat.S754_zero false) (v :: vs)) n in
      bucket_value c b = Some (show_f (if decide (c_type c = VAR) then var else dsqrt var))
  end.
Proof. apply bucket_value_spec. Qed.

Lemma bucket_value_aggregates_witness :
  let b := demo_bucket true 960 [atof (lit "1"); atof (lit "7.25"); atof (lit "3")] in
  let _ := @isort_qsort double in
  bucket_value (demo_compute MAX 0) b = Some (lit "7.250000") /\
  exists x, x ∈ [atof (lit "1"); atof (lit "7.25"); atof (lit "3")] /\
    Forall (fun y => dge x y) [atof (lit "1"); atof (lit "7.25"); atof (lit "3")] /\ bucket_value (demo_compute MAX 0) b = Some (show_f x).
Proof.
  intros b Hq. split; [vm_compute; reflexivity|].
  refine (bucket_value_aggregates (demo_compute MAX 0) b (atof (lit "1")) [atof (lit "7.25"); atof (lit "3")] _ _).
  - apply demo_bucket_rep.
  - repeat constructor.
Defined.

(** Percentiles can go wrong twice.  For every percentile from 1 to 99 and up to
    60 values, the rank never exceeds the number of values, but it is 0, so that
    the element before the array is read, exactly when percentile times number is
    less than 10; and as the comparator truncates differences to integers, values
    closer than 1 are not sorted, so that the median of 0.9, 0.1 and 0.5 is 0.1. *)
Theorem percentile_errors :
  (forall p n, (1 <= p <= 99)%nat -> (1 <= n <= 60)%nat ->
     rank (Z.of_nat p) n <= Z.of_nat n /\ (rank (Z.of_nat p) n < 1 <-> (p * n < 10)%nat)) /\
  (let _ := @isort_qsort double in
   bucket_value (demo_compute PCTL 5) (demo_bucket true 960 [atof (lit "1")]) = None /\
   bucket_value (demo_compute MEDN 50) (demo_bucket true 960 [atof (lit "0.9"); atof (lit "0.1"); atof (lit "0.5")]) = Some (lit "0.100000")).
Proof.
  split.
  - assert (Forall (fun p => Forall (fun n => rank (Z.of_nat p) n <= Z.of_nat n /\ (rank (Z.of_nat p) n < 1 <-> (p * n < 10)%nat)) (seq 1 60)) (seq 1 99)) as Hall.
    { assert (forallb (fun p => forallb (fun n => let r := rank (Z.of_nat p) n in (r <=? Z.of_nat n) && Bool.eqb (r <? 1) (p * n <? 10)%nat)
        (seq 1 60)) (seq 1 99) = true) as Hb by (vm_compute; reflexivity).
      rewrite forallb_forall in Hb. apply Forall_forall. intros p Hp. apply list_elem_of_In, Hb in Hp. rewrite forallb_forall in Hp.
      apply Forall_forall. intros n Hn. apply list_elem_of_In, Hp in Hn. cbv zeta in Hn. apply andb_true_iff in Hn as [H1 H2%eqb_prop].
      split; [by apply Z.leb_le|]. rewrite <- Z.ltb_lt, H2. apply Nat.ltb_lt. }
    intros p n Hp Hn. rewrite Forall_forall in Hall. specialize (Hall p ltac:(apply elem_of_seq; lia)).
    rewrite Forall_forall in Hall. apply Hall, elem_of_seq. lia.
  - vm_compute. done.
Qed.

(** The number of buckets is kept in an [unsigned char]: with an interval of 1 s
    and an expiry of 300 s there are 46 buckets instead of 302, and a metric with
    the current time is dropped as too far in the future; with an expiry of 254 s
    there is none, and putting a metric reads outside the array. *)
Theorem bucketcnt_wraps :
  (a_bucketcnt <$> aggregator_new 1 300 TS_START = Some 46) /\ (a_bucketcnt <$> aggregator_new 1 254 TS_START = Some 0) /\
  (let put expire :=
     s ← aggregator_new 1 expire TS_START;
     s ← aggregator_putmetric true (aggregator_add_compute s (lit "sum") SUM 0) (fun _ => mkPut true true 1000 0) (lit "x 1 1000" ++ [10]) 1 0 [];
     Some (a_received s, a_dropped s) in
   put 200 = Some (1, 0) /\ put 300 = Some (1, 1) /\ put 254 = None).
Proof. vm_compute. done. Qed.
