(* ===== verification/Grammar.v ===== *)
(** * The grammar of the configuration (src/conffile.y)

    The productions of the file, the tables a predictive parser needs for them, and
    the values that the actions give to the nonterminals: a text becomes the list of
    its commands, which [ConfActions] performs.  Bison makes an LALR parser of the
    grammar (src/conffile.tab.c), which accepts the same language; that it is not
    ambiguous is shown with [Predictive]. *)
From stdpp Require Import strings.
From S2P Require Import Prelude Relay RouterConfig ConfActions Aggregator Lexer Predictive.
#[local] Open Scope Z_scope.
#[local] Open Scope string_scope.

(** The name of a token in the grammar. *)
Definition tname (t : ytoken) : string :=
  match t with
  | crCLUSTER => "crCLUSTER" | crFORWARD => "crFORWARD" | crANY_OF => "crANY_OF" | crFAILOVER => "crFAILOVER" | crLB => "crLB"
  | crUSEALL => "crUSEALL" | crCARBON_CH => "crCARBON_CH" | crFNV1A_CH => "crFNV1A_CH" | crJUMP_FNV1A_CH => "crJUMP_FNV1A_CH"
  | crREPLICATION => "crREPLICATION" | crDYNAMIC => "crDYNAMIC" | crFILE => "crFILE" | crIP => "crIP" | crPROTO => "crPROTO"
  | crUDP => "crUDP" | crTCP => "crTCP" | crUNIX => "crUNIX" | crTYPE => "crTYPE" | crLINEMODE => "crLINEMODE"
  | crSYSLOGMODE => "crSYSLOGMODE" | crTRANSPORT => "crTRANSPORT" | crPLAIN => "crPLAIN" | crGZIP => "crGZIP" | crLZ4 => "crLZ4"
  | crSNAPPY => "crSNAPPY" | crSSL => "crSSL" | crCONNECTIONS => "crCONNECTIONS" | crTHRESHOLD_START => "crTHRESHOLD_START"
  | crTHRESHOLD_END => "crTHRESHOLD_END" | crTTL => "crTTL" | crMATCH => "crMATCH" | crVALIDATE => "crVALIDATE" | crELSE => "crELSE"
  | crLOG => "crLOG" | crDROP => "crDROP" | crROUTE => "crROUTE" | crUSING => "crUSING" | crSEND => "crSEND" | crTO => "crTO"
  | crBLACKHOLE => "crBLACKHOLE" | crSTOP => "crSTOP" | crREWRITE => "crREWRITE" | crINTO => "crINTO" | crAGGREGATE => "crAGGREGATE"
  | crEVERY => "crEVERY" | crSECONDS => "crSECONDS" | crEXPIRE => "crEXPIRE" | crAFTER => "crAFTER" | crTIMESTAMP => "crTIMESTAMP"
  | crAT => "crAT" | crSTART => "crSTART" | crMIDDLE => "crMIDDLE" | crEND => "crEND" | crOF => "crOF" | crBUCKET => "crBUCKET"
  | crCOMPUTE => "crCOMPUTE" | crSUM => "crSUM" | crCOUNT => "crCOUNT" | crMAX => "crMAX" | crMIN => "crMIN" | crAVERAGE => "crAVERAGE"
  | crMEDIAN => "crMEDIAN" | crPERCENTILE _ => "crPERCENTILE" | crVARIANCE => "crVARIANCE" | crSTDDEV => "crSTDDEV" | crWRITE => "crWRITE"
  | crSTATISTICS => "crSTATISTICS" | crSUBMIT => "crSUBMIT" | crRESET => "crRESET" | crCOUNTERS => "crCOUNTERS"
  | crINTERVAL => "crINTERVAL" | crPREFIX => "crPREFIX" | crWITH => "crWITH" | crLISTEN => "crLISTEN" | crINCLUDE => "crINCLUDE"
  | crINTVAL _ => "crINTVAL" | crSTRING _ => "crSTRING" | crUNEXPECTED _ => "crUNEXPECTED"
  | Sym c => if (c =? ch ";")%Z then "';'" else if (c =? ch "*")%Z then "'*'" else if (c =? ch "=")%Z then "'='" else "?"
  end.

(** The productions, in the order of the file. *)
Definition config_grammar : grammar := [
  ("stmts", [[N "opt_stmt"]]);
  ("opt_stmt", [[]; [N "stmt"; N "opt_stmt"]]);
  ("stmt", [[N "command"; T "';'"]]);
  ("command", [[N "cluster"]; [N "match"]; [N "rewrite"]; [N "aggregate"]; [N "send"]; [N "statistics"]; [N "listen"]; [N "include"]]);

  ("cluster", [
    [T "crCLUSTER"; T "crSTRING"; N "cluster_type"; N "connections"; N "ttl"; N "threshold_start"; N "threshold_end"; N "cluster_hosts"];
    [T "crCLUSTER"; T "crSTRING"; N "cluster_file"; N "connections"; N "ttl"; N "threshold_start"; N "threshold_end"; N "cluster_paths"]]);
  ("cluster_type", [[N "cluster_useall"; N "cluster_opt_useall"]; [N "cluster_ch"; N "cluster_opt_repl"; N "cluster_opt_dynamic"]]);
  ("cluster_useall", [[T "crFORWARD"]; [T "crANY_OF"]; [T "crFAILOVER"]; [T "crLB"]]);
  ("cluster_opt_useall", [[]; [T "crUSEALL"]]);
  ("cluster_ch", [[T "crCARBON_CH"]; [T "crFNV1A_CH"]; [T "crJUMP_FNV1A_CH"]]);
  ("cluster_opt_repl", [[]; [T "crREPLICATION"; T "crINTVAL"]]);
  ("cluster_opt_dynamic", [[]; [T "crDYNAMIC"]]);
  ("connections", [[]; [T "crCONNECTIONS"; T "crINTVAL"]]);
  ("threshold_start", [[]; [T "crTHRESHOLD_START"; T "crINTVAL"]]);
  ("threshold_end", [[]; [T "crTHRESHOLD_END"; T "crINTVAL"]]);
  ("ttl", [[]; [T "crTTL"; T "crINTVAL"]]);
  ("cluster_file", [[T "crFILE"; T "crIP"]; [T "crFILE"]]);
  ("cluster_paths", [[N "cluster_path"; N "cluster_opt_path"]]);
  ("cluster_opt_path", [[]; [N "cluster_path"]]);
  ("cluster_path", [[T "crSTRING"]]);
  ("cluster_hosts", [[N "cluster_host"; N "cluster_opt_host"]]);
  ("cluster_opt_host", [[]; [N "cluster_hosts"]]);
  ("cluster_host", [[T "crSTRING"; N "cluster_opt_instance"; N "cluster_opt_proto"; N "cluster_opt_type"; N "cluster_opt_transport"]]);
  ("cluster_opt_instance", [[]; [T "'='"; T "crSTRING"]; [T "'='"; T "crINTVAL"]]);
  ("cluster_opt_proto", [[]; [T "crPROTO"; T "crUDP"]; [T "crPROTO"; T "crTCP"]]);
  ("cluster_opt_type", [[]; [T "crTYPE"; T "crLINEMODE"]; [T "crTYPE"; T "crSYSLOGMODE"]]);
  ("cluster_opt_transport", [[]; [N "cluster_transport_trans"; N "cluster_transport_opt_ssl"]]);
  ("cluster_transport_trans", [[T "crTRANSPORT"; T "crPLAIN"]; [T "crTRANSPORT"; T "crGZIP"]; [T "crTRANSPORT"; T "crLZ4"]; [T "crTRANSPORT"; T "crSNAPPY"]]);
  ("cluster_transport_opt_ssl", [[]; [T "crSSL"]]);

  ("match", [[T "crMATCH"; N "match_exprs"; N "match_opt_validate"; N "match_opt_route"; N "match_opt_send_to"; N "match_opt_stop"]]);
  ("match_exprs", [[T "'*'"]; [N "match_exprs2"]]);
  ("match_exprs2", [[N "match_expr"; N "match_opt_expr"]]);
  ("match_opt_expr", [[]; [N "match_exprs2"]]);
  ("match_expr", [[T "crSTRING"]]);
  ("match_opt_validate", [[]; [T "crVALIDATE"; T "crSTRING"; T "crELSE"; N "match_log_or_drop"]]);
  ("match_log_or_drop", [[T "crLOG"]; [T "crDROP"]]);
  ("match_opt_route", [[]; [T "crROUTE"; T "crUSING"; T "crSTRING"]]);
  ("match_opt_send_to", [[]; [N "match_send_to"]]);
  ("match_send_to", [[T "crSEND"; T "crTO"; N "match_dsts"]]);
  ("match_dsts", [[T "crBLACKHOLE"]; [N "match_dsts2"]]);
  ("match_dsts2", [[N "match_dst"; N "match_opt_dst"]]);
  ("match_opt_dst", [[]; [N "match_dsts2"]]);
  ("match_dst", [[T "crSTRING"]]);
  ("match_opt_stop", [[]; [T "crSTOP"]]);

  ("rewrite", [[T "crREWRITE"; T "crSTRING"; T "crINTO"; T "crSTRING"]]);

  ("aggregate", [[T "crAGGREGATE"; N "match_exprs2"; T "crEVERY"; T "crINTVAL"; T "crSECONDS"; T "crEXPIRE"; T "crAFTER"; T "crINTVAL"; T "crSECONDS";
    N "aggregate_opt_timestamp"; N "aggregate_computes"; N "aggregate_opt_send_to"; N "match_opt_stop"]]);
  ("aggregate_opt_timestamp", [[]; [T "crTIMESTAMP"; T "crAT"; N "aggregate_ts_when"; T "crOF"; T "crBUCKET"]]);
  ("aggregate_ts_when", [[T "crSTART"]; [T "crMIDDLE"]; [T "crEND"]]);
  ("aggregate_computes", [[N "aggregate_compute"; N "aggregate_opt_compute"]]);
  ("aggregate_opt_compute", [[]; [N "aggregate_computes"]]);
  ("aggregate_compute", [[T "crCOMPUTE"; N "aggregate_comp_type"; T "crWRITE"; T "crTO"; T "crSTRING"]]);
  ("aggregate_comp_type", [[T "crSUM"]; [T "crCOUNT"]; [T "crMAX"]; [T "crMIN"]; [T "crAVERAGE"]; [T "crMEDIAN"]; [T "crPERCENTILE"];
    [T "crVARIANCE"]; [T "crSTDDEV"]]);
  ("aggregate_opt_send_to", [[]; [N "match_send_to"]]);

  ("send", [[T "crSEND"; T "crSTATISTICS"; T "crTO"; N "match_dsts"; N "match_opt_stop"]]);

  ("statistics", [[T "crSTATISTICS"; N "statistics_opt_interval"; N "statistics_opt_counters"; N "statistics_opt_prefix"; N "aggregate_opt_send_to";
    N "match_opt_stop"]]);
  ("statistics_opt_interval", [[]; [T "crSUBMIT"; T "crEVERY"; T "crINTVAL"; T "crSECONDS"]]);
  ("statistics_opt_counters", [[]; [T "crRESET"; T "crCOUNTERS"; T "crAFTER"; T "crINTERVAL"]]);
  ("statistics_opt_prefix", [[]; [T "crPREFIX"; T "crWITH"; T "crSTRING"]]);

  ("listen", [[T "crLISTEN"; N "listener"]]);
  ("listener", [[T "crTYPE"; T "crLINEMODE"; N "transport_mode"; N "receptors"]]);
  ("transport_opt_ssl", [[]; [T "crSSL"; T "crSTRING"]]);
  ("transport_mode_trans", [[T "crTRANSPORT"; T "crPLAIN"]; [T "crTRANSPORT"; T "crGZIP"]; [T "crTRANSPORT"; T "crLZ4"]; [T "crTRANSPORT"; T "crSNAPPY"]]);
  ("transport_mode", [[]; [N "transport_mode_trans"; N "transport_opt_ssl"]]);
  ("receptors", [[N "receptor"; N "opt_receptor"]]);
  ("opt_receptor", [[]; [N "receptors"]]);
  ("receptor", [[T "crSTRING"; T "crPROTO"; N "rcptr_proto"]; [T "crSTRING"; T "crPROTO"; T "crUNIX"]]);
  ("rcptr_proto", [[T "crTCP"]; [T "crUDP"]]);

  ("include", [[T "crINCLUDE"; T "crSTRING"]]) ].

(** The tables, and how far the productions of a nonterminal go together. *)
Definition config_table_lists := Eval vm_compute in compute_tables config_grammar "stmts" 12.
Definition config_depths : list (string * nat) :=
  [("cluster", 2); ("cluster_file", 1); ("cluster_opt_instance", 1); ("cluster_opt_proto", 1); ("cluster_opt_type", 1);
   ("cluster_transport_trans", 1); ("transport_mode_trans", 1); ("receptor", 2)]%nat.
Definition config_tables : tables :=
  let '(n, f, fo, r) := config_table_lists in mkTb (entry false n) (entry [] f) (entry [] fo) (entry O r) (entry O config_depths).

Lemma config_predictive : predictive config_grammar config_tables "stmts" = true.
Proof. vm_compute. reflexivity. Qed.

(** ** The values of the nonterminals *)

Abbreviation ptree := (tree (tok := ytoken)).

Inductive command :=
  | K_cluster (name : cstring) (type : Clusttype.clusttype) (useall dyn : bool) (repl connections ttl ts te : Z) (hosts : list host_spec)
  | K_files (name : cstring) (ip : bool) (connections ttl ts te : Z) (paths : list cstring)
  | K_match (exprs : list cstring) (val : option (cstring * bool)) (masq : option cstring) (dsts : list cstring) (stop : bool)
  | K_rewrite (expr replacement : cstring)
  | K_aggregate (exprs : list cstring) (intv expire : Z) (tswhen : aggr_timestamp) (computes : list (compute_type * Z * cstring))
      (dsts : list cstring) (stop : bool)
  | K_send (dsts : list cstring) (stop : bool)
  | K_statistics (intv : option Z) (mode : col_mode) (prefix : option cstring) (dsts : list cstring) (stop : bool)
  | K_listen (trnsp : Z) (pem : option cstring) (rss : list receptor_spec)
  | K_include (path : cstring).

Definition str_of (t : ptree) : option cstring := match t with Leaf (crSTRING s) => Some s | _ => None end.
Definition int_of (t : ptree) : option Z := match t with Leaf (crINTVAL n) => Some n | _ => None end.

(** A list is an element and an optional rest, as [cluster_hosts] or [match_dsts2]. *)
Fixpoint list_of {A} (f : ptree -> option A) (t : ptree) : option (list A) :=
  match t with
  | Node _ _ [x; Node _ O []] => a ← f x; Some [a]
  | Node _ _ [x; Node _ (S _) [t']] => a ← f x; l ← list_of f t'; Some (a :: l)
  | _ => None
  end.
(** A nonterminal that is just its one string, and an optional number. *)
Definition name_of (t : ptree) : option cstring := match t with Node _ _ [s] => str_of s | _ => None end.
Definition opt_int (d : Z) (t : ptree) : option Z := match t with Node _ O [] => Some d | Node _ _ [_; n] => int_of n | _ => None end.
(** The optional word: the production that has it is the second. *)
Definition opt_word (t : ptree) : bool := match t with Node _ O _ => false | _ => true end.

Definition instance_of (t : ptree) : option (option cstring) :=
  match t with
  | Node _ O [] => Some None
  | Node _ 1%nat [_; s] => s ← str_of s; Some (Some s)
  | Node _ _ [_; n] => n ← int_of n; Some (Some (snprintf_trunc 12 (show_Z n)))
  | _ => None
  end.
Definition transport_trans_of (t : ptree) : option Z :=
  match t with Node _ i _ => match i with 0 => Some W_PLAIN | 1 => Some W_GZIP | 2 => Some W_LZ4 | 3 => Some W_SNAPPY | _ => None end%nat | _ => None end.
Definition transport_of (t : ptree) : option Z :=
  match t with
  | Node _ O [] => Some W_PLAIN
  | Node _ _ [trns; ssl] => t ← transport_trans_of trns; Some (if opt_word ssl then Z.lor t W_SSL else t)
  | _ => None
  end.
Definition host_of (t : ptree) : option host_spec :=
  match t with
  | Node _ _ [ip; inst; Node _ prot _; Node _ type _; trnsp] =>
      ip ← str_of ip; inst ← instance_of inst; trnsp ← transport_of trnsp;
      Some (mkHs ip inst (if decide (prot = 1%nat) then CON_UDP else CON_TCP) (if decide (type = 2%nat) then T_SYSLOGMODE else T_LINEMODE) trnsp)
  | _ => None
  end.
Definition paths_of (t : ptree) : option (list cstring) :=
  match t with
  | Node _ _ [p; Node _ O []] => p ← name_of p; Some [p]
  | Node _ _ [p; Node _ _ [q]] => p ← name_of p; q ← name_of q; Some [p; q]
  | _ => None
  end.

(** The type of a cluster, with [useall], the number of copies and [dynamic]. *)
Definition cluster_type_of (t : ptree) : option (Clusttype.clusttype * bool * Z * bool) :=
  match t with
  | Node _ O [Node _ i _; use] =>
      Some (match i with 0 => Clusttype.FORWARD | 1 => Clusttype.ANYOF | 2 => Clusttype.FAILOVER | _ => Clusttype.LB end%nat, opt_word use, 1, false)
  | Node _ _ [Node _ i _; repl; dyn] =>
      repl ← opt_int 1 repl;
      Some (match i with 0 => Clusttype.CARBON_CH | 1 => Clusttype.FNV1A_CH | _ => Clusttype.JUMP_CH end%nat, false, repl, opt_word dyn)
  | _ => None
  end.
Definition cluster_of (t : ptree) : option command :=
  match t with
  | Node _ i [_; name; type; conns; ttl; ts; te; members] =>
      name ← str_of name; conns ← opt_int 1 conns; ttl ← opt_int 0 ttl; ts ← opt_int 0 ts; te ← opt_int 0 te;
      match i with
      | O =>
          '(type, useall, repl, dyn) ← cluster_type_of type; hosts ← list_of host_of members;
          Some (K_cluster name type useall dyn repl conns ttl ts te hosts)
      | _ =>
          paths ← paths_of members;
          Some (K_files name (match type with Node _ O _ => true | _ => false end) conns ttl ts te paths)
      end
  | _ => None
  end.

Definition dsts_of (t : ptree) : option (list cstring) :=
  match t with Node _ O _ => Some [lit "blackhole"] | Node _ _ [l] => list_of name_of l | _ => None end.
Definition send_to_of (t : ptree) : option (list cstring) := match t with Node _ _ [_; _; d] => dsts_of d | _ => None end.
Definition opt_send_to_of (t : ptree) : option (list cstring) :=
  match t with Node _ O [] => Some [] | Node _ _ [s] => send_to_of s | _ => None end.
Definition exprs_of (t : ptree) : option (list cstring) :=
  match t with Node _ O _ => Some [lit "*"] | Node _ _ [l] => list_of name_of l | _ => None end.
Definition validate_of (t : ptree) : option (option (cstring * bool)) :=
  match t with
  | Node _ O [] => Some None
  | Node _ _ [_; e; _; drop] => e ← str_of e; Some (Some (e, opt_word drop))
  | _ => None
  end.
Definition route_of (t : ptree) : option (option cstring) :=
  match t with Node _ O [] => Some None | Node _ _ [_; _; s] => s ← str_of s; Some (Some s) | _ => None end.
Definition match_of (t : ptree) : option command :=
  match t with
  | Node _ _ [_; exprs; val; masq; dsts; stop] =>
      exprs ← exprs_of exprs; val ← validate_of val; masq ← route_of masq; dsts ← opt_send_to_of dsts;
      Some (K_match exprs val masq dsts (opt_word stop))
  | _ => None
  end.
Definition rewrite_of (t : ptree) : option command :=
  match t with Node _ _ [_; e; _; r] => e ← str_of e; r ← str_of r; Some (K_rewrite e r) | _ => None end.

Definition timestamp_of (t : ptree) : option aggr_timestamp :=
  match t with
  | Node _ O [] => Some TS_END
  | Node _ _ [_; _; Node _ i _; _; _] => Some (match i with 0 => TS_START | 1 => TS_MIDDLE | _ => TS_END end%nat)
  | _ => None
  end.
Definition comp_type_of (t : ptree) : option (compute_type * Z) :=
  match t with
  | Node _ i [x] =>
      match i, x with
      | 0, _ => Some (SUM, 0%Z) | 1, _ => Some (CNT, 0%Z) | 2, _ => Some (MAX, 0%Z) | 3, _ => Some (MIN, 0%Z) | 4, _ => Some (AVG, 0%Z)
      | 5, _ => Some (MEDN, 0%Z) | 6, Leaf (crPERCENTILE n) => Some (PCTL, n) | 7, _ => Some (VAR, 0%Z) | 8, _ => Some (SDEV, 0%Z)
      | _, _ => None
      end%nat
  | _ => None
  end.
Definition compute_of (t : ptree) : option (compute_type * Z * cstring) :=
  match t with Node _ _ [_; type; _; _; metric] => '(c, p) ← comp_type_of type; m ← str_of metric; Some (c, p, m) | _ => None end.
Definition aggregate_of (t : ptree) : option command :=
  match t with
  | Node _ _ [_; exprs; _; intv; _; _; _; expire; _; tswhen; computes; dsts; stop] =>
      exprs ← list_of name_of exprs; intv ← int_of intv; expire ← int_of expire; tswhen ← timestamp_of tswhen;
      computes ← list_of compute_of computes; dsts ← opt_send_to_of dsts;
      Some (K_aggregate exprs intv expire tswhen computes dsts (opt_word stop))
  | _ => None
  end.
Definition send_of (t : ptree) : option command :=
  match t with Node _ _ [_; _; _; d; stop] => d ← dsts_of d; Some (K_send d (opt_word stop)) | _ => None end.
Definition statistics_of (t : ptree) : option command :=
  match t with
  | Node _ _ [_; intv; counters; prefix; dsts; stop] =>
      intv ← match intv with Node _ O [] => Some None | Node _ _ [_; _; n; _] => n ← int_of n; Some (Some n) | _ => None end;
      prefix ← route_of prefix; dsts ← opt_send_to_of dsts;
      Some (K_statistics intv (if opt_word counters then SUB else CUM) prefix dsts (opt_word stop))
  | _ => None
  end.

Definition receptor_of (t : ptree) : option receptor_spec :=
  match t with
  | Node _ O [ip; _; Node _ i _] => ip ← str_of ip; Some (mkRs ip (match i with O => CON_TCP | _ => CON_UDP end))
  | Node _ _ [path; _; _] => path ← str_of path; Some (mkRs path CON_UNIX)
  | _ => None
  end.
(** [transport_mode]: the transport, and the certificate with SSL. *)
Definition mode_of (t : ptree) : option (Z * option cstring) :=
  match t with
  | Node _ O [] => Some (W_PLAIN, None)
  | Node _ _ [trns; Node _ O []] => t ← transport_trans_of trns; Some (t, None)
  | Node _ _ [trns; Node _ _ [_; pem]] => t ← transport_trans_of trns; pem ← str_of pem; Some (Z.lor W_SSL t, Some pem)
  | _ => None
  end.
Definition listen_of (t : ptree) : option command :=
  match t with
  | Node _ _ [_; Node _ _ [_; _; mode; rcs]] => '(trnsp, pem) ← mode_of mode; rcs ← list_of receptor_of rcs; Some (K_listen trnsp pem rcs)
  | _ => None
  end.
Definition include_of (t : ptree) : option command := match t with Node _ _ [_; path] => path ← str_of path; Some (K_include path) | _ => None end.

Definition command_of (t : ptree) : option command :=
  match t with
  | Node _ i [c] =>
      match i with
      | 0 => cluster_of c | 1 => match_of c | 2 => rewrite_of c | 3 => aggregate_of c | 4 => send_of c | 5 => statistics_of c | 6 => listen_of c
      | _ => include_of c
      end%nat
  | _ => None
  end.
Fixpoint opt_stmt_of (t : ptree) : option (list command) :=
  match t with
  | Node _ O [] => Some []
  | Node _ _ [Node _ _ [c; _]; t'] => c ← command_of c; l ← opt_stmt_of t'; Some (c :: l)
  | _ => None
  end.
Definition stmts_of (t : ptree) : option (list command) := match t with Node _ _ [o] => opt_stmt_of o | _ => None end.

(** ** Reading a configuration: the scanner, the parser and the values *)

Definition parse_config (ts : list ytoken) : option (list command) :=
  t ← parse_text tname config_grammar config_tables "stmts" ts; stmts_of t.
Definition read_text (text : cstring) : option (list command) :=
  '(ts, e) ← lex_text text; match e with None => parse_config ts | Some _ => None end.

(** ** Every tree has a value *)

Abbreviation derived := (derives tname config_grammar).
Abbreviation derived_seq := (derives_seq tname config_grammar).

Lemma derived_T k w t : derived (T k) w t -> exists x, t = Leaf x /\ tname x = k.
Proof. inversion 1; subst. eauto. Qed.
Lemma derived_N n w t : derived (N n) w t -> exists i ts rhs w', t = Node n i ts /\ productions config_grammar n !! i = Some rhs /\ derived_seq rhs w' ts.
Proof. inversion 1; subst. eauto 10. Qed.
Lemma derived_nil w ts : derived_seq [] w ts -> ts = [].
Proof. by inversion 1. Qed.
Lemma derived_cons s rhs w ts : derived_seq (s :: rhs) w ts -> exists w1 w2 t ts', ts = t :: ts' /\ derived s w1 t /\ derived_seq rhs w2 ts'.
Proof. inversion 1; subst. eauto 10. Qed.

Lemma tname_string x : tname x = "crSTRING" -> exists s, x = crSTRING s.
Proof. destruct x; try discriminate; [eauto|]. cbn. repeat case_match; discriminate. Qed.
Lemma tname_int x : tname x = "crINTVAL" -> exists n, x = crINTVAL n.
Proof. destruct x; try discriminate; [eauto|]. cbn. repeat case_match; discriminate. Qed.
Lemma tname_percentile x : tname x = "crPERCENTILE" -> exists n, x = crPERCENTILE n.
Proof. destruct x; try discriminate; [eauto|]. cbn. repeat case_match; discriminate. Qed.

(** The shape of a tree: one case for each production, down to the nonterminals [stop]. *)
Ltac shape_seq :=
  repeat match goal with
  | H : derived_seq (_ :: _) _ _ |- _ => apply derived_cons in H as (? & ? & ? & ? & -> & ? & H)
  | H : derived_seq [] _ _ |- _ => apply derived_nil in H as ->
  | H : derived (T _) _ _ |- _ => apply derived_T in H as (? & -> & H)
  | H : tname _ = "crSTRING" |- _ => apply tname_string in H as [? ->]
  | H : tname _ = "crINTVAL" |- _ => apply tname_int in H as [? ->]
  | H : tname _ = "crPERCENTILE" |- _ => apply tname_percentile in H as [? ->]
  end.
Ltac shape H :=
  let i := fresh "i" in let ts := fresh "ts" in let rhs := fresh "rhs" in let E := fresh "E" in
  apply derived_N in H as (i & ts & rhs & ? & -> & E & H);
  match type of E with ?l !! _ = _ => let l' := eval vm_compute in l in change (l' !! i = Some rhs) in E end;
  repeat (destruct i as [|i]; [cbn in E; injection E as <-; shape_seq|]); try (cbn in E; discriminate E).

Lemma opt_int_total n k d w t :
  productions config_grammar n = [[]; [T k; T "crINTVAL"]] -> derived (N n) w t -> is_Some (opt_int d t).
Proof.
  intros Hn H. apply derived_N in H as (i & ts & rhs & ? & -> & E & H). rewrite Hn in E.
  destruct i as [|[|i]]; cbn in E; simplify_eq; shape_seq; cbn; eauto.
Qed.
Lemma list_of_total {A} (f : ptree -> option A) n e o :
  productions config_grammar n = [[N e; N o]] -> productions config_grammar o = [[]; [N n]] ->
  (forall w t, derived (N e) w t -> is_Some (f t)) -> forall w t, derived (N n) w t -> is_Some (list_of f t).
Proof.
  intros Hn Ho He.
  assert (forall t, (forall w, derived (N n) w t -> is_Some (list_of f t)) /\
    (forall w, derived (N o) w t -> t = Node o 0 [] \/ exists t', t = Node o 1 [t'] /\ is_Some (list_of f t'))) as H; [|intros w t; apply H].
  intros t. induction t as [x|m i ts IH] using tree_all_ind; [split; intros w H; by apply derived_N in H as (? & ? & ? & ? & ? & _)|].
  split; intros w H; apply derived_N in H as (j & ts' & rhs & w' & [= -> -> ->] & E & H).
  - rewrite Hn in E. destruct j as [|j]; cbn in E; simplify_eq; shape_seq.
    match goal with H1 : derived (N e) _ _, H2 : derived (N o) _ _ |- _ => destruct (He _ _ H1) as [a Ha]; rename H2 into Hd end.
    apply Forall_cons in IH as [_ IH]. apply Forall_cons in IH as [[_ IH] _]. destruct (IH _ Hd) as [->|(t' & -> & [l Hl])]; cbn; rewrite Ha; run_binds; [eauto|].
    rewrite Hl. run_binds. eauto.
  - rewrite Ho in E. destruct j as [|[|j]]; cbn in E; simplify_eq; shape_seq; [by left|]. right. eexists. split; [reflexivity|].
    apply Forall_cons in IH as [[IH _] _]. by eapply IH.
Qed.

Lemma name_of_total n w t : productions config_grammar n = [[T "crSTRING"]] -> derived (N n) w t -> is_Some (name_of t).
Proof. intros Hn H. apply derived_N in H as (i & ts & rhs & ? & -> & E & H). rewrite Hn in E. destruct i as [|i]; cbn in E; simplify_eq; shape_seq; cbn; eauto. Qed.

(** The rest by cases; the parts that have a value of their own first. *)
Ltac value lem := match goal with H : derived (N _) _ _ |- _ => first [apply lem in H|eapply lem in H; [|reflexivity..]]; destruct H as [? ?] end.
Ltac valued := repeat match goal with H : _ = Some _ |- _ => rewrite H; clear H; run_binds end;
  repeat match goal with x : _ * _ |- _ => destruct x end; run_binds; repeat match goal with H : _ = Some _ |- _ => rewrite H; clear H; run_binds end; cbn; eauto.

Lemma names_total n e o w t :
  productions config_grammar n = [[N e; N o]] -> productions config_grammar o = [[]; [N n]] -> productions config_grammar e = [[T "crSTRING"]] ->
  derived (N n) w t -> is_Some (list_of name_of t).
Proof. intros Hn Ho He. apply (list_of_total name_of n e o Hn Ho). intros w' t'. by apply name_of_total. Qed.
Lemma trans_total n w t :
  productions config_grammar n = [[T "crTRANSPORT"; T "crPLAIN"]; [T "crTRANSPORT"; T "crGZIP"]; [T "crTRANSPORT"; T "crLZ4"]; [T "crTRANSPORT"; T "crSNAPPY"]] ->
  derived (N n) w t -> is_Some (transport_trans_of t).
Proof. intros Hn H. apply derived_N in H as (i & ts & rhs & ? & -> & E & H). rewrite Hn in E. destruct i as [|[|[|[|i]]]]; cbn in E; simplify_eq; cbn; eauto. Qed.
Lemma host_total w t : derived (N "cluster_host") w t -> is_Some (host_of t).
Proof.
  intros H. shape H.
  match goal with H : derived (N "cluster_opt_instance") _ _ |- _ => shape H end;
  match goal with H : derived (N "cluster_opt_proto") _ _ |- _ => apply derived_N in H as (? & ? & ? & ? & -> & _) end;
  match goal with H : derived (N "cluster_opt_type") _ _ |- _ => apply derived_N in H as (? & ? & ? & ? & -> & _) end;
  match goal with H : derived (N "cluster_opt_transport") _ _ |- _ => shape H end; cbn; run_binds; eauto;
  match goal with H : derived (N "cluster_transport_trans") _ _ |- _ => destruct (trans_total "cluster_transport_trans" _ _ eq_refl H) as [? ->] end; run_binds; eauto.
Qed.

(** Totality of a part, found by its nonterminal. *)
Ltac part lem := match goal with H : derived (N _) _ _ |- _ => let H' := fresh in pose proof (lem _ _ H) as H'; clear H; destruct H' as [? ?] end.

Lemma int_total n k d : productions config_grammar n = [[]; [T k; T "crINTVAL"]] -> forall w t, derived (N n) w t -> is_Some (opt_int d t).
Proof. intros Hn w t. by apply (opt_int_total n k). Qed.
Lemma cluster_type_total w t : derived (N "cluster_type") w t -> is_Some (cluster_type_of t).
Proof.
  intros H. shape H.
  - match goal with H : derived (N "cluster_useall") _ _ |- _ => apply derived_N in H as (? & ? & ? & ? & -> & _) end. cbn. eauto.
  - match goal with H : derived (N "cluster_ch") _ _ |- _ => apply derived_N in H as (? & ? & ? & ? & -> & _) end.
    part (int_total "cluster_opt_repl" "crREPLICATION" 1 eq_refl). cbn. valued.
Qed.
Lemma paths_total w t : derived (N "cluster_paths") w t -> is_Some (paths_of t).
Proof.
  intros H. shape H. match goal with H : derived (N "cluster_opt_path") _ _ |- _ => shape H end;
    repeat match goal with H : derived (N "cluster_path") _ _ |- _ => apply (name_of_total "cluster_path" _ _ eq_refl) in H as [? ?] end; cbn; valued.
Qed.
Lemma cluster_total w t : derived (N "cluster") w t -> is_Some (cluster_of t).
Proof.
  intros H. shape H; part (int_total "connections" "crCONNECTIONS" 1 eq_refl); part (int_total "ttl" "crTTL" 0 eq_refl);
    part (int_total "threshold_start" "crTHRESHOLD_START" 0 eq_refl); part (int_total "threshold_end" "crTHRESHOLD_END" 0 eq_refl).
  - part cluster_type_total. part (list_of_total host_of "cluster_hosts" "cluster_host" "cluster_opt_host" eq_refl eq_refl host_total).
    cbn. valued.
  - part paths_total. cbn. valued.
Qed.

Lemma dsts_total w t : derived (N "match_dsts") w t -> is_Some (dsts_of t).
Proof. intros H. shape H; [cbn; eauto|]. part (fun w t => names_total "match_dsts2" "match_dst" "match_opt_dst" w t eq_refl eq_refl eq_refl). cbn. eauto. Qed.
Lemma send_to_total w t : derived (N "match_send_to") w t -> is_Some (send_to_of t).
Proof. intros H. shape H. part dsts_total. cbn. eauto. Qed.
Lemma opt_send_to_total n w t : productions config_grammar n = [[]; [N "match_send_to"]] -> derived (N n) w t -> is_Some (opt_send_to_of t).
Proof.
  intros Hn H. apply derived_N in H as (i & ts & rhs & ? & -> & E & H). rewrite Hn in E.
  destruct i as [|[|i]]; cbn in E; simplify_eq; shape_seq; [cbn; eauto|]. part send_to_total. cbn. eauto.
Qed.
Lemma exprs2_total w t : derived (N "match_exprs2") w t -> is_Some (list_of name_of t).
Proof. by apply (names_total "match_exprs2" "match_expr" "match_opt_expr"). Qed.
Lemma match_total w t : derived (N "match") w t -> is_Some (match_of t).
Proof.
  intros H. shape H. part (fun w t => opt_send_to_total "match_opt_send_to" w t eq_refl).
  match goal with H : derived (N "match_exprs") _ _ |- _ => shape H end; try part exprs2_total;
    match goal with H : derived (N "match_opt_validate") _ _ |- _ => shape H end;
    match goal with H : derived (N "match_opt_route") _ _ |- _ => shape H end; cbn; valued.
Qed.
Lemma rewrite_total w t : derived (N "rewrite") w t -> is_Some (rewrite_of t).
Proof. intros H. shape H. cbn. eauto. Qed.
Lemma timestamp_total w t : derived (N "aggregate_opt_timestamp") w t -> is_Some (timestamp_of t).
Proof.
  intros H. shape H; [cbn; eauto|].
  match goal with H : derived (N "aggregate_ts_when") _ _ |- _ => apply derived_N in H as (? & ? & ? & ? & -> & _) end. cbn. eauto.
Qed.
Lemma compute_total w t : derived (N "aggregate_compute") w t -> is_Some (compute_of t).
Proof. intros H. shape H. match goal with H : derived (N "aggregate_comp_type") _ _ |- _ => shape H end; cbn; eauto. Qed.
Lemma aggregate_total w t : derived (N "aggregate") w t -> is_Some (aggregate_of t).
Proof.
  intros H. shape H. part exprs2_total. part timestamp_total. part (fun w t => opt_send_to_total "aggregate_opt_send_to" w t eq_refl).
  part (list_of_total compute_of "aggregate_computes" "aggregate_compute" "aggregate_opt_compute" eq_refl eq_refl compute_total). cbn. valued.
Qed.
Lemma send_total w t : derived (N "send") w t -> is_Some (send_of t).
Proof. intros H. shape H. part dsts_total. cbn. valued. Qed.
Lemma statistics_total w t : derived (N "statistics") w t -> is_Some (statistics_of t).
Proof.
  intros H. shape H. part (fun w t => opt_send_to_total "aggregate_opt_send_to" w t eq_refl).
  match goal with H : derived (N "statistics_opt_interval") _ _ |- _ => shape H end;
    match goal with H : derived (N "statistics_opt_prefix") _ _ |- _ => shape H end; cbn; valued.
Qed.
Lemma receptor_total w t : derived (N "receptor") w t -> is_Some (receptor_of t).
Proof.
  intros H. shape H; [|cbn; eauto].
  match goal with H : derived (N "rcptr_proto") _ _ |- _ => apply derived_N in H as (? & ? & ? & ? & -> & _) end. cbn. eauto.
Qed.
Lemma mode_total w t : derived (N "transport_mode") w t -> is_Some (mode_of t).
Proof.
  intros H. shape H; [cbn; eauto|]. part (fun w t => trans_total "transport_mode_trans" w t eq_refl).
  match goal with H : derived (N "transport_opt_ssl") _ _ |- _ => shape H end; cbn; valued.
Qed.
Lemma listen_total w t : derived (N "listen") w t -> is_Some (listen_of t).
Proof.
  intros H. shape H. match goal with H : derived (N "listener") _ _ |- _ => shape H end. part mode_total.
  part (list_of_total receptor_of "receptors" "receptor" "opt_receptor" eq_refl eq_refl receptor_total). cbn. valued.
Qed.
Lemma include_total w t : derived (N "include") w t -> is_Some (include_of t).
Proof. intros H. shape H. cbn. eauto. Qed.
Lemma command_total w t : derived (N "command") w t -> is_Some (command_of t).
Proof.
  intros H. shape H; cbn;
    [by eapply cluster_total|by eapply match_total|by eapply rewrite_total|by eapply aggregate_total|by eapply send_total|by eapply statistics_total
    |by eapply listen_total|by eapply include_total].
Qed.
Lemma opt_stmt_total t w : derived (N "opt_stmt") w t -> is_Some (opt_stmt_of t).
Proof.
  revert w. induction t as [x|m j us IH] using tree_all_ind; intros w H; [by apply derived_N in H as (? & ? & ? & ? & ? & _)|].
  apply derived_N in H as (i & ts & rhs & w' & [= -> -> ->] & E & H).
  match type of E with ?l !! _ = _ => let l' := eval vm_compute in l in change (l' !! i = Some rhs) in E end.
  destruct i as [|[|i]]; cbn in E; simplify_eq; shape_seq; [cbn; eauto|].
  match goal with H : derived (N "stmt") _ _ |- _ => shape H end. part command_total.
  apply Forall_cons in IH as [_ IH]. apply Forall_cons in IH as [IH _].
  match goal with H : derived (N "opt_stmt") _ _ |- _ => destruct (IH _ H) as [? ?] end. cbn. valued.
Qed.
Lemma stmts_total w t : derived (N "stmts") w t -> is_Some (stmts_of t).
Proof. intros H. shape H. cbn. by eapply opt_stmt_total. Qed.

(** ** Properties *)

Lemma parse_exact ts t : parse_text tname config_grammar config_tables "stmts" ts = Some t <-> derived (N "stmts") ts t.
Proof. apply parse_text_spec, config_predictive. Qed.
Lemma parse_derived ts t cs : derived (N "stmts") ts t -> stmts_of t = Some cs -> parse_config ts = Some cs.
Proof. intros H%parse_exact Hc. unfold parse_config. rewrite H. by run_binds. Qed.

(** The parser and the grammar agree: a sequence of tokens is accepted exactly when the productions of conffile.y derive it,
    with one tree only (the grammar is not ambiguous), and every such tree has the commands that the parser returns. *)
Theorem config_grammar_parsed (ts : list ytoken) :
  (forall t, derived (N "stmts") ts t -> exists cs, stmts_of t = Some cs /\ parse_config ts = Some cs) /\
  (forall cs, parse_config ts = Some cs ->
    exists t, derived (N "stmts") ts t /\ stmts_of t = Some cs /\ forall t', derived (N "stmts") ts t' -> t' = t).
Proof.
  split.
  - intros t H. destruct (stmts_total _ _ H) as [cs Hc]. exists cs. split; [done|]. by eapply parse_derived.
  - unfold parse_config. intros cs H. destruct (parse_text _ _ _ _ ts) as [t|] eqn:E; [|discriminate]. run_binds.
    exists t. split_and!; [by apply parse_exact|done|]. intros t' Ht'%parse_exact. congruence.
Qed.

(** ** Building derivations *)

(** The nonterminal derives the words with a tree of value [v]. *)
Definition means {A} (n : string) (w : list ytoken) (value : ptree -> option A) (v : A) : Prop :=
  exists t, derived (N n) w t /\ value t = Some v.

Lemma derived_tok k x : tname x = k -> derived (T k) [x] (Leaf x).
Proof. intros <-. constructor. Qed.
Lemma derived_prod n i rhs ws ts w :
  productions config_grammar n !! i = Some rhs -> Forall3 (derives tname config_grammar) rhs ws ts -> w = concat ws -> derived (N n) w (Node n i ts).
Proof.
  intros Hp Hf ->. econstructor; [exact Hp|]. clear Hp. induction Hf; cbn [concat]; constructor; done.
Qed.
(** Production [i], with what its nonterminals derive among the hypotheses. *)
Ltac derive := repeat (apply Forall3_cons; [first [eassumption|apply derived_tok; reflexivity]|]); apply Forall3_nil.
Ltac produce i ws := eexists; split; [eapply (derived_prod _ i _ ws); [reflexivity|derive|cbn [concat app]; rewrite ?app_nil_r; try reflexivity]|].

Lemma means_list {A B} n e o (value : ptree -> option B) (word : A -> list ytoken) (val : A -> B) (l : list A) :
  productions config_grammar n = [[N e; N o]] -> productions config_grammar o = [[]; [N n]] -> l <> [] ->
  (forall x, x ∈ l -> means e (word x) value (val x)) -> means n (concat (word <$> l)) (list_of value) (val <$> l).
Proof.
  intros Hn Ho. induction l as [|x l IH]; [done|]. intros _ Hl. destruct (Hl x ltac:(set_solver)) as (t & Ht & Hv).
  assert (productions config_grammar n !! O = Some [N e; N o]) as Hn0 by (by rewrite Hn).
  destruct l as [|y l].
  - exists (Node n 0 [t; Node o 0 []]). split; [|cbn; rewrite Hv; by run_binds].
    eapply derived_prod; [exact Hn0|apply Forall3_cons; [exact Ht|apply Forall3_cons; [|apply Forall3_nil]]|].
    + eapply (derived_prod o 0 [] [] []); [by rewrite Ho|apply Forall3_nil|done].
    + cbn. by rewrite !app_nil_r.
  - destruct IH as (u & Hu & Hvu); [done|intros z Hz; apply Hl; set_solver|].
    exists (Node n 0 [t; Node o 1 [u]]). split; [|cbn in *; rewrite Hv; run_binds; rewrite Hvu; by run_binds].
    eapply derived_prod; [exact Hn0|apply Forall3_cons; [exact Ht|apply Forall3_cons; [|apply Forall3_nil]]|].
    + eapply (derived_prod o 1 [N n]); [by rewrite Ho|apply Forall3_cons; [exact Hu|apply Forall3_nil]|done].
    + cbn [concat fmap list_fmap]. by rewrite !app_nil_r.
Qed.
Lemma means_name n s : productions config_grammar n = [[T "crSTRING"]] -> means n [crSTRING s] name_of s.
Proof.
  intros Hn. eexists. split; [eapply (derived_prod n 0 _ [[crSTRING s]]); [by rewrite Hn|derive|reflexivity]|]. reflexivity.
Qed.
Lemma means_names n e o (l : list cstring) :
  productions config_grammar n = [[N e; N o]] -> productions config_grammar o = [[]; [N n]] -> productions config_grammar e = [[T "crSTRING"]] ->
  l <> [] -> means n (crSTRING <$> l) (list_of name_of) l.
Proof.
  intros Hn Ho He Hl. pose proof (means_list n e o name_of (fun s => [crSTRING s]) id l Hn Ho Hl ltac:(intros; by apply means_name)) as H.
  rewrite list_fmap_id in H. replace (crSTRING <$> l) with (concat ((fun s => [crSTRING s]) <$> l)); [exact H|]. clear. induction l; cbn; [done|]. by f_equal.
Qed.
(** An empty part. *)
Lemma means_empty {A} n (value : ptree -> option A) v :
  productions config_grammar n !! O = Some [] -> value (Node n 0 []) = Some v -> means n [] value v.
Proof. intros Hn Hv. exists (Node n 0 []). split; [|done]. eapply derived_prod; [exact Hn|apply Forall3_nil|done]. Qed.

(** ** Statements *)
#[local] Open Scope list_scope.

(** A list of commands and the tokens it is read from. *)
Inductive says : list ytoken -> list command -> Prop :=
  | says_nil : says [] []
  | says_cons w c ws cs : (exists t, derived (N "command") w t /\ command_of t = Some c) -> says ws cs -> says (w ++ [end_token] ++ ws) (c :: cs).
Lemma says_app ws1 cs1 ws2 cs2 : says ws1 cs1 -> says ws2 cs2 -> says (ws1 ++ ws2) (cs1 ++ cs2).
Proof. intros H1 H2. induction H1 as [|w c ws cs Hc _ IH]; [done|]. cbn [app]. rewrite <- app_assoc. cbn [app]. by apply (says_cons w c). Qed.
Lemma says_parse ws cs : says ws cs -> parse_config ws = Some cs.
Proof.
  intros H. assert (means "opt_stmt" ws opt_stmt_of cs) as (t & Ht & Hv).
  { induction H as [|w c ws cs (t & Ht & Hv) _ (u & Hu & Hvu)]; [by apply means_empty|].
    assert (derived (N "stmt") (w ++ [end_token]) (Node "stmt" 0 [t; Leaf end_token])) as Hs.
    { eapply (derived_prod _ 0 _ [w; [end_token]]); [reflexivity|derive|done]. }
    produce 1%nat [w ++ [end_token]; ws]; [by rewrite <- app_assoc|]. cbn. rewrite Hv. run_binds. rewrite Hvu. by run_binds. }
  assert (means "stmts" ws stmts_of cs) as (u & Hu & Hvu); [|by eapply parse_derived]. produce O [ws]. exact Hv.
Qed.
(** One command, by its production. *)
Lemma says_one i n (value : ptree -> option command) w c :
  productions config_grammar "command" !! i = Some [N n] -> (forall t, command_of (Node "command" i [t]) = value t) ->
  means n w value c -> says (w ++ [end_token]) [c].
Proof.
  intros Hi Hv (t & Ht & Hc). apply (says_cons w c []); [|constructor]. exists (Node "command" i [t]). split; [|by rewrite Hv].
  eapply (derived_prod _ i _ [w]); [exact Hi|derive|cbn; by rewrite app_nil_r].
Qed.

Lemma tname_end x : tname x = "';'" -> x = end_token.
Proof.
  destruct x; try discriminate. unfold tname. destruct (Z.eqb_spec c (ch ";")) as [->|]; [done|].
  destruct (c =? ch "*")%Z; [discriminate|]. destruct (c =? ch "=")%Z; discriminate.
Qed.
Lemma says_derived t ts cs : derived (N "opt_stmt") ts t -> opt_stmt_of t = Some cs -> says ts cs.
Proof.
  revert ts cs. induction t as [x|m j us IH] using tree_all_ind; intros ts cs H; [inversion H|].
  inversion H as [|n i rhs w l E Hs]; subst.
  match type of E with ?l !! _ = _ => let l' := eval vm_compute in l in change (l' !! j = Some rhs) in E end.
  destruct j as [|[|j]]; cbn in E; simplify_eq.
  { inversion Hs; subst. intros [= <-]. constructor. }
  inversion Hs as [|? ? w1 w2 t1 ts1 H1 H2]; subst. inversion H2 as [|? ? w3 w4 t2 ts2 H3 H4]; subst. inversion H4; subst. rewrite app_nil_r.
  inversion H1 as [|n i rhs w l E Hs1]; subst.
  match type of E with ?l !! _ = _ => let l' := eval vm_compute in l in change (l' !! i = Some rhs) in E end.
  destruct i as [|i]; cbn in E; simplify_eq. inversion Hs1 as [|? ? w5 w6 t5 ts5 H5 H6]; subst. inversion H6 as [|? ? w7 w8 t7 ts7 H7 H8]; subst.
  inversion H8; subst. inversion H7 as [x E|]; subst. symmetry in E. rename E into Ex. cbn [opt_stmt_of].
  destruct (command_of t5) as [c|] eqn:Ec; [|discriminate]. run_binds. destruct (opt_stmt_of t2) as [cs'|] eqn:Ecs; [|discriminate]. run_binds.
  intros [= <-]. rewrite app_nil_r, <- app_assoc. symmetry in Ex. apply tname_end in Ex as ->.
  apply Forall_cons in IH as [_ IH]. apply Forall_cons in IH as [IH _]. apply (says_cons w5 c); [by exists t5|by apply IH].
Qed.
Lemma says_exact ts cs : parse_config ts = Some cs <-> says ts cs.
Proof.
  split; [|apply says_parse]. unfold parse_config. destruct (parse_text _ _ _ _ ts) as [t|] eqn:E; [|discriminate]. run_binds. apply parse_exact in E.
  inversion E as [|n i rhs w l Ep Hs]; subst. match type of Ep with ?l !! _ = _ => let l' := eval vm_compute in l in change (l' !! i = Some rhs) in Ep end.
  destruct i as [|i]; cbn in Ep; simplify_eq. inversion Hs as [|? ? w1 w2 t1 ts1 H1 H2]; subst. inversion H2; subst. rewrite app_nil_r. by apply says_derived.
Qed.

(** A semicolon only ends statements. *)
Definition outside : list string := ["stmts"; "opt_stmt"; "stmt"].
Definition inner (s : sym) : bool := match s with T k => negb (inb k ["';'"]) | N n => negb (inb n outside) end.
Lemma inner_ok : forallb (fun '(n, rhss) => inb n outside || forallb (forallb inner) rhss) config_grammar = true.
Proof. vm_compute. reflexivity. Qed.
Lemma no_semicolon :
  (forall s w t, derived s w t -> inner s = true -> Forall (fun x => tname x <> "';'") w) /\
  (forall rhs w ts, derived_seq rhs w ts -> forallb inner rhs = true -> Forall (fun x => tname x <> "';'") w).
Proof.
  apply derives_mutual.
  - intros t H. constructor; [|constructor]. intros E. cbn in H. by rewrite E in H.
  - intros n i rhs w ts Hp _ IH Hn. apply IH. unfold productions in Hp. destruct (list_find _ config_grammar) as [[j [m rhss]]|] eqn:E; [|done].
    apply list_find_Some in E as (Hj & Hm & _). cbn in Hm, Hp. subst m. pose proof (proj1 (forallb_forall _ _) inner_ok (n, rhss)) as H.
    apply list_elem_of_lookup_2, list_elem_of_In in Hj. apply H, orb_true_iff in Hj as [Hj|Hj]; [cbn in Hn; by rewrite Hj in Hn|].
    apply (proj1 (forallb_forall _ _) Hj). apply list_elem_of_In. by eapply list_elem_of_lookup_2.
  - constructor.
  - intros s rhs w1 w2 t ts _ IH1 _ IH2 H. cbn in H. apply andb_true_iff in H as [H1 H2]. apply Forall_app. auto.
Qed.
Lemma command_no_semicolon w t : derived (N "command") w t -> Forall (fun x => tname x <> "';'") w.
Proof. intros H. by apply (proj1 no_semicolon _ _ _ H). Qed.

(** What the grammar has more than none of. *)
Lemma list_of_some {A} (f : ptree -> option A) t l : list_of f t = Some l -> l <> [].
Proof.
  destruct t as [|n i [|x [|[|m [|j] [|u [|]]] [|]]]]; cbn; try discriminate; destruct (f x); try discriminate; run_binds; [by intros [= <-]|].
  destruct (list_of f u); [|discriminate]. run_binds. by intros [= <-].
Qed.
Lemma dsts_of_some t l : dsts_of t = Some l -> l <> [].
Proof. destruct t as [|n [|i] [|x [|]]]; try discriminate; cbn; try (by intros [= <-]). by apply list_of_some. Qed.
Definition sends_somewhere (c : command) : Prop := match c with K_send dsts _ => dsts <> [] | _ => True end.
Ltac not_send f := let u := fresh in let d := fresh in intros u d; unfold f, mbind, option_bind; repeat case_match; try discriminate; intros H'; injection H' as <-; exact I.
Lemma command_of_sends t c : command_of t = Some c -> sends_somewhere c.
Proof.
  assert (forall t c, cluster_of t = Some c -> sends_somewhere c) as H0 by not_send cluster_of.
  assert (forall t c, match_of t = Some c -> sends_somewhere c) as H1 by not_send match_of.
  assert (forall t c, rewrite_of t = Some c -> sends_somewhere c) as H2 by not_send rewrite_of.
  assert (forall t c, aggregate_of t = Some c -> sends_somewhere c) as H3 by not_send aggregate_of.
  assert (forall t c, statistics_of t = Some c -> sends_somewhere c) as H5 by not_send statistics_of.
  assert (forall t c, listen_of t = Some c -> sends_somewhere c) as H6 by not_send listen_of.
  assert (forall t c, include_of t = Some c -> sends_somewhere c) as H7 by not_send include_of.
  assert (forall t c, send_of t = Some c -> sends_somewhere c) as H4.
  { intros [|n i [|a [|b [|x [|d [|e [|]]]]]]] c'; cbn; try discriminate. destruct (dsts_of d) as [l|] eqn:E; [|discriminate]. run_binds.
    intros [= <-]. by eapply dsts_of_some. }
  destruct t as [|n i [|u [|]]]; try discriminate. cbn [command_of]. do 7 (destruct i as [|i]; [eauto|]). apply H7.
Qed.
