(* ===== verification/ParserError.v ===== *)
(** * Errors of the configuration (src/router.c, [router_yyerror] and [router_readconfig])

    The parser's messages name tokens as the grammar does ([crSTRING], [crMATCH], [$end]).
    [router_yyerror] turns these into words by rewriting the message, as metrics are
    rewritten, for as long as an expression matches, with four expressions in turn.
    [router_readconfig] prints the message, the line and carets under the position.

    The regular expressions are the class [Regex]; what is used of the four is in
    [MessageRegex]. *)
From S2P Require Import Prelude Relay Rewrite Matching.
#[local] Open Scope Z_scope.

(** ** [router_yyerror] *)

(** [ROUTER_YYLTYPE] and [parser_err]. *)
Record yyltype := mkLoc { first_line : nat; first_column : nat; last_line : nat; last_column : nat }.
Record parser_err := mkErr { pe_msg : option cstring; pe_line : nat; pe_start : nat; pe_stop : nat }.

Section Messages.
Context `{Regex}.

(** One [while] loop on the text in [*sa]: the text at its end, or [None] when it does not fit the buffer.  Without fuel,
    which stands for a loop that goes on, there is no result. *)
Fixpoint clean_loop (fuel : nat) (rx : regex_t) (replacement : cstring) (sa : cstring) : option (option cstring) :=
  match fuel with
  | O => None
  | S fuel' =>
      match regexec rx sa with
      | None => Some (Some sa)
      | Some pm =>
          let pmatch := take 3 (pm ++ replicate 3 (-1, -1)) in
          match router_rewrite_metric sa [] replacement 3 pmatch with
          | None => Some None
          | Some (sb, _) => clean_loop fuel' rx replacement sb
          end
      end
  end.

Definition value_types : cstring * cstring := (lit "cr(STRING|COMMENT|INTVAL)", lit "\_1").
Definition keywords_pass : cstring * cstring := (lit "cr([A-Z][A-Z0-9]*)", lit "'\_1'").
Definition artificial : cstring * cstring := (lit ", unexpected 'unexpected'", []).
Definition bison_speak : cstring * cstring := (lit "\$end", lit "end of file").
Definition passes : list (cstring * cstring) := [value_types; keywords_pass; artificial; bison_speak].

(** The loops in turn; [Some None] when an expression cannot be compiled or the text does not fit. *)
Fixpoint clean (fuel : nat) (ps : list (cstring * cstring)) (s : cstring) : option (option cstring) :=
  match ps with
  | [] => Some (Some s)
  | (pat, replacement) :: ps' =>
      match regcomp pat with
      | None => Some None
      | Some rx =>
          r ← clean_loop fuel rx replacement s;
          match r with None => Some None | Some s => clean fuel ps' s end
      end
  end.

(** Only the first error counts.  A message that was not cleaned is kept, without a position. *)
Definition router_yyerror (fuel : nat) (e : parser_err) (locp : option yyltype) (msg : cstring) : option parser_err :=
  match pe_msg e with
  | Some _ => Some e
  | None =>
      r ← clean fuel passes (snprintf_trunc (Z.to_nat METRIC_BUFSIZ) msg);
      Some match r with
           | None => mkErr (Some msg) (pe_line e) (pe_start e) (pe_stop e)
           | Some s =>
               match locp with
               | Some l =>
                   mkErr (Some s) (1 + first_line l) (first_column l)
                     (if (first_line l =? last_line l)%nat then last_column l else first_column l)
               | None => mkErr (Some s) 0 (pe_start e) (pe_stop e)
               end
           end
  end.

End Messages.

(** ** The report *)

(** The text behind the [n]th newline, as the loop with [strchr] finds it. *)
Fixpoint nth_line (n : nat) (buf : cstring) : option cstring :=
  match n with
  | O => Some buf
  | S n' => match list_find (fun c => c = 10) buf with Some (i, _) => nth_line n' (drop (S i) buf) | None => None end
  end.
(** Up to the first newline from [stop] on; [None] when [stop] is behind the text. *)
Definition cut_line (line : cstring) (stop : nat) : option cstring :=
  if (stop <=? length line)%nat then
    Some match list_find (fun c => c = 10) (drop stop line) with Some (i, _) => take (stop + i) line | None => line end
  else None.
Definition blanked (c : cchar) : cchar := if c =? 9 then 9 else ch " ".
(** The two lines of context: the text, and the carets below it; [None] is an access behind the text. *)
Definition caret_lines (buf : cstring) (e : parser_err) : option (cstring * cstring) :=
  let line := default buf (nth_line (pe_line e - 1) buf) in
  shown ← cut_line line (pe_stop e);
  let carlen := u64 (Z.of_nat (pe_stop e) - Z.of_nat (pe_start e) + 1) in
  if (pe_start e <=? length shown)%nat then
    Some (shown, (blanked <$> take (pe_start e) shown) ++ replicate (Z.to_nat carlen) (ch "^"))
  else None.
(** The messages logged for file [path]. *)
Definition error_report (path buf : cstring) (e : parser_err) : option (list cstring) :=
  if negb (pe_line e =? 0)%nat then
    '(shown, carets) ← caret_lines buf e;
    Some [path ++ lit ":" ++ show_Z (Z.of_nat (pe_line e)) ++ lit ":" ++ show_Z (Z.of_nat (pe_start e)) ++ lit ": " ++ default (lit "(null)") (pe_msg e);
          shown; carets]
  else Some match pe_msg e with Some msg => [path ++ lit ": " ++ msg] | None => [] end.

(** ** The loops end *)

(** What the four expressions match, as POSIX has it: offsets in the text; and the first two match an upper case letter, the third
    something, the last a dollar sign. *)
Definition count (P : cchar -> bool) (s : cstring) : nat := length (filter (fun c => P c = true) s).
Definition in_match (s : cstring) (pm : list regmatch) (P : cchar -> bool) : Prop :=
  (exists so eo, pm !! 0%nat = Some (so, eo) /\ 0 <= so <= eo /\ eo <= Z.of_nat (length s) /\ (0 < count P (slice s so eo))%nat) /\
  Forall (match_ok (length s)) pm.
Definition dollar (c : cchar) : bool := c =? ch "$".
Definition any_char (_ : cchar) : bool := true.
Record MessageRegex `{Regex} : Prop := {
  mr_value rx s pm : regcomp value_types.1 = Some rx -> regexec rx s = Some pm -> in_match s pm is_upper;
  mr_keyword rx s pm : regcomp keywords_pass.1 = Some rx -> regexec rx s = Some pm -> in_match s pm is_upper;
  mr_artificial rx s pm : regcomp artificial.1 = Some rx -> regexec rx s = Some pm -> in_match s pm any_char;
  mr_end rx s pm : regcomp bison_speak.1 = Some rx -> regexec rx s = Some pm -> in_match s pm dollar;
}.

Lemma count_app P s t : count P (s ++ t) = (count P s + count P t)%nat.
Proof. unfold count. by rewrite filter_app, length_app. Qed.
Lemma count_le_length P s : (count P s <= length s)%nat.
Proof. apply length_filter. Qed.
Lemma count_none P s : Forall (fun c => P c = false) s -> count P s = 0%nat.
Proof.
  induction 1 as [|c s Hc _ IH]; [done|]. unfold count. rewrite filter_cons_False by congruence. exact IH.
Qed.
Lemma removelast_prefix {A} (l : list A) : removelast l `prefix_of` l.
Proof. destruct (decide (l = [])) as [->|Hne]; [done|]. destruct (exists_last Hne) as (l' & x & ->). rewrite removelast_last. by exists [x]. Qed.
Lemma count_prefix P s t : s `prefix_of` t -> (count P s <= count P t)%nat.
Proof. intros [k ->]. rewrite count_app. lia. Qed.

(** What a template does to the buffer, given what is before the match. *)
Definition written (text : cstring) (pm : list regmatch) (replacement lead : cstring) : list Z :=
  out (foldl (rewrite_step text 3 pm) (mkRw 0 0 RETAIN lead) (replacement ++ [NUL])).
Definition put (o : list Z) (c : cchar) : list Z := if fits o 1 then o ++ [c] else o.
Definition put_lower (text : cstring) (pm : list regmatch) (o : list Z) : list Z := insert_match text 3 pm (mkRw 2 1 LOWER o).
Lemma written_value text pm lead : written text pm value_types.2 lead = put (put_lower text pm lead) NUL.
Proof. reflexivity. Qed.
Lemma written_keyword text pm lead : written text pm keywords_pass.2 lead = put (put (put_lower text pm (put lead (ch "'"))) (ch "'")) NUL.
Proof. reflexivity. Qed.
Lemma written_artificial text pm lead : written text pm artificial.2 lead = put lead NUL.
Proof. reflexivity. Qed.
Lemma steps_literals text pm l o :
  Forall (fun c => c <> ch "\") l -> foldl (rewrite_step text 3 pm) (mkRw 0 0 RETAIN o) l = mkRw 0 0 RETAIN (foldl put o l).
Proof.
  intros Hl. revert o. induction Hl as [|c l Hc _ IH]; intros o; [done|]. cbn [foldl]. rewrite <- IH. f_equal.
  unfold rewrite_step. cbn [escape rcase ref out]. apply Z.eqb_neq in Hc. rewrite Hc. reflexivity.
Qed.
Lemma written_end text pm lead : written text pm bison_speak.2 lead = foldl put lead (lit "end of file" ++ [NUL]).
Proof. unfold written. rewrite steps_literals; [done|]. by repeat constructor. Qed.

Definition chars_ok (s : cstring) : Prop := Forall (fun c => -128 <= c < 128) s.
Lemma s8_range c : -128 <= s8 c < 128.
Proof. unfold s8. pose proof (Z.mod_pos_bound (c + 2 ^ 7) (2 ^ 8)). lia. Qed.
Lemma lower_not_upper c : -128 <= c < 128 -> is_upper (s8 (tolower c)) = false.
Proof.
  intros Hc. destruct (is_upper c) eqn:E; unfold tolower; rewrite E; unfold is_upper in *; unfold s8;
    (rewrite Z.mod_small; [|destruct (Z.leb_spec 65 c), (Z.leb_spec c 90); cbn in E; lia]).
  - destruct (Z.leb_spec 65 c), (Z.leb_spec c 90); try done. apply andb_false_iff. right. apply Z.leb_gt. lia.
  - by replace (c + 2 ^ 7 - 2 ^ 7) with c by lia.
Qed.

Lemma put_count P o c : P c = false -> (count P (put o c) <= count P o)%nat.
Proof. intros Hc. unfold put. case_match; [|done]. rewrite count_app, (count_none P [c]) by by repeat constructor. lia. Qed.
Lemma puts_count P o l : Forall (fun c => P c = false) l -> (count P (foldl put o l) <= count P o)%nat.
Proof.
  intros Hl. revert o. induction Hl as [|c l Hc _ IH]; intros o; [done|]. cbn [foldl]. rewrite IH. by apply put_count.
Qed.
Lemma slice_Forall (Q : cchar -> Prop) s so eo : Forall Q s -> Forall Q (slice s so eo).
Proof. intros Hs. by apply Forall_take, Forall_drop. Qed.
Lemma put_lower_spec text pm o : chars_ok text ->
  exists l, put_lower text pm o = o ++ l /\ Forall (fun c => is_upper c = false /\ -128 <= c < 128) l.
Proof.
  intros Ht. unfold put_lower, insert_match. cbn [ref rcase out].
  destruct (_ && _); [|exists []; by rewrite app_nil_r]. destruct (pm !! _) as [[so eo]|]; [|exists []; by rewrite app_nil_r].
  destruct (_ && _); [|exists []; by rewrite app_nil_r]. eexists. split; [done|]. apply Forall_fmap, (slice_Forall _ _ so eo).
  apply (Forall_impl _ _ _ Ht). intros c Hc. cbn. split; [by apply lower_not_upper|apply s8_range].
Qed.
Lemma put_lower_count text pm o : chars_ok text -> (count is_upper (put_lower text pm o) <= count is_upper o)%nat.
Proof.
  intros Ht. destruct (put_lower_spec text pm o Ht) as (l & -> & Hl). rewrite count_app, (count_none _ l); [lia|].
  apply (Forall_impl _ _ _ Hl). by intros c [? _].
Qed.
Lemma put_ok o c : chars_ok o -> -128 <= c < 128 -> chars_ok (put o c).
Proof. intros Ho Hc. unfold put. case_match; [|done]. apply Forall_app. split; [done|]. by apply Forall_singleton. Qed.
Lemma put_lower_ok text pm o : chars_ok text -> chars_ok o -> chars_ok (put_lower text pm o).
Proof.
  intros Ht Ho. destruct (put_lower_spec text pm o Ht) as (l & -> & Hl). apply Forall_app. split; [done|].
  apply (Forall_impl _ _ _ Hl). by intros c [_ ?].
Qed.

(** A pass: what it counts down, in texts it works on. *)
Record countdown (P : cchar -> bool) (replacement : cstring) (ok : cstring -> Prop) : Prop := {
  cd_count text pm lead : ok text -> (count P (removelast (written text pm replacement lead)) <= count P lead)%nat;
  cd_ok text pm lead tail : ok text -> lead `prefix_of` text -> tail `suffix_of` text -> ok (removelast (written text pm replacement lead) ++ tail);
}.
Lemma chars_ok_prefix s t : s `prefix_of` t -> chars_ok t -> chars_ok s.
Proof. intros [k ->] Hs%Forall_app. apply Hs. Qed.
Lemma chars_ok_suffix s t : s `suffix_of` t -> chars_ok t -> chars_ok s.
Proof. intros [k ->] Hs%Forall_app. apply Hs. Qed.
Lemma removelast_count P s : (count P (removelast s) <= count P s)%nat.
Proof. apply count_prefix, removelast_prefix. Qed.
Lemma removelast_ok s : chars_ok s -> chars_ok (removelast s).
Proof. apply chars_ok_prefix, removelast_prefix. Qed.

Lemma value_countdown : countdown is_upper value_types.2 chars_ok.
Proof.
  split; intros text pm lead.
  - intros Ht. rewrite written_value, removelast_count, put_count, put_lower_count by done. done.
  - intros tail Ht Hl Hs. apply Forall_app. split; [|by eapply chars_ok_suffix]. rewrite written_value.
    apply removelast_ok, put_ok; [|done]. apply put_lower_ok; [done|]. by eapply chars_ok_prefix.
Qed.
Lemma keyword_countdown : countdown is_upper keywords_pass.2 chars_ok.
Proof.
  split; intros text pm lead.
  - intros Ht. rewrite written_keyword, removelast_count, !put_count, put_lower_count, put_count by done. done.
  - intros tail Ht Hl Hs. apply Forall_app. split; [|by eapply chars_ok_suffix]. rewrite written_keyword.
    apply removelast_ok, put_ok; [|done]. apply put_ok; [|done]. apply put_lower_ok; [done|]. apply put_ok; [|done]. by eapply chars_ok_prefix.
Qed.
Lemma artificial_countdown : countdown any_char artificial.2 (fun _ => True).
Proof.
  split; [|done]. intros text pm lead _. rewrite written_artificial. unfold put. case_match; [by rewrite removelast_last|apply removelast_count].
Qed.
Lemma end_countdown : countdown dollar bison_speak.2 (fun _ => True).
Proof.
  split; [|done]. intros text pm lead _. rewrite written_end, removelast_count. apply puts_count. by repeat constructor.
Qed.

Section Loops.
Context `{Regex}.

Lemma rewrite_counts s pm replacement s' k P ok :
  countdown P replacement ok -> ok s -> in_match s pm P -> Z.of_nat (length s) < METRIC_BUFSIZ ->
  router_rewrite_metric s [] replacement 3 pm = Some (s', k) ->
  (count P s' < count P s)%nat /\ ok s' /\ Z.of_nat (length s') < METRIC_BUFSIZ.
Proof.
  intros [Hc Hk] Hok [(so & eo & H0 & Hso & Heo & Hin) Hpm] Hl. unfold router_rewrite_metric. rewrite H0, !app_nil_r. cbn [from_option id].
  destruct (fits [] so); [|done]. cbn [negb].
  change (out (foldl _ _ _)) with (written s pm replacement (slice s 0 so)). set (lead := slice s 0 so).
  assert (slice s eo (Z.of_nat (length s)) = drop (Z.to_nat eo) s) as ->.
  { unfold slice. rewrite take_ge; [done|]. rewrite length_drop. lia. }
  destruct (fits _ _) eqn:Ef; [|done]. cbn [negb]. rewrite app_nil_r. case_match; [|done]. intros [= <- _].
  assert (lead = take (Z.to_nat so) s) as El by (unfold lead, slice; by rewrite Z.sub_0_r, drop_0).
  assert (count P s = count P lead + count P (slice s so eo) + count P (drop (Z.to_nat eo) s))%nat as ->.
  { rewrite El, <- !count_app, <- (assoc_L (++)). f_equal. unfold slice.
    replace (drop (Z.to_nat eo) s) with (drop (Z.to_nat (eo - so)) (drop (Z.to_nat so) s)) by (rewrite drop_drop; f_equal; lia).
    by rewrite take_drop, take_drop. }
  split; [|split].
  - rewrite count_app. specialize (Hc s pm lead Hok). lia.
  - apply Hk; [done|rewrite El; by apply prefix_take|by apply suffix_drop].
  - rewrite length_app, Nat2Z.inj_add. assert (Z.of_nat (length (removelast (written s pm replacement lead))) < METRIC_BUFSIZ) as Hw.
    { apply Z.le_lt_trans with (Z.of_nat (length (written s pm replacement lead))).
      - apply Nat2Z.inj_le, prefix_length, removelast_prefix.
      - apply rewrite_steps_bound; [done|unfold METRIC_BUFSIZ in *; lia|]. cbn [out]. rewrite El, length_take. lia. }
    apply fits_inv in Ef; [rewrite length_drop; lia|unfold METRIC_BUFSIZ in *; lia|done].
Qed.
Lemma padded_match s pm P : in_match s pm P -> in_match s (take 3 (pm ++ replicate 3 (-1, -1))) P.
Proof.
  intros [(so & eo & H0 & Hr) Hpm]. split.
  - exists so, eo. split; [|done]. rewrite lookup_take_lt by lia. by apply lookup_app_l_Some.
  - apply Forall_take, Forall_app. split; [done|]. apply Forall_replicate. by left.
Qed.
Lemma clean_loop_ends P ok rx replacement s fuel :
  countdown P replacement ok ->
  (forall s pm, regexec rx s = Some pm -> in_match s pm P) ->
  ok s -> Z.of_nat (length s) < METRIC_BUFSIZ -> (count P s < fuel)%nat ->
  exists r, clean_loop fuel rx replacement s = Some r /\ (forall s', r = Some s' -> ok s' /\ Z.of_nat (length s') < METRIC_BUFSIZ /\ regexec rx s' = None).
Proof.
  intros Hcd Hrx. revert s. induction fuel as [|fuel IH]; intros s Hok Hl Hf; [lia|]. cbn [clean_loop].
  destruct (regexec rx s) as [pm|] eqn:E; [|exists (Some s); split; [done|by intros s' [= <-]]].
  pose proof (padded_match _ _ _ (Hrx _ _ E)) as Hin.
  destruct (router_rewrite_metric _ _ _ _ _) as [[s' k]|] eqn:Er; [|by exists None].
  destruct (rewrite_counts _ _ _ _ _ _ _ Hcd Hok Hin Hl Er) as (Hlt & Hok' & Hl'). apply IH; [done|done|lia].
Qed.

(** One pass of [clean]. *)
Lemma clean_pass P ok fuel p ps s (Q : option (option cstring) -> Prop) :
  countdown P p.2 ok -> (forall rx s pm, regcomp p.1 = Some rx -> regexec rx s = Some pm -> in_match s pm P) ->
  ok s -> Z.of_nat (length s) < METRIC_BUFSIZ -> (Z.to_nat METRIC_BUFSIZ <= fuel)%nat -> Q (Some None) ->
  (forall rx s', regcomp p.1 = Some rx -> ok s' -> Z.of_nat (length s') < METRIC_BUFSIZ -> regexec rx s' = None -> Q (clean fuel ps s')) ->
  Q (clean fuel (p :: ps) s).
Proof.
  intros Hcd Hrx Hok Hl Hf Hnone Hsome. destruct p as [pat replacement]. cbn [clean fst snd] in *. destruct (regcomp pat) as [rx|] eqn:E; [|done].
  destruct (clean_loop_ends P ok rx replacement s fuel Hcd) as (r & -> & Hr); [by intros; eapply Hrx|done|done| |].
  - pose proof (count_le_length P s). lia.
  - run_binds. destruct r as [s'|]; [|done]. destruct (Hr s' eq_refl) as (Hok' & Hl' & Hno). by eapply Hsome.
Qed.
(** The loops ended; and what is left, if it fits, names no end of file as bison does. *)
Definition cleaned (o : option (option cstring)) : Prop :=
  exists r, o = Some r /\
    (forall s', r = Some s' -> Z.of_nat (length s') < METRIC_BUFSIZ /\ forall rx, regcomp bison_speak.1 = Some rx -> regexec rx s' = None).
Lemma clean_ends (Hre : MessageRegex) fuel s :
  chars_ok s -> Z.of_nat (length s) < METRIC_BUFSIZ -> (Z.to_nat METRIC_BUFSIZ <= fuel)%nat -> cleaned (clean fuel passes s).
Proof.
  intros Hs Hl Hf. assert (cleaned (Some None)) as Hn by by eexists. unfold passes.
  apply (clean_pass is_upper chars_ok _ _ _ _ _ value_countdown (mr_value Hre)); [done..|]. intros _ s1 _ Hs1 Hl1 _.
  apply (clean_pass is_upper chars_ok _ _ _ _ _ keyword_countdown (mr_keyword Hre)); [done..|]. intros _ s2 _ _ Hl2 _.
  apply (clean_pass any_char (fun _ => True) _ _ _ _ _ artificial_countdown (mr_artificial Hre)); [done..|]. intros _ s3 _ _ Hl3 _.
  apply (clean_pass dollar (fun _ => True) _ _ _ _ _ end_countdown (mr_end Hre)); [done..|]. intros rx s4 Hc _ Hl4 Hno.
  exists (Some s4). split; [done|]. intros s' [= <-]. split; [done|]. intros rx' Hc'. congruence.
Qed.
End Loops.

(** ** Properties *)

(** A syntax error is always reported. For every message, the four loops of [router_yyerror] come to an end, within as many turns as the
    buffer has characters; afterwards there is a message, that of the first error, which fits the buffer
    when it was cleaned, and has the position given. *)
Theorem yyerror_ends `{Regex} (fuel : nat) (e : parser_err) (l : yyltype) (msg : cstring) :
  MessageRegex -> chars_ok msg -> (Z.to_nat METRIC_BUFSIZ <= fuel)%nat ->
  exists e', router_yyerror fuel e (Some l) msg = Some e' /\
    match pe_msg e with
    | Some _ => e' = e
    | None =>
        pe_msg e' = Some msg \/
        (exists s, pe_msg e' = Some s /\ Z.of_nat (length s) < METRIC_BUFSIZ /\ pe_line e' = S (first_line l) /\ pe_start e' = first_column l /\
           (forall rx, regcomp bison_speak.1 = Some rx -> regexec rx s = None))
    end.
Proof.
  intros Hre Hc Hf. unfold router_yyerror. destruct (pe_msg e); [by eexists|].
  destruct (clean_ends Hre fuel (snprintf_trunc (Z.to_nat METRIC_BUFSIZ) msg)) as (r & -> & Hr);
    [by apply Forall_take|unfold snprintf_trunc; rewrite length_take; unfold METRIC_BUFSIZ; lia|done|].
  run_binds. destruct r as [s|]; eexists; (split; [done|]); [right|by left]. destruct (Hr s eq_refl) as [Hl Hno]. by exists s.
Qed.

(** *** The four expressions, executable *)

(** A match at the start of a text: its length and group 1. *)
Definition literal_at (w s : cstring) : option (nat * option (nat * nat)) := if bool_decide (w `prefix_of` s) then Some (length w, None) else None.
Definition value_at (s : cstring) : option (nat * option (nat * nat)) :=
  if bool_decide (lit "cr" `prefix_of` s) then
    (fun w => (2 + length w, Some (2, 2 + length w))%nat) <$> head (filter (fun w => w `prefix_of` drop 2 s) [lit "STRING"; lit "COMMENT"; lit "INTVAL"])
  else None.
Fixpoint run_length (P : cchar -> bool) (s : cstring) : nat := match s with c :: s' => if P c then S (run_length P s') else 0 | [] => 0 end%nat.
Definition keyword_at (s : cstring) : option (nat * option (nat * nat)) :=
  match s with
  | a :: b :: c :: s' =>
      if (a =? ch "c") && (b =? ch "r") && is_upper c then
        let n := run_length (fun c => is_upper c || is_digit c) s' in Some (3 + n, Some (2, 3 + n))%nat
      else None
  | _ => None
  end.
Fixpoint search (f : cstring -> option (nat * option (nat * nat))) (i : nat) (s : cstring) : option (list regmatch) :=
  match f s with
  | Some (n, g) =>
      Some ((Z.of_nat i, Z.of_nat (i + n)) :: match g with Some (a, b) => [(Z.of_nat (i + a), Z.of_nat (i + b))] | None => [] end)
  | None => match s with [] => None | _ :: s' => search f (S i) s' end
  end.
Definition engines : list (cstring * (cstring -> option (nat * option (nat * nat)))) :=
  [(value_types.1, value_at); (keywords_pass.1, keyword_at); (artificial.1, literal_at artificial.1); (bison_speak.1, literal_at (lit "$end"))].
Definition message_engine : Regex := {|
  regex_t := cstring -> option (nat * option (nat * nat));
  regcomp pat := (fun x => x.2.2) <$> list_find (fun x => x.1 = pat) engines;
  re_nsub _ := 1%nat;
  regexec f s := search f 0 s;
|}.

Definition match_spec (P : cchar -> bool) (f : cstring -> option (nat * option (nat * nat))) : Prop :=
  forall s n g, f s = Some (n, g) -> (n <= length s)%nat /\ (0 < count P (take n s))%nat /\ forall a b, g = Some (a, b) -> (a <= b <= n)%nat.
Lemma search_in_match P f s pm : match_spec P f -> search f 0 s = Some pm -> in_match s pm P.
Proof.
  intros Hf. assert (forall pre t, search f (length pre) t = Some pm -> in_match (pre ++ t) pm P) as Hgen; [|apply (Hgen [])].
  intros pre t. revert pre. induction t as [|c t IH]; intros pre; cbn [search]; (destruct (f _) as [[n g]|] eqn:E; [|]); try done.
  3:{ intros Hs. replace (pre ++ c :: t) with ((pre ++ [c]) ++ t) by by rewrite <- (assoc_L (++)). apply IH. rewrite length_app. by rewrite Nat.add_1_r. }
  all: destruct (Hf _ _ _ E) as (Hn & Hc & Hg); intros [= <-]; (split;
    [exists (Z.of_nat (length pre)), (Z.of_nat (length pre + n)); split_and!; [done|lia|lia|rewrite length_app; lia|];
     unfold slice; rewrite Nat2Z.id, drop_app_length; replace (Z.to_nat _) with n by lia; done|]).
  all: constructor; [right; rewrite length_app; lia|]; destruct g as [[a b]|]; [|done]; specialize (Hg a b eq_refl);
    apply Forall_singleton; right; rewrite length_app; lia.
Qed.
Lemma count_pos P s c : c ∈ s -> P c = true -> (0 < count P s)%nat.
Proof.
  intros Hc Hp. unfold count. destruct (filter _ s) eqn:E; [|cbn; lia]. assert (c ∈ filter (fun c => P c = true) s) as Hin by by apply list_elem_of_filter.
  rewrite E in Hin. set_solver.
Qed.
Lemma literal_spec P w : (exists c, c ∈ w /\ P c = true) -> match_spec P (literal_at w).
Proof.
  intros (c & Hc & Hp) s n g. unfold literal_at. case_bool_decide as Hpre; [|done]. intros [= <- <-]. destruct Hpre as [k ->].
  rewrite length_app, take_app_length. split_and!; [lia|by eapply count_pos|done].
Qed.
Lemma value_spec : match_spec is_upper value_at.
Proof.
  intros s n g. unfold value_at. case_bool_decide as Hpre; [|done]. destruct Hpre as [k ->].
  change (drop 2 (lit "cr" ++ k)) with k. destruct (filter _ _) as [|w ws] eqn:E; [done|]. intros [= <- <-].
  assert (w ∈ filter (fun w => w `prefix_of` k) [lit "STRING"; lit "COMMENT"; lit "INTVAL"]) as [[k' ->] Hw]%list_elem_of_filter by (rewrite E; set_solver).
  split_and!; [rewrite length_app; cbn; rewrite length_app; lia| |by intros a b [= <- <-]; lia].
  replace (take _ _) with (lit "cr" ++ w) by (cbn; by rewrite take_app_length). rewrite count_app.
  rewrite !elem_of_cons, elem_of_nil in Hw. assert (0 < count is_upper w)%nat; [|lia].
  destruct Hw as [->|[->|[->|[]]]]; vm_compute; lia.
Qed.
Lemma run_length_le P s : (run_length P s <= length s)%nat.
Proof. induction s as [|c s IH]; cbn; [lia|]. destruct (P c); lia. Qed.
Lemma keyword_spec : match_spec is_upper keyword_at.
Proof.
  intros s n g. destruct s as [|a [|b [|c s]]]; try done. cbn [keyword_at]. destruct (_ && _) eqn:E; [|done]. intros [= <- <-].
  apply andb_true_iff in E as [_ Hup]. pose proof (run_length_le (fun c => is_upper c || is_digit c) s).
  split_and!; [cbn; lia| |by intros x y [= <- <-]; lia]. apply (count_pos _ _ c); [|done]. cbn. set_solver.
Qed.
Lemma engine_match P pat f : regcomp (Regex := message_engine) pat = Some f -> match_spec P f ->
  forall rx s pm, regcomp (Regex := message_engine) pat = Some rx -> regexec (Regex := message_engine) rx s = Some pm -> in_match s pm P.
Proof. intros Hc Hf rx s pm Hc' He. rewrite Hc in Hc'. injection Hc' as <-. by eapply search_in_match. Qed.
Lemma message_engine_ok : @MessageRegex message_engine.
Proof.
  split.
  - apply (engine_match _ _ value_at); [vm_compute; reflexivity|apply value_spec].
  - apply (engine_match _ _ keyword_at); [vm_compute; reflexivity|apply keyword_spec].
  - apply (engine_match _ _ (literal_at artificial.1)); [vm_compute; reflexivity|]. apply literal_spec. exists (ch ","). split; [vm_compute; constructor|done].
  - apply (engine_match _ _ (literal_at (lit "$end"))); [vm_compute; reflexivity|]. apply literal_spec. exists (ch "$"). split; [vm_compute; constructor|done].
Qed.
#[local] Existing Instance message_engine.

Definition demo_location : yyltype := mkLoc 2 7 2 9.
Definition no_error : parser_err := mkErr None 0 0 0.
Example message_words :
  clean 100 passes (lit "syntax error, unexpected crSTRING, expecting crMATCH or crA2 or $end") =
  Some (Some (lit "syntax error, unexpected string, expecting 'match' or 'a2' or end of file")).
Proof. vm_compute. reflexivity. Qed.
Lemma yyerror_ends_witness :
  exists e', router_yyerror (Z.to_nat METRIC_BUFSIZ) no_error (Some demo_location) (lit "unexpected crMATCH") = Some e' /\ pe_msg e' <> None.
Proof.
  destruct (yyerror_ends (Z.to_nat METRIC_BUFSIZ) no_error demo_location (lit "unexpected crMATCH")) as (e' & He & Hm).
  - exact message_engine_ok.
  - by repeat constructor.
  - reflexivity.
  - exists e'. split; [exact He|]. cbn in Hm. destruct Hm as [->|(s & -> & _)]; done.
Defined.

(** What the user wrote is taken for a token as well: an error about a cluster [crA] speaks of ['a']. *)
Theorem messages_change_names : clean 100 passes (lit "no such cluster: crA") = Some (Some (lit "no such cluster: 'a'")).
Proof. vm_compute. reflexivity. Qed.

(** *** The position *)

Definition no_newline (s : cstring) : Prop := Forall (fun c => c <> 10) s.
Lemma find_newline s t : no_newline s -> list_find (fun c => c = 10) (s ++ 10 :: t) = Some (length s, 10).
Proof. intros Hs. induction Hs as [|c s Hc _ IH]; [done|]. cbn. rewrite decide_False by done. by rewrite IH. Qed.
Lemma find_no_newline s : no_newline s -> list_find (fun c => c = 10) s = None.
Proof. intros Hs. induction Hs as [|c s Hc _ IH]; [done|]. cbn. rewrite decide_False by done. by rewrite IH. Qed.
Definition text_of (lines : list cstring) : cstring := concat (map (fun l => l ++ [10]) lines).
Lemma nth_line_lines lines t : Forall no_newline lines -> nth_line (length lines) (text_of lines ++ t) = Some t.
Proof.
  intros Hl. induction Hl as [|l lines Hl1 _ IH]; [done|]. cbn [length nth_line]. unfold text_of in *. cbn [map concat].
  rewrite <- !(assoc_L (++)). cbn [app]. rewrite find_newline by done.
  replace (S (length l)) with (length l + 1)%nat by lia. rewrite <- drop_drop, drop_app_length. exact IH.
Qed.

(** A syntax error is shown where it is: when the position is on a line of the text, that line is printed, and below it carets, as many as
    the token has characters, in its columns; tabs before them are kept. *)
Theorem carets_point_at_error (lines : list cstring) (line after : cstring) (start stop : nat) (msg : option cstring) :
  Forall no_newline lines -> no_newline line -> (after = [] \/ exists t, after = 10 :: t) -> (start <= stop < length line)%nat ->
  Z.of_nat (length line) < 2 ^ 64 ->
  exists carets,
    caret_lines (text_of lines ++ line ++ after) (mkErr msg (S (length lines)) start stop) = Some (line, carets) /\
    length carets = S stop /\
    (forall i, (i < start)%nat -> carets !! i = blanked <$> line !! i) /\ (forall i, (start <= i <= stop)%nat -> carets !! i = Some (ch "^")).
Proof.
  intros Hls Hl Ha Hp Hlt. unfold caret_lines. cbn [pe_line pe_start pe_stop]. rewrite Nat.sub_succ, Nat.sub_0_r, nth_line_lines by done. cbn [from_option id].
  assert (cut_line (line ++ after) stop = Some line) as ->.
  { unfold cut_line. rewrite length_app. destruct (Nat.leb_spec stop (length line + length after)); [|lia]. f_equal.
    assert (no_newline (drop stop line)) as Hd by by apply Forall_drop.
    rewrite drop_app_le by lia. destruct Ha as [->|[t ->]].
    - rewrite !app_nil_r. by rewrite find_no_newline.
    - rewrite find_newline by done. rewrite length_drop. replace (stop + (length line - stop))%nat with (length line) by lia. apply take_app_length. }
  run_binds. destruct (Nat.leb_spec start (length line)); [|lia].
  replace (Z.to_nat (u64 (Z.of_nat stop - Z.of_nat start + 1))) with (stop - start + 1)%nat by (rewrite u64_small; lia).
  eexists. split; [done|]. assert (length (blanked <$> take start line) = start) as El by (rewrite length_fmap, length_take; lia). split_and!.
  - rewrite length_app, El, length_replicate. lia.
  - intros i Hi. rewrite lookup_app_l by lia. by rewrite list_lookup_fmap, lookup_take_lt.
  - intros i Hi. rewrite lookup_app_r by lia. apply lookup_replicate. split; [done|lia].
Qed.
Lemma carets_point_at_error_witness :
  exists carets, caret_lines (text_of [lit "cluster a"] ++ (9 :: lit "forwrd x;") ++ lit "") (mkErr None 2 1 6) = Some (9 :: lit "forwrd x;", carets) /\
    length carets = 7%nat.
Proof.
  destruct (carets_point_at_error [lit "cluster a"] (9 :: lit "forwrd x;") [] 1 6 None) as (carets & E & Hl & _).
  - by repeat constructor.
  - by repeat constructor.
  - by left.
  - cbn. lia.
  - reflexivity.
  - exists carets. split; [exact E|exact Hl].
Defined.
