(* ===== verification/ReadConfig.v ===== *)
(** * Reading the configuration (src/router.c, [router_readconfig])

    From a path to the router: expanding patterns, opening the file, scanning and
    parsing it ([Lexer], [Grammar]), performing each command when its statement is
    complete ([ConfActions]), reading included files in place, and adding the default
    listeners.  A failure frees the router that is being built; how often is counted. *)
From stdpp Require Import strings.
From S2P Require Import Prelude Relay Queue ConsistentHash Rewrite Matching Router Server RouterConfig Lexer Predictive ConfActions Aggregator Grammar.
#[local] Open Scope Z_scope.

(** [glob], [stat] (is it a regular file, and its size) and the contents of files. *)
Class ConfFiles := {
  glob : cstring -> option (list cstring);
  conf_stat : cstring -> option (bool * Z);
  conf_open : cstring -> option cstring;
}.

Definition is_pattern (path : cstring) : bool :=
  bool_decide (ch "*" ∈ path) || bool_decide (ch "?" ∈ path) || bool_decide (ch "[" ∈ path) && bool_decide (ch "]" ∈ path).

(** The buffer as a string; [None] when the file has become shorter than its size,
    and part of the buffer was never set. *)
Definition file_text (size : Z) (content : cstring) : option cstring :=
  if Z.of_nat (length content) <? size then None
  else Some (match list_find (fun c => c = 0) (take (Z.to_nat size) content) with Some (n, _) => take n content | None => take (Z.to_nat size) content end).

(** The tokens up to the next semicolon, and the command they are. *)
Fixpoint next_stmt (ts : list ytoken) : list ytoken * list ytoken :=
  match ts with
  | [] => ([], [])
  | t :: ts' => if decide (tname t = "';'"%string) then ([t], ts') else let '(a, b) := next_stmt ts' in (t :: a, b)
  end.
Definition parse_stmt (ts : list ytoken) : option command := match parse_config ts with Some [c] => Some c | _ => None end.
(** The commands of the statements before the first error, and whether there was none. *)
Fixpoint statements (fuel : nat) (ts : list ytoken) : list command * bool :=
  match fuel, ts with
  | S fuel', _ :: _ =>
      let '(a, b) := next_stmt ts in
      match parse_stmt a with
      | Some c => let '(cs, ok) := statements fuel' b in (c :: cs, ok)
      | None => ([], false)
      end
  | _, _ => ([], true)
  end.
Definition text_statements (text : cstring) : list command * bool :=
  match lex_text text with
  | Some (ts, None) => statements (length ts) ts
  | Some (ts, Some _) => ((statements (length ts) ts).1, false)
  | None => ([], false)
  end.

(** A text is accepted exactly when the parser has all of its commands. *)
Lemma next_stmt_at w rest : Forall (fun x => tname x <> "';'"%string) w -> next_stmt (w ++ [end_token] ++ rest) = (w ++ [end_token], rest).
Proof. induction 1 as [|x w Hx Hw IH]; cbn [next_stmt app]; [done|]. rewrite decide_False by done. cbn [app] in IH. by rewrite IH. Qed.
Lemma next_stmt_parts ts a b : next_stmt ts = (a, b) -> ts = a ++ b /\ (ts <> [] -> a <> []).
Proof.
  revert a b. induction ts as [|t ts IH]; intros a b; cbn [next_stmt]; [by intros [= <- <-]|]. destruct (decide _); [by intros [= <- <-]|].
  destruct (next_stmt ts) as [a' b'] eqn:E. intros [= <- <-]. destruct (IH a' b' eq_refl) as [-> _]. done.
Qed.
Lemma statements_says ts cs : says ts cs -> forall fuel, (length ts <= fuel)%nat -> statements fuel ts = (cs, true).
Proof.
  induction 1 as [|w c ws cs (t & Ht & Hv) Hs IH]; intros fuel Hf; [by destruct fuel|].
  destruct fuel as [|fuel]; [rewrite !length_app in Hf; cbn in Hf; lia|].
  assert (exists y ys, w ++ [end_token] ++ ws = y :: ys) as (y & ys & E) by (destruct w; cbn; eauto). cbn [statements]. rewrite E, <- E.
  rewrite next_stmt_at by (by eapply command_no_semicolon). unfold parse_stmt.
  assert (says (w ++ [end_token]) [c]) as H1%says_exact.
  { rewrite <- (app_nil_r [end_token]). apply (says_cons w c []); [by exists t|constructor]. }
  rewrite H1, IH; [done|]. rewrite !length_app in Hf. cbn in Hf. lia.
Qed.
Lemma says_statements fuel ts cs : (length ts <= fuel)%nat -> statements fuel ts = (cs, true) -> says ts cs.
Proof.
  revert ts cs. induction fuel as [|fuel IH]; intros ts cs Hf; [destruct ts; [|cbn in Hf; lia]; cbn; intros [= <-]; constructor|].
  destruct ts as [|t ts]; [cbn; intros [= <-]; constructor|]. cbn [statements]. destruct (next_stmt (t :: ts)) as [a b] eqn:E.
  apply next_stmt_parts in E as [E Ha]. specialize (Ha ltac:(discriminate)). rewrite E in Hf |- *. clear E. unfold parse_stmt. destruct (parse_config a) as [[|c [|? ?]]|] eqn:Ep; try discriminate.
  destruct (statements fuel b) as [cs' ok] eqn:Es. intros [= <- ->].
  apply (says_app _ [c]); [by apply says_exact|]. apply IH; [|done]. rewrite length_app in Hf. destruct a; [done|cbn in Hf; lia].
Qed.
Lemma text_statements_exact text cs : text_statements text = (cs, true) <-> read_text text = Some cs.
Proof.
  unfold text_statements, read_text. destruct (lex_text text) as [[ts [e|]]|]; run_binds; [done| |done]. rewrite says_exact. split.
  - by apply says_statements.
  - intros H. by apply statements_says.
Qed.

Section Read.
Context `{Resolver} `{Filesystem} `{Regex} {Q : Type} `{FifoQueue Q (list Z)} (queue_of : nat -> Q) `{Qsort (ch_ring_entry nat)} `{ConfFiles}.
Context (qts qte : Z) (aggr_ptr : nat -> cstring) (rtr_ptr : cstring) (hostname : cstring) (hostmatch : option (list regmatch)).
(** How the name of a certificate is identified. *)
Context (pem_ptr : option cstring -> Z).

(** The statement of a command; [include] is none. *)
Definition stmt_of (c : command) : option stmt :=
  match c with
  | K_cluster name type useall dyn repl conns ttl ts te hosts => Some (S_cluster name type useall dyn repl conns ttl ts te hosts)
  | K_files name ip conns ttl ts te paths => Some (S_files name ip conns ttl ts te paths)
  | K_match exprs val masq dsts stop => Some (S_match exprs val masq dsts stop)
  | K_rewrite expr replacement => Some (S_rewrite expr replacement)
  | K_aggregate exprs intv expire _ computes dsts stop =>
      Some (S_aggregate exprs intv expire ((fun '(_, p, _) => p) <$> filter (fun '(c, _, _) => c = PCTL) computes) dsts stop)
  | K_send dsts _ => Some (S_send dsts)
  | K_statistics intv mode prefix dsts _ => Some (S_statistics intv mode prefix dsts)
  | K_listen trnsp pem rss => Some (S_listen T_LINEMODE trnsp (pem_ptr pem) rss)
  | K_include _ => None
  end.

(** A router, or [NULL] after so many calls of [router_free] on it. *)
Inductive config_result := ReadOk (w : world Q) (r : router) | ReadNull (frees : nat).

(** One command, and commands in their order; [read] is for included files. *)
Definition run_command (read : world Q -> router -> cstring -> option config_result) (w : world Q) (r : router) (c : command) : option config_result :=
  match stmt_of c with
  | Some s =>
      x ← run_stmt queue_of qts qte aggr_ptr rtr_ptr hostname hostmatch w r s;
      Some (match x with inl (w, r) => ReadOk w r | inr _ => ReadNull 0 end)
  | None => match c with K_include path => read w r path | _ => None end
  end.
Fixpoint run_commands (read : world Q -> router -> cstring -> option config_result) (w : world Q) (r : router) (cs : list command) : option config_result :=
  match cs with
  | [] => Some (ReadOk w r)
  | c :: cs' =>
      x ← run_command read w r c;
      match x with ReadOk w r => run_commands read w r cs' | ReadNull n => Some (ReadNull n) end
  end.

(** The files of a pattern, one after the other. *)
Fixpoint read_all (read : world Q -> option router -> cstring -> option config_result) (w : world Q) (orig : option router) (paths : list cstring) :
    option config_result :=
  match paths with
  | [] => Some (match orig with Some r => ReadOk w r | None => ReadNull 0 end)
  | p :: paths' =>
      x ← read w orig p;
      match x with ReadOk w r => read_all read w (Some r) paths' | ReadNull n => Some (ReadNull n) end
  end.

Fixpoint router_readconfig (fuel : nat) (conf : rconf) (listenport : Z) (w : world Q) (orig : option router) (path : cstring) : option config_result :=
  match fuel with
  | O => None
  | S fuel' =>
      if is_pattern path then
        match glob path with
        | None => Some (ReadNull 0)
        | Some paths => read_all (router_readconfig fuel' conf listenport) w orig paths
        end
      else
        match conf_stat path with
        | None | Some (false, _) => Some (ReadNull 0)
        | Some (true, size) =>
            match match orig with Some r => inl r | None => new_router hostname hostmatch conf end with
            | inr _ => Some (ReadNull 1)
            | inl r =>
                match conf_open path with
                | None => Some (ReadNull 1)
                | Some content =>
                    text ← file_text size content;
                    let '(cs, ok) := text_statements text in
                    x ← run_commands (fun w r p => router_readconfig fuel' conf listenport w (Some r) p) w r cs;
                    match x with
                    | ReadNull n => Some (ReadNull (S n))
                    | ReadOk w r =>
                        if negb ok then Some (ReadNull 1)
                        else match orig with
                             | Some _ => Some (ReadOk w r)
                             | None => r ← default_listeners r listenport; Some (ReadOk w r)
                             end
                    end
                end
            end
        end
  end.

(** ** What is read satisfies the invariant *)

(** A [match] that validates or sends. *)
Definition match_said (c : command) : Prop := match c with K_match _ val _ dsts _ => val <> None \/ dsts <> [] | _ => True end.
Lemma statements_sends fuel ts : Forall sends_somewhere (statements fuel ts).1.
Proof.
  revert ts. induction fuel as [|fuel IH]; intros [|t ts]; cbn [statements]; try constructor. destruct (next_stmt (t :: ts)) as [a b].
  unfold parse_stmt. destruct (parse_config a) as [[|c [|? ?]]|] eqn:Ep; try constructor. specialize (IH b). destruct (statements fuel b) as [cs ok].
  constructor; [|done]. apply says_exact in Ep. inversion Ep as [|? ? ? ? (u & _ & Hu)]; subst. by eapply command_of_sends.
Qed.
Lemma text_sends text : Forall sends_somewhere (text_statements text).1.
Proof.
  unfold text_statements. destruct (lex_text text) as [[ts [e|]]|]; [apply statements_sends..|constructor].
Qed.
Lemma stmt_of_wf c s : stmt_of c = Some s -> sends_somewhere c -> match_said c -> stmt_wf s.
Proof. destruct c; cbn; intros [= <-]; done. Qed.

Abbreviation inv := config_inv.
Lemma run_commands_inv read w r cs w' r' :
  (forall w r p w' r', inv w r -> read w r p = Some (ReadOk w' r') -> inv w' r') -> Forall sends_somewhere cs -> Forall match_said cs ->
  inv w r -> run_commands read w r cs = Some (ReadOk w' r') -> inv w' r'.
Proof.
  intros Hread Hs Hm. revert w r. induction Hs as [|c cs Hc Hs IH]; intros w r Hi; cbn [run_commands]; [by intros [= <- <-]|].
  apply Forall_cons in Hm as [Hmc Hm].
  assert (forall w1 r1, run_command read w r c = Some (ReadOk w1 r1) -> inv w1 r1) as Hone.
  { intros w1 r1. unfold run_command. destruct (stmt_of c) as [s|] eqn:Es; [|destruct c; try discriminate; by apply Hread].
    destruct (run_stmt _ _ _ _ _ _ _ w r s) as [[[w2 r2]|]|] eqn:Er; run_binds; try discriminate. intros [= <- <-].
    eapply run_stmt_inv; [exact Hi|by eapply stmt_of_wf|exact Er]. }
  destruct (run_command read w r c) as [[w1 r1|n]|]; run_binds; try discriminate. apply IH; [done|]. by apply Hone.
Qed.

(** Every [match] of every file validates or sends. *)
Definition files_said : Prop :=
  forall path content size text, conf_stat path = Some (true, size) -> conf_open path = Some content -> file_text size content = Some text -> Forall match_said (text_statements text).1.

Lemma readconfig_inv fuel conf port w orig path w' r' :
  files_said -> match orig with Some r => inv w r | None => True end ->
  router_readconfig fuel conf port w orig path = Some (ReadOk w' r') -> inv w' r'.
Proof.
  intros Hfiles. revert w orig path w' r'. induction fuel as [|fuel IH]; intros w orig path w' r' Ho; cbn [router_readconfig]; [discriminate|].
  destruct (is_pattern path).
  { destruct (glob path) as [paths|]; [|discriminate]. revert w orig Ho. induction paths as [|p paths IHp]; intros w orig Ho; cbn [read_all].
    - destruct orig; [|discriminate]. by intros [= <- <-].
    - destruct (router_readconfig fuel conf port w orig p) as [[w1 r1|n]|] eqn:E; run_binds; try discriminate. apply IHp. cbn. by eapply IH. }
  destruct (conf_stat path) as [[[] size]|] eqn:Est; try discriminate.
  destruct (match orig with Some r => inl r | None => new_router hostname hostmatch conf end) as [r|e] eqn:Er; [|discriminate].
  assert (inv w r) as Hi by (destruct orig; [by injection Er as <-|by eapply new_router_inv]).
  destruct (conf_open path) as [content|] eqn:Eo; [|discriminate]. destruct (file_text size content) as [text|] eqn:Et; run_binds; [|discriminate].
  pose proof (Hfiles _ _ _ _ Est Eo Et) as Hm. pose proof (text_sends text) as Hs. destruct (text_statements text) as [cs ok]. cbn [fst] in Hm, Hs.
  destruct (run_commands _ w r cs) as [[w1 r1|n]|] eqn:Ec; run_binds; try discriminate.
  apply run_commands_inv in Ec; [|intros w2 r2 p w3 r3 Ha Hb; by eapply (IH w2 (Some r2))|done..].
  destruct ok; cbn [negb]; [|discriminate]. destruct orig; [by intros [= <- <-]|].
  destruct (default_listeners r1 port) as [r2|] eqn:Ed; run_binds; [|discriminate]. intros [= <- <-]. by eapply default_listeners_inv.
Qed.

(** ** How often the router is freed *)

Definition no_include (c : command) : Prop := match c with K_include _ => False | _ => True end.
Definition files_flat : Prop :=
  forall path content size text, conf_stat path = Some (true, size) -> conf_open path = Some content -> file_text size content = Some text -> Forall no_include (text_statements text).1.

Lemma run_commands_frees read w r cs n : Forall no_include cs -> run_commands read w r cs = Some (ReadNull n) -> n = O.
Proof.
  intros Hc. revert w r. induction Hc as [|c cs Hc Hcs IH]; intros w r; cbn [run_commands]; [discriminate|].
  assert (forall m, run_command read w r c = Some (ReadNull m) -> m = O) as Hone.
  { intros m. unfold run_command. destruct (stmt_of c) as [s|] eqn:Es; [|by destruct c].
    destruct (run_stmt _ _ _ _ _ _ _ w r s) as [[[w2 r2]|]|]; run_binds; try discriminate. by intros [= <-]. }
  destruct (run_command read w r c) as [[w1 r1|m]|]; run_binds; [apply IH| |discriminate]. intros [= <-]. by apply Hone.
Qed.
Lemma readconfig_frees fuel conf port w orig path n :
  files_flat -> router_readconfig fuel conf port w orig path = Some (ReadNull n) -> (n <= 1)%nat.
Proof.
  intros Hfiles. revert w orig path. induction fuel as [|fuel IH]; intros w orig path; cbn [router_readconfig]; [discriminate|].
  destruct (is_pattern path).
  { destruct (glob path) as [paths|]; [|intros [= <-]; lia]. revert w orig. induction paths as [|p paths IHp]; intros w orig; cbn [read_all].
    - destruct orig; [discriminate|]. intros [= <-]. lia.
    - destruct (router_readconfig fuel conf port w orig p) as [[w1 r1|m]|] eqn:E; run_binds; try discriminate; [apply IHp|]. intros [= <-]. by eapply IH. }
  destruct (conf_stat path) as [[[] size]|] eqn:Est; [|intros [= <-]; lia..].
  destruct (match orig with Some r => inl r | None => new_router hostname hostmatch conf end) as [r|e]; [|intros [= <-]; lia].
  destruct (conf_open path) as [content|] eqn:Eo; [|intros [= <-]; lia]. destruct (file_text size content) as [text|] eqn:Et; run_binds; [|discriminate].
  pose proof (Hfiles _ _ _ _ Est Eo Et) as Hm. destruct (text_statements text) as [cs ok]. cbn [fst] in Hm.
  destruct (run_commands _ w r cs) as [[w1 r1|m]|] eqn:Ec; run_binds; try discriminate.
  - destruct ok; cbn [negb]; [|intros [= <-]; lia]. destruct orig; [discriminate|]. destruct (default_listeners r1 port); run_binds; discriminate.
  - apply run_commands_frees in Ec as ->; [|done]. intros [= <-]. lia.
Qed.
End Read.

(** ** Properties *)

(** C10: For any files, patterns and includes in which each [match] validates or sends (the grammar also accepts one
    that does neither, and routing by it crashes): the router that [router_readconfig] returns satisfies the invariant
    of configurations (exact references, clusters with members of their type and no two of a name, listeners apart);
    and if its rings have enough distinct servers ([rings_ok], which the parser does not ensure:
    [ch_get_nodes_diverges]) every line is routed to an end. *)
Theorem read_configuration_sound `{Resolver} `{Filesystem} `{Regex} {Q : Type} `{FifoQueue Q (list Z)} (queue_of : nat -> Q)
    `{Qsort (ch_ring_entry nat)} `{ConfFiles} `{RouteServer nat} (qts qte : Z) (aggr_ptr : nat -> cstring) (rtr_ptr hostname : cstring)
    (hostmatch : option (list regmatch)) (pem_ptr : option cstring -> Z) (fuel : nat) (conf : rconf) (port : Z) (w w' : world Q)
    (path : cstring) (r' : router) (cx : context) (line : cstring) (fs : nat) :
  files_said ->
  router_readconfig queue_of qts qte aggr_ptr rtr_ptr hostname hostmatch pem_ptr fuel conf port w None path = Some (ReadOk w' r') ->
  config_inv w' r' /\ (rings_ok r' -> exists st, router_route cx (r_routes r') line fs = Some st).
Proof.
  intros Hf Hr. apply readconfig_inv in Hr; [|done|done]. split; [exact Hr|]. intros Hri. by eapply inv_routing_total.
Qed.

(** A configuration without includes is freed at most once when reading it fails, whatever the reason. *)
Theorem failed_read_frees_once `{Resolver} `{Filesystem} `{Regex} {Q : Type} `{FifoQueue Q (list Z)} (queue_of : nat -> Q)
    `{Qsort (ch_ring_entry nat)} `{ConfFiles} (qts qte : Z) (aggr_ptr : nat -> cstring) (rtr_ptr hostname : cstring)
    (hostmatch : option (list regmatch)) (pem_ptr : option cstring -> Z) (fuel : nat) (conf : rconf) (port : Z) (w : world Q)
    (path : cstring) (n : nat) :
  files_flat ->
  router_readconfig queue_of qts qte aggr_ptr rtr_ptr hostname hostmatch pem_ptr fuel conf port w None path = Some (ReadNull n) -> (n <= 1)%nat.
Proof. apply readconfig_frees. Qed.

(** ** Concrete files *)

#[local] Existing Instance demo_resolver.
#[local] Existing Instance demo_files.
#[local] Existing Instance simple_engine.
#[local] Existing Instance isort_qsort.
#[local] Instance plain_servers : RouteServer nat := {| server_is_syslog := fun _ => false |}.

(** Files by their name, and no file for any pattern. *)
Definition some_files (l : list (cstring * cstring)) : ConfFiles :=
  let find p := snd <$> (snd <$> list_find (fun x => x.1 = p) l) in
  {| glob _ := None; conf_stat p := (fun c => (true, Z.of_nat (length c))) <$> find p; conf_open p := find p |}.
Definition demo_readconfig (l : list (cstring * cstring)) (fuel : nat) (path : cstring) : option (config_result (Q := queue (list Z))) :=
  router_readconfig (H4 := some_files l) demo_queue_of 0 0 (fun _ => lit "0x1") (lit "0x2") (lit "relay.example.com") demo_hostmatch (fun _ => 0)
    fuel demo_conf 2003 (mkWorld [] []) None path.

Definition good_files : list (cstring * cstring) :=
  [(lit "/c", lit "cluster a forward 10.0.0.1:2003; include /d; statistics submit every 30 seconds;"); (lit "/d", lit "match ^x send to a stop; match * send to blackhole;")].
Definition read_end (x : option (config_result (Q := queue (list Z)))) : world (queue (list Z)) * router :=
  match x with Some (ReadOk w r) => (w, r) | _ => (mkWorld [] [], demo_start) end.
Definition good_end : world (queue (list Z)) * router := read_end (demo_readconfig good_files 3 (lit "/c")).

(** What holds of every command of some files, by evaluation. *)
Lemma some_files_all (P : command -> Prop) `{!forall c, Decision (P c)} (l : list (cstring * cstring)) :
  forallb (fun x => match file_text (Z.of_nat (length x.2)) x.2 with
                    | Some text => forallb (fun c => bool_decide (P c)) (text_statements text).1 | None => true end) l = true ->
  forall path content size text, conf_stat (ConfFiles := some_files l) path = Some (true, size) -> conf_open (ConfFiles := some_files l) path = Some content ->
    file_text size content = Some text -> Forall P (text_statements text).1.
Proof.
  intros Hl path content size text. cbn [conf_stat conf_open some_files]. destruct (list_find _ l) as [[i [p c]]|] eqn:E; [|done].
  apply list_find_Some in E as (Hi & _). cbn. intros [= <-] [= <-] Ht. rewrite forallb_forall in Hl.
  specialize (Hl (p, c) ltac:(apply list_elem_of_In; by eapply list_elem_of_lookup_2)). cbn [snd] in Hl. rewrite Ht in Hl.
  rewrite forallb_forall in Hl. apply Forall_forall. intros x Hx%list_elem_of_In. exact (bool_decide_eq_true_1 _ (Hl x Hx)).
Qed.
#[local] Instance match_said_dec c : Decision (match_said c).
Proof. destruct c; cbn; apply _. Defined.
#[local] Instance no_include_dec c : Decision (no_include c).
Proof. destruct c; cbn; apply _. Defined.

Lemma good_read : demo_readconfig good_files 3 (lit "/c") = Some (ReadOk good_end.1 good_end.2).
Proof. vm_compute. reflexivity. Qed.

Lemma read_configuration_sound_witness : exists st, router_route demo_cx (r_routes good_end.2) (lit "x 1 2") 7 = Some st.
Proof.
  eapply (read_configuration_sound (H4 := some_files good_files) demo_queue_of 0 0 (fun _ => lit "0x1") (lit "0x2") (lit "relay.example.com") demo_hostmatch
    (fun _ => 0) 3 demo_conf 2003 (mkWorld [] []) good_end.1 (lit "/c") good_end.2 demo_cx (lit "x 1 2") 7).
  - intros path content size text. apply (some_files_all match_said). vm_compute. reflexivity.
  - exact good_read.
  - apply no_rings_ok. vm_compute. reflexivity.
Defined.

Lemma failed_read_frees_once_witness : (1 <= 1)%nat.
Proof.
  apply (failed_read_frees_once (H4 := some_files [(lit "/c", lit "cluster a forward")]) demo_queue_of 0 0 (fun _ => lit "0x1") (lit "0x2")
    (lit "relay.example.com") demo_hostmatch (fun _ => 0) 3 demo_conf 2003 (mkWorld [] []) (lit "/c") 1).
  - intros path content size text. apply (some_files_all no_include). vm_compute. reflexivity.
  - vm_compute. reflexivity.
Defined.

(** An error in an included file frees the router twice: reading the included file frees it, and so does reading the file that
    includes it, after looking for the error message in it.  A pattern without files fails the same way, with one call. *)
Theorem included_errors_free_twice :
  demo_readconfig [(lit "/c", lit "include /d;"); (lit "/d", lit "cluster a forward")] 3 (lit "/c") = Some (ReadNull 2) /\
  demo_readconfig [(lit "/c", lit "cluster a forward")] 3 (lit "/c") = Some (ReadNull 1) /\
  demo_readconfig [(lit "/c", lit "include /d*;")] 3 (lit "/c") = Some (ReadNull 1).
Proof. split_and!; vm_compute; reflexivity. Qed.

(** A file that includes itself is never read: there is no bound on the calls. *)
Theorem include_loop_diverges (fuel : nat) : demo_readconfig [(lit "/c", lit "include /c;")] fuel (lit "/c") = None.
Proof.
  assert (forall fuel w orig, router_readconfig (H4 := some_files [(lit "/c", lit "include /c;")]) demo_queue_of 0 0 (fun _ => lit "0x1") (lit "0x2")
    (lit "relay.example.com") demo_hostmatch (fun _ => 0) fuel demo_conf 2003 w orig (lit "/c") = None) as H; [|apply H].
  clear fuel. induction fuel as [|fuel IH]; intros w orig; [done|]. cbn [router_readconfig].
  assert (exists r, match orig with Some r => inl r | None => new_router (lit "relay.example.com") demo_hostmatch demo_conf end = inl r) as (r & ->)
    by (destruct orig; eexists; [reflexivity|vm_compute; reflexivity]).
  set (files := some_files _) in *. assert (conf_stat (lit "/c") = Some (true, 11)) as -> by (vm_compute; reflexivity).
  assert (conf_open (lit "/c") = Some (lit "include /c;")) as -> by (vm_compute; reflexivity).
  assert (file_text 11 (lit "include /c;") = Some (lit "include /c;")) as -> by (vm_compute; reflexivity). run_binds.
  assert (text_statements (lit "include /c;") = ([K_include (lit "/c")], true)) as -> by (vm_compute; reflexivity).
  cbn [run_commands run_command stmt_of]. rewrite IH. reflexivity.
Qed.
