(* ===== verification/RouterTest.v ===== *)
(** * Test mode (src/router.c, [router_test])

    For a metric typed by the user [router_test] prints which routes match, what
    they do, and the servers the metric would be sent to; it repeats the walk of
    [router_route] ([Router]) with printing in place of sending.

    Output is a list of items, one for each [fprintf] to the standard output; the
    servers printed are items of their own, so that they can be compared with the
    destinations of [router_route].  What is printed to the standard error is left
    out.  As in [Router] all levels share the line, and a call works from [off]
    with [firstspace] at [tl_fs]; only in debug mode is a metric made by an
    aggregation tested in a buffer of its own. *)
From S2P Require Import Prelude Relay Fnv Md5 JumpHash ConsistentHash Rewrite Matching Router Double Aggregator.
#[local] Open Scope Z_scope.

Section RouterTest.
Context {server : Type} `{EqDecision server} `{ServerInfo server} `{RouteServer server} `{Regex}.
Context {aggregator : Type}.

(** What else is printed: the names of clusters, an aggregator's computes, and its
    address as [%p] prints it. *)
Context (cluster_name : cluster server aggregator -> cstring).
Context (aggr_computes : aggregator -> list compute) (aggr_pointer : aggregator -> cstring).
(** [mode & MODE_DEBUG]; the memory in front of the metric and behind its
    terminator; [pmatch] before it is set. *)
Context (debug : bool) (before behind : cstring) (garbage : list regmatch).

Inductive item :=
  | Printed (text : cstring)
  | PrintedServer (s : server)     (* with its port *)
  | PrintedPath (s : server).

Definition serverip (s : server) : cstring :=
  if bool_decide (ch ":" ∈ server_ip s) then snprintf_trunc 256 (lit "[" ++ server_ip s ++ lit "]") else server_ip s.

Definition render_item (i : item) : cstring :=
  match i with
  | Printed text => text
  | PrintedServer s => lit "        " ++ serverip s ++ lit ":" ++ show_Z (server_port s) ++ [10]
  | PrintedPath s => lit "        " ++ serverip s ++ [10]
  end.

Record tstate := mkT { t_line : cstring; t_out : list item }.
(** [gotmatch] is a set of bits: a route matched, the last one said stop, an
    aggregation took the metric. *)
Record tlocals := mkTl { tl_got : Z; tl_stop : bool; tl_fs : nat; tl_pmatch : list regmatch }.

Inductive tcontrol := TNext | TSkip | TReturn.
Abbreviation tresult := (option (tcontrol * tlocals * tstate)) (only parsing).

Definition print (items : list item) (t : tstate) : tstate := mkT (t_line t) (t_out t ++ items).
Definition line_of (parts : list cstring) : item := Printed (concat parts ++ [10]).
Definition got (bits : Z) (tl : tlocals) : tlocals := mkTl (Z.lor (tl_got tl) bits) (tl_stop tl) (tl_fs tl) (tl_pmatch tl).

Definition test_name (off fs : nat) (t : tstate) : cstring := take (fs - off) (drop off (t_line t)).
Definition test_rest (fs : nat) (t : tstate) : cstring := drop fs (t_line t).

(** [*firstspace = ' ']: over the terminator it makes what is behind part of the
    line. *)
Definition set_space (fs : nat) (t : tstate) : tstate :=
  mkT (if (fs <? length (t_line t))%nat then <[fs := ch " "]> (t_line t) else t_line t ++ [ch " "] ++ behind) (t_out t).

(** The lines for a match. *)
Definition match_kind (first : cluster server aggregator) : cstring :=
  match first with AGGREGATION _ => lit "aggregation" | REWRITE _ => lit "rewrite" | _ => lit "match" end.
Definition match_items (m : matcher) (first : cluster server aggregator) (metric : cstring) : list item :=
  [line_of [match_kind first];
   match m_type m with
   | MATCHALL => line_of [lit "    * -> "; metric]
   | REGEX => line_of [lit "    "; m_pattern m; lit " (regex) -> "; metric]
   | mt =>
       let x := match mt with
                | CONTAINS => lit "strstr" | STARTS_WITH => lit "strncmp" | ENDS_WITH => lit "tailcmp" | _ => lit "strcmp"
                end in
       line_of [lit "    "; m_pattern m; lit " ["; x; lit ": "; m_strmatch m; lit "]"; [10]; lit "    -> "; metric]
   end].

(** ** The destinations *)

(** The stub of an aggregation with destinations. *)
Definition stub_name (a : aggregator) : cstring := lit "_aggregator_stub_" ++ aggr_pointer a ++ lit "__".
Definition compute_label (ac : compute) : cstring :=
  match c_type ac with
  | SUM => lit "sum" | CNT => lit "count" | MAX => lit "max" | MIN => lit "min" | AVG => lit "average"
  | MEDN => lit "median" | PCTL => snprintf_trunc 16 (lit "percentile" ++ show_Z (c_percentile ac))
  | VAR => lit "variance" | SDEV => lit "stddev"
  end.

(** The loop over the computes; [again] tests a new metric on the same routes. *)
Fixpoint test_computes (again : cstring -> nat -> list item -> option (Z * list item)) (nmatch : Z) (stublen : nat)
    (is_last : bool) (off : nat) (acs : list compute) (tl : tlocals) (t : tstate) : option (tlocals * tstate) :=
  match acs with
  | [] => Some (tl, t)
  | ac :: acs' =>
      let new :=
        if nmatch =? 0 then
          let new := snprintf_trunc (Z.to_nat METRIC_BUFSIZ) (c_metric ac) in Some (new, length new)
        else router_rewrite_metric (test_name off (tl_fs tl) t) (test_rest (tl_fs tl) t) (c_metric ac) nmatch (tl_pmatch tl) in
      match new with
      | None => Some (tl, t)
      | Some (new, fs) =>
          let t := print [line_of ([lit "    "; compute_label ac] ++
                     (if 0 <? nmatch then [lit "("; drop stublen (c_metric ac); lit ")"] else []) ++
                     [lit " -> "; drop stublen new])] t in
          if debug && negb is_last then
            '(g, items) ← again new fs (t_out t);
            test_computes again nmatch stublen is_last off acs' (got g tl) (mkT (t_line t) items)
          else test_computes again nmatch stublen is_last off acs' tl t
      end
  end.

Definition test_aggregation again (nmatch : Z) (off : nat) (a : aggregator) (is_last : bool) (tl : tlocals) (t : tstate) :
    tresult :=
  let stublen := if debug || is_last then 0%nat else length (stub_name a) in
  '(tl, t) ← test_computes again nmatch stublen is_last off (aggr_computes a) tl t;
  Some (if debug then (TReturn, tl, t) else (TNext, got 4 tl, t)).

Definition test_rewrite (replacement : cstring) (nmatch : Z) (off : nat) (tl : tlocals) (t : tstate) : tresult :=
  match router_rewrite_metric (test_name off (tl_fs tl) t) (test_rest (tl_fs tl) t) replacement nmatch (tl_pmatch tl) with
  | None => Some (TNext, tl, t)
  | Some (new, fs) =>
      let tl := mkTl (tl_got tl) (tl_stop tl) (off + fs) (tl_pmatch tl) in
      let t := mkT (take off (t_line t) ++ new) (t_out t) in
      Some (TNext, tl, set_space (tl_fs tl)
        (print [line_of [lit "    into("; replacement; lit ") -> "; test_name off (tl_fs tl) t]] t))
  end.

(** The consistent-hash cases. *)
Definition test_ring (d : cluster server aggregator) (repl : nat) (ring : ch_ring server) (masq : option cstring) (nmatch : Z)
    (off : nat) (tl : tlocals) (t : tstate) : tresult :=
  let kind := match d with CARBON_CH _ _ => lit "carbon" | FNV1A_CH _ _ => lit "fnv1a" | _ => lit "jump_fnv1a" end in
  let t := print [line_of [lit "    "; kind; lit "_ch("; cluster_name d; lit ")"]] t in
  if negb (Z.land (tl_got tl) 4 =? 0) then Some (TNext, tl, t)
  else
    let key := match masq with
               | None => Some (test_name off (tl_fs tl) t, [])
               | Some masq =>
                   match router_rewrite_metric (test_name off (tl_fs tl) t) (test_rest (tl_fs tl) t) masq nmatch (tl_pmatch tl) with
                   | None => None
                   | Some (new, fs) => Some (take fs new, [line_of [lit "        using("; masq; lit ") -> "; new]])
                   end
               end in
    match key with
    | None => Some (TNext, tl, t)
    | Some (key, items) =>
        pos ← (if debug then ch_gethashpos ring key else Some 0);
        nodes ← ch_get_nodes (length (entrylist ring)) 0 ring (s8 (Z.of_nat repl)) key;
        if (length nodes <? repl)%nat then None
        else Some (TNext, tl, print (items ++ (if debug then [line_of [lit "        hash_pos("; show_Z pos; lit ")"]] else []) ++
                                     (PrintedServer <$> take repl nodes)) t)
    end.

(** Any_of and failover: one of the servers. *)
Definition test_one (kind : cstring) (d : cluster server aggregator) (s : option server) (tl : tlocals) (t : tstate) : tresult :=
  let t := print [line_of [lit "    "; kind; lit "("; cluster_name d; lit ")"]] t in
  if negb (Z.land (tl_got tl) 4 =? 0) then Some (TNext, tl, t)
  else s ← s; Some (TNext, tl, print [PrintedServer s] t).

(** Everything behind [firstspace] is validated; an action is printed. *)
Definition test_validation (rule : matcher) (action : validate_action) (is_last : bool) (tl : tlocals) (t : tstate) : tresult :=
  let data := drop 1 (test_rest (tl_fs tl) t) in
  let t := print [Printed (lit "    validate" ++ [10] ++ lit "        " ++ m_pattern rule ++ lit " -> " ++ data ++ [10])] t in
  let '(ok, pm) := router_metric_matches rule (before ++ take (tl_fs tl + 1) (t_line t)) data [] 0 (tl_pmatch tl) in
  if ok then Some (TNext, mkTl (tl_got tl) (tl_stop tl) (tl_fs tl) pm, print [line_of [lit "        match"]] t)
  else
    let what := match action with VAL_LOG => lit "log" | VAL_DROP => lit "drop" end in
    Some (TSkip, mkTl (tl_got tl) (tl_stop tl || is_last) (tl_fs tl) pm, print [line_of [lit "        fail -> "; what]] t).

(** The [switch] on the type of a destination's cluster. *)
Definition test_dest again (m : matcher) (masq : option cstring) (off : nat) (d : cluster server aggregator) (is_last : bool)
    (tl : tlocals) (t : tstate) : tresult :=
  match d with
  | AGGREGATION a => test_aggregation again (m_nmatch m) off a is_last tl t
  | BLACKHOLE => Some (TNext, tl, print [line_of [lit "    blackholed"]] t)
  | REWRITE replacement => test_rewrite replacement (m_nmatch m) off tl t
  | FORWARD srvs =>
      Some (TNext, tl, print (line_of [lit "    forward("; cluster_name d; lit ")"] :: (PrintedServer <$> srvs)) t)
  | FILELOG srvs => Some (TNext, tl, print (line_of [lit "    file("; cluster_name d; lit ")"] :: (PrintedPath <$> srvs)) t)
  | FILELOGIP srvs => Some (TNext, tl, print (line_of [lit "    file ip("; cluster_name d; lit ")"] :: (PrintedPath <$> srvs)) t)
  | CARBON_CH repl ring | FNV1A_CH repl ring | JUMP_CH repl ring => test_ring d repl ring masq (m_nmatch m) off tl t
  | ANYOF srvs =>
      let hash := fnv1a_32 (test_name off (tl_fs tl) t) mod Z.of_nat (length srvs) in
      test_one (lit "any_of") d (srvs !! Z.to_nat hash) tl t
  | FAILOVER srvs => test_one (lit "failover") d (srvs !! 0%nat) tl t
  | VALIDATION rule action => test_validation rule action is_last tl t
  | GROUP _ _ | AGGRSTUB _ | STATSTUB _ | LB _ =>
      Some (TNext, tl, print [line_of [lit "    cluster("; cluster_name d; lit ")"]] t)
  end.

Fixpoint test_dests again (m : matcher) (masq : option cstring) (off : nat) (ds : list (cluster server aggregator))
    (tl : tlocals) (t : tstate) : option (bool * tlocals * tstate) :=
  match ds with
  | [] => Some (false, tl, t)
  | d :: ds' =>
      '(c, tl, t) ← test_dest again m masq off d (bool_decide (length ds' = 0%nat)) tl t;
      match c with
      | TNext => test_dests again m masq off ds' tl t
      | TSkip => Some (false, tl, t)
      | TReturn => Some (true, tl, t)
      end
  end.

(** ** The routes *)

(** The loop over routes: [one] runs a route, and says whether the loop is left. *)
Fixpoint test_list (one : route server aggregator -> nat -> tlocals -> tstate -> option (bool * tlocals * tstate))
    (rs : list (route server aggregator)) (off : nat) (tl : tlocals) (t : tstate) : option (tlocals * tstate) :=
  match rs with
  | [] => Some (tl, t)
  | w :: rs' => '(leave, tl, t) ← one w off tl t; if leave : bool then Some (tl, t) else test_list one rs' off tl t
  end.
Definition test_call (one : route server aggregator -> nat -> tlocals -> tstate -> option (bool * tlocals * tstate))
    (rs : list (route server aggregator)) (off fs : nat) (t : tstate) : option (Z * tstate) :=
  '(tl, t) ← test_list one rs off (mkTl 0 false fs garbage) t; Some (tl_got tl, t).

(** A route, among the routes [here] of its level; [again] tests another metric on routes. *)
Abbreviation retest := (list (route server aggregator) -> cstring -> nat -> list item -> option (Z * list item)) (only parsing).
Fixpoint test_route (again : retest) (here : list (route server aggregator)) (w : route server aggregator) (off : nat)
    (tl : tlocals) (t : tstate) {struct w} : option (bool * tlocals * tstate) :=
  match w with
  | mkRoute m masq stop dests =>
      match dests with
      | [] => None
      | GROUP _ routes :: _ =>
          '(g, t) ← test_call (test_route again routes) routes off (tl_fs tl) t;
          let tl := got g tl in
          Some (negb (Z.land (tl_got tl) 2 =? 0), tl, t)
      | first :: _ =>
          let '(ok, pm) := router_metric_matches m (before ++ take off (t_line t))
                             (test_name off (tl_fs tl) t) (test_rest (tl_fs tl) t) 0 (tl_pmatch tl) in
          let tl := mkTl (tl_got tl) (tl_stop tl) (tl_fs tl) pm in
          if ok then
            let tl := mkTl 1 (tl_stop tl) (tl_fs tl) pm in
            match first with
            | AGGRSTUB routes | STATSTUB routes =>
                '(g, t) ← test_call (test_route again routes) routes (off + length (m_pattern m)) (tl_fs tl) t;
                Some (true, got g tl, t)
            | _ =>
                let t := set_space (tl_fs tl) (print (match_items m first (test_name off (tl_fs tl) t)) t) in
                let tl := mkTl 1 stop (tl_fs tl) pm in
                '(returned, tl, t) ← test_dests (again here) m masq off dests tl t;
                if returned : bool then Some (true, tl, t)
                else if tl_stop tl then
                  Some (true, mkTl 3 (tl_stop tl) (tl_fs tl) (tl_pmatch tl), print [line_of [lit "    stop"]] t)
                else Some (false, tl, t)
            end
          else Some (false, tl, t)
      end
  end.

(** [router_test_intern]; [fuel] bounds how often a metric made by an aggregation
    is tested in turn. *)
Fixpoint router_test_intern (fuel : nat) (rs : list (route server aggregator)) (off fs : nat) (t : tstate) : option (Z * tstate) :=
  match fuel with
  | O => None
  | S fuel' =>
      let again rs new fs items :=
        '(g, t) ← router_test_intern fuel' rs 0 fs (mkT new items); Some (g, t_out t) in
      test_call (test_route again rs) rs off fs t
  end.

(** The first space, or the end. *)
Fixpoint find_space (metric_path : cstring) : nat :=
  match metric_path with [] => 0 | c :: metric_path' => if c =? ch " " then 0 else S (find_space metric_path') end.

(** [router_test]: what is printed. *)
Definition router_test (fuel : nat) (rs : list (route server aggregator)) (metric_path : cstring) : option (list item) :=
  let firstspace := find_space metric_path in
  '(g, t) ← router_test_intern fuel rs 0 firstspace (mkT metric_path []);
  Some (t_out t ++ if g =? 0 then [line_of [lit "nothing matched "; take firstspace (t_line t)]] else []).


(** ** What is printed and what is sent *)

(** The servers in the output. *)
Definition served (items : list item) : list server :=
  omap (fun i => match i with PrintedServer s | PrintedPath s => Some s | Printed _ => None end) items.

Lemma served_app a b : served (a ++ b) = served a ++ served b.
Proof. apply omap_app. Qed.
Lemma served_servers srvs : served (PrintedServer <$> srvs) = srvs.
Proof. unfold served. induction srvs as [|s srvs IH]; csimpl; [done|]. by rewrite IH. Qed.
Lemma served_paths srvs : served (PrintedPath <$> srvs) = srvs.
Proof. unfold served. induction srvs as [|s srvs IH]; csimpl; [done|]. by rewrite IH. Qed.

(** Destinations for which the test is meant to agree with routing: no load
    balancing, aggregation, validation or stub; rings with enough servers. *)
Definition testable_dest (d : cluster server aggregator) : Prop :=
  match d with
  | BLACKHOLE | FORWARD _ | FILELOG _ | FILELOGIP _ | REWRITE _ => True
  | CARBON_CH repl ring | FNV1A_CH repl ring | JUMP_CH repl ring => ring_wf repl ring
  | ANYOF srvs | FAILOVER srvs => srvs <> []
  | _ => False
  end.

Context (cx : context).
Context (Hbefore : c_before cx = before) (Hgarbage : c_garbage cx = garbage).

(** The regex of a route is the same for every dispatcher; no other name is used for hashing. *)
Definition same_rule (m : matcher) : Prop := m_rule m !! c_dispatcher cx = m_rule m !! 0%nat.
Definition testable_flat (w : route server aggregator) : Prop :=
  rt_masq w = None /\ rt_dests w <> [] /\ Forall testable_dest (rt_dests w) /\ same_rule (rt_match w).
(** Groups are those of the optimiser: plain routes, for a text they require. *)
Definition testable (w : route server aggregator) : Prop :=
  match rt_dests w with
  | GROUP name rs :: _ =>
      Forall plain_route rs /\ Forall testable_flat rs /\ forall mem nm rest, group_covers cx mem nm rest name rs
  | _ => testable_flat w
  end.

Lemma matches_dispatcher (m : matcher) mem name rest pm :
  same_rule m -> router_metric_matches m mem name rest 0 pm = router_metric_matches m mem name rest (c_dispatcher cx) pm.
Proof. intros Hr. unfold router_metric_matches. destruct (m_type m); try done. by rewrite Hr. Qed.

(** The two walks are at the same point. *)
Record level (lo : locals) (st : rstate server aggregator) (tl : tlocals) (t : tstate) : Prop := {
  lv_fs : tl_fs tl = l_fs lo; lv_pmatch : tl_pmatch tl = l_pmatch lo; lv_line : t_line t = s_line st;
  lv_space : s_line st !! l_fs lo = Some (ch " ");
  lv_served : served (t_out t) = (s_ret st).*1;
}.
Definition overfull (t : tstate) : Prop := c_retsize cx < Z.of_nat (length (served (t_out t))).

Lemma set_space_id fs t : t_line t !! fs = Some (ch " ") -> set_space fs t = t.
Proof.
  intros Hs. unfold set_space. pose proof (lookup_lt_Some _ _ _ Hs). destruct (Nat.ltb_spec fs (length (t_line t))); [|lia].
  rewrite list_insert_id by done. by destruct t.
Qed.

(** A rewritten metric keeps its space. *)
Lemma rewrite_space name rest replacement nmatch pm new fs c :
  router_rewrite_metric name rest replacement nmatch pm = Some (new, fs) -> rest !! 0%nat = Some c -> new !! fs = Some c.
Proof.
  unfold router_rewrite_metric. destruct (default (0, 0) (pm !! 0%nat)) as [so eo]. repeat case_match; try done.
  intros [= <- <-] Hr. rewrite lookup_app_r by lia. by rewrite Nat.sub_diag.
Qed.

Lemma ring_nodes repl (ring : ch_ring server) key :
  ring_wf repl ring -> exists nodes, ch_get_nodes (length (entrylist ring)) 0 ring (s8 (Z.of_nat repl)) key = Some nodes /\
    (repl <= length nodes)%nat.
Proof.
  intros Hw. pose proof (send_ring_total (aggregator := aggregator) (mkCtx (Z.of_nat repl) [] [] 0 [] []) repl ring None 0 0
    (mkLoc false false (length key) []) (mkSt false [] key []) Hw) as [r Hr].
  unfold send_ring in Hr. destruct (no_slots _ _ _) eqn:E in Hr.
  { unfold no_slots in E. cbn in E. apply Z.ltb_lt in E. lia. }
  unfold metric_name in Hr. cbn [l_fs s_line] in Hr. rewrite drop_0, Nat.sub_0_r, take_ge in Hr by lia.
  destruct (ch_get_nodes _ _ _ _ _) as [nodes|]; [|done]. exists nodes. split; [done|].
  destruct (Nat.ltb_spec (length nodes) repl); [done|lia].
Qed.

Lemma gethashpos_total repl (ring : ch_ring server) key : ring_wf repl ring -> is_Some (ch_gethashpos ring key).
Proof.
  intros [_ Hr]. unfold ch_gethashpos. destruct (r_type ring); [done|done|]. destruct Hr as [Hn Hc]. unfold entrycnt in *.
  destruct (jump_bucketpos_total (fnv1a_64 key) (Z.of_nat (length (entrylist ring)))) as (b & -> & _); [lia|]. done.
Qed.

(** *** One destination *)

Lemma print_print a b t : print b (print a t) = print (a ++ b) t.
Proof. unfold print. cbn. by rewrite app_assoc. Qed.

Lemma test_ring_run d repl ring nmatch tl t :
  ring_wf repl ring -> tl_got tl = 1 ->
  exists nodes items, ch_get_nodes (length (entrylist ring)) 0 ring (s8 (Z.of_nat repl)) (test_name 0 (tl_fs tl) t) = Some nodes /\
    (repl <= length nodes)%nat /\ test_ring d repl ring None nmatch 0 tl t = Some (TNext, tl, print items t) /\
    served items = take repl nodes.
Proof.
  intros Hw Hg. destruct (ring_nodes repl ring (test_name 0 (tl_fs tl) t) Hw) as (nodes & E & Hl).
  destruct (gethashpos_total repl ring (test_name 0 (tl_fs tl) t) Hw) as [pos Ep].
  unfold test_ring. rewrite Hg. change (negb (Z.land 1 4 =? 0)) with false. cbn iota. run_binds.
  change (test_name 0 (tl_fs tl) (print _ t)) with (test_name 0 (tl_fs tl) t).
  assert ((if debug then ch_gethashpos ring (test_name 0 (tl_fs tl) t) else Some 0) = Some (if debug then pos else 0)) as ->
    by (by destruct debug).
  run_binds. rewrite E. run_binds. destruct (Nat.ltb_spec (length nodes) repl); [lia|].
  rewrite print_print. eexists nodes, _. split_and!; [done|done|done|].
  rewrite !served_app, served_servers. by destruct debug.
Qed.

Lemma test_dest_run again m d is_last tl t :
  testable_dest d -> tl_got tl = 1 ->
  exists tl' t' items, test_dest again m None 0 d is_last tl t = Some (TNext, tl', t') /\
    tl_got tl' = 1 /\ tl_stop tl' = tl_stop tl /\ t_out t' = t_out t ++ items.
Proof.
  intros Hd Hg. destruct d; try done; cbn [test_dest testable_dest] in *; try (by eexists _, _, _).
  1-3: match goal with |- context [test_ring ?d ?r ?ring] =>
         destruct (test_ring_run d r ring (m_nmatch m) tl t Hd Hg) as (nodes & items & _ & _ & E & _) end; rewrite E; by eexists _, _, _.
  - unfold test_one. rewrite Hg. change (negb (Z.land 1 4 =? 0)) with false. cbn iota.
    pose proof (Z.mod_pos_bound (fnv1a_32 (test_name 0 (tl_fs tl) t)) (Z.of_nat (length srvs)) ltac:(destruct srvs; [done|simpl; lia])).
    destruct (lookup_lt_is_Some_2 srvs (Z.to_nat (fnv1a_32 (test_name 0 (tl_fs tl) t) mod Z.of_nat (length srvs)))) as [s ->]; [lia|].
    run_binds. rewrite print_print. by eexists _, _, _.
  - unfold test_one. rewrite Hg. change (negb (Z.land 1 4 =? 0)) with false. cbn iota. destruct srvs as [|s srvs]; [done|]. cbn [lookup list_lookup]. run_binds.
    rewrite print_print. by eexists _, _, _.
  - unfold test_rewrite. destruct (router_rewrite_metric _ _ _ _ _) as [[new fs]|]; [|exists tl, t, []; by rewrite app_nil_r].
    by eexists _, _, _.
Qed.

Lemma send_forward_run fmt srvs : forall lo (st : rstate server aggregator) c lo' st',
  send_forward cx fmt srvs lo st = Some (c, lo', st') ->
  (c = Next /\ lo' = set_sent lo /\ s_line st' = s_line st /\ (s_ret st').*1 = (s_ret st).*1 ++ srvs) \/
  (c = Failed /\ c_retsize cx < Z.of_nat (length (s_ret st) + length srvs)).
Proof.
  induction srvs as [|s srvs IH]; intros lo st c lo' st'; cbn [send_forward].
  { intros [= <- <- <-]. left. by rewrite app_nil_r. }
  destruct (no_slots cx st 1) eqn:E.
  { intros [= <- <- <-]. right. split; [done|]. unfold no_slots in E. apply Z.ltb_lt in E. cbn [length]. lia. }
  intros Hs. apply IH in Hs as [(-> & -> & Hl & Hr)|[-> Hr]]; [left|right].
  - split_and!; [done|done|done|]. rewrite Hr. cbn. by rewrite fmap_app, <- app_assoc.
  - split; [done|]. cbn [add_ret s_ret] in Hr. rewrite length_app in Hr. cbn [length] in *. lia.
Qed.

(** The outcome of a destination on both sides. *)
Definition dest_agrees (c : control) (lo lo' : locals) (st' : rstate server aggregator) (tl' : tlocals) (t' : tstate) : Prop :=
  (c = Next /\ level lo' st' tl' t' /\ l_stop lo' = l_stop lo) \/ (c = Failed /\ overfull t').

Lemma level_served lo st tl t : level lo st tl t -> length (served (t_out t)) = length (s_ret st).
Proof. intros Hl. rewrite (lv_served _ _ _ _ Hl). apply length_fmap. Qed.

Lemma forward_agrees fmt srvs items lo st c lo' st' tl t :
  level lo st tl t -> send_forward cx fmt srvs lo st = Some (c, lo', st') -> served items = srvs ->
  dest_agrees c lo lo' st' tl (print items t).
Proof.
  intros Hl Hs Hi. pose proof (level_served _ _ _ _ Hl) as Hn. destruct Hl as [Ha Hb Hc Hd He].
  apply send_forward_run in Hs as [(-> & -> & Hln & Hr)|[-> Hr]]; [left|right].
  - split; [done|]. split; [|done]. split; cbn; [done|done|congruence|by rewrite Hln|]. by rewrite served_app, Hi, Hr, He.
  - split; [done|]. unfold overfull, print. cbn [t_out]. rewrite served_app, Hi, length_app, Hn. lia.
Qed.

Lemma one_agrees s metric lo st c lo' st' tl t items :
  level lo st tl t -> send_one cx (Some s) metric lo st = Some (c, lo', st') -> served items = [s] ->
  dest_agrees c lo lo' st' tl (print items t).
Proof.
  intros Hl Hs Hi. pose proof (level_served _ _ _ _ Hl) as Hn. destruct Hl as [Ha Hb Hc Hd He]. unfold send_one in Hs.
  destruct (no_slots cx st 1) eqn:E; injection Hs as <- <- <-; [right|left].
  - split; [done|]. unfold no_slots in E. apply Z.ltb_lt in E. unfold overfull, print. cbn [t_out].
    rewrite served_app, Hi, length_app, Hn. cbn [length]. lia.
  - split; [done|]. split; [|done]. split; cbn; [done..|]. by rewrite served_app, fmap_app, Hi, He.
Qed.

Lemma ring_agrees d repl ring nmatch lo st c lo' st' tl t :
  ring_wf repl ring -> tl_got tl = 1 -> level lo st tl t ->
  send_ring cx repl ring None nmatch 0 lo st = Some (c, lo', st') ->
  exists t', test_ring d repl ring None nmatch 0 tl t = Some (TNext, tl, t') /\ dest_agrees c lo lo' st' tl t'.
Proof.
  intros Hw Hg Hl Hs. destruct (test_ring_run d repl ring nmatch tl t Hw Hg) as (nodes & items & E & Hn & Et & Hi).
  exists (print items t). split; [done|]. pose proof (level_served _ _ _ _ Hl) as Hlen. destruct Hl as [Ha Hb Hc Hd He].
  unfold send_ring in Hs. unfold metric_name in Hs. unfold test_name in E. rewrite Hc, Ha in E. rewrite E in Hs.
  destruct (Nat.ltb_spec (length nodes) repl); [lia|].
  destruct (no_slots cx st (Z.of_nat repl)) eqn:En; injection Hs as <- <- <-; [right|left].
  - split; [done|]. unfold no_slots in En. apply Z.ltb_lt in En. unfold overfull, print. cbn [t_out].
    rewrite served_app, Hi, length_app, length_take, Hlen. lia.
  - split; [done|]. split; [|done]. split; cbn; [done..|]. rewrite served_app, fmap_app, Hi, He. f_equal.
    rewrite <- list_fmap_compose. by rewrite (list_fmap_ext _ id) by done; rewrite list_fmap_id.
Qed.

Lemma dest_sim again go m first d is_last lo st c lo' st' tl t :
  testable_dest d -> tl_got tl = 1 -> level lo st tl t ->
  run_dest cx go m None first 0 d is_last lo st = Some (c, lo', st') ->
  exists tl' t', test_dest again m None 0 d is_last tl t = Some (TNext, tl', t') /\ dest_agrees c lo lo' st' tl' t'.
Proof.
  intros Hd Hg Hl Hr. pose proof Hl as [Ha Hb Hc Hsp He].
  destruct d; try done; cbn [run_dest test_dest testable_dest] in *.
  - injection Hr as <- <- <-. eexists _, _. split; [done|]. left. split; [done|]. split; [|done]. split; cbn; try done.
    by rewrite served_app, app_nil_r.
  - eexists _, _. split; [done|]. by eapply forward_agrees; [..|apply served_servers].
  - eexists _, _. split; [done|]. by eapply forward_agrees; [..|apply served_paths].
  - eexists _, _. split; [done|]. by eapply forward_agrees; [..|apply served_paths].
  - destruct (ring_agrees (CARBON_CH repl_factor ring) _ _ _ _ _ _ _ _ _ _ Hd Hg Hl Hr) as (t' & E & Ht). rewrite E. by eexists _, _.
  - destruct (ring_agrees (FNV1A_CH repl_factor ring) _ _ _ _ _ _ _ _ _ _ Hd Hg Hl Hr) as (t' & E & Ht). rewrite E. by eexists _, _.
  - destruct (ring_agrees (JUMP_CH repl_factor ring) _ _ _ _ _ _ _ _ _ _ Hd Hg Hl Hr) as (t' & E & Ht). rewrite E. by eexists _, _.
  - unfold test_one. rewrite Hg. change (negb (Z.land 1 4 =? 0)) with false. cbn iota.
    assert (test_name 0 (tl_fs tl) t = metric_name 0 lo st) as -> by (unfold test_name, metric_name; by rewrite Ha, Hc).
    pose proof (Z.mod_pos_bound (fnv1a_32 (metric_name 0 lo st)) (Z.of_nat (length srvs)) ltac:(destruct srvs; [done|simpl; lia])).
    destruct (lookup_lt_is_Some_2 srvs (Z.to_nat (fnv1a_32 (metric_name 0 lo st) mod Z.of_nat (length srvs)))) as [s Es]; [lia|].
    rewrite Es in Hr |- *. run_binds. rewrite print_print. eexists _, _. split; [done|]. by eapply one_agrees.
  - unfold test_one. rewrite Hg. change (negb (Z.land 1 4 =? 0)) with false. cbn iota. destruct srvs as [|s srvs]; [done|].
    cbn [lookup list_lookup] in Hr |- *. run_binds. rewrite print_print. eexists _, _. split; [done|]. by eapply one_agrees.
  - unfold apply_rewrite in Hr. unfold test_rewrite.
    assert (test_name 0 (tl_fs tl) t = metric_name 0 lo st) as -> by (unfold test_name, metric_name; by rewrite Ha, Hc).
    assert (test_rest (tl_fs tl) t = metric_rest lo st) as -> by (unfold test_rest, metric_rest; by rewrite Ha, Hc).
    rewrite Hb. destruct (router_rewrite_metric _ _ _ _ _) as [[new fs]|] eqn:E; injection Hr as <- <- <-.
    2: { eexists _, _. split; [done|]. left. by split_and!. }
    eexists _, _. split; [done|]. left. split; [done|]. split; [|done].
    assert (new !! fs = Some (ch " ")) as Hnew.
    { eapply rewrite_space; [exact E|]. unfold metric_rest. by rewrite lookup_drop, Nat.add_0_r. }
    rewrite set_space_id by (cbn; by rewrite take_0).
    split; cbn; rewrite ?take_0; try done. by rewrite served_app, app_nil_r.
Qed.

(** *** Destinations and routes *)

Lemma overfull_app t t' items : t_out t' = t_out t ++ items -> overfull t -> overfull t'.
Proof. unfold overfull. intros ->. rewrite served_app, length_app. lia. Qed.

Lemma test_dests_run again m ds : forall tl t,
  Forall testable_dest ds -> tl_got tl = 1 ->
  exists tl' t' items, test_dests again m None 0 ds tl t = Some (false, tl', t') /\
    tl_got tl' = 1 /\ tl_stop tl' = tl_stop tl /\ t_out t' = t_out t ++ items.
Proof.
  induction ds as [|d ds IH]; intros tl t Hds Hg; cbn [test_dests].
  { exists tl, t, []. by rewrite app_nil_r. }
  apply Forall_cons in Hds as [Hd Hds].
  destruct (test_dest_run again m d (bool_decide (length ds = 0%nat)) tl t Hd Hg) as (tl1 & t1 & items & -> & Hg1 & Hs1 & Ho1).
  run_binds. destruct (IH tl1 t1 Hds Hg1) as (tl2 & t2 & items2 & -> & Hg2 & Hs2 & Ho2).
  exists tl2, t2, (items ++ items2). split_and!; [done|done|congruence|]. by rewrite Ho2, Ho1, app_assoc.
Qed.

Lemma dests_sim again go m first ds : forall lo st b lo' st' tl t,
  Forall testable_dest ds -> tl_got tl = 1 -> level lo st tl t ->
  run_dests cx go m None first 0 ds lo st = Some (b, lo', st') ->
  exists tl' t', test_dests again m None 0 ds tl t = Some (false, tl', t') /\
    (overfull t' \/ b = false /\ level lo' st' tl' t' /\ l_stop lo' = l_stop lo).
Proof.
  induction ds as [|d ds IH]; intros lo st b lo' st' tl t Hds Hg Hl; cbn [run_dests test_dests].
  { intros [= <- <- <-]. exists tl, t. split; [done|]. by right. }
  apply Forall_cons in Hds as [Hd Hds].
  destruct (run_dest _ _ _ _ _ _ _ _ _) as [[[c lo1] st1]|] eqn:E; [|done]. intros Hr.
  destruct (dest_sim again _ _ _ _ _ _ _ _ _ _ _ _ Hd Hg Hl E) as (tl1 & t1 & Et & Ha).
  destruct (test_dest_run again m d (bool_decide (length ds = 0%nat)) tl t Hd Hg) as (tl1' & t1' & items & Et' & Hg1 & Hs1 & Ho1).
  rewrite Et in Et'. injection Et' as <- <-. rewrite Et. run_binds. destruct Ha as [(-> & Hl1 & Hst)|[-> Hover]].
  - destruct (IH lo1 st1 b lo' st' tl1 t1 Hds Hg1 Hl1 Hr) as (tl2 & t2 & -> & Ho). exists tl2, t2. split; [done|].
    rewrite Hst in Ho. done.
  - destruct (test_dests_run again m ds tl1 t1 Hds Hg1) as (tl2 & t2 & items2 & -> & _ & _ & Ho2).
    exists tl2, t2. split; [done|]. left. by eapply overfull_app.
Qed.

Definition says_stop (tl : tlocals) : bool := negb (Z.land (tl_got tl) 2 =? 0).

(** A route that is no group, on both sides. *)
Definition plain_step (again : retest) here w tl t : option (bool * tlocals * tstate) :=
  let 'mkRoute m masq stop dests := w in
  let '(ok, pm) := router_metric_matches m (before ++ take 0 (t_line t)) (test_name 0 (tl_fs tl) t) (test_rest (tl_fs tl) t) 0 (tl_pmatch tl) in
  if ok then
    first ← head dests;
    let t := set_space (tl_fs tl) (print (match_items m first (test_name 0 (tl_fs tl) t)) t) in
    '(returned, tl, t) ← test_dests (again here) m masq 0 dests (mkTl 1 stop (tl_fs tl) pm) t;
    if returned : bool then Some (true, tl, t)
    else if tl_stop tl then Some (true, mkTl 3 (tl_stop tl) (tl_fs tl) (tl_pmatch tl), print [line_of [lit "    stop"]] t)
    else Some (false, tl, t)
  else Some (false, mkTl (tl_got tl) (tl_stop tl) (tl_fs tl) pm, t).
Lemma test_route_flat again here w tl t : testable_flat w -> test_route again here w 0 tl t = plain_step again here w tl t.
Proof.
  destruct w as [m masq stop dests]. intros (_ & Hne & Hds & _). cbn in *. destruct dests as [|d ds]; [done|].
  apply Forall_cons in Hds as [Hd _]. destruct d; done.
Qed.

Lemma flat_run again here w tl t :
  testable_flat w -> exists leave tl' t' items, test_route again here w 0 tl t = Some (leave, tl', t') /\ t_out t' = t_out t ++ items.
Proof.
  intros Hw. rewrite test_route_flat by done. destruct w as [m masq stop dests]. destruct Hw as (Hm & Hne & Hds & _). cbn in *. subst masq.
  destruct (router_metric_matches _ _ _ _ _ _) as [[|] pm]; [|eexists _, _, _, []; by rewrite app_nil_r].
  destruct dests as [|d ds]; [done|]. cbn [head]. run_binds. set (t1 := set_space _ _).
  destruct (test_dests_run (again here) m (d :: ds) (mkTl 1 stop (tl_fs tl) pm) t1 Hds eq_refl) as (tl2 & t2 & items & -> & _ & _ & Ho).
  run_binds. assert (exists a, t_out t1 = t_out t ++ a) as [a Ha] by (by eexists).
  destruct (tl_stop tl2); eexists _, _, _, _; (split; [done|]); cbn; rewrite Ho, Ha, <- ?app_assoc; done.
Qed.

Lemma flat_sim again here w lo st b lo' st' tl t :
  testable_flat w -> level lo st tl t -> l_stop lo = false -> says_stop tl = false ->
  run_route cx w 0 lo st = Some (b, lo', st') ->
  exists leave tl' t', test_route again here w 0 tl t = Some (leave, tl', t') /\
    (overfull t' \/ b = false /\ level lo' st' tl' t' /\ leave = l_stop lo' /\ says_stop tl' = l_stop lo').
Proof.
  intros Hw Hl Hstop Hgot Hr. rewrite test_route_flat by done.
  destruct w as [m masq stop dests]. destruct Hw as (Hm & Hne & Hds & Hrule). cbn [rt_masq rt_dests rt_match] in *. subst masq.
  destruct dests as [|d ds]; [done|]. pose proof Hl as [Ha Hb Hc Hsp He]. unfold plain_step. cbn [head]. run_binds.
  assert ((let '(ok, pm) := router_metric_matches m (c_before cx ++ take 0 (s_line st)) (metric_name 0 lo st) (metric_rest lo st)
      (c_dispatcher cx) (l_pmatch lo) in
    if ok then run_dests cx (fun rs => run_call cx (run_route cx) rs) m None d 0 (d :: ds) (mkLoc stop (l_wassent lo) (l_fs lo) pm) st
    else Some (false, mkLoc (l_stop lo) (l_wassent lo) (l_fs lo) pm, st)) = Some (b, lo', st')) as Hr'.
  { apply Forall_cons in Hds as [Hd _]. destruct d; done. }
  clear Hr. rewrite matches_dispatcher by done. rewrite <- Hbefore.
  assert (test_name 0 (tl_fs tl) t = metric_name 0 lo st) as -> by (unfold test_name, metric_name; by rewrite Ha, Hc).
  assert (test_rest (tl_fs tl) t = metric_rest lo st) as -> by (unfold test_rest, metric_rest; by rewrite Ha, Hc).
  rewrite Hb, Hc. destruct (router_metric_matches _ _ _ _ _ _) as [[|] pm].
  2: { injection Hr' as <- <- <-. eexists _, _, _. split; [done|]. right. split_and!; [done|split; done|done|]. by rewrite <- Hstop in Hgot. }
  rewrite set_space_id by (cbn; by rewrite Hc, Ha).
  set (t1 := print _ t).
  assert (level (mkLoc stop (l_wassent lo) (l_fs lo) pm) st (mkTl 1 stop (tl_fs tl) pm) t1) as Hl1.
  { split; cbn; try done. rewrite <- He, served_app.
    assert (served (match_items m d (metric_name 0 lo st)) = []) as -> by (unfold match_items; by destruct (m_type m)). by rewrite app_nil_r. }
  destruct (dests_sim (again here) _ m d (d :: ds) _ st b lo' st' (mkTl 1 stop (tl_fs tl) pm) t1 Hds eq_refl Hl1 Hr')
    as (tl2 & t2 & E2 & Ho).
  destruct (test_dests_run (again here) m (d :: ds) (mkTl 1 stop (tl_fs tl) pm) t1 Hds eq_refl) as (tl2' & t2' & items & E2' & Hg2 & Hs2 & _).
  rewrite E2 in E2'. injection E2' as <- <-. rewrite E2. run_binds. cbn [tl_stop] in Hs2. rewrite Hs2. destruct stop.
  - eexists _, _, _. split; [done|]. destruct Ho as [Ho|(-> & Hl2 & Hst)]; [left; by eapply overfull_app|right].
    cbn [l_stop] in Hst. split_and!; [done| |by rewrite Hst|by rewrite Hst].
    destruct Hl2 as [? ? ? ? Hserved]. split; cbn; try done. by rewrite served_app, app_nil_r.
  - eexists _, _, _. split; [done|]. destruct Ho as [Ho|(-> & Hl2 & Hst)]; [by left|right].
    cbn [l_stop] in Hst. split_and!; [done|done|by rewrite Hst|]. unfold says_stop. by rewrite Hg2, Hst.
Qed.

(** *** Lists of routes and groups *)

Section List.
Context (one : route server aggregator -> nat -> tlocals -> tstate -> option (bool * tlocals * tstate)).
Context (ok : route server aggregator -> Prop).
Context (one_run : forall w tl t, ok w -> exists leave tl' t' items, one w 0 tl t = Some (leave, tl', t') /\ t_out t' = t_out t ++ items).
Context (one_sim : forall w lo st b lo' st' tl t, ok w -> level lo st tl t -> l_stop lo = false -> says_stop tl = false ->
  run_route cx w 0 lo st = Some (b, lo', st') ->
  exists leave tl' t', one w 0 tl t = Some (leave, tl', t') /\
    (overfull t' \/ b = false /\ level lo' st' tl' t' /\ leave = l_stop lo' /\ says_stop tl' = l_stop lo')).

Lemma list_run rs : forall tl t, Forall ok rs ->
  exists tl' t' items, test_list one rs 0 tl t = Some (tl', t') /\ t_out t' = t_out t ++ items.
Proof.
  induction rs as [|w rs IH]; intros tl t Hrs; cbn [test_list].
  { exists tl, t, []. by rewrite app_nil_r. }
  apply Forall_cons in Hrs as [Hw Hrs]. destruct (one_run w tl t Hw) as (leave & tl1 & t1 & items & -> & Ho). run_binds.
  destruct leave; [by eexists _, _, _|]. destruct (IH tl1 t1 Hrs) as (tl2 & t2 & items2 & -> & Ho2).
  exists tl2, t2, (items ++ items2). split; [done|]. by rewrite Ho2, Ho, app_assoc.
Qed.

Lemma list_sim rs : forall lo st b lo' st' tl t,
  Forall ok rs -> level lo st tl t -> l_stop lo = false -> says_stop tl = false ->
  run_list (run_route cx) rs 0 lo st = Some (b, lo', st') ->
  exists tl' t', test_list one rs 0 tl t = Some (tl', t') /\
    (overfull t' \/ b = false /\ level lo' st' tl' t' /\ says_stop tl' = l_stop lo').
Proof.
  induction rs as [|w rs IH]; intros lo st b lo' st' tl t Hrs Hl Hstop Hgot; cbn [run_list test_list].
  { intros [= <- <- <-]. exists tl, t. split; [done|]. right. split_and!; [done|done|congruence]. }
  apply Forall_cons in Hrs as [Hw Hrs]. destruct (run_route cx w 0 lo st) as [[[b1 lo1] st1]|] eqn:E; [|done]. intros Hr.
  destruct (one_sim w _ _ _ _ _ _ _ Hw Hl Hstop Hgot E) as (leave & tl1 & t1 & E1 & Ho). rewrite E1. run_binds.
  destruct Ho as [Ho|(-> & Hl1 & -> & Hs1)].
  - destruct leave; [by exists tl1, t1; split; [|left]|].
    destruct (list_run rs tl1 t1 Hrs) as (tl2 & t2 & items & -> & Ho2). exists tl2, t2. split; [done|]. left. by eapply overfull_app.
  - destruct (l_stop lo1) eqn:Es.
    + injection Hr as <- <- <-. exists tl1, t1. split; [done|]. right. split_and!; [done|done|congruence].
    + by apply (IH lo1 st1).
Qed.
End List.

(** Routes that do not match print nothing. *)
Lemma list_unmatched again here rs : forall tl t,
  Forall testable_flat rs ->
  Forall (fun w => forall pm, (router_metric_matches (rt_match w) (before ++ take 0 (t_line t)) (test_name 0 (tl_fs tl) t)
    (test_rest (tl_fs tl) t) (c_dispatcher cx) pm).1 = false) rs ->
  exists pm, test_list (test_route again here) rs 0 tl t = Some (mkTl (tl_got tl) (tl_stop tl) (tl_fs tl) pm, t).
Proof.
  induction rs as [|w rs IH]; intros tl t Hrs Hm; cbn [test_list].
  { exists (tl_pmatch tl). by destruct tl. }
  apply Forall_cons in Hrs as [Hw Hrs]. apply Forall_cons in Hm as [Hm1 Hm]. rewrite test_route_flat by done.
  destruct w as [m masq stop dests]. cbn [plain_step rt_match] in *. rewrite matches_dispatcher by apply Hw.
  specialize (Hm1 (tl_pmatch tl)). destruct (router_metric_matches _ _ _ _ _ _) as [ok pm]. cbn in Hm1. subst ok. run_binds.
  by apply (IH (mkTl (tl_got tl) (tl_stop tl) (tl_fs tl) pm)).
Qed.

Lemma testable_run again here w tl t :
  testable w -> exists leave tl' t' items, test_route again here w 0 tl t = Some (leave, tl', t') /\ t_out t' = t_out t ++ items.
Proof.
  intros Hw. unfold testable in Hw. destruct w as [m masq stop dests]. cbn [rt_dests] in Hw.
  destruct dests as [|d ds]; [by apply flat_run|]. destruct d; try by apply flat_run.
  destruct Hw as (_ & Hrs & _). cbn [test_route]. unfold test_call.
  destruct (list_run (test_route again routes) testable_flat (fun w tl t => flat_run again routes w tl t) routes
    (mkTl 0 false (tl_fs tl) garbage) t Hrs) as (tl1 & t1 & items & -> & Ho). run_binds. by eexists _, _, _, _.
Qed.

Lemma says_stop_got g tl : says_stop tl = false -> says_stop (got g tl) = negb (Z.land g 2 =? 0).
Proof.
  unfold says_stop. cbn. intros Hs. apply negb_false_iff, Z.eqb_eq in Hs. by rewrite Z.land_lor_distr_l, Hs.
Qed.

Lemma group_sim again here m masq stop name routes ds lo st b lo' st' tl t :
  testable (mkRoute m masq stop (GROUP name routes :: ds)) ->
  level lo st tl t -> l_stop lo = false -> says_stop tl = false ->
  run_route cx (mkRoute m masq stop (GROUP name routes :: ds)) 0 lo st = Some (b, lo', st') ->
  exists leave tl' t', test_route again here (mkRoute m masq stop (GROUP name routes :: ds)) 0 tl t = Some (leave, tl', t') /\
    (overfull t' \/ b = false /\ level lo' st' tl' t' /\ leave = l_stop lo' /\ says_stop tl' = l_stop lo').
Proof.
  intros (Hplain & Hflat & Hcov) Hl Hstop Hgot. pose proof Hl as [Ha Hb Hc Hsp He]. cbn [run_route test_route]. unfold test_call.
  destruct (rev (metric_name 0 lo st)) as [|c0 r0] eqn:Erev; [done|]. rewrite <- Erev.
  assert (level (mkLoc false false (l_fs lo) (c_garbage cx)) st (mkTl 0 false (tl_fs tl) garbage) t) as Hl0.
  { split; cbn; done. }
  destruct (group_scan name (rev (metric_name 0 lo st))) eqn:Escan.
  - unfold run_call. destruct (run_list _ _ _ _ _) as [[[b1 lo1] st1]|] eqn:E; [|done]. intros Hr.
    destruct (list_sim (test_route again routes) testable_flat (fun w tl t => flat_run again routes w tl t)
      (fun w lo st b lo' st' tl t => flat_sim again routes w lo st b lo' st' tl t) routes _ _ _ _ _ _ _ Hflat Hl0 eq_refl eq_refl E)
      as (tl1 & t1 & -> & Ho). run_binds. eexists _, _, _. split; [done|].
    destruct Ho as [Ho|(-> & Hl1 & Hs1)]; [by left|right].
    pose proof (run_list_fs cx routes 0 _ _ _ _ _ Hplain E) as [Hfs1 Hln1]. destruct Hl1 as [? ? Hc1 _ He1].
    assert (b = false /\ lo' = mkLoc (l_stop lo1) (l_wassent lo) (l_fs lo) (l_pmatch lo) /\ s_ret st' = s_ret st1 /\ s_line st' = s_line st1)
      as (-> & -> & Er & El) by (destruct (l_wassent lo1); injection Hr as <- <- <-; done).
    split_and!; [done| | |]; cbn [l_stop].
    + split; cbn; [done|done|by rewrite El|by rewrite El, Hln1|by rewrite Er].
    + fold (says_stop (got (tl_got tl1) tl)). rewrite (says_stop_got _ _ Hgot). by rewrite <- Hs1.
    + rewrite (says_stop_got _ _ Hgot). by rewrite <- Hs1.
  - intros [= <- <- <-].
    pose proof (Hcov (before ++ take 0 (t_line t)) (metric_name 0 lo st) (metric_rest lo st) Escan) as Hm.
    destruct (list_unmatched again routes routes (mkTl 0 false (tl_fs tl) garbage) t Hflat) as [pm ->].
    { cbn [tl_fs]. unfold test_name, test_rest. rewrite Hc, Ha in *. exact Hm. }
    run_binds. eexists _, _, _. split; [done|]. right. cbn [tl_got].
    split_and!; [done|split; cbn; done| |].
    + fold (says_stop (got 0 tl)). by rewrite says_stop_got, Hstop.
    + by rewrite says_stop_got, Hstop.
Qed.

Lemma testable_sim again here w lo st b lo' st' tl t :
  testable w -> level lo st tl t -> l_stop lo = false -> says_stop tl = false ->
  run_route cx w 0 lo st = Some (b, lo', st') ->
  exists leave tl' t', test_route again here w 0 tl t = Some (leave, tl', t') /\
    (overfull t' \/ b = false /\ level lo' st' tl' t' /\ leave = l_stop lo' /\ says_stop tl' = l_stop lo').
Proof.
  intros Hw. pose proof Hw as Hw'. unfold testable in Hw'. destruct w as [m masq stop dests]. cbn [rt_dests] in Hw'.
  destruct dests as [|d ds]; [by apply flat_sim|]. destruct d; try (by apply flat_sim). by apply group_sim.
Qed.
End RouterTest.

Arguments item : clear implicits.
Arguments tstate : clear implicits.

Lemma find_space_lookup line : ch " " ∈ line -> line !! find_space line = Some (ch " ").
Proof.
  induction line as [|c line IH]; cbn [find_space]; intros Hin; [by apply elem_of_nil in Hin|].
  destruct (Z.eqb_spec c (ch " ")) as [->|Hc]; [done|]. apply elem_of_cons in Hin as [E|Hin]; [by rewrite E in Hc|]. by apply IH.
Qed.

(** ** A concrete configuration *)

#[local] Existing Instance simple_engine.
Definition demo_test (debug : bool) (behind : cstring) (rs : list (route addr nat)) (line : cstring) : option (list (item addr)) :=
  router_test (fun _ => lit "some") (fun _ => []) (fun _ => lit "0x1") debug [] behind [] 1 rs line.
Definition demo_group : route addr nat := mkRoute (demo_match CONTAINS [] []) None false [GROUP (rev (lit "_load")) demo_routes].

Example demo_test_prints :
  (fun items : list (item addr) => concat (render_item <$> items)) <$> demo_test false [] [demo_group] (lit "a.net_load 1 2") =
  Some (lit "match" ++ [10] ++ lit "    net_load [strstr: net_load]" ++ [10] ++ lit "    -> a.net_load" ++ [10] ++
        lit "    forward(some)" ++ [10] ++ lit "        net_load:2003" ++ [10] ++ lit "    stop" ++ [10]).
Proof. vm_compute. reflexivity. Qed.

(** ** Properties *)



(** A metric typed without a value has no space: after a match the test writes one over the terminator, and validates
    what an earlier line left behind it in the buffer. *)
Theorem test_without_value_reads_behind :
  let rule := demo_match CONTAINS (lit "7") (lit "7") in
  let w := mkRoute (demo_match CONTAINS (lit "a") (lit "a")) None false [VALIDATION rule VAL_DROP; BLACKHOLE] in
  last <$> demo_test false (lit "7") [w] (lit "a.b") = Some (Some (line_of [lit "    blackholed"])) /\
  last <$> demo_test false (lit "8") [w] (lit "a.b") = Some (Some (line_of [lit "        fail -> "; lit "drop"])).
Proof. vm_compute. done. Qed.

(** Test mode stops at the first stub that matches, where routing goes on with the routes behind it. *)
Theorem test_leaves_after_stub :
  let stub := mkRoute (demo_match STARTS_WITH (lit "^_s_") (lit "_s_")) None false [AGGRSTUB [demo_forward (lit "cpu") false]] in
  let rs := [stub; demo_forward (lit "load") false] in
  served <$> demo_test false [] rs (lit "_s_a.cpu_load 1 2") = Some [mkAddr (lit "cpu") 2003 None] /\
  (fun st => (s_ret st).*1) <$> router_route demo_cx rs (lit "_s_a.cpu_load 1 2") 14 =
    Some [mkAddr (lit "cpu") 2003 None; mkAddr (lit "load") 2003 None].
Proof. vm_compute. done. Qed.
