(* ===== verification/Collector.v ===== *)
(** * The collector (src/collector.c)

    A thread that looks at the statistics of the dispatchers, the servers and the
    aggregators: [collector_runner] turns them into metrics, every interval, and
    sends these to the server it was started with ([submission], the relay's
    internal one); [collector_writer] warns about full queues and dropped metrics
    instead, and prints a line per second in debug mode.

    A computation on the state that the thread looks at is a [col]: it returns
    nothing when the code reads outside an array or fails an assertion.  The other
    threads do not run during a report; [malloc] succeeds. *)
From Stdlib Require Import Floats.SpecFloat.
From S2P Require Import Prelude Relay Queue Double Aggregator DispatchParse Dispatcher ConsistentHash Rewrite Matching Router Server RouterConfig.
#[local] Open Scope Z_scope.

Section Collector.
(** [R]: the dispatchers' routers. *)
Context {Q R : Type} `{FifoQueue Q (list Z)} `{Regex}.

(** What the thread looks at: the servers, the dispatchers, the aggregators, which
    [router]s refer to by number, with the values that [aggregator.c] remembers,
    and the numbers of connections accepted and closed.  [k_log] is what [logout]
    and [printf] wrote. *)
Record cstate := mkCs {
  k_world : world Q; k_workers : list (worker R); k_aggrs : list aggregator;
  k_received : Z; k_sent : Z; k_adropped : Z;
  k_accepted : Z; k_closed : Z;
  k_log : list cstring;
}.

Definition k_with_world (k : cstate) w : cstate :=
  mkCs w (k_workers k) (k_aggrs k) (k_received k) (k_sent k) (k_adropped k) (k_accepted k) (k_closed k) (k_log k).
Definition k_with_workers (k : cstate) ws : cstate :=
  mkCs (k_world k) ws (k_aggrs k) (k_received k) (k_sent k) (k_adropped k) (k_accepted k) (k_closed k) (k_log k).
Definition k_with_prevs (k : cstate) received sent adropped : cstate :=
  mkCs (k_world k) (k_workers k) (k_aggrs k) received sent adropped (k_accepted k) (k_closed k) (k_log k).
Definition logout (k : cstate) line : cstate :=
  mkCs (k_world k) (k_workers k) (k_aggrs k) (k_received k) (k_sent k) (k_adropped k) (k_accepted k) (k_closed k) (k_log k ++ [line]).

Definition col (A : Type) : Type := cstate -> option (cstate * A).
#[global] Instance col_ret : MRet col := fun A x k => Some (k, x).
#[global] Instance col_bind : MBind col := fun A B f m k => match m k with Some (k', x) => f x k' | None => None end.

Definition get {A} (f : cstate -> option A) : col A := fun k => x ← f k; Some (k, x).
Definition log (line : cstring) : col unit := fun k => Some (logout k line, tt).

(** ** The functions the user's mode selects *)

Definition d_stat (mode : col_mode) (s : stat) : worker R -> worker R * Z :=
  match mode with SUB => stat_sub s | CUM => fun w => (w, stat_total s w) end.
Definition s_ticks (mode : col_mode) : servercon -> servercon * Z :=
  match mode with SUB => server_get_ticks_sub | CUM => fun c => (c, server_get_ticks c) end.
Definition s_metrics (mode : col_mode) : servercon -> servercon * Z :=
  match mode with SUB => server_get_metrics_sub | CUM => fun c => (c, server_get_metrics c) end.
Definition s_failures (c : servercon) : servercon * Z := (c, server_get_failure c).
Definition s_stalls (mode : col_mode) : server -> server * Z :=
  match mode with SUB => server_get_stalls_sub | CUM => fun s => (s, server_get_stalls s) end.
Definition s_dropped (mode : col_mode) : server -> server * Z :=
  match mode with SUB => server_get_dropped_sub | CUM => fun s => (s, server_get_dropped s) end.
Definition s_requeue (mode : col_mode) : server -> server * Z :=
  match mode with SUB => server_get_requeue_sub | CUM => fun s => (s, server_get_requeue s) end.

(** Calling them. *)
Definition ask_dispatcher (f : worker R -> worker R * Z) (i : nat) : col Z := fun k =>
  w ← k_workers k !! i; let '(w, v) := f w in Some (k_with_workers k (<[i := w]> (k_workers k)), v).
Definition ask_server (f : server -> server * Z) (i : nat) : col Z := fun k =>
  s ← servers (k_world k) !! i; let '(s, v) := f s in Some (k_with_world k (update (k_world k) i (fun _ => s)), v).
Definition ask_conn (f : servercon -> servercon * Z) (i n : nat) : col Z := fun k =>
  s ← servers (k_world k) !! i; c ← s_conns s !! n;
  let '(c, v) := f c in Some (k_with_world k (set_conn (k_world k) i n c), v).
Definition ask_aggregators (f : cstate -> list aggregator -> cstate * Z) (aggrs : list nat) : col Z := fun k =>
  l ← mapM (fun i => k_aggrs k !! i) aggrs; Some (f k l).
Definition a_received (mode : col_mode) (k : cstate) (l : list aggregator) : cstate * Z :=
  match mode with
  | SUB => let '(prev, v) := aggregator_get_received_sub l (k_received k) in (k_with_prevs k prev (k_sent k) (k_adropped k), v)
  | CUM => (k, aggregator_get_received l)
  end.
Definition a_sent (mode : col_mode) (k : cstate) (l : list aggregator) : cstate * Z :=
  match mode with
  | SUB => let '(prev, v) := aggregator_get_sent_sub l (k_sent k) in (k_with_prevs k (k_received k) prev (k_adropped k), v)
  | CUM => (k, aggregator_get_sent l)
  end.
Definition a_dropped (mode : col_mode) (k : cstate) (l : list aggregator) : cstate * Z :=
  match mode with
  | SUB => let '(prev, v) := aggregator_get_dropped_sub l (k_adropped k) in (k_with_prevs k (k_received k) (k_sent k) prev, v)
  | CUM => (k, aggregator_get_dropped l)
  end.

(** ** What is reported on *)

(** What a router answers. *)
Definition router_getservers (r : router) : list nat := (r_srvrs r).*1.
Definition router_getaggregators (r : router) : list nat := r_aggregators r.
Definition router_getcollectorstub (r : router) : option cstring := r_stub r.
Definition router_getcollectorinterval (r : router) : Z := r_interval r.
Definition router_getcollectorprefix (r : router) : cstring := r_prefix r.
Definition router_getcollectormode (r : router) : col_mode := r_mode r.

(** The variables set for a router: its servers and aggregators, the interval, the
    time of the next report, the functions to use, and the start of every metric. *)
Record target := mkTarget {
  t_srvs : list nat; t_aggrs : list nat; t_interval : Z; t_nextcycle : Z; t_mode : col_mode; t_metric : cstring;
}.
(** [sizem]: the room behind the start of a metric. *)
Definition sizem (t : target) : nat := Z.to_nat METRIC_BUFSIZ - length (t_metric t).

Definition retarget (rtr : router) (time : Z) : option target :=
  let prefix := default [] (router_getcollectorstub rtr) ++ router_getcollectorprefix rtr in
  if Z.of_nat (length prefix) + 1 <? METRIC_BUFSIZ then
    Some (mkTarget (router_getservers rtr) (router_getaggregators rtr) (router_getcollectorinterval rtr)
            (time + router_getcollectorinterval rtr) (router_getcollectormode rtr) (prefix ++ lit "."))
  else None.

(** A metric is a name and a value; its line. *)
Definition collector_line (t : target) (now : Z) (metric : cstring * Z) : cstring :=
  t_metric t ++
  snprintf_trunc (sizem t) (metric.1 ++ lit " " ++ show_Z metric.2 ++ lit " " ++ show_Z now ++ [10]).

(** [destbuf]: the name of a server. *)
Definition destbuf (s : server) : option cstring :=
  let name :=
    match s_ctype s with
    | CON_FILE | CON_PIPE => Some (s_ip s)
    | CON_TCP => Some (s_ip s ++ lit ":" ++ show_Z (s_port s))
    | CON_UDP => Some (s_ip s ++ lit ":" ++ show_Z (s_port s) ++ lit "-udp")
    | CON_UNIX => None
    end in
  (fun name => (fun c => if c =? ch "." then ch "_" else c) <$> snprintf_trunc 1024 name) <$> name.

(** The metrics of a dispatcher. *)
Record dvals := mkDvals { v_sleeps : Z; v_ticks : Z; v_metrics : Z; v_blackholes : Z; v_discards : Z }.
Definition dispatcher_metrics (i : nat) (v : dvals) : list (cstring * Z) :=
  let name s := lit "dispatcher" ++ show_Z (Z.of_nat i) ++ lit s in
  [(name ".metricsReceived"%string, v_metrics v); (name ".metricsBlackholed"%string, v_blackholes v);
   (name ".metricsDiscarded"%string, v_discards v); (name ".wallTime_us"%string, v_ticks v);
   (name ".sleepTime_us"%string, v_sleeps v)].
Definition dispatch_metrics (v : dvals) : list (cstring * Z) :=
  [(lit "metricsReceived", v_metrics v); (lit "metricsBlackholed", v_blackholes v); (lit "metricsDiscarded", v_discards v);
   (lit "dispatch_wallTime_us", v_ticks v); (lit "dispatch_sleepTime_us", v_sleeps v)].

(** The metrics of a server and of its connections. *)
Record svals := mkSvals {
  sv_ticks : Z; sv_metrics : Z; sv_failures : Z; sv_queued : Z; sv_stalls : Z; sv_dropped : Z; sv_requeue : Z;
}.
Definition server_metrics (ipbuf : cstring) (v : svals) : list (cstring * Z) :=
  let name s := lit "destinations." ++ ipbuf ++ lit s in
  [(name ".sent"%string, sv_metrics v); (name ".queued"%string, sv_queued v); (name ".stalls"%string, sv_stalls v);
   (name ".dropped"%string, sv_dropped v); (name ".requeue"%string, sv_requeue v);
   (name ".wallTime_us"%string, sv_ticks v); (name ".failures"%string, sv_failures v)].
Definition conn_metrics (ipbuf : cstring) (n : nat) (v : svals) : list (cstring * Z) :=
  let name s := lit "destinations." ++ ipbuf ++ lit ".connections." ++ show_Z (Z.of_nat n) ++ lit s in
  [(name ".sent"%string, sv_metrics v); (name ".wallTime_us"%string, sv_ticks v); (name ".failures"%string, sv_failures v)].
Definition total_metrics (v : svals) (accepted closed : Z) : list (cstring * Z) :=
  [(lit "metricsSent", sv_metrics v); (lit "metricsQueued", sv_queued v); (lit "metricStalls", sv_stalls v);
   (lit "metricsDropped", sv_dropped v); (lit "server_wallTime_us", sv_ticks v); (lit "server_failures", sv_failures v);
   (lit "connections", accepted); (lit "disconnects", closed)].

(** ** A report *)

(** [send]: the debug bit of [debug] makes it write to the log. *)
Definition send (debug : bool) (submission : nat) (metric : cstring) : col () := fun k =>
  if debug then Some (logout k metric, tt)
  else '(w, _, _) ← server_send (k_world k) submission metric true; Some (k_with_world k w, tt).

Section Report.
Context (debug : bool) (submission : nat) (t : target) (now : Z).

Fixpoint send_metrics (metrics : list (cstring * Z)) : col () :=
  match metrics with
  | [] => mret tt
  | metric :: metrics' => send debug submission (collector_line t now metric) ≫= (fun _ => send_metrics metrics')
  end.

(** Dispatcher [i]. *)
Definition report_dispatcher (i : nat) : col dvals :=
  sleeps ← ask_dispatcher (d_stat (t_mode t) Sleeps) i;
  ticks ← ask_dispatcher (d_stat (t_mode t) Ticks) i;
  metrics ← ask_dispatcher (d_stat (t_mode t) Metrics) i;
  blackholes ← ask_dispatcher (d_stat (t_mode t) Blackholes) i;
  discards ← ask_dispatcher (d_stat (t_mode t) Discards) i;
  let v := mkDvals sleeps ticks metrics blackholes discards in
  _ ← send_metrics (dispatcher_metrics i v);
  mret v.

Definition add_dvals (tot v : dvals) : dvals :=
  mkDvals (u64 (v_sleeps tot + v_sleeps v)) (u64 (v_ticks tot + v_ticks v)) (u64 (v_metrics tot + v_metrics v))
    (u64 (v_blackholes tot + v_blackholes v)) (u64 (v_discards tot + v_discards v)).

(** The loop over the dispatchers [is]. *)
Fixpoint report_dispatchers (ds : list nat) (tot : dvals) : col dvals :=
  match ds with
  | [] => mret tot
  | i :: ds' => v ← report_dispatcher i; report_dispatchers ds' (add_dvals tot v)
  end.

(** The submission server: its values, [failures] is used on. *)
Definition report_submission : col svals :=
  ticks ← ask_conn (s_ticks (t_mode t)) submission 0;
  failures ← ask_conn s_failures submission 0;
  metrics ← ask_conn (s_metrics (t_mode t)) submission 0;
  queued ← get (fun k => server_get_queue_len (k_world k) submission);
  stalls ← ask_server (s_stalls (t_mode t)) submission;
  dropped ← ask_server (s_dropped (t_mode t)) submission;
  ip ← get (fun k => s_ip <$> servers (k_world k) !! submission);
  let v := mkSvals ticks metrics failures queued stalls dropped 0 in
  _ ← send_metrics (server_metrics ip v);
  mret v.

(** The connections [ns] of server [i], and the values up to now. *)
Fixpoint report_conns (i : nat) (ipbuf : cstring) (ns : list nat) (ticks metrics failures : Z) : col (Z * Z * Z) :=
  match ns with
  | [] => mret (ticks, metrics, failures)
  | n :: ns' =>
      nticks ← ask_conn (s_ticks (t_mode t)) i n;
      nfailures ← ask_conn s_failures i n;
      nmetrics ← ask_conn (s_metrics (t_mode t)) i n;
      _ ← send_metrics (conn_metrics ipbuf n (mkSvals nticks nmetrics nfailures 0 0 0 0));
      report_conns i ipbuf ns' (u64 (ticks + nticks)) (u64 (metrics + nmetrics)) (u64 (failures + nfailures))
  end.

(** Server [i]; [failures] is the variable's value before. *)
Definition report_server (i : nat) (failures : Z) : col svals :=
  ipbuf ← get (fun k => s ← servers (k_world k) !! i; destbuf s);
  queued ← get (fun k => server_get_queue_len (k_world k) i);
  stalls ← ask_server (s_stalls (t_mode t)) i;
  dropped ← ask_server (s_dropped (t_mode t)) i;
  requeue ← ask_server (s_requeue (t_mode t)) i;
  nconns ← get (fun k => server_get_connections <$> servers (k_world k) !! i);
  '(ticks, metrics, failures) ← report_conns i ipbuf (seq 0 nconns) 0 0 failures;
  let v := mkSvals ticks metrics failures queued stalls dropped requeue in
  _ ← send_metrics (server_metrics ipbuf v);
  mret v.

Definition add_svals (tot v : svals) : svals :=
  mkSvals (u64 (sv_ticks tot + sv_ticks v)) (u64 (sv_metrics tot + sv_metrics v)) (u64 (sv_failures tot + sv_failures v))
    (u64 (sv_queued tot + sv_queued v)) (u64 (sv_stalls tot + sv_stalls v)) (u64 (sv_dropped tot + sv_dropped v)) 0.

(** The loop over the servers. *)
Fixpoint report_servers (srvs : list nat) (failures : Z) (tot : svals) : col svals :=
  match srvs with
  | [] => mret tot
  | i :: srvs' => v ← report_server i failures; report_servers srvs' (sv_failures v) (add_svals tot v)
  end.

Definition report_aggregators : col () :=
  if bool_decide (t_aggrs t = []) then mret tt
  else
    received ← ask_aggregators (a_received (t_mode t)) (t_aggrs t);
    _ ← send_metrics [(lit "aggregators.metricsReceived", received)];
    sent ← ask_aggregators (a_sent (t_mode t)) (t_aggrs t);
    _ ← send_metrics [(lit "aggregators.metricsSent", sent)];
    dropped ← ask_aggregators (a_dropped (t_mode t)) (t_aggrs t);
    send_metrics [(lit "aggregators.metricsDropped", dropped)].

Definition report : col () :=
  n ← get (fun k => Some (length (k_workers k)));
  tot ← report_dispatchers (seq 0 n) (mkDvals 0 0 0 0 0);
  _ ← send_metrics (dispatch_metrics tot);
  v ← report_submission;
  tot ← report_servers (t_srvs t) (sv_failures v) (mkSvals 0 0 0 0 0 0 0);
  counts ← get (fun k => Some (k_accepted k, k_closed k));
  _ ← send_metrics (total_metrics tot counts.1 counts.2);
  report_aggregators.
End Report.

(** ** The thread *)

(** A turn of [collector_runner]: the router that waits, the variables, and the two
    readings of the clock.  It ends without a report before the next cycle. *)
Definition collector_turn (debug : bool) (submission : nat) (time now : Z) (pending : option router) (t : option target) :
    col target := fun k =>
  t ← match pending with Some rtr => retarget rtr time | None => t end;
  if now <? t_nextcycle t then Some (k, t)
  else
    let t := mkTarget (t_srvs t) (t_aggrs t) (t_interval t) (t_nextcycle t + t_interval t) (t_mode t) (t_metric t) in
    '(k, _) ← report debug submission t now k; Some (k, t).

(** [pending_router]: a router is scheduled when none waits. *)
Definition collector_schedulereload (pending : option router) (rtr : router) : option router :=
  match pending with None => Some rtr | Some p => Some p end.
Definition collector_reloadcomplete (pending : option router) : bool := negb (bool_decide (is_Some pending)).

(** What other threads do around a turn: a router that is scheduled before it, the
    two readings of the clock, and what changes the statistics after it. *)
Record turn := mkTurn { u_schedule : option router; u_time : Z; u_now : Z; u_others : cstate -> cstate }.

(** The turns until [collector_stop]; a turn leaves no router waiting. *)
Fixpoint collector_runner (debug : bool) (submission : nat) (turns : list turn) (pending : option router) (t : option target) :
    col (option target) := fun k =>
  match turns with
  | [] => Some (k, t)
  | u :: turns' =>
      let pending := match u_schedule u with Some rtr => collector_schedulereload pending rtr | None => pending end in
      '(k, t) ← collector_turn debug submission (u_time u) (u_now u) pending t k;
      collector_runner debug submission turns' None (Some t) (u_others u k)
  end.

(** ** Warnings instead of metrics *)

(** The variables of [collector_writer], the static ones among them. *)
Record writer := mkWriter {
  cw_i : Z; cw_srvs : option (list nat); cw_aggrs : list nat; cw_interval : Z;
  cw_lastconn : Z; cw_lastdisc : Z; cw_lastdropped : Z; cw_lastaggrdropped : Z;
}.

(** [%5zu] *)
Definition pad_left (n : nat) (s : cstring) : cstring := replicate (n - length s) (ch " ") ++ s.
Definition show_pad (n : nat) (v : Z) : cstring := pad_left n (show_Z v).

Definition ask_sum {A} (f : A -> col Z) (l : list A) : col Z :=
  foldr (fun x m => v ← f x; s ← m; mret (u64 (v + s))) (mret 0) l.

(** The conditions on a queue: the usage, and what is said about it. *)
Definition queue_warning (s : server) (queued queuesize : Z) : option cstring :=
  let queueusage := ddiv (double_of_Z queued) (double_of_Z queuesize) in
  if SFleb (decimal false 75 (-2)) queueusage then
    Some (lit "warning: metrics queuing up for " ++ s_ip s ++ lit ":" ++ show_Z (s_port s) ++ lit ": " ++ show_Z queued ++
          lit " metrics (" ++ show_Z (int_of_double (dmul queueusage (double_of_Z 100))) ++ lit "% of queue size)" ++ [10])
  else None.

(** The growth of a number of dropped metrics is logged when it is not 0. *)
Definition dropped_warning (what : cstring) (totdropped lastdropped : Z) : list cstring :=
  let d := u64 (totdropped - lastdropped) in
  if 0 <? d then [lit "warning: " ++ what ++ show_Z d ++ lit " metrics" ++ [10]] else [].

(** The loop over the servers, and the metrics they dropped. *)
Fixpoint writer_servers (srvs : list nat) (totdropped : Z) : col Z :=
  match srvs with
  | [] => mret totdropped
  | i :: srvs' =>
      s ← get (fun k => servers (k_world k) !! i);
      queued ← get (fun k => server_get_queue_len (k_world k) i);
      queuesize ← get (fun k => server_get_queue_size (k_world k) i);
      _ ← match queue_warning s queued queuesize with Some line => log line | None => mret tt end;
      writer_servers srvs' (u64 (totdropped + server_get_dropped s))
  end.
Fixpoint log_all (lines : list cstring) : col () :=
  match lines with [] => mret tt | line :: lines' => log line ≫= (fun _ => log_all lines') end.

(** The line of debug mode: growths and totals, by columns. *)
Definition writer_line (w : writer) (srvs : list nat) : col (Z * Z) :=
  mpsout ← ask_sum (fun i => n ← get (fun k => server_get_connections <$> servers (k_world k) !! i);
                             ask_sum (fun n => ask_conn server_get_metrics_sub i n) (seq 0 n)) srvs;
  totout ← ask_sum (fun i => n ← get (fun k => server_get_connections <$> servers (k_world k) !! i);
                             ask_sum (fun n => ask_conn (fun c => (c, server_get_metrics c)) i n) (seq 0 n)) srvs;
  mpsdrop ← ask_sum (ask_server server_get_dropped_sub) srvs;
  totdrop ← ask_sum (ask_server (fun s => (s, server_get_dropped s))) srvs;
  totqueue ← ask_sum (fun i => get (fun k => server_get_queue_len (k_world k) i)) srvs;
  n ← get (fun k => Some (length (k_workers k)));
  mpsin ← ask_sum (ask_dispatcher (stat_sub Metrics)) (seq 0 n);
  totin ← ask_sum (ask_dispatcher (fun d => (d, stat_total Metrics d))) (seq 0 n);
  dticks ← ask_sum (ask_dispatcher (stat_sub Ticks)) (seq 0 n);
  dsleeps ← ask_sum (ask_dispatcher (stat_sub Sleeps)) (seq 0 n);
  counts ← get (fun k => Some (k_accepted k, k_closed k));
  let dticks := if dticks =? 0 then 1 else dticks in
  let act := int_of_double (ddiv (dmul (double_of_Z dticks) (double_of_Z 100)) (double_of_Z (u64 (dticks + dsleeps)))) in
  _ ← log (show_pad 5 mpsin ++ lit " " ++ show_pad 7 totin ++ lit "  " ++ show_pad 5 mpsout ++ lit " " ++ show_pad 7 totout ++
           lit "  " ++ show_pad 5 mpsdrop ++ lit " " ++ show_pad 7 totdrop ++ lit "  " ++ show_pad 5 totqueue ++ lit "  " ++
           show_pad 3 (u64 (counts.1 - cw_lastconn w)) ++ lit " " ++ show_pad 5 counts.1 ++ lit "  " ++
           show_pad 3 (u64 (counts.2 - cw_lastdisc w)) ++ lit " " ++ show_pad 5 counts.2 ++ lit "  " ++
           show_pad 2 act ++ lit "%" ++ [10]);
  mret counts.
Definition writer_heading : cstring :=
  lit " metrics in     metrics out    metrics drop  queue    conns     disconn   workr" ++ [10] ++
  lit "  mps     tot    mps     tot    dps     tot    cur  cps   tot  dps   tot  act" ++ [10].

(** A turn of [collector_writer]. *)
Definition writer_turn (debug : bool) (pending : option router) (w : writer) : col writer :=
  let w := match pending with
           | Some rtr => mkWriter (cw_i w) (Some (router_getservers rtr)) (router_getaggregators rtr) (router_getcollectorinterval rtr)
                           (cw_lastconn w) (cw_lastdisc w) (cw_lastdropped w) (cw_lastaggrdropped w)
           | None => w
           end in
  srvs ← get (fun _ => cw_srvs w);
  '(conn, disc) ←
    (if debug then
       _ ← (if cw_i w mod 24 =? 0 then log writer_heading else mret tt);
       writer_line w srvs
     else mret (cw_lastconn w, cw_lastdisc w));
  let i := cw_i w + 1 in
  if i <? cw_interval w then
    mret (mkWriter i (cw_srvs w) (cw_aggrs w) (cw_interval w) conn disc (cw_lastdropped w) (cw_lastaggrdropped w))
  else
    totdropped ← writer_servers srvs 0;
    _ ← log_all (dropped_warning (lit "dropped ") totdropped (cw_lastdropped w));
    lastaggrdropped ←
      (if bool_decide (cw_aggrs w = []) then mret (cw_lastaggrdropped w)
       else
         d ← ask_aggregators (fun k l => (k, aggregator_get_dropped l)) (cw_aggrs w);
         _ ← log_all (dropped_warning (lit "aggregator dropped ") d (cw_lastaggrdropped w));
         mret d);
    mret (mkWriter 0 (cw_srvs w) (cw_aggrs w) (cw_interval w) conn disc totdropped lastaggrdropped).

(** ** Start *)

Inductive collector_thread := Writer | Runner.
(** [collector_start]: the router that waits, the two bits of [debug], and the thread
    that is started. *)
Definition collector_start (mode_debug mode_submission cum : bool) (pending : option router) (rtr : router) :
    option router * (bool * bool) * collector_thread :=
  (collector_schedulereload pending rtr, (mode_debug, negb cum), if mode_submission then Writer else Runner).

End Collector.

(** ** What a report says *)

(** Sums of [size_t]. *)
Definition sum64 (n : Z) (l : list Z) : Z := foldl (fun n x => u64 (n + x)) n l.

Section Values.
Context {R : Type} (mode : col_mode).

Definition dispatcher_values (w : worker R) : dvals :=
  mkDvals (d_stat mode Sleeps w).2 (d_stat mode Ticks w).2 (d_stat mode Metrics w).2 (d_stat mode Blackholes w).2
    (d_stat mode Discards w).2.
Definition conn_values (c : servercon) : svals :=
  mkSvals (s_ticks mode c).2 (s_metrics mode c).2 (server_get_failure c) 0 0 0 0.
(** The values of a server with [queued] metrics, after [failures] of those before. *)
Definition server_values (failures : Z) (s : server) (queued : Z) : svals :=
  mkSvals (sum64 0 (sv_ticks ∘ conn_values <$> s_conns s)) (sum64 0 (sv_metrics ∘ conn_values <$> s_conns s))
    (sum64 failures (server_get_failure <$> s_conns s))
    queued (s_stalls mode s).2 (s_dropped mode s).2 (s_requeue mode s).2.
Definition submission_values (s : server) (c : servercon) (queued : Z) : svals :=
  mkSvals (s_ticks mode c).2 (s_metrics mode c).2 (server_get_failure c) queued (s_stalls mode s).2 (s_dropped mode s).2 0.

Definition server_report (name : cstring) (s : server) (v : svals) : list (cstring * Z) :=
  concat (zip_with (fun n c => conn_metrics name n (conn_values c)) (seq 0 (length (s_conns s))) (s_conns s)) ++
  server_metrics name v.

(** The servers with their names and queue lengths. *)
Fixpoint servers_values (failures : Z) (ss : list (cstring * server * Z)) : list svals :=
  match ss with
  | [] => []
  | (_, s, queued) :: ss' => let v := server_values failures s queued in v :: servers_values (sv_failures v) ss'
  end.
Fixpoint servers_report (failures : Z) (ss : list (cstring * server * Z)) : list (cstring * Z) :=
  match ss with
  | [] => []
  | (name, s, queued) :: ss' =>
      let v := server_values failures s queued in server_report name s v ++ servers_report (sv_failures v) ss'
  end.

(** The metrics about dispatchers [ws], to be sent before those about the servers. *)
Definition dispatch_report (ws : list (worker R)) : list (cstring * Z) :=
  concat (zip_with (fun i w => dispatcher_metrics i (dispatcher_values w)) (seq 0 (length ws)) ws) ++
  dispatch_metrics (foldl add_dvals (mkDvals 0 0 0 0 0) (dispatcher_values <$> ws)).
Definition servers_total (failures : Z) (ss : list (cstring * server * Z)) : svals :=
  foldl add_svals (mkSvals 0 0 0 0 0 0 0) (servers_values failures ss).

End Values.

(** The three metrics about the aggregators, if there are any. *)
Definition aggregators_report {Q R} (mode : col_mode) (k : @cstate Q R) (aggrs : list aggregator) : list (cstring * Z) :=
  if bool_decide (aggrs = []) then []
  else [(lit "aggregators.metricsReceived", (a_received mode k aggrs).2); (lit "aggregators.metricsSent", (a_sent mode k aggrs).2);
        (lit "aggregators.metricsDropped", (a_dropped mode k aggrs).2)].

(** All of a report: [s0], whose first connection is [c0], is the submission server with [queued] metrics at the start. *)
Definition report_metrics {Q R} (mode : col_mode) (k : @cstate Q R) (s0 : server) (c0 : servercon) (queued : nat)
    (ss : list (cstring * server * Z)) (aggrs : list aggregator) : list (cstring * Z) :=
  let before := dispatch_report mode (k_workers k) in
  let v := submission_values mode s0 c0 (Z.of_nat (queued + length before)) in
  before ++ server_metrics (s_ip s0) v ++ servers_report mode (sv_failures v) ss ++
  total_metrics (servers_total mode (sv_failures v) ss) (k_accepted k) (k_closed k) ++ aggregators_report mode k aggrs.

(** ** A report says that *)

Lemma Forall2_weaken {A B} (P P' : A -> B -> Prop) l k :
  Forall2 P l k -> (forall x y, x ∈ l -> P x y -> P' x y) -> Forall2 P' l k.
Proof. induction 1 as [|x y l k Hp Hl IH]; intros Hi; constructor; [apply Hi; [constructor|done]|]. apply IH. intros. apply Hi; [by constructor|done]. Qed.

Section Reports.
Context {Q R : Type} `{FifoQueue Q (list Z)}.
Context (submission : nat) (t : target) (now : Z) (k0 : @cstate Q R) (s0 : server) (x0 : Q) (l0 : list cstring).

Local Abbreviation lines := (fmap (M := list) (collector_line t now)).
Local Abbreviation col := (@col Q R).

(** The submission server's queue, after the metrics [ms] were sent. *)
Record subq (ms : list (cstring * Z)) (k : @cstate Q R) : Prop := {
  sq_server : exists s, servers (k_world k) !! submission = Some s /\ s_queue s = s_queue s0;
  sq_queue : exists x, queues (k_world k) !! s_queue s0 = Some x /\ fq_rep x (l0 ++ lines ms) /\ fq_size x = fq_size x0;
}.

(** What sending leaves. *)
Record sends (w w' : world Q) : Prop := {
  sn_servers : forall j, j <> submission -> servers w' !! j = servers w !! j;
  sn_submission : reset_stallseq <$> servers w' !! submission = reset_stallseq <$> servers w !! submission;
  sn_queues : forall q, q <> s_queue s0 -> queues w' !! q = queues w !! q;
}.

Lemma sends_refl w : sends w w.
Proof. by split. Qed.
Lemma sends_trans w1 w2 w3 : sends w1 w2 -> sends w2 w3 -> sends w1 w3.
Proof. intros [Ha Hb Hc] [Ha' Hb' Hc']. split; intros; [rewrite Ha', Ha|rewrite Hb'|rewrite Hc', Hc]; done. Qed.

Lemma server_send_room (w : world Q) s x l d :
  servers w !! submission = Some s -> queues w !! s_queue s = Some x -> fq_rep x l -> (length l < fq_size x)%nat ->
  exists x', server_send w submission d true =
      Some (mkWorld (alter reset_stallseq submission (servers w)) (<[s_queue s := x']> (queues w)), [], true) /\
    fq_rep x' (l ++ [d]) /\ fq_size x' = fq_size x.
Proof.
  intros Hs Hx Hr Hl. unfold server_send. rewrite Hs. run_binds. rewrite Hx. run_binds. cbn [negb andb]. run_binds.
  rewrite decide_True by done. rewrite decide_False by (rewrite (fq_free_law x l Hr); lia).
  unfold enqueue. cbn [queues update]. rewrite Hx. run_binds.
  destruct (fq_enqueue_law x l d Hr) as (x' & -> & Hr' & Hs'). rewrite fifo_enqueue_room in * by done. by exists x'.
Qed.

Lemma send_metrics_spec ms' : forall ms k, subq ms k -> (length l0 + length (ms ++ ms') <= fq_size x0)%nat ->
  exists w', send_metrics false submission t now ms' k = Some (k_with_world k w', tt) /\
    subq (ms ++ ms') (k_with_world k w') /\ sends (k_world k) w'.
Proof.
  induction ms' as [|m ms' IH]; intros ms k Hk Hroom.
  { exists (k_world k). rewrite app_nil_r. destruct k. split_and!; [done|exact Hk|apply sends_refl]. }
  destruct Hk as [(s & Hs & Hq) (x & Hx & Hr & Hsize)]. rewrite <- Hq in Hx.
  destruct (server_send_room (k_world k) s x _ (collector_line t now m) Hs Hx Hr) as (x' & Es & Hr' & Hs').
  { rewrite length_app, length_fmap. rewrite length_app in Hroom. cbn in Hroom. lia. }
  cbn [send_metrics]. unfold mbind, col_bind at 1, send at 1. rewrite Es. run_binds.
  destruct (IH (ms ++ [m]) (k_with_world k (mkWorld (alter reset_stallseq submission (servers (k_world k)))
    (<[s_queue s := x']> (queues (k_world k)))))) as (w' & -> & Hsub & Hsends).
  - split.
    + exists (reset_stallseq s). cbn. by rewrite list_lookup_alter_eq, Hs.
    + exists x'. cbn. rewrite <- Hq, list_lookup_insert_eq by by eapply lookup_lt_Some.
      rewrite fmap_app, app_assoc. cbn. by rewrite Hs', Hsize.
  - by rewrite <- app_assoc.
  - exists w'. rewrite <- app_assoc in Hsub. split; [done|]. split; [done|].
    eapply sends_trans; [|exact Hsends]. split; cbn; intros.
    + by rewrite list_lookup_alter_ne by done.
    + by rewrite list_lookup_alter_eq, Hs.
    + by rewrite list_lookup_insert_ne by congruence.
Qed.

(** What the reporting on dispatchers and servers leaves. *)
Definition k_others (k : @cstate Q R) := (k_aggrs k, (k_received k, k_sent k, k_adropped k), (k_accepted k, k_closed k)).

Lemma d_stat_other mode s s' (w : worker R) : s <> s' -> (d_stat mode s (d_stat mode s' w).1).2 = (d_stat mode s w).2.
Proof. destruct mode, s, s'; try done. Qed.

Lemma ask_dispatcher_run f i (k : @cstate Q R) w :
  k_workers k !! i = Some w -> ask_dispatcher f i k = Some (k_with_workers k (<[i := (f w).1]> (k_workers k)), (f w).2).
Proof. intros Hw. unfold ask_dispatcher. rewrite Hw. run_binds. by destruct (f w). Qed.

Lemma report_dispatcher_spec i w ms k :
  subq ms k -> k_workers k !! i = Some w ->
  let v := dispatcher_values (t_mode t) w in
  (length l0 + length (ms ++ dispatcher_metrics i v) <= fq_size x0)%nat ->
  exists k', report_dispatcher false submission t now i k = Some (k', v) /\ subq (ms ++ dispatcher_metrics i v) k' /\
    sends (k_world k) (k_world k') /\ k_others k' = k_others k /\
    length (k_workers k') = length (k_workers k) /\ forall j, j <> i -> k_workers k' !! j = k_workers k !! j.
Proof.
  intros Hk Hw v Hroom. pose proof (lookup_lt_Some _ _ _ Hw) as Hi.
  unfold report_dispatcher, mbind, col_bind, mret, col_ret.
  rewrite (ask_dispatcher_run _ _ _ _ Hw).
  do 4 (erewrite ask_dispatcher_run by (cbn; rewrite list_lookup_insert_eq by (rewrite ?length_insert; exact Hi); reflexivity)); cbn [k_with_workers k_workers].
  all: rewrite ?list_insert_insert_eq, ?length_insert; try done.
  rewrite !d_stat_other by done. fold (dispatcher_values (t_mode t) w). fold v.
  match goal with |- context [send_metrics _ _ _ _ _ ?k2] => destruct (send_metrics_spec (dispatcher_metrics i v) ms k2) as (w' & -> & Hs & Hf) end.
  - by destruct Hk; split.
  - done.
  - eexists. split; [done|]. split; [done|]. split; [exact Hf|]. split; [done|]. cbn. split; [by rewrite length_insert|].
    intros j Hj. by rewrite list_lookup_insert_ne.
Qed.

Lemma report_dispatchers_spec ds : forall ws ms k tot,
  NoDup ds -> subq ms k -> Forall2 (fun i w => k_workers k !! i = Some w) ds ws ->
  let new := concat (zip_with (fun i w => dispatcher_metrics i (dispatcher_values (t_mode t) w)) ds ws) in
  (length l0 + length (ms ++ new) <= fq_size x0)%nat ->
  exists k', report_dispatchers false submission t now ds tot k =
      Some (k', foldl add_dvals tot (dispatcher_values (t_mode t) <$> ws)) /\ subq (ms ++ new) k' /\
    sends (k_world k) (k_world k') /\ k_others k' = k_others k.
Proof.
  induction ds as [|i ds IH]; intros ws ms k tot Hnd Hk Hws new Hroom; inversion Hws as [|i' w ds' ws' Hw Hws']; subst.
  { exists k. cbn in new. subst new. rewrite app_nil_r. split_and!; [done|done|apply sends_refl|done]. }
  subst new. cbn [zip_with concat foldl fmap list_fmap report_dispatchers] in Hroom |- *. apply NoDup_cons in Hnd as [Hi Hnd]. rewrite app_assoc in Hroom.
  destruct (report_dispatcher_spec i w ms k Hk Hw) as (k1 & E1 & Hk1 & Hf1 & Ho1 & _ & Hw1).
  { rewrite !length_app in Hroom. rewrite length_app. lia. }
  unfold mbind, col_bind. rewrite E1.
  destruct (IH ws' _ k1 (add_dvals tot (dispatcher_values (t_mode t) w)) Hnd Hk1) as (k2 & -> & Hk2 & Hf2 & Ho2); [|done|].
  { eapply Forall2_weaken; [exact Hws'|]. intros j w2 Hj Hjw. rewrite Hw1; [done|]. by intros ->. }
  exists k2. rewrite app_assoc. split_and!; [done|done|by eapply sends_trans|congruence].
Qed.

(** The servers' statistics. *)
Definition with_server (k : @cstate Q R) (i : nat) (s : server) : @cstate Q R :=
  k_with_world k (mkWorld (<[i := s]> (servers (k_world k))) (queues (k_world k))).

Lemma alter_insert {A} (f : A -> A) (l : list A) i x : l !! i = Some x -> alter f i l = <[i := f x]> l.
Proof. revert i. induction l as [|y l IH]; intros [|i]; csimpl; [done|done|by intros [= ->]|]. intros Hx. by rewrite (IH i Hx). Qed.

Lemma ask_server_run f i (k : @cstate Q R) s :
  servers (k_world k) !! i = Some s -> ask_server f i k = Some (with_server k i (f s).1, (f s).2).
Proof.
  intros Hs. unfold ask_server, with_server, update. rewrite Hs. run_binds. rewrite (surjective_pairing (f s)).
  by rewrite (alter_insert _ _ _ _ Hs).
Qed.
Lemma ask_conn_run f i n (k : @cstate Q R) s c :
  servers (k_world k) !! i = Some s -> s_conns s !! n = Some c ->
  ask_conn f i n k = Some (with_server k i (with_conns s (<[n := (f c).1]> (s_conns s))), (f c).2).
Proof.
  intros Hs Hc. unfold ask_conn, with_server, set_conn, update. rewrite Hs. run_binds. rewrite Hc. run_binds.
  rewrite (surjective_pairing (f c)). by rewrite (alter_insert _ _ _ _ Hs).
Qed.
Lemma with_server_lookup k i s s' : servers (k_world k) !! i = Some s -> servers (k_world (with_server k i s')) !! i = Some s'.
Proof. intros Hs. cbn. rewrite list_lookup_insert_eq; [done|]. by eapply lookup_lt_Some. Qed.
Lemma with_server_again (k : @cstate Q R) i s s' : with_server (with_server k i s) i s' = with_server k i s'.
Proof. unfold with_server, k_with_world. cbn. by rewrite list_insert_insert_eq. Qed.

Lemma queue_len_run (k : @cstate Q R) i s x l :
  servers (k_world k) !! i = Some s -> queues (k_world k) !! s_queue s = Some x -> fq_rep x l ->
  server_get_queue_len (k_world k) i = Some (Z.of_nat (length l)).
Proof. intros Hs Hx Hr. unfold server_get_queue_len. rewrite Hs. run_binds. rewrite Hx. run_binds. by rewrite (fq_len_law _ _ Hr). Qed.

(** A server's statistics do not move it to another queue. *)
Lemma subq_with_server ms k i s s' :
  subq ms k -> servers (k_world k) !! i = Some s -> s_queue s' = s_queue s -> subq ms (with_server k i s').
Proof.
  intros [(s1 & Hs1 & Hq) Hx] Hs Hq'. split; [|done]. destruct (decide (i = submission)) as [->|Hi].
  - exists s'. split; [by eapply with_server_lookup|]. congruence.
  - exists s1. cbn. by rewrite list_lookup_insert_ne.
Qed.

Lemma submission_values_quiet mode s c queued :
  submission_values mode s c queued = submission_values mode (reset_stallseq s) c queued.
Proof. by destruct mode. Qed.

Lemma stat_queue (mode : col_mode) (f : col_mode -> server -> server * Z) s :
  f = s_stalls \/ f = s_dropped \/ f = s_requeue ->
  s_queue (f mode s).1 = s_queue s /\ s_ip (f mode s).1 = s_ip s /\ s_conns (f mode s).1 = s_conns s.
Proof. intros [-> | [-> | ->]]; destruct mode; cbn; done. Qed.

(** The questions about one connection. *)
Definition conn_asked (c : servercon) : servercon := (s_metrics (t_mode t) (s_failures (s_ticks (t_mode t) c).1).1).1.
Lemma conn_asks_run {B} (F : Z -> Z -> Z -> col B) i n k s c :
  servers (k_world k) !! i = Some s -> s_conns s !! n = Some c ->
  (ticks ← ask_conn (s_ticks (t_mode t)) i n; failures ← ask_conn s_failures i n;
   metrics ← ask_conn (s_metrics (t_mode t)) i n; F ticks failures metrics) k =
  F (s_ticks (t_mode t) c).2 (server_get_failure c) (s_metrics (t_mode t) c).2
    (with_server k i (with_conns s (<[n := conn_asked c]> (s_conns s)))).
Proof.
  intros Hs Hc. unfold mbind, col_bind. rewrite (ask_conn_run _ _ _ _ _ _ Hs Hc).
  pose proof (lookup_lt_Some _ _ _ Hc) as Hn. rewrite <- (length_insert (s_conns s) n (s_ticks (t_mode t) c).1) in Hn.
  assert (forall c' : servercon, s_conns (with_conns s (<[n := c']> (s_conns s))) !! n = Some c') as Hc'.
  { intros c'. cbn. rewrite list_lookup_insert_eq; [done|]. by eapply lookup_lt_Some. }
  erewrite ask_conn_run; [|by eapply with_server_lookup|apply Hc']. rewrite with_server_again.
  erewrite ask_conn_run; [|by eapply with_server_lookup|]. 2: { cbn. rewrite list_insert_insert_eq. apply Hc'. }
  rewrite with_server_again. cbn [with_conns s_conns]. rewrite !list_insert_insert_eq.
  unfold conn_asked. destruct (t_mode t); reflexivity.
Qed.

Lemma report_submission_spec ms k s c :
  subq ms k -> servers (k_world k) !! submission = Some s -> s_conns s !! 0%nat = Some c ->
  let v := submission_values (t_mode t) s c (Z.of_nat (length l0 + length ms)) in
  (length l0 + length (ms ++ server_metrics (s_ip s) v) <= fq_size x0)%nat ->
  exists k', report_submission false submission t now k = Some (k', v) /\ subq (ms ++ server_metrics (s_ip s) v) k' /\
    (forall j, j <> submission -> servers (k_world k') !! j = servers (k_world k) !! j) /\
    (forall q, q <> s_queue s0 -> queues (k_world k') !! q = queues (k_world k) !! q) /\
    k_others k' = k_others k.
Proof.
  intros Hk Hs Hc v Hroom. destruct Hk as [(s1 & Hs1 & Hq) (x & Hx & Hr & Hsize)]. rewrite Hs in Hs1. injection Hs1 as <-.
  assert (subq ms k) as Hk by (split; [by exists s|by exists x]).
  unfold report_submission. rewrite (conn_asks_run _ _ _ _ _ _ Hs Hc).
  set (s' := with_conns s _). unfold mbind, col_bind, mret, col_ret, get.
  erewrite queue_len_run; [|by eapply with_server_lookup|cbn; rewrite Hq; exact Hx|exact Hr]. run_binds.
  assert (servers (k_world (with_server k submission s')) !! submission = Some s') as Hs' by (by eapply with_server_lookup).
  rewrite (ask_server_run _ _ _ _ Hs'), with_server_again.
  erewrite ask_server_run by (eapply with_server_lookup; exact Hs). rewrite with_server_again.
  set (s2 := (s_dropped (t_mode t) (s_stalls (t_mode t) s').1).1).
  assert (s_queue s2 = s_queue s /\ s_ip s2 = s_ip s) as [Hq2 Hip].
  { subst s2. destruct (t_mode t); done. }
  assert (servers (k_world (with_server k submission s2)) !! submission = Some s2) as -> by (by eapply with_server_lookup).
  cbn [fmap option_fmap option_map]. run_binds.
  rewrite length_app, length_fmap. rewrite Hip.
  assert ((s_stalls (t_mode t) s').2 = (s_stalls (t_mode t) s).2 /\
          (s_dropped (t_mode t) (s_stalls (t_mode t) s').1).2 = (s_dropped (t_mode t) s).2) as [-> ->].
  { subst s'. destruct (t_mode t); done. }
  change (mkSvals _ _ _ _ _ _ _) with v.
  destruct (send_metrics_spec (server_metrics (s_ip s) v) ms (with_server k submission s2)) as (w' & -> & Hsub & Hf).
  { by eapply subq_with_server. }
  { done. }
  destruct Hf as [Ha _ Hc2]. eexists. split; [done|]. split; [done|]. split_and!; [|exact Hc2|done].
  intros j Hj. cbn. rewrite Ha by done. cbn. by rewrite list_lookup_insert_ne.
Qed.

(** The frame of the reporting on server [i]. *)
Record leaves (i : nat) (k k' : @cstate Q R) : Prop := {
  lv_servers : forall j, j <> submission -> j <> i -> servers (k_world k') !! j = servers (k_world k) !! j;
  lv_queues : forall q, q <> s_queue s0 -> queues (k_world k') !! q = queues (k_world k) !! q;
  lv_others : k_others k' = k_others k;
}.
Lemma leaves_refl i k : leaves i k k.
Proof. by split. Qed.
Lemma leaves_trans i k1 k2 k3 : leaves i k1 k2 -> leaves i k2 k3 -> leaves i k1 k3.
Proof. intros [Ha Hb Hc] [Ha' Hb' Hc']. split; intros; [rewrite Ha', Ha|rewrite Hb', Hb|rewrite Hc', Hc]; done. Qed.
Lemma leaves_with_server i k s : leaves i k (with_server k i s).
Proof. split; cbn; [|done|done]. intros j _ Hj. by rewrite list_lookup_insert_ne. Qed.
Lemma leaves_sends i k w' : sends (k_world k) w' -> leaves i k (k_with_world k w').
Proof. intros [Ha _ Hc]. split; cbn; [|done|done]. intros j Hj _. by apply Ha. Qed.

Lemma report_conns_spec i name (cs : list servercon) : forall n ms k s ticks metrics failures,
  i <> submission -> subq ms k -> servers (k_world k) !! i = Some s ->
  (forall m c, cs !! m = Some c -> s_conns s !! (n + m)%nat = Some c) ->
  let new := concat (zip_with (fun n c => conn_metrics name n (conn_values (t_mode t) c)) (seq n (length cs)) cs) in
  (length l0 + length (ms ++ new) <= fq_size x0)%nat ->
  exists k', report_conns false submission t now i name (seq n (length cs)) ticks metrics failures k =
      Some (k', (sum64 ticks (sv_ticks ∘ conn_values (t_mode t) <$> cs), sum64 metrics (sv_metrics ∘ conn_values (t_mode t) <$> cs),
                 sum64 failures (server_get_failure <$> cs))) /\
    subq (ms ++ new) k' /\ leaves i k k'.
Proof.
  induction cs as [|c cs IH]; intros n ms k s ticks metrics failures Hi Hk Hs Hcs new Hroom.
  { exists k. subst new. cbn [zip_with concat length seq]. rewrite app_nil_r. split_and!; [done|done|apply leaves_refl]. }
  subst new. cbn [length seq zip_with concat report_conns] in Hroom |- *. rewrite app_assoc in Hroom.
  pose proof (Hcs 0%nat c eq_refl) as Hc. rewrite Nat.add_0_r in Hc.
  rewrite (conn_asks_run _ _ _ _ _ _ Hs Hc). set (s' := with_conns s _).
  assert (subq ms (with_server k i s')) as Hk' by (by eapply subq_with_server).
  unfold mbind at 1, col_bind at 1.
  destruct (send_metrics_spec (conn_metrics name n (conn_values (t_mode t) c)) ms _ Hk') as (w' & E & Hsub & Hf).
  { rewrite !length_app in Hroom. rewrite length_app. lia. }
  change (mkSvals _ _ _ 0 0 0 0) with (conn_values (t_mode t) c). rewrite E.
  destruct (IH (S n) _ (k_with_world (with_server k i s') w') s' (u64 (ticks + (s_ticks (t_mode t) c).2))
    (u64 (metrics + (s_metrics (t_mode t) c).2)) (u64 (failures + server_get_failure c)) Hi Hsub) as (k2 & -> & Hk2 & Hf2).
  - cbn. rewrite (sn_servers _ _ Hf) by done. by eapply with_server_lookup.
  - intros m c2 Hm. cbn. rewrite list_lookup_insert_ne by lia. rewrite <- (Hcs (S m) c2 Hm). f_equal. lia.
  - done.
  - exists k2. rewrite app_assoc. split_and!; [done|done|].
    eapply leaves_trans; [apply leaves_with_server|]. eapply leaves_trans; [by apply leaves_sends|done].
Qed.

(** A server as the report finds it: its number, its name, itself, and the length of its queue. *)
Definition found (k : @cstate Q R) (i : nat) (x : cstring * server * Z) : Prop :=
  servers (k_world k) !! i = Some x.1.2 /\ destbuf x.1.2 = Some x.1.1 /\
  server_get_queue_len (k_world k) i = Some x.2 /\ s_queue x.1.2 <> s_queue s0.

Lemma found_leaves i k k' j x : leaves i k k' -> j <> submission -> j <> i -> found k j x -> found k' j x.
Proof.
  intros [Hs Hq _] Hj Hi (Hf & Hn & Hl & Hne). split_and!; [by rewrite Hs|done| |done].
  unfold server_get_queue_len in *. rewrite Hs, Hf in * by done. revert Hl. run_binds. by rewrite Hq.
Qed.

Lemma report_server_spec i x failures ms k :
  i <> submission -> subq ms k -> found k i x ->
  let v := server_values (t_mode t) failures x.1.2 x.2 in
  let new := server_report (t_mode t) x.1.1 x.1.2 v in
  (length l0 + length (ms ++ new) <= fq_size x0)%nat ->
  exists k', report_server false submission t now i failures k = Some (k', v) /\ subq (ms ++ new) k' /\ leaves i k k'.
Proof.
  destruct x as [[name s] queued]. intros Hi Hk (Hs & Hn & Hl & Hq) v new Hroom. cbn [fst snd] in *.
  unfold report_server, mbind at 1, col_bind at 1, get at 1. rewrite Hs. run_binds. rewrite Hn. run_binds.
  unfold mbind at 1, col_bind at 1, get at 1. rewrite Hl. run_binds.
  unfold mbind at 1, col_bind at 1. rewrite (ask_server_run _ _ _ _ Hs).
  unfold mbind at 1, col_bind at 1. erewrite ask_server_run by (eapply with_server_lookup; exact Hs). rewrite with_server_again.
  unfold mbind at 1, col_bind at 1. erewrite ask_server_run by (eapply with_server_lookup; exact Hs). rewrite with_server_again.
  set (s3 := (s_requeue (t_mode t) _).1).
  assert (servers (k_world (with_server k i s3)) !! i = Some s3) as Hs3 by (by eapply with_server_lookup).
  assert (s_queue s3 = s_queue s /\ s_conns s3 = s_conns s) as [Hq3 Hc3] by (subst s3; destruct (t_mode t); done).
  unfold mbind at 1, col_bind at 1, get at 1. rewrite Hs3. cbn [fmap option_fmap option_map]. run_binds.
  unfold server_get_connections, s_nconns. rewrite Hc3.
  set (conn_lines := concat (zip_with (fun n c => conn_metrics name n (conn_values (t_mode t) c)) (seq 0 (length (s_conns s))) (s_conns s))).
  assert (new = conn_lines ++ server_metrics name v) as Enew by done. rewrite Enew in Hroom |- *. rewrite app_assoc in Hroom.
  destruct (report_conns_spec i name (s_conns s) 0 ms _ s3 0 0 failures Hi (subq_with_server _ _ _ _ s3 Hk Hs Hq3) Hs3)
    as (k1 & E1 & Hk1 & Hf1).
  { intros m c Hm. by rewrite Hc3. }
  { fold conn_lines. rewrite !length_app in Hroom. rewrite length_app. lia. }
  unfold mbind at 1, col_bind at 1. rewrite E1. fold conn_lines in Hk1.
  assert ((s_dropped (t_mode t) (s_stalls (t_mode t) s).1).2 = (s_dropped (t_mode t) s).2 /\
    (s_requeue (t_mode t) (s_dropped (t_mode t) (s_stalls (t_mode t) s).1).1).2 = (s_requeue (t_mode t) s).2) as [-> ->]
    by (destruct (t_mode t); done).
  match goal with |- context [server_metrics name ?x] => change x with v end.
  unfold mbind, col_bind.
  destruct (send_metrics_spec (server_metrics name v) _ k1 Hk1 Hroom) as (w' & -> & Hk2 & Hf2).
  eexists. split; [done|]. rewrite app_assoc. split; [done|].
  eapply leaves_trans; [apply leaves_with_server|]. eapply leaves_trans; [done|by apply leaves_sends].
Qed.

Lemma report_servers_spec srvs : forall xs failures tot ms k,
  submission ∉ srvs -> NoDup srvs -> subq ms k -> Forall2 (found k) srvs xs ->
  let new := servers_report (t_mode t) failures xs in
  (length l0 + length (ms ++ new) <= fq_size x0)%nat ->
  exists k', report_servers false submission t now srvs failures tot k =
      Some (k', foldl add_svals tot (servers_values (t_mode t) failures xs)) /\ subq (ms ++ new) k' /\ k_others k' = k_others k.
Proof.
  induction srvs as [|i srvs IH]; intros xs failures tot ms k Hsub Hnd Hk Hxs new Hroom; inversion Hxs as [|i' x srvs' xs' Hx Hxs']; subst.
  { exists k. subst new. cbn. by rewrite app_nil_r. }
  apply NoDup_cons in Hnd as [Hi Hnd]. apply not_elem_of_cons in Hsub as [Hne Hsub].
  destruct x as [[name s] queued]. subst new.
  cbn [servers_report servers_values report_servers foldl] in Hroom |- *. rewrite app_assoc in Hroom.
  destruct (report_server_spec i (name, s, queued) failures ms k) as (k1 & E1 & Hk1 & Hf1); [done..| |].
  { cbn [fst snd]. rewrite !length_app in Hroom. rewrite length_app. lia. }
  cbn [fst snd] in *. unfold mbind, col_bind. rewrite E1.
  destruct (IH xs' (sv_failures (server_values (t_mode t) failures s queued))
    (add_svals tot (server_values (t_mode t) failures s queued)) _ k1 Hsub Hnd Hk1) as (k2 & E2 & Hk2 & Hf2); [|done|].
  { eapply Forall2_weaken; [exact Hxs'|]. intros j x Hj. apply (found_leaves i); [done| |]; by intros ->. }
  exists k2. rewrite app_assoc. split_and!; [done|done|]. rewrite Hf2. apply Hf1.
Qed.

Lemma ask_aggregators_run f (k : @cstate Q R) aggrs :
  mapM (fun i => k_aggrs k !! i) (t_aggrs t) = Some aggrs -> ask_aggregators f (t_aggrs t) k = Some (f k aggrs).
Proof. intros Ha. unfold ask_aggregators. rewrite Ha. by run_binds. Qed.

(** One value about the aggregators: [f] only changes what is remembered. *)
Lemma aggregators_step f name ms (k : @cstate Q R) aggrs k1 v :
  subq ms k -> mapM (fun i => k_aggrs k !! i) (t_aggrs t) = Some aggrs -> f k aggrs = (k1, v) ->
  k_world k1 = k_world k -> k_aggrs k1 = k_aggrs k ->
  (length l0 + length (ms ++ [(name, v)]) <= fq_size x0)%nat ->
  exists w', (forall m : col (), (v ← ask_aggregators f (t_aggrs t); _ ← send_metrics false submission t now [(name, v)]; m) k =
      m (k_with_world k1 w')) /\ subq (ms ++ [(name, v)]) (k_with_world k1 w') /\
    mapM (fun i => k_aggrs (k_with_world k1 w') !! i) (t_aggrs t) = Some aggrs.
Proof.
  intros Hk Ha Hf Hw Hg Hroom. unfold mbind, col_bind. rewrite (ask_aggregators_run _ _ _ Ha), Hf.
  assert (subq ms k1) as Hk1 by (destruct Hk; split; by rewrite Hw).
  destruct (send_metrics_spec [(name, v)] ms k1 Hk1 Hroom) as (w' & -> & Hs & _).
  exists w'. split_and!; [done|done|]. cbn. by rewrite Hg.
Qed.

Lemma report_aggregators_spec ms k aggrs :
  subq ms k -> mapM (fun i => k_aggrs k !! i) (t_aggrs t) = Some aggrs ->
  let new := aggregators_report (t_mode t) k aggrs in
  (length l0 + length (ms ++ new) <= fq_size x0)%nat ->
  exists k', report_aggregators false submission t now k = Some (k', tt) /\ subq (ms ++ new) k'.
Proof.
  intros Hk Ha new Hroom. subst new. unfold report_aggregators, aggregators_report in *.
  destruct (t_aggrs t) as [|a l] eqn:Et.
  { cbn in Ha. injection Ha as <-. exists k. cbn. by rewrite app_nil_r. }
  assert (aggrs <> []) as Hne by (intros ->; apply length_mapM in Ha; done).
  rewrite bool_decide_eq_false_2 by done. rewrite bool_decide_eq_false_2 in Hroom |- * by done. rewrite <- Et in *.
  pose proof (surjective_pairing (a_received (t_mode t) k aggrs)) as Ef.
  edestruct (aggregators_step _ (lit "aggregators.metricsReceived") ms k aggrs _ _ Hk Ha Ef) as (w1 & E1 & Hk1 & Ha1).
  { by destruct (t_mode t). }
  { by destruct (t_mode t). }
  { rewrite !length_app in *. cbn [length] in *. lia. }
  rewrite E1. pose proof (surjective_pairing (a_sent (t_mode t) (k_with_world (a_received (t_mode t) k aggrs).1 w1) aggrs)) as Ef2.
  edestruct (aggregators_step _ (lit "aggregators.metricsSent") _ _ aggrs _ _ Hk1 Ha1 Ef2) as (w2 & E2 & Hk2 & Ha2).
  { by destruct (t_mode t). }
  { by destruct (t_mode t). }
  { rewrite !length_app in *. cbn [length] in *. lia. }
  rewrite E2. set (k2 := k_with_world _ w2) in *. unfold mbind, col_bind. rewrite (ask_aggregators_run _ _ _ Ha2).
  pose proof (surjective_pairing (a_dropped (t_mode t) k2 aggrs)) as Ef3. rewrite Ef3.
  assert (subq ((ms ++ [(lit "aggregators.metricsReceived", (a_received (t_mode t) k aggrs).2)]) ++
    [(lit "aggregators.metricsSent", (a_sent (t_mode t) (k_with_world (a_received (t_mode t) k aggrs).1 w1) aggrs).2)])
    (a_dropped (t_mode t) k2 aggrs).1) as Hk3 by (destruct (t_mode t); [by destruct Hk2|done]).
  destruct (send_metrics_spec [(lit "aggregators.metricsDropped", (a_dropped (t_mode t) k2 aggrs).2)] _ _ Hk3) as (w' & -> & Hs & _).
  { rewrite !length_app in *. cbn [length] in *. lia. }
  eexists. split; [done|]. rewrite <- !app_assoc in Hs. destruct (t_mode t); exact Hs.
Qed.

Lemma found_sends k k' j x : sends (k_world k) (k_world k') -> j <> submission -> found k j x -> found k' j x.
Proof.
  intros [Hs _ Hq] Hj (Hf & Hn & Hl & Hne). split_and!; [by rewrite Hs|done| |done].
  unfold server_get_queue_len in *. rewrite Hs, Hf in * by done. revert Hl. run_binds. by rewrite Hq.
Qed.

(** Servers that differ in [stallseq] alone. *)
Lemma quiet_server (s s' : server) :
  reset_stallseq s = reset_stallseq s' -> s_conns s = s_conns s' /\ s_ip s = s_ip s' /\ s_queue s = s_queue s'.
Proof. destruct s, s'. by intros [= -> -> -> -> -> -> -> -> -> -> -> -> -> -> -> -> -> -> -> -> -> ->]. Qed.

(** The first part of a report. *)
Lemma report_dispatch_spec k :
  subq [] k -> let before := dispatch_report (t_mode t) (k_workers k) in
  (length l0 + length before <= fq_size x0)%nat ->
  exists k2, (forall m : col (),
      (n ← get (fun k => Some (length (k_workers k)));
       tot ← report_dispatchers false submission t now (seq 0 n) (mkDvals 0 0 0 0 0);
       _ ← send_metrics false submission t now (dispatch_metrics tot); m) k = m k2) /\
    subq before k2 /\ sends (k_world k) (k_world k2) /\ k_others k2 = k_others k.
Proof.
  intros Hk before Hroom. unfold mbind, col_bind, get. run_binds.
  set (dlines := concat (zip_with (fun i w => dispatcher_metrics i (dispatcher_values (t_mode t) w))
    (seq 0 (length (k_workers k))) (k_workers k))).
  set (dtot := foldl add_dvals (mkDvals 0 0 0 0 0) (dispatcher_values (t_mode t) <$> k_workers k)).
  assert (before = dlines ++ dispatch_metrics dtot) as Eb by done. rewrite Eb, length_app in Hroom.
  destruct (report_dispatchers_spec (seq 0 (length (k_workers k))) (k_workers k) [] k (mkDvals 0 0 0 0 0)) as (k1 & E1 & Hk1 & Hf1 & Ho1).
  { apply NoDup_seq. }
  { done. }
  { apply Forall2_same_length_lookup. rewrite length_seq. split; [done|]. intros i x y Hx1 Hy.
    apply lookup_seq in Hx1 as [-> _]. done. }
  { fold dlines. cbn [app]. lia. }
  fold dlines dtot in E1, Hk1. cbn [app] in Hk1.
  destruct (send_metrics_spec (dispatch_metrics dtot) _ k1 Hk1) as (w2 & E2 & Hk2 & Hf2).
  { rewrite length_app. lia. }
  exists (k_with_world k1 w2). split_and!; [|by rewrite Eb|by eapply sends_trans|done].
  intros m. by rewrite E1, E2.
Qed.

Lemma report_spec k c0 xs aggrs :
  servers (k_world k) !! submission = Some s0 -> queues (k_world k) !! s_queue s0 = Some x0 -> fq_rep x0 l0 ->
  s_conns s0 !! 0%nat = Some c0 -> submission ∉ t_srvs t -> NoDup (t_srvs t) -> Forall2 (found k) (t_srvs t) xs ->
  mapM (fun i => k_aggrs k !! i) (t_aggrs t) = Some aggrs ->
  let new := report_metrics (t_mode t) k s0 c0 (length l0) xs aggrs in
  (length l0 + length new <= fq_size x0)%nat ->
  exists k', report false submission t now k = Some (k', tt) /\ subq new k'.
Proof.
  intros Hs Hx Hr Hc Hsub Hnd Hxs Ha new Hroom.
  assert (subq [] k) as Hk. { split; [by exists s0|]. exists x0. by rewrite app_nil_r. }
  unfold report_metrics in new. set (before := dispatch_report (t_mode t) (k_workers k)) in new.
  set (v := submission_values _ _ _ _) in new. cbn zeta in new. subst new. rewrite !length_app in Hroom.
  unfold report. destruct (report_dispatch_spec k Hk ltac:(fold before; lia)) as (k2 & E & Hk2 & Hf & Ho2). rewrite E. clear E.
  fold before in Hk2. destruct (sq_server _ _ Hk2) as (s & Hs2 & Hq2).
  pose proof (sn_submission _ _ Hf) as Hq. rewrite Hs, Hs2 in Hq. apply (inj Some) in Hq.
  pose proof (quiet_server _ _ Hq) as (Hc2 & Hip & _). rewrite <- Hc2 in Hc.
  assert (submission_values (t_mode t) s c0 (Z.of_nat (length l0 + length before)) = v) as Ev
    by (unfold v; rewrite submission_values_quiet, Hq, <- submission_values_quiet; done).
  destruct (report_submission_spec before k2 s c0 Hk2 Hs2 Hc) as (k3 & E3 & Hk3 & Hs3 & Hq3 & Ho3).
  { rewrite Ev, Hip, length_app. lia. }
  rewrite Ev, Hip in Hk3. rewrite Ev in E3. unfold mbind at 1, col_bind at 1. rewrite E3.
  destruct (report_servers_spec (t_srvs t) xs (sv_failures v) (mkSvals 0 0 0 0 0 0 0) _ k3 Hsub Hnd Hk3) as (k4 & E4 & Hk4 & Ho4).
  { eapply Forall2_weaken; [exact Hxs|]. intros j x Hj Hf0.
    assert (j <> submission) as Hne by (by intros ->). apply (found_sends k k2) in Hf0; [|done|done].
    apply (found_leaves submission k2 k3); [|done..]. split; [|done|done]. intros. by apply Hs3. }
  { rewrite !length_app. lia. }
  unfold mbind at 1, col_bind at 1. rewrite E4. fold (servers_total (t_mode t) (sv_failures v) xs).
  assert (k_others k4 = k_others k) as Ho by congruence. injection Ho as Ha4 Hr4 Hse4 Hd4 Hac4 Hcl4.
  unfold mbind at 1, col_bind at 1, get at 1. run_binds. cbn [fst snd]. rewrite Hac4, Hcl4.
  unfold mbind, col_bind. edestruct send_metrics_spec as (w5 & -> & Hk5 & _); [exact Hk4|rewrite !length_app; lia|].
  destruct (report_aggregators_spec _ (k_with_world k4 w5) aggrs Hk5) as (k6 & -> & Hk6).
  { cbn. by rewrite Ha4. }
  { rewrite !length_app. unfold aggregators_report in *. case_bool_decide; cbn [length] in *; lia. }
  exists k6. split; [done|].
  assert (aggregators_report (t_mode t) (k_with_world k4 w5) aggrs = aggregators_report (t_mode t) k aggrs) as Eg.
  { unfold aggregators_report, a_received, a_sent, a_dropped. destruct (t_mode t); cbn; by rewrite ?Hr4, ?Hse4, ?Hd4. }
  rewrite Eg in Hk6. by rewrite <- !app_assoc in Hk6.
Qed.
End Reports.

Lemma sum64_spec n l : u64 n = n -> sum64 n l = u64 (n + sumz l).
Proof.
  revert n. induction l as [|x l IH]; intros n Hn; cbn.
  - by rewrite Z.add_0_r.
  - fold (sumz l). unfold sum64 in IH. rewrite IH by apply u64_idemp. rewrite u64_add_l. f_equal. lia.
Qed.

(** ** The warnings *)

Section Warnings.
Context {Q R : Type} `{FifoQueue Q (list Z)}.

Lemma log_all_run lines (k : @cstate Q R) :
  exists k', log_all lines k = Some (k', tt) /\ k_log k' = k_log k ++ lines /\ k_aggrs k' = k_aggrs k /\ k_world k' = k_world k.
Proof.
  revert k. induction lines as [|line lines IH]; intros k; cbn [log_all].
  { exists k. by rewrite app_nil_r. }
  unfold mbind, col_bind, log. destruct (IH (logout k line)) as (k' & -> & Hl & Ha & Hw).
  exists k'. split_and!; [done| |done|done]. rewrite Hl. cbn. by rewrite <- app_assoc.
Qed.

Lemma writer_servers_run srvs : forall ss tot (k : @cstate Q R),
  Forall2 (fun i s => servers (k_world k) !! i = Some s /\ is_Some (queues (k_world k) !! s_queue s)) srvs ss ->
  exists k', writer_servers srvs tot k = Some (k', sum64 tot (server_get_dropped <$> ss)) /\
    (exists lines, k_log k' = k_log k ++ lines) /\ k_aggrs k' = k_aggrs k /\ k_world k' = k_world k.
Proof.
  induction srvs as [|i srvs IH]; intros ss tot k Hss; inversion Hss as [|i' s srvs' ss' [Hs [x Hx]] Hss']; subst; cbn [writer_servers].
  { exists k. split_and!; [done| |done|done]. exists []. by rewrite app_nil_r. }
  unfold mbind, col_bind, get. rewrite Hs. run_binds. unfold server_get_queue_len, server_get_queue_size. rewrite Hs. run_binds.
  rewrite Hx. run_binds. rewrite Hs. run_binds. rewrite Hx. run_binds.
  set (warn := queue_warning s (Z.of_nat (fq_len x)) (Z.of_nat (fq_size x))). set (k1 := match warn with Some line => logout k line | None => k end).
  assert (match warn with Some line => log line | None => mret tt end k = Some (k1, tt)) as -> by (by subst k1; destruct warn).
  assert (k_world k1 = k_world k /\ k_aggrs k1 = k_aggrs k /\ exists lines, k_log k1 = k_log k ++ lines) as (Hw & Ha & lines & Hl).
  { subst k1. destruct warn as [line|]; split_and!; try done; [by exists [line]|exists []; by rewrite app_nil_r]. }
  destruct (IH ss' (u64 (tot + server_get_dropped s)) k1) as (k' & -> & (lines' & Hl') & Ha' & Hw').
  { by rewrite Hw. }
  exists k'. split_and!; [done| |congruence|congruence]. exists (lines ++ lines'). by rewrite Hl', Hl, app_assoc.
Qed.
End Warnings.

(** ** Properties *)


(** The failures reported for a server are those of its connections, of the submission server, and of all servers
    before it: the variable is not reset. *)
Theorem failures_accumulate (mode : col_mode) (f : Z) (xs : list (cstring * server * Z)) (i : nat) (v : svals) :
  0 <= f < 2 ^ 64 -> servers_values mode f xs !! i = Some v ->
  sv_failures v = u64 (f + sumz (server_get_failure <$> concat ((fun x => s_conns x.1.2) <$> take (S i) xs))).
Proof.
  revert f i. induction xs as [|[[name s] queued] xs IH]; intros f i Hf Hi; [done|].
  cbn [servers_values] in Hi. pose proof (sum64_spec f (server_get_failure <$> s_conns s) (Z.mod_small _ _ Hf)) as Hs.
  destruct i as [|i]; cbn [lookup list_lookup] in Hi.
  - injection Hi as <-. cbn [take fmap list_fmap concat fst snd]. rewrite app_nil_r. exact Hs.
  - apply IH in Hi; [|cbn; rewrite Hs; apply Z.mod_pos_bound; lia]. rewrite Hi. cbn [sv_failures server_values].
    rewrite Hs, u64_add_l. cbn [take fmap list_fmap concat fst snd]. rewrite fmap_app, sumz_app. f_equal. lia.
Qed.

(** The number of dropped metrics that [collector_writer] warns about is the growth since the last report when all
    servers stay; when a reload removed servers that had dropped metrics, it is a number near [SIZE_MAX]. *)
Theorem writer_warns_of_removed_servers {Q R : Type} `{FifoQueue Q (list Z)} `{Regex} (pending : option router) (w : writer)
    (k : @cstate Q R) (srvs : list nat) (ss : list server) :
  cw_srvs w = Some srvs -> cw_aggrs w = [] -> cw_interval w <= cw_i w + 1 ->
  Forall2 (fun i s => servers (k_world k) !! i = Some s /\ is_Some (queues (k_world k) !! s_queue s)) srvs ss ->
  Forall (fun s => 0 <= server_get_dropped s) ss -> 0 <= cw_lastdropped w < 2 ^ 64 ->
  let tot := sumz (server_get_dropped <$> ss) in
  tot < 2 ^ 64 -> tot <> cw_lastdropped w ->
  exists k' w' lines, writer_turn false None w k = Some (k', w') /\ cw_lastdropped w' = tot /\
    k_log k' = k_log k ++ lines ++
      [lit "warning: dropped " ++
       show_Z (if cw_lastdropped w <=? tot then tot - cw_lastdropped w else 2 ^ 64 - (cw_lastdropped w - tot)) ++
       lit " metrics" ++ [10]].
Proof.
  intros Hsrvs Ha Hi Hss Hpos Hlast tot Htot Hne.
  assert (0 <= tot) as Htot0.
  { subst tot. clear -Hpos. induction Hpos as [|s ss Hs _ IH]; cbn; [done|]. fold (sumz (server_get_dropped <$> ss)). lia. }
  destruct (writer_servers_run srvs ss 0 k Hss) as (k1 & E1 & (lines & Hl) & _ & _).
  rewrite sum64_spec in E1 by done. rewrite Z.add_0_l in E1. change (sumz (server_get_dropped <$> ss)) with tot in E1.
  assert (u64 tot = tot) as Eu by (by apply Z.mod_small). rewrite Eu in E1.
  assert (dropped_warning (lit "dropped ") tot (cw_lastdropped w) =
    [lit "warning: dropped " ++
     show_Z (if cw_lastdropped w <=? tot then tot - cw_lastdropped w else 2 ^ 64 - (cw_lastdropped w - tot)) ++
     lit " metrics" ++ [10]]) as Ew.
  { unfold dropped_warning. assert (u64 (tot - cw_lastdropped w) =
      if cw_lastdropped w <=? tot then tot - cw_lastdropped w else 2 ^ 64 - (cw_lastdropped w - tot)) as ->.
    { unfold u64. destruct (Z.leb_spec (cw_lastdropped w) tot); [by rewrite Z.mod_small by lia|].
      rewrite <- (Z.mod_add _ 1) by done. rewrite Z.mod_small by lia. lia. }
    destruct (Z.ltb_spec 0 (if cw_lastdropped w <=? tot then tot - cw_lastdropped w else 2 ^ 64 - (cw_lastdropped w - tot))) as [_|Hge]; [done|].
    destruct (Z.leb_spec (cw_lastdropped w) tot); lia. }
  destruct (log_all_run (dropped_warning (lit "dropped ") tot (cw_lastdropped w)) k1) as (k2 & E2 & Hl2 & _ & _).
  exists k2, (mkWriter 0 (Some srvs) [] (cw_interval w) (cw_lastconn w) (cw_lastdisc w) tot (cw_lastaggrdropped w)), lines.
  split_and!; [|done|].
  - unfold writer_turn, get, mbind, mret, col_bind, col_ret. rewrite Hsrvs, Ha. run_binds.
    destruct (Z.ltb_spec (cw_i w + 1) (cw_interval w)); [lia|]. by rewrite E1, E2.
  - rewrite Hl2, Hl, Ew. by rewrite <- app_assoc.
Qed.

(** ** A concrete relay, for evaluating the theorems *)

(** The submission server failed twice; the other server works. *)
Definition demo_submission : server :=
  mkServer (lit "internal") 2003 None None false [mkCon (Some 3%nat) [] 2 true true 11 22 0 0] false 0 1 1 1 1
    0 600 2 T_LINEMODE W_PLAIN CON_TCP [] false 1 0 (mkCounters 3 4 5 0 0 0).
Definition demo_looked_at : @cstate (queue (list Z)) nat :=
  mkCs (mkWorld [demo_submission; demo_server 1 1 (Some 4%nat) [] 0 1 1] [demo_queue 64 [lit "x"]; demo_queue 8 [lit "a"]])
    demo_workers [mkAggr 10 30 TS_END 5 100 20 1 []] 0 0 0 7 4 [].
Definition demo_target : target := mkTarget [1%nat] [0%nat] 60 120 CUM (lit "carbon.relays.x.").
Definition demo_found : list (cstring * server * Z) := [(lit "10_0_0_1:2003", demo_server 1 1 (Some 4%nat) [] 0 1 1, 1)].

Example demo_report_lines :
  collector_line demo_target 121 <$> take 2 (drop 43 (report_metrics CUM demo_looked_at demo_submission (mkCon (Some 3%nat) [] 2 true true 11 22 0 0) 1
    demo_found [mkAggr 10 30 TS_END 5 100 20 1 []])) =
  [lit "carbon.relays.x.connections 7 121" ++ [10]; lit "carbon.relays.x.disconnects 4 121" ++ [10]].
Proof. vm_compute. reflexivity. Qed.


Lemma failures_accumulate_witness :
  sv_failures <$> servers_values CUM 2 demo_found !! 0%nat = Some 2 /\ server_failed (demo_server 1 1 (Some 4%nat) [] 0 1 1) = 0.
Proof.
  split; [|reflexivity].
  destruct (servers_values CUM 2 demo_found !! 0%nat) as [v|] eqn:E; [|discriminate E].
  cbn [fmap option_fmap option_map]. rewrite (failures_accumulate CUM 2 demo_found 0 v ltac:(lia) E). reflexivity.
Defined.

(** Without servers after a reload; metrics were dropped before. *)
#[local] Instance no_regex : Regex := Build_Regex unit (fun _ => None) (fun _ => 0%nat) (fun _ _ => None).
Lemma writer_warns_of_removed_servers_witness :
  exists k' w', writer_turn false None (mkWriter 59 (Some []) [] 60 0 0 5 0) demo_looked_at = Some (k', w') /\
    k_log k' = [lit "warning: dropped 18446744073709551611 metrics" ++ [10]].
Proof.
  destruct (writer_warns_of_removed_servers None (mkWriter 59 (Some []) [] 60 0 0 5 0) demo_looked_at [] []) as (k' & w' & lines & E & _ & El).
  - reflexivity.
  - reflexivity.
  - cbn. lia.
  - constructor.
  - constructor.
  - cbn. lia.
  - cbn. lia.
  - cbn. lia.
  - vm_compute in E. injection E as <- <-. eexists _, _. split; [vm_compute; reflexivity|vm_compute; reflexivity].
Defined.
