(* ===== verification/Print.v ===== *)
(** * Printing the configuration (src/router.c, [router_printconfig])

    The text that [router_printconfig] writes; [PrintReads] shows that the scanner of
    [Lexer] reads it back.  The structures are those of src/cluster.h with the fields that are
    printed; the identity of a [dests] list or of an aggregation, which the code
    compares as pointers, is a number.  A file's modification time, and the address
    in the name of an aggregation's stub, are part of the structures. *)
From S2P Require Import Prelude Relay ConsistentHash Matching Router RouterConfig Aggregator RouterTest Collector Lexer.
#[local] Open Scope Z_scope.

(** ** The structures *)

Record psrv := mkPs {
  ps_ip : cstring; ps_port : Z; ps_instance : option cstring; ps_ctype : con_proto; ps_type : con_type; ps_transport : Z;
}.
#[global] Instance psrv_info : ServerInfo psrv := {| server_ip := ps_ip; server_port := ps_port; server_instance := ps_instance |}.

Inductive ch_kind := PkCarbon | PkFnv1a | PkJump.
(** The members of the clusters that are printed; [PmHidden] stands for the others. *)
Inductive pmembers :=
  | PmForward (l : list psrv) | PmFile (ip : bool) (l : list psrv)
  | PmAnyof (l : list psrv) | PmFailover (l : list psrv) | PmLb (l : list psrv)
  | PmCh (k : ch_kind) (repl : Z) (l : list psrv) (ring : list (ch_ring_entry psrv))
  | PmHidden.
Record pcluster := mkPc {
  pc_name : cstring; pc_members : pmembers; pc_dynamic : bool; pc_connections : Z; pc_ttl : Z;
  pc_threshold_start : Z; pc_threshold_end : Z;
}.

Record pcompute := mkPcm { cm_type : compute_type; cm_percentile : Z; cm_metric : cstring }.
(** An aggregation, with the name of its stub. *)
Record paggr := mkPa {
  pa_id : nat; pa_stub : cstring; pa_interval : Z; pa_expire : Z; pa_tswhen : aggr_timestamp; pa_computes : list pcompute;
}.

(** A route by the type of its first destination; the names are those of the
    clusters it sends to. *)
Inductive proute := mkPr (pattern : cstring) (matchall : bool) (masq : option cstring) (stop : bool) (kind : pkind)
with pkind :=
  | PrAggregation (a : paggr) (dests : list cstring)
  | PrRewrite (replacement : cstring)
  | PrGroup (name : cstring) (routes : list proute)
  | PrStub (stat : bool) (dests : list cstring)
  | PrMatch (dests_id : nat) (validation : option (cstring * validate_action)) (dests : list cstring).
Definition pr_pattern (r : proute) : cstring := let 'mkPr p _ _ _ _ := r in p.
Definition pr_matchall (r : proute) : bool := let 'mkPr _ m _ _ _ := r in m.
Definition pr_masq (r : proute) : option cstring := let 'mkPr _ _ m _ _ := r in m.
Definition pr_stop (r : proute) : bool := let 'mkPr _ _ _ s _ := r in s.
Definition pr_kind (r : proute) : pkind := let 'mkPr _ _ _ _ k := r in k.

Record plistener := mkPl {
  pl_type : con_type; pl_transport : Z; pl_pem : cstring; pl_mtime : Z * Z; pl_ctype : con_proto; pl_ip : option cstring; pl_port : Z;
}.
Record prouter := mkPrt {
  po_listeners : list plistener; po_interval : Z; po_mode : col_mode; po_prefix : cstring; po_stub : bool;
  po_clusters : list pcluster; po_routes : list proute;
}.

(** [pmode]. *)
Record pmode := mkPm { PMODE_AGGR : bool; PMODE_HASH : bool; PMODE_STUB : bool; PMODE_PEMT : bool }.

(** ** Pieces of text *)

Definition con_proto_str (p : con_proto) : cstring :=
  match p with
  | CON_TCP => lit "tcp" | CON_UDP => lit "udp" | CON_PIPE => lit "pipe" | CON_FILE => lit "file" | CON_UNIX => lit "unix"
  end.
Definition con_type_str (t : con_type) : cstring := match t with T_LINEMODE => lit "linemode" | T_SYSLOGMODE => lit "syslog" end.
Definition con_trnsp_str (t : Z) : cstring :=
  if t =? W_PLAIN then lit "plain" else if t =? W_GZIP then lit "gzip" else if t =? W_LZ4 then lit "lz4"
  else if t =? W_SNAPPY then lit "snappy" else lit "<unset>".
Definition ssl_bit (t : Z) : bool := Z.ldiff t 65535 =? W_SSL.

Definition transport_text (t : Z) (ssl : cstring) : cstring :=
  (if t =? W_PLAIN then [] else lit " transport ") ++
  (if Z.land t 65535 =? W_PLAIN then [] else con_trnsp_str (Z.land t 65535)) ++
  (if ssl_bit t then ssl else []).

(** [PPROTO], [PTYPE] and [PTRNSP]. *)
Definition server_options (s : psrv) : cstring :=
  match ps_ctype s with CON_UDP => lit " proto udp" | _ => [] end ++
  match ps_type s with T_LINEMODE => [] | t => lit " type " ++ con_type_str t end ++
  transport_text (ps_transport s) (lit " ssl").
Definition indented (w : cstring) : cstring := lit "        " ++ w ++ [10].
Definition host_line (s : psrv) : cstring := indented (serverip s ++ lit ":" ++ show_Z (ps_port s) ++ server_options s).
Definition ch_line (s : psrv) : cstring :=
  indented (serverip s ++ lit ":" ++ show_Z (ps_port s) ++
    match ps_instance s with Some i => lit "=" ++ i | None => [] end ++ server_options s).

(** [ch_printhashring]: the column and the text. *)
Definition ring_server (s : psrv) : cstring :=
  snprintf_trunc 21 (ps_ip s ++ lit ":" ++ show_Z (ps_port s) ++ match ps_instance s with Some i => lit "=" ++ i | None => [] end).
Definition pad_right (n : nat) (s : cstring) : cstring := s ++ replicate (n - length s) (ch " ").
Fixpoint ch_printhashring (column : nat) (es : list (ch_ring_entry psrv)) : cstring :=
  match es with
  | [] => if (column =? 0)%nat then [] else [10]
  | w :: es' =>
      let '(sep, column) := if (column <? 2)%nat then (lit " ", S column) else ([10], O) in
      show_pad 5 (e_pos w) ++ lit "@" ++ pad_right 20 (ring_server (e_server w)) ++ sep ++ ch_printhashring column es'
  end.

(** ** Listeners, statistics and clusters *)

Definition listener_header (pm : pmode) (w : plistener) : cstring :=
  lit "    type linemode" ++ transport_text (pl_transport w) (lit " ssl ") ++
  (if ssl_bit (pl_transport w) then router_quoteident (pl_pem w) else []) ++
  (if ssl_bit (pl_transport w) && PMODE_PEMT pm then
     lit "  # mtime " ++ show_Z (pl_mtime w).1 ++ lit "." ++ show_Z (pl_mtime w).2 else []) ++ [10].
Definition listener_line (w : plistener) : cstring :=
  match pl_ctype w with
  | CON_UNIX => lit "        " ++ router_quoteident (default [] (pl_ip w)) ++ lit " proto unix" ++ [10]
  | p => lit "        " ++ match pl_ip w with Some ip => ip ++ lit ":" | None => [] end ++ show_nonneg (pl_port w) ++
         lit " proto " ++ con_proto_str p ++ [10]
  end.
(** [prev]: the transport of the listener before, when its lines go on. *)
Fixpoint print_listeners (pm : pmode) (prev : option Z) (l : list plistener) : cstring :=
  match l with
  | [] => []
  | w :: l' =>
      match pl_type w with
      | T_LINEMODE =>
          (if decide (prev = Some (pl_transport w)) then [] else listener_header pm w) ++ listener_line w ++
          print_listeners pm (Some (pl_transport w)) l'
      | T_SYSLOGMODE => print_listeners pm None l'
      end
  end.

(** What follows [send to]. *)
Definition dest_list (l : list cstring) : cstring :=
  match l with
  | [d] => lit " " ++ router_quoteident d
  | _ => concat ((fun d => [10] ++ lit "        " ++ router_quoteident d) <$> l)
  end.

Fixpoint find_statstub (l : list proute) : option (list cstring) :=
  match l with
  | [] => None
  | r :: l' => match pr_kind r with PrStub true dests => Some dests | _ => find_statstub l' end
  end.
Definition print_statistics (r : prouter) : cstring :=
  lit "statistics" ++ [10] ++ lit "    submit every " ++ show_Z (po_interval r) ++ lit " seconds" ++ [10] ++
  match po_mode r with SUB => lit "    reset counters after interval" ++ [10] | CUM => [] end ++
  lit "    prefix with " ++ router_quoteident (po_prefix r) ++ [10] ++
  (if po_stub r then
     lit "    send to" ++
     match find_statstub (po_routes r) with Some dests => dest_list dests ++ [10] ++ lit "    stop" ++ [10] | None => [] end
   else []) ++
  lit "    ;" ++ [10; 10].

Definition print_members (c : pcluster) : cstring :=
  match pc_members c with
  | PmForward l => lit "    forward" ++ [10] ++ concat (host_line <$> l)
  | PmFile ip l => lit "    file" ++ (if ip then lit " ip" else []) ++ [10] ++ concat ((fun s => indented (router_quoteident (serverip s))) <$> l)
  | PmAnyof l => lit "    any_of" ++ [10] ++ concat (host_line <$> l)
  | PmFailover l => lit "    failover" ++ [10] ++ concat (host_line <$> l)
  | PmLb l => lit "    lb" ++ [10] ++ concat (host_line <$> l)
  | PmCh k repl l _ =>
      lit "    " ++ match k with PkCarbon => lit "carbon" | PkFnv1a => lit "fnv1a" | PkJump => lit "jump_fnv1a" end ++
      lit "_ch replication " ++ show_Z repl ++ (if pc_dynamic c then lit " dynamic" else []) ++ [10] ++ concat (ch_line <$> l)
  | PmHidden => []
  end.
Definition print_cluster (pm : pmode) (c : pcluster) : cstring :=
  match pc_members c with
  | PmHidden => []
  | _ =>
      lit "cluster " ++ router_quoteident (pc_name c) ++ [10] ++ print_members c ++
      (if pc_connections c =? 1 then [] else lit "    connections " ++ show_Z (pc_connections c) ++ [10]) ++
      (if pc_ttl c =? 0 then [] else lit "    ttl " ++ show_nonneg (pc_ttl c / 60) ++ [10]) ++
      (if pc_threshold_start c =? 0 then [] else lit "    threshold_start " ++ show_Z (pc_threshold_start c) ++ [10]) ++
      (if pc_threshold_end c =? 0 then [] else lit "    threshold_end " ++ show_Z (pc_threshold_end c) ++ [10]) ++
      lit "    ;" ++ [10] ++
      match pc_members c with
      | PmCh _ _ _ ring =>
          if PMODE_HASH pm then lit "# hash ring for " ++ pc_name c ++ lit " follows" ++ [10] ++ ch_printhashring 0 ring else []
      | _ => []
      end
  end.

(** ** Routes *)

(** The routes at the front that belong to the same rule. *)
Fixpoint rule_run (f : proute -> bool) (l : list proute) : list proute * list proute :=
  match l with
  | r :: l' => if f r then let '(a, b) := rule_run f l' in (r :: a, b) else ([], l)
  | [] => ([], [])
  end.
Definition same_aggr (a : paggr) (r : proute) : bool :=
  match pr_kind r with PrAggregation a' _ => (pa_id a' =? pa_id a)%nat | _ => false end.
Definition same_dests (id : nat) (r : proute) : bool :=
  match pr_kind r with PrMatch id' _ _ => (id' =? id)%nat | _ => false end.

(** The expressions of a rule: on its first line when there is one. *)
Definition pattern_lines (show : proute -> cstring) (r : proute) (run : list proute) : cstring :=
  match run with
  | [] => lit " " ++ show r ++ [10]
  | _ => [10] ++ concat ((fun r => indented (show r)) <$> r :: run)
  end.

Definition compute_text (c : pcompute) : cstring :=
  match cm_type c with
  | SUM => lit "sum" | CNT => lit "count" | MAX => lit "max" | MIN => lit "min" | AVG => lit "average" | MEDN => lit "median"
  | PCTL => snprintf_trunc 16 (lit "percentile" ++ show_Z (cm_percentile c)) | VAR => lit "variance" | SDEV => lit "stddev"
  end.
Definition tswhen_name (t : aggr_timestamp) : cstring :=
  match t with TS_START => lit "start" | TS_MIDDLE => lit "middle" | TS_END => lit "end" end.
Definition aggr_dests (r : proute) : list cstring := match pr_kind r with PrAggregation _ dests => dests | _ => [] end.

Definition print_aggregate (pm : pmode) (r : proute) (run : list proute) (a : paggr) (dests : list cstring) : cstring :=
  let stubname := if PMODE_STUB pm || bool_decide (dests = []) then [] else snprintf_trunc 48 (pa_stub a) in
  let lastr := default r (last run) in
  lit "aggregate" ++ pattern_lines (fun r => router_quoteident (pr_pattern r)) r run ++
  lit "    every " ++ show_nonneg (pa_interval a) ++ lit " seconds" ++ [10] ++
  lit "    expire after " ++ show_nonneg (pa_expire a) ++ lit " seconds" ++ [10] ++
  lit "    timestamp at " ++ tswhen_name (pa_tswhen a) ++ lit " of bucket" ++ [10] ++
  concat ((fun c => lit "    compute " ++ compute_text c ++ lit " write to" ++ [10] ++
                    indented (router_quoteident (drop (length stubname) (cm_metric c)))) <$> pa_computes a) ++
  (if negb (PMODE_STUB pm) && bool_decide (aggr_dests lastr <> []) then lit "    send to" ++ dest_list (aggr_dests lastr) ++ [10] else []) ++
  (if pr_stop lastr then lit "    stop" ++ [10] else []) ++ lit "    ;" ++ [10].

Definition print_rewrite (r : proute) (replacement : cstring) : cstring :=
  lit "rewrite " ++ router_quoteident (pr_pattern r) ++ [10] ++
  lit "    into " ++ router_quoteident replacement ++ [10] ++ lit "    ;" ++ [10].

Definition print_stub (r : proute) (dests : list cstring) : cstring :=
  lit "# stub match for aggregate/statistics rule with send to" ++ [10] ++
  lit "match ^" ++ router_quoteident (pr_pattern r) ++ [10] ++ lit "    send to" ++ dest_list dests ++
  (if pr_stop r then [10] ++ lit "    stop" else []) ++ [10] ++ lit "    ;" ++ [10].

Definition pattern_text (r : proute) : cstring := if pr_matchall r then lit "*" else router_quoteident (pr_pattern r).
Definition print_match (r : proute) (run : list proute) (validation : option (cstring * validate_action)) (dests : list cstring) : cstring :=
  lit "match" ++ pattern_lines pattern_text r run ++
  match validation with
  | Some (v, action) =>
      lit "    validate " ++ router_quoteident v ++ lit " else " ++ match action with VAL_LOG => lit "log" | VAL_DROP => lit "drop" end ++ [10]
  | None => []
  end ++
  match pr_masq (default r (last run)) with Some m => lit "    route using " ++ router_quoteident m ++ [10] | None => [] end ++
  match dests with
  | [] => []
  | _ => lit "    send to" ++ dest_list dests ++ [10] ++ (if pr_stop r then lit "    stop" ++ [10] else [])
  end ++ lit "    ;" ++ [10].

(** The name of a group, which is kept reversed, in its buffer. *)
Definition blockname (name : cstring) : cstring := rev (take 62 name).

(** The loop over the routes; a group is printed like a router with its routes only. *)
Fixpoint print_routes (fuel : nat) (pm : pmode) (rs : list proute) : option cstring :=
  match fuel with
  | O => None
  | S fuel' =>
      match rs with
      | [] => Some []
      | r :: rs' =>
          match pr_kind r with
          | PrAggregation a dests =>
              if negb (PMODE_AGGR pm) then print_routes fuel' pm rs'
              else
                let '(run, rs') := rule_run (same_aggr a) rs' in
                text ← print_routes fuel' pm rs'; Some (print_aggregate pm r run a dests ++ text)
          | PrRewrite replacement => text ← print_routes fuel' pm rs'; Some (print_rewrite r replacement ++ text)
          | PrGroup name routes =>
              inner ← (if PMODE_AGGR pm then
                         sub ← print_routes fuel' pm routes;
                         Some ([10] ++ sub ++ lit "# end of group '" ++ blockname name ++ lit "'" ++ [10])
                       else Some []);
              text ← print_routes fuel' pm rs';
              Some (lit "# common pattern group '" ++ blockname name ++ lit "' contains " ++ show_nonneg (Z.of_nat (length routes)) ++
                    lit " aggregations/matches" ++ [10] ++ inner ++ text)
          | PrStub _ dests =>
              text ← print_routes fuel' pm rs'; Some ((if PMODE_STUB pm then print_stub r dests else []) ++ text)
          | PrMatch id validation dests =>
              let '(run, rs') := rule_run (same_dests id) rs' in
              text ← print_routes fuel' pm rs'; Some (print_match r run validation dests ++ text)
          end
      end
  end.

(** Enough fuel for a list of routes. *)
Fixpoint route_size (r : proute) : nat :=
  match r with
  | mkPr _ _ _ _ (PrGroup _ routes) => S (S ((fix sizes l := match l with [] => O | r :: l' => (route_size r + sizes l')%nat end) routes))
  | _ => 1%nat
  end.
Definition routes_size (rs : list proute) : nat := sum_list (route_size <$> rs).

Definition router_printconfig (r : prouter) (pm : pmode) : option cstring :=
  routes ← print_routes (S (routes_size (po_routes r))) pm (po_routes r);
  Some ((match po_listeners r with [] => [] | l => lit "listen" ++ [10] ++ print_listeners pm None l ++ lit "    ;" ++ [10; 10] end) ++
        (if 0 <? po_interval r then print_statistics r else []) ++
        concat (print_cluster pm <$> po_clusters r) ++ [10] ++ routes).

(** ** Printing ends *)

Lemma rule_run_spec f l a b : rule_run f l = (a, b) -> l = a ++ b.
Proof.
  revert a b. induction l as [|r l IH]; intros a b; cbn [rule_run]; [by intros [= <- <-]|].
  destruct (f r); [|by intros [= <- <-]]. destruct (rule_run f l) as [a' b']. intros [= <- <-]. by rewrite (IH a' b').
Qed.
Lemma route_size_pos r : (0 < route_size r)%nat.
Proof. destruct r as [p m q s k]. destruct k; cbn; lia. Qed.
Lemma routes_size_cons r rs : routes_size (r :: rs) = (route_size r + routes_size rs)%nat.
Proof. done. Qed.
Lemma routes_size_app a b : routes_size (a ++ b) = (routes_size a + routes_size b)%nat.
Proof. unfold routes_size. rewrite fmap_app. induction (route_size <$> a) as [|x l IH]; cbn in *; lia. Qed.
Lemma group_size p m q s name routes : route_size (mkPr p m q s (PrGroup name routes)) = S (S (routes_size routes)).
Proof. cbn [route_size]. do 2 f_equal. unfold routes_size. induction routes as [|r routes IH]; cbn; [done|]. by rewrite IH. Qed.

Lemma print_routes_total fuel pm rs : (routes_size rs < fuel)%nat -> is_Some (print_routes fuel pm rs).
Proof.
  revert rs. induction fuel as [|fuel IH]; intros rs Hf; [lia|]. cbn [print_routes]. destruct rs as [|r rs]; [eauto|].
  rewrite routes_size_cons in Hf. pose proof (route_size_pos r) as Hr.
  assert (forall f a b, rule_run f rs = (a, b) -> (routes_size b <= routes_size rs)%nat) as Hs.
  { intros f a b ->%rule_run_spec. rewrite routes_size_app. lia. }
  destruct r as [p m q s k]. destruct k as [a dests|replacement|name routes|stat dests|id v dests]; cbn [pr_kind].
  - destruct (PMODE_AGGR pm); cbn [negb]; [|apply IH; lia]. destruct (rule_run _ rs) as [run rs'] eqn:E. apply Hs in E.
    destruct (IH rs' ltac:(lia)) as [t ->]. run_binds. eauto.
  - destruct (IH rs ltac:(lia)) as [t ->]. run_binds. eauto.
  - rewrite group_size in Hf. destruct (IH rs ltac:(lia)) as [t ->]. destruct (IH routes ltac:(lia)) as [t' ->].
    destruct (PMODE_AGGR pm); run_binds; eauto.
  - destruct (IH rs ltac:(lia)) as [t ->]. run_binds. eauto.
  - destruct (rule_run _ rs) as [run rs'] eqn:E. apply Hs in E. destruct (IH rs' ltac:(lia)) as [t ->]. run_binds. eauto.
Qed.

(** Printing always ends: the groups are finite, so that whatever the configuration and the mode, [router_printconfig]
    writes a text. *)
Theorem printconfig_total (r : prouter) (pm : pmode) : is_Some (router_printconfig r pm).
Proof. unfold router_printconfig. destruct (print_routes_total (S (routes_size (po_routes r))) pm (po_routes r) ltac:(lia)) as [t ->]. run_binds. eauto. Qed.
