(* ===== verification/PrintReads.v ===== *)
(** * The printed configuration reads back

    The text of [Print.router_printconfig] is a sequence of words with white space in
    between; each word is read by the scanner of [Lexer] as one token, in the start
    condition that the words before it leave.  The tokens of a configuration are
    written out by structure, and the scanner returns exactly those. *)
From S2P Require Import Prelude Relay ConsistentHash Matching Router RouterConfig Aggregator RouterTest Collector Lexer Print.
#[local] Open Scope Z_scope.

(** ** Words and tokens *)

(** A word, the white space in front of it, and the token it is read as. *)
Record litem := It { it_ws : cstring; it_word : cstring; it_tok : ytoken }.
Definition items_text (l : list litem) : cstring := concat ((fun x => it_ws x ++ it_word x) <$> l).

(** Reading word [w], in front of a delimiter, changes the start condition and
    [identstate]. *)
Definition reads (c i : cond) (w : cstring) (t : ytoken) (c' i' : cond) : Prop :=
  c <> qu /\ w <> [] /\ solid w /\
  forall b d rest, delim d = true -> exists b', scans (mkLex c i b) (w ++ d :: rest) [t] (mkLex c' i' b') (d :: rest).

Definition spaced (l : list litem) : Prop :=
  match l with x :: _ => match it_ws x with d :: _ => delim d = true | [] => False end | [] => True end.
Inductive chain : cond -> cond -> list litem -> cond -> cond -> Prop :=
  | chain_nil c i : chain c i [] c i
  | chain_cons c i x l c1 i1 c2 i2 :
      reads c i (it_word x) (it_tok x) c1 i1 -> forallb white (it_ws x) = true -> spaced l -> chain c1 i1 l c2 i2 ->
      chain c i (x :: l) c2 i2.

Lemma solid_app w r : w <> [] -> solid w -> solid (w ++ r).
Proof. by destruct w. Qed.

Lemma chain_scans c i l c' i' :
  chain c i l c' i' -> forall b d rest, delim d = true ->
  exists b', scans (mkLex c i b) (items_text l ++ d :: rest) (it_tok <$> l) (mkLex c' i' b') (d :: rest).
Proof.
  induction 1 as [c i|c i x l c1 i1 c2 i2 (Hq & Hne & Hs & Hr) Hw Hsp Hc IH]; intros b d rest Hd.
  { exists b. constructor. }
  assert (exists d' rest', items_text l ++ d :: rest = d' :: rest' /\ delim d' = true) as (d' & rest' & El & Hd').
  { destruct l as [|y l]; [by exists d, rest|]. cbn in Hsp. unfold items_text. cbn. destruct (it_ws y) as [|z ws]; [done|]. eexists z, _. done. }
  destruct (Hr b d' rest' Hd') as (b1 & H1). destruct (IH b1 d rest Hd) as (b2 & H2). exists b2.
  unfold items_text. cbn [fmap list_fmap concat]. fold (items_text l). rewrite <- !app_assoc, El.
  apply (scans_app _ _ [] (mkLex c i b) (it_word x ++ d' :: rest') (it_tok x :: (it_tok <$> l))).
  - apply scans_white; [done|done|]. by apply solid_app.
  - eapply (scans_app _ _ [it_tok x] _ (d' :: rest')); [exact H1|]. rewrite <- El. exact H2.
Qed.

Lemma chain_app c i l1 c1 i1 l2 c2 i2 :
  chain c i l1 c1 i1 -> spaced l2 -> chain c1 i1 l2 c2 i2 -> chain c i (l1 ++ l2) c2 i2.
Proof.
  intros H1 Hs H2. induction H1 as [c i|c i x l c1 i1 c2' i2' Hr Hw Hsp Hc IH]; [done|]. cbn [app].
  eapply chain_cons; [exact Hr|exact Hw| |by apply IH]. destruct l; [exact Hs|exact Hsp].
Qed.
Lemma items_text_app l1 l2 : items_text (l1 ++ l2) = items_text l1 ++ items_text l2.
Proof. unfold items_text. by rewrite fmap_app, concat_app. Qed.

(** ** Words that are read *)

(** A number of steps on a text of which the beginning is known. *)
Fixpoint scan_const (n : nat) (s : lexer) (l : cstring) : option (list ytoken * lexer * cstring) :=
  match n with
  | O => Some ([], s, l)
  | S n' =>
      match l with
      | [] => None
      | _ =>
          '(a, l) ← lex_step s l;
          match a with
          | Goto s => scan_const n' s l
          | Emit s t => '(ts, s, l) ← scan_const n' s l; Some (t :: ts, s, l)
          | Stop _ => None
          end
      end
  end.
Lemma scan_const_scans n s l ts s' l' : scan_const n s l = Some (ts, s', l') -> scans s l ts s' l'.
Proof.
  revert s l ts. induction n as [|n IH]; intros s l ts; cbn [scan_const]; [intros [= <- <- <-]; constructor|].
  destruct l as [|x l]; [discriminate|]. destruct (lex_step s (x :: l)) as [[a l1]|] eqn:Es; [|discriminate]. run_binds.
  destruct a as [s1|s1 t|e]; [| |discriminate].
  - intros H%IH. eapply scans_goto; [discriminate|exact Es|exact H].
  - destruct (scan_const n s1 l1) as [[[ts1 s2] l2]|] eqn:Ec; [|discriminate]. run_binds. intros [= <- <- <-].
    eapply scans_emit; [discriminate|exact Es|]. by apply IH.
Qed.

Lemma reads_kw c i w t c' i' :
  c <> qu -> w <> [] -> solid w ->
  (forall b rest, scan_const 1 (mkLex c i b) (w ++ 10 :: rest) = Some ([t], mkLex c' i' b, 10 :: rest)) ->
  (forall b rest, scan_const 1 (mkLex c i b) (w ++ 32 :: rest) = Some ([t], mkLex c' i' b, 32 :: rest)) ->
  (forall b rest, scan_const 1 (mkLex c i b) (w ++ 59 :: rest) = Some ([t], mkLex c' i' b, 59 :: rest)) ->
  reads c i w t c' i'.
Proof.
  intros Hq Hne Hs H1 H2 H3. split_and!; [done|done|done|]. intros b d rest [->|[->| ->]]%delim_cases; exists b; by apply (scan_const_scans 1).
Qed.
Ltac keyword := apply reads_kw; [discriminate|discriminate|reflexivity|intros; vm_compute; reflexivity..].

Lemma idchr_solid x l : idchr x = true -> solid (x :: l).
Proof. intros Hx. cbn. unfold white, blank. rewrite !(idchr_not x) by done. done. Qed.
Lemma reads_name c i w : id_cond c = true -> readable c w -> reads c i (router_quoteident w) (crSTRING w) i i.
Proof.
  intros Hc Hw. split_and!.
  - by apply id_cond_not_ag.
  - unfold readable, router_quoteident in *. destruct (needquote [] w); [done|]. by destruct Hw.
  - unfold readable, router_quoteident in *. destruct (needquote [] w); [done|]. destruct Hw as (Hne & Hid & _).
    destruct w as [|x w]; [done|]. cbn in Hid. apply andb_true_iff in Hid as [Hx _]. by apply idchr_solid.
  - intros b d rest Hd. by apply scans_quoteident.
Qed.
Lemma reads_number c i n : c ∈ [idcl; ag; st] -> 0 <= n < 2 ^ 31 -> reads c i (show_nonneg n) (crINTVAL n) c i.
Proof.
  intros Hc Hn. destruct (show_nonneg_digits n) as [Hd Hne]. split_and!.
  - clear -Hc. set_solver.
  - done.
  - destruct (show_nonneg n) as [|x l]; [done|]. apply Forall_cons in Hd as [Hx _]. apply idchr_solid.
    unfold idchr, is_alnum. by rewrite Hx, !orb_true_r.
  - intros b d rest Hdl. exists b. by apply scans_number.
Qed.

Lemma others_at_p (l : cstring) :
  Forall (fun r => rule_len ag r (112%Z :: l) <= 1)%nat
    [OpenQuote; CloseQuote; QuNewline; QuEscape; QuText; Comment; Space; Newlines; IntVal; Ident; Semicolon; AnyChar].
Proof. each_rule; apply Nat.leb_le; vm_compute; reflexivity. Qed.

Lemma reads_percentile i n :
  0 <= n < 2 ^ 31 -> reads ag i (lit "percentile" ++ show_nonneg n) (crPERCENTILE n) ag i.
Proof.
  intros Hn. destruct (show_nonneg_digits n) as [Hdig Hne]. split_and!; [discriminate|discriminate|reflexivity|].
  intros b d rest Hd. exists b. destruct (delim_not d Hd) as (Hdk & Hdi & Hdd).
  set (p := lit "percentile"). set (w := show_nonneg n) in *. set (l := (p ++ w) ++ d :: rest).
  assert (forallb is_digit w = true) as Hall.
  { apply forallb_forall. intros x Hx%list_elem_of_In. by apply (proj1 (Forall_forall _ _) Hdig). }
  assert (forall r, r ∈ keywords -> r = Percentile \/ rule_len ag r l = O) as Hkw.
  { intros r Hr.
    assert (forallb (fun r => match r with Kw conds (k :: _) _ _ _ => negb (bool_decide (ag ∈ conds)) || negb (k =? 112) | Percentile => true | _ => false end) keywords = true) as Hf
      by (vm_compute; reflexivity).
    apply list_elem_of_In in Hr. pose proof (proj1 (forallb_forall _ _) Hf r Hr) as Hk. clear Hf.
    destruct r as [conds [|k t] ? ? ?| | | | | | | | | | | | |]; try discriminate; [|by left]. right. unfold rule_len. cbn [active].
    destruct (bool_decide (ag ∈ conds)); [|done]. cbn [match_len]. destruct (prefixb (k :: t) l) eqn:Ep; [|done]. exfalso.
    unfold prefixb in Ep. apply bool_decide_eq_true in Ep. cbn in Ep. injection Ep as <- _. done. }
  assert (rule_len ag Percentile l = length (p ++ w)) as Hlen.
  { unfold rule_len. cbn [active match_len]. rewrite bool_decide_eq_true_2 by done. unfold prefixb, l, p.
    change (take (length (lit "percentile")) ((lit "percentile" ++ w) ++ d :: rest)) with (lit "percentile").
    rewrite bool_decide_eq_true_2 by done. change (drop 10 ((lit "percentile" ++ w) ++ d :: rest)) with (w ++ d :: rest).
    by rewrite run_all, length_app. }
  assert (Percentile ∈ keywords) as Hin.
  { assert (existsb (fun r => match r with Percentile => true | _ => false end) keywords = true) as He by (vm_compute; reflexivity).
    apply existsb_exists in He as (r & Hr & Er). apply list_elem_of_In. by destruct r. }
  assert (pick ag l rules None = Some (Percentile, length (p ++ w))) as Hp.
  { apply pick_unique; [rewrite length_app; unfold p; cbn; lia|done| |right; split; [done|]].
    - with_strategy transparent [rules] unfold rules. apply Forall_app. split.
      + apply Forall_forall. intros r Hr. destruct (Hkw r Hr) as [->| ->]; [by left|right; rewrite length_app; unfold p; cbn; lia].
      + eapply Forall_impl; [exact (others_at_p (drop 1 l))|]. intros r Hr. right. change (112 :: drop 1 l) with l in Hr. cbn beta in Hr.
        rewrite length_app. assert (length p = 10%nat) by reflexivity. lia.
    - with_strategy transparent [rules] unfold rules. apply elem_of_app. by left. }
  apply (scan_const_scans 1). cbn [scan_const]. unfold lex_step. cbn [lx_cond]. fold l. rewrite Hp. run_binds.
  unfold l. rewrite take_app_length, drop_app_length. cbn [act]. unfold atoi. change (drop 10 (p ++ w)) with w. unfold w.
  rewrite strtol_show by lia. cbn [fst]. unfold s32. rewrite Z.mod_small by lia. by replace (n + 2 ^ 31 - 2 ^ 31) with n by lia.
Qed.

(** ** The words of a rule *)

Definition sp : cstring := [32].
Definition nl4 : cstring := [10; 32; 32; 32; 32].
Definition nl8 : cstring := nl4 ++ [32; 32; 32; 32].

Definition tok_dest (d : cstring) : ytoken := if bool_decide (d = lit "blackhole") then crBLACKHOLE else crSTRING d.
Definition tok_pattern (r : proute) : ytoken := if pr_matchall r then Sym (ch "*") else crSTRING (pr_pattern r).
Definition tok_compute (c : pcompute) : ytoken :=
  match cm_type c with
  | SUM => crSUM | CNT => crCOUNT | MAX => crMAX | MIN => crMIN | AVG => crAVERAGE | MEDN => crMEDIAN
  | PCTL => crPERCENTILE (cm_percentile c) | VAR => crVARIANCE | SDEV => crSTDDEV
  end.

Definition list_ws {A} (l : list A) : cstring := match l with [_] => sp | _ => nl8 end.
Definition dest_items (l : list cstring) : list litem := (fun d => It (list_ws l) (router_quoteident d) (tok_dest d)) <$> l.
Definition send_items (l : list cstring) : list litem := It nl4 (lit "send") crSEND :: It sp (lit "to") crTO :: dest_items l.
Definition stop_items (b : bool) : list litem := if b then [It nl4 (lit "stop") crSTOP] else [].
Definition end_items : list litem := [It nl4 (lit ";") (Sym (ch ";"))].
Definition name_item (ws w : cstring) : litem := It ws (router_quoteident w) (crSTRING w).
Definition number_item (ws : cstring) (n : Z) : litem := It ws (show_nonneg n) (crINTVAL n).

Definition rewrite_items (r : proute) (replacement : cstring) : list litem :=
  [It [] (lit "rewrite") crREWRITE; name_item sp (pr_pattern r); It nl4 (lit "into") crINTO; name_item sp replacement] ++ end_items.

Definition pattern_items (r : proute) (run : list proute) : list litem :=
  (fun x => It (list_ws (r :: run)) (pattern_text x) (tok_pattern x)) <$> r :: run.
Definition validate_items (v : option (cstring * validate_action)) : list litem :=
  match v with
  | Some (v, action) =>
      [It nl4 (lit "validate") crVALIDATE; name_item sp v; It sp (lit "else") crELSE;
       match action with VAL_LOG => It sp (lit "log") crLOG | VAL_DROP => It sp (lit "drop") crDROP end]
  | None => []
  end.
Definition masq_items (m : option cstring) : list litem :=
  match m with Some m => [It nl4 (lit "route") crROUTE; It sp (lit "using") crUSING; name_item sp m] | None => [] end.
Definition match_words (r : proute) (run : list proute) (v : option (cstring * validate_action)) (dests : list cstring) : list litem :=
  It [] (lit "match") crMATCH :: pattern_items r run ++ validate_items v ++ masq_items (pr_masq (default r (last run))) ++
  match dests with [] => [] | _ => send_items dests ++ stop_items (pr_stop r) end ++ end_items.

Definition compute_items (stub : cstring) (c : pcompute) : list litem :=
  [It nl4 (lit "compute") crCOMPUTE; It sp (compute_text c) (tok_compute c); It sp (lit "write") crWRITE; It sp (lit "to") crTO;
   name_item nl8 (drop (length stub) (cm_metric c))].
Definition stub_of (a : paggr) (dests : list cstring) : cstring := if bool_decide (dests = []) then [] else snprintf_trunc 48 (pa_stub a).
Definition aggregate_items (r : proute) (run : list proute) (a : paggr) (dests : list cstring) : list litem :=
  let lastr := default r (last run) in
  It [] (lit "aggregate") crAGGREGATE :: ((fun x => name_item (list_ws (r :: run)) (pr_pattern x)) <$> r :: run) ++
  [It nl4 (lit "every") crEVERY; number_item sp (pa_interval a); It sp (lit "seconds") crSECONDS;
   It nl4 (lit "expire") crEXPIRE; It sp (lit "after") crAFTER; number_item sp (pa_expire a); It sp (lit "seconds") crSECONDS;
   It nl4 (lit "timestamp") crTIMESTAMP; It sp (lit "at") crAT;
   It sp (tswhen_name (pa_tswhen a)) (match pa_tswhen a with TS_START => crSTART | TS_MIDDLE => crMIDDLE | TS_END => crEND end);
   It sp (lit "of") crOF; It sp (lit "bucket") crBUCKET] ++
  concat (compute_items (stub_of a dests) <$> pa_computes a) ++
  (if bool_decide (aggr_dests lastr <> []) then send_items (aggr_dests lastr) else []) ++ stop_items (pr_stop lastr) ++ end_items.

(** The text printed is that of the words. *)
Lemma text_cons x l : items_text (x :: l) = it_ws x ++ it_word x ++ items_text l.
Proof. unfold items_text. cbn. by rewrite <- app_assoc. Qed.
Lemma text_nil : items_text [] = [].
Proof. done. Qed.

(** Lines that end with a newline, as words that follow one. *)
Lemma lines_text {A} (f : A -> cstring) (t : A -> ytoken) (l : list A) :
  [10] ++ concat ((fun x => indented (f x)) <$> l) = items_text ((fun x => It nl8 (f x) (t x)) <$> l) ++ [10].
Proof.
  induction l as [|x l IH]; [done|]. cbn [fmap list_fmap concat]. rewrite text_cons. unfold indented at 1. cbn [it_ws it_word].
  rewrite <- !app_assoc, <- IH. done.
Qed.
Lemma pattern_lines_text (f : proute -> cstring) (t : proute -> ytoken) r run :
  pattern_lines f r run = items_text ((fun x => It (list_ws (r :: run)) (f x) (t x)) <$> r :: run) ++ [10].
Proof.
  unfold pattern_lines. destruct run as [|r' run]; [|apply lines_text].
  cbn [fmap list_fmap list_ws]. rewrite text_cons, text_nil, app_nil_r. cbn [it_ws it_word]. by rewrite <- app_assoc.
Qed.
Lemma dest_list_text l : dest_list l = items_text (dest_items l).
Proof.
  unfold dest_list, dest_items. destruct l as [|d [|d' l]]; [done|cbn [fmap list_fmap list_ws]; rewrite text_cons, text_nil; cbn [it_ws it_word]; by rewrite app_nil_r|].
  cbn [list_ws]. generalize (d :: d' :: l). clear. intros l. induction l as [|x l IH]; [done|]. cbn [fmap list_fmap concat]. rewrite text_cons, <- IH.
  cbn [it_ws it_word]. by rewrite <- !app_assoc.
Qed.

(** A line of its own, as words: the newline in front belongs to them. *)
Definition line (x : cstring) (l : list litem) : Prop := [10] ++ x = items_text l ++ [10].
Lemma line_app x1 l1 x2 l2 : line x1 l1 -> line x2 l2 -> line (x1 ++ x2) (l1 ++ l2).
Proof. unfold line. intros H1 H2. rewrite app_assoc, H1, <- app_assoc, H2, items_text_app, app_assoc. done. Qed.
Lemma line_nil : line [] [].
Proof. done. Qed.
Lemma line_stop (b : bool) : line (if b then lit "    stop" ++ [10] else []) (stop_items b).
Proof. by destruct b. Qed.
Lemma line_end : line (lit "    ;" ++ [10]) end_items.
Proof. done. Qed.
Lemma line_send l : line (lit "    send to" ++ dest_list l ++ [10]) (send_items l).
Proof. unfold line. rewrite dest_list_text. unfold send_items. rewrite !text_cons. cbn [it_ws it_word]. rewrite <- !app_assoc. done. Qed.
Lemma send_then (a b c : cstring) : a ++ b ++ 10 :: c = (a ++ b ++ [10]) ++ c.
Proof. by rewrite <- !app_assoc. Qed.
Lemma line_opt_send (b : bool) l : line (if b then lit "    send to" ++ dest_list l ++ [10] else []) (if b then send_items l else []).
Proof. destruct b; [apply line_send|apply line_nil]. Qed.
Lemma line_concat {A} (f : A -> cstring) (g : A -> list litem) l : (forall x, line (f x) (g x)) -> line (concat (f <$> l)) (concat (g <$> l)).
Proof. intros H. induction l as [|x l IH]; cbn; [apply line_nil|]. by apply line_app. Qed.
Create HintDb line.
#[export] Hint Resolve line_app line_nil line_stop line_end line_send : line.

Lemma rewrite_text r replacement : print_rewrite r replacement = items_text (rewrite_items r replacement) ++ [10].
Proof. unfold print_rewrite, rewrite_items, end_items, name_item. cbn [app]. rewrite !text_cons, text_nil. cbn [it_ws it_word]. rewrite <- !app_assoc. done. Qed.

Lemma line_validate v :
  line (match v with
        | Some (v, action) =>
            lit "    validate " ++ router_quoteident v ++ lit " else " ++ match action with VAL_LOG => lit "log" | VAL_DROP => lit "drop" end ++ [10]
        | None => []
        end) (validate_items v).
Proof.
  destruct v as [[v action]|]; [|done]. unfold line, validate_items, name_item. rewrite !text_cons, text_nil. cbn [it_ws it_word].
  destruct action; cbn [it_ws it_word]; rewrite <- !app_assoc; done.
Qed.
Lemma line_masq m : line (match m with Some m => lit "    route using " ++ router_quoteident m ++ [10] | None => [] end) (masq_items m).
Proof.
  destruct m as [m|]; [|done]. unfold line, masq_items, name_item. rewrite !text_cons, text_nil. cbn [it_ws it_word]. rewrite <- !app_assoc. done.
Qed.
#[export] Hint Resolve line_validate line_masq : line.

Lemma match_text r run v dests : print_match r run v dests = items_text (match_words r run v dests) ++ [10].
Proof.
  unfold print_match, match_words. rewrite text_cons, items_text_app, (pattern_lines_text _ tok_pattern). fold (pattern_items r run).
  cbn [it_ws it_word app]. rewrite <- !app_assoc. do 2 f_equal. apply line_app; [apply line_validate|]. apply line_app; [apply line_masq|].
  apply line_app; [|apply line_end]. destruct dests as [|d dests]; [apply line_nil|]. rewrite send_then. apply line_app; [apply line_send|apply line_stop].
Qed.

Lemma line_compute stub c :
  line (lit "    compute " ++ compute_text c ++ lit " write to" ++ [10] ++ indented (router_quoteident (drop (length stub) (cm_metric c)))) (compute_items stub c).
Proof.
  unfold line, compute_items, name_item, indented. rewrite !text_cons, text_nil. cbn [it_ws it_word]. rewrite <- !app_assoc. done.
Qed.

Lemma aggregate_text pm r run a dests :
  PMODE_STUB pm = false -> print_aggregate pm r run a dests = items_text (aggregate_items r run a dests) ++ [10].
Proof.
  intros Hpm. unfold print_aggregate, aggregate_items. rewrite Hpm. cbn [orb negb andb].
  rewrite text_cons, items_text_app, (pattern_lines_text _ (fun x => crSTRING (pr_pattern x))).
  change ((fun x => It (list_ws (r :: run)) (router_quoteident (pr_pattern x)) (crSTRING (pr_pattern x))) <$> r :: run)
    with ((fun x => name_item (list_ws (r :: run)) (pr_pattern x)) <$> r :: run).
  cbn [it_ws it_word app]. rewrite <- !app_assoc. do 2 f_equal. fold (stub_of a dests).
  set (lastr := default r (last run)). rewrite !text_cons. cbn [it_ws it_word number_item]. rewrite <- !app_assoc.
  rewrite <- (line_app _ _ _ _ (line_concat _ _ (pa_computes a) (line_compute (stub_of a dests)))
    (line_app _ _ _ _ (line_opt_send (bool_decide (aggr_dests lastr <> [])) (aggr_dests lastr))
      (line_app _ _ _ _ (line_stop (pr_stop lastr)) line_end))).
  reflexivity.
Qed.

(** ** The words are read *)

Definition dest_ok (d : cstring) : Prop := d = lit "blackhole" \/ readable idcl d.
Definition pattern_ok (r : proute) : Prop := pr_matchall r = true \/ readable idma (pr_pattern r).
Definition compute_ok (stub : cstring) (c : pcompute) : Prop :=
  readable idag (drop (length stub) (cm_metric c)) /\ (cm_type c = PCTL -> 0 <= cm_percentile c < 100000).

(** A route whose names are readable where they are printed.  An aggregation that
    stops must also send, and the name of a group must be on its line. *)
Fixpoint route_ok (r : proute) : Prop :=
  match r with
  | mkPr p _ masq stop kind =>
      match kind with
      | PrAggregation a dests =>
          readable idag p /\ 0 <= pa_interval a < 2 ^ 31 /\ 0 <= pa_expire a < 2 ^ 31 /\
          Forall (compute_ok (stub_of a dests)) (pa_computes a) /\ Forall dest_ok dests /\ (stop = true -> dests <> [])
      | PrRewrite replacement => readable idma p /\ readable idma replacement
      | PrGroup name routes =>
          (10 ∉ name) /\ (fix all (l : list proute) : Prop := match l with [] => True | r :: l' => route_ok r /\ all l' end) routes
      | PrStub _ _ => True
      | PrMatch _ v dests =>
          pattern_ok r /\ match v with Some (v, _) => readable idma v | None => True end /\
          match masq with Some m => readable idma m | None => True end /\ Forall dest_ok dests
      end
  end.

Lemma spaced_list {A} (f : A -> litem) (l : list A) (k : list litem) :
  (forall x, x ∈ l -> it_ws (f x) <> [] /\ forallb delim (it_ws (f x)) = true) -> spaced k -> spaced ((f <$> l) ++ k).
Proof.
  intros Hf Hk. destruct l as [|x l]; [done|]. cbn. destruct (Hf x) as [H1 H2]; [set_solver|]. destruct (it_ws (f x)); [done|].
  cbn in H2. by apply andb_true_iff in H2 as [? _].
Qed.
Lemma list_ws_ok {A} (l : list A) : list_ws l <> [] /\ forallb delim (list_ws l) = true /\ forallb white (list_ws l) = true.
Proof. by destruct l as [|? [|]]. Qed.

(** A list of words that keeps the start condition. *)
Lemma chain_list {A} c i (f : A -> litem) (l : list A) :
  (forall x, x ∈ l -> reads c i (it_word (f x)) (it_tok (f x)) c i) ->
  (forall x, x ∈ l -> it_ws (f x) <> [] /\ forallb delim (it_ws (f x)) = true /\ forallb white (it_ws (f x)) = true) ->
  chain c i (f <$> l) c i.
Proof.
  intros Hr Hw. induction l as [|x l IH]; [constructor|]. cbn [fmap list_fmap]. eapply chain_cons.
  - apply Hr. set_solver.
  - apply Hw. set_solver.
  - rewrite <- (app_nil_r (_ <$> l)). apply spaced_list; [|done]. intros y Hy. destruct (Hw y) as (? & ? & ?); [set_solver|done].
  - apply IH; intros y Hy; [apply Hr|apply Hw]; set_solver.
Qed.

Lemma chain_dests l : Forall dest_ok l -> chain idcl idcl (dest_items l) idcl idcl.
Proof.
  intros Hl. apply chain_list; [|intros x _; apply list_ws_ok]. intros d Hd. rewrite Forall_forall in Hl. cbn [it_word it_tok]. unfold tok_dest.
  destruct (Hl d Hd) as [->|Hr].
  - rewrite bool_decide_eq_true_2 by done. keyword.
  - case_bool_decide as Hb; [subst d; keyword|]. by apply reads_name.
Qed.
Lemma chain_send c i l : c ∈ [idma; ma; ag; st] -> Forall dest_ok l -> chain c i (send_items l) idcl idcl.
Proof.
  intros Hc Hl. eapply (chain_cons c i _ _ ma i); [|done|done|].
  { cbn [it_word it_tok]. clear Hl. rewrite !elem_of_cons, elem_of_nil in Hc. destruct Hc as [->|[->|[->|[->|[]]]]]; keyword. }
  eapply (chain_cons ma i _ _ idcl idcl); [cbn [it_word it_tok]; keyword|done| |by apply chain_dests].
  unfold dest_items. rewrite <- (app_nil_r (_ <$> l)). apply spaced_list; [|done]. intros x _. split; [apply list_ws_ok|]. apply (list_ws_ok l).
Qed.
Lemma chain_stop b : chain idcl idcl (stop_items b) idcl idcl.
Proof. destruct b; [|constructor]. eapply chain_cons; [cbn [it_word it_tok]; keyword|done|done|constructor]. Qed.
Lemma chain_end c i : c <> qu -> chain c i end_items INITIAL i.
Proof. intros Hc. eapply chain_cons; [|done|done|constructor]. cbn [it_word it_tok]. destruct c; try done; keyword. Qed.

Lemma chain_rewrite i r replacement :
  readable idma (pr_pattern r) -> readable idma replacement -> chain INITIAL i (rewrite_items r replacement) INITIAL re.
Proof.
  intros Hp Hr. unfold rewrite_items. cbn [app].
  eapply (chain_cons _ _ _ _ idma re); [cbn [it_word it_tok]; keyword|done|done|].
  eapply (chain_cons _ _ _ _ re re); [by apply reads_name|done|done|].
  eapply (chain_cons _ _ _ _ idma re); [cbn [it_word it_tok]; keyword|done|done|].
  eapply (chain_cons _ _ _ _ re re); [by apply reads_name|done|done|]. by apply chain_end.
Qed.

Lemma chain_patterns r run : Forall pattern_ok (r :: run) -> chain idma idma (pattern_items r run) idma idma.
Proof.
  intros Hl. apply chain_list; [|intros x _; apply list_ws_ok]. intros x Hx. rewrite Forall_forall in Hl. cbn [it_word it_tok].
  unfold pattern_text, tok_pattern. specialize (Hl x Hx). destruct (pr_matchall x) eqn:Em; [keyword|]. destruct Hl as [?|Hl]; [congruence|].
  by apply reads_name.
Qed.
Lemma chain_validate v :
  match v with Some (v, _) => readable idma v | None => True end ->
  exists c i, chain idma idma (validate_items v) c i /\ c ∈ [idma; ma].
Proof.
  destruct v as [[v action]|]; intros Hv; [|exists idma, idma; split; [constructor|set_solver]].
  exists ma, ma. split; [|set_solver]. unfold validate_items.
  eapply (chain_cons _ _ _ _ idma ma); [cbn [it_word it_tok]; keyword|done|done|].
  eapply (chain_cons _ _ _ _ ma ma); [by apply reads_name|done|done|].
  eapply (chain_cons _ _ _ _ ma ma); [cbn [it_word it_tok]; keyword|done|by destruct action|].
  destruct action; (eapply (chain_cons _ _ _ _ ma ma); [cbn [it_word it_tok]; keyword|done|done|constructor]).
Qed.
Lemma chain_masq c i m :
  c ∈ [idma; ma] -> match m with Some m => readable idma m | None => True end ->
  exists c' i', chain c i (masq_items m) c' i' /\ c' ∈ [idma; ma].
Proof.
  destruct m as [m|]; intros Hc Hm; [|exists c, i; split; [constructor|done]].
  exists ma, ma. split; [|set_solver]. unfold masq_items.
  eapply (chain_cons _ _ _ _ ma i); [|done|done|].
  { cbn [it_word it_tok]. rewrite !elem_of_cons, elem_of_nil in Hc. destruct Hc as [->|[->|[]]]; keyword. }
  eapply (chain_cons _ _ _ _ idma ma); [cbn [it_word it_tok]; keyword|done|done|].
  eapply (chain_cons _ _ _ _ ma ma); [by apply reads_name|done|done|constructor].
Qed.

Lemma spaced_tail v m k : spaced k -> spaced (validate_items v ++ masq_items m ++ k).
Proof. by destruct v as [[? ?]|], m. Qed.
Lemma spaced_masq m k : spaced k -> spaced (masq_items m ++ k).
Proof. by destruct m. Qed.

Lemma chain_match i r run v dests :
  Forall pattern_ok (r :: run) -> match v with Some (v, _) => readable idma v | None => True end ->
  match pr_masq (default r (last run)) with Some m => readable idma m | None => True end -> Forall dest_ok dests ->
  exists i', chain INITIAL i (match_words r run v dests) INITIAL i'.
Proof.
  intros Hp Hv Hm Hd. destruct (chain_validate v Hv) as (c1 & i1 & H1 & Hc1). destruct (chain_masq c1 i1 _ Hc1 Hm) as (c2 & i2 & H2 & Hc2).
  set (tl := match dests with [] => [] | _ => send_items dests ++ stop_items (pr_stop r) end ++ end_items).
  assert (spaced tl) as Hs by (by destruct dests).
  assert (exists i', chain c2 i2 tl INITIAL i') as (i' & H3).
  { unfold tl. destruct dests as [|d dests].
    - exists i2. apply chain_end. set_solver.
    - exists idcl. rewrite <- app_assoc. eapply chain_app; [apply chain_send; [set_solver|done]|by destruct (pr_stop r)|].
      eapply chain_app; [apply chain_stop|done|by apply chain_end]. }
  exists i'. unfold match_words. eapply (chain_cons _ _ _ _ idma idma); [cbn [it_word it_tok]; keyword|done| |].
  - unfold pattern_items. apply spaced_list; [intros x _; split; apply (list_ws_ok (r :: run))|]. by apply spaced_tail.
  - eapply chain_app; [by apply chain_patterns|by apply spaced_tail|].
    eapply chain_app; [exact H1|by apply spaced_masq|]. eapply chain_app; [exact H2|exact Hs|exact H3].
Qed.

Lemma snprintf_short n s : (length s < n)%nat -> snprintf_trunc n s = s.
Proof. intros H. unfold snprintf_trunc. by rewrite take_ge by lia. Qed.
Lemma digits_fuel_short fuel k n acc : 0 <= n < 10 ^ Z.of_nat (S k) -> (length (digits_fuel fuel n acc) <= S k + length acc)%nat.
Proof.
  revert k n acc. induction fuel as [|fuel IH]; intros k n acc Hn; cbn [digits_fuel]; [lia|].
  destruct (Z.ltb_spec n 10); [cbn [length]; lia|].
  assert (10 ^ Z.of_nat (S k) = 10 * 10 ^ Z.of_nat k) as E by (rewrite Nat2Z.inj_succ, Z.pow_succ_r; lia).
  destruct k as [|k]; [cbn in E; lia|]. etransitivity; [apply (IH k)|cbn [length]; lia].
  split; [apply Z.div_pos; lia|]. apply Z.div_lt_upper_bound; lia.
Qed.
Lemma compute_text_pctl c : cm_type c = PCTL -> 0 <= cm_percentile c < 100000 -> compute_text c = lit "percentile" ++ show_nonneg (cm_percentile c).
Proof.
  intros Ht Hc. unfold compute_text. rewrite Ht. unfold show_Z. rewrite (proj2 (Z.ltb_ge _ _)) by lia. apply snprintf_short.
  rewrite length_app. pose proof (digits_fuel_short (Z.to_nat (Z.log2_up (cm_percentile c + 2)) + 1) 4 (cm_percentile c) []) as Hl.
  change (10 ^ Z.of_nat 5) with 100000 in Hl. unfold show_nonneg. cbn [length lit] in *. specialize (Hl Hc). change (length (lit "percentile")) with 10%nat. lia.
Qed.

(** A keyword of an item list. *)
Ltac word c' i' := eapply (chain_cons _ _ _ _ c' i'); [cbn [it_word it_tok]; keyword|reflexivity|try done|].

Lemma reads_compute i c :
  (cm_type c = PCTL -> 0 <= cm_percentile c < 100000) -> reads ag i (compute_text c) (tok_compute c) ag i.
Proof.
  intros Hc. destruct (decide (cm_type c = PCTL)) as [Et|Hn].
  - rewrite compute_text_pctl by auto. unfold tok_compute. rewrite Et. specialize (Hc Et). apply reads_percentile. lia.
  - clear Hc. unfold compute_text, tok_compute. destruct (cm_type c); try (by destruct Hn); clear Hn; keyword.
Qed.
Lemma chain_compute stub i c : compute_ok stub c -> chain ag i (compute_items stub c) ag ag.
Proof.
  intros [Hn Hp]. unfold compute_items. word ag i.
  eapply (chain_cons _ _ _ _ ag i); [by apply reads_compute|reflexivity|done|]. word ag i. word idag ag.
  eapply (chain_cons _ _ _ _ ag ag); [by apply reads_name|reflexivity|done|constructor].
Qed.
Lemma spaced_computes stub cs k : spaced k -> spaced (concat (compute_items stub <$> cs) ++ k).
Proof. by destruct cs. Qed.
Lemma chain_computes stub i cs : Forall (compute_ok stub) cs -> exists i', chain ag i (concat (compute_items stub <$> cs)) ag i'.
Proof.
  intros Hc. revert i. induction Hc as [|c cs Hc Hcs IH]; intros i; cbn [fmap list_fmap concat]; [exists i; constructor|].
  destruct (IH ag) as (i' & H'). exists i'. eapply chain_app; [by apply chain_compute| |exact H'].
  rewrite <- (app_nil_r (concat _)). by apply spaced_computes.
Qed.

Lemma chain_aggregate i r run a dests :
  Forall (fun r => readable idag (pr_pattern r)) (r :: run) -> 0 <= pa_interval a < 2 ^ 31 -> 0 <= pa_expire a < 2 ^ 31 ->
  Forall (compute_ok (stub_of a dests)) (pa_computes a) -> Forall dest_ok (aggr_dests (default r (last run))) ->
  (pr_stop (default r (last run)) = true -> aggr_dests (default r (last run)) <> []) ->
  exists i', chain INITIAL i (aggregate_items r run a dests) INITIAL i'.
Proof.
  intros Hp Hi He Hc Hd Hs. unfold aggregate_items. set (lastr := default r (last run)) in *.
  set (tl := (if bool_decide (aggr_dests lastr <> []) then send_items (aggr_dests lastr) else []) ++ stop_items (pr_stop lastr) ++ end_items).
  destruct (chain_computes (stub_of a dests) idag (pa_computes a) Hc) as (i1 & H1).
  assert (spaced tl) as Htl by (unfold tl; case_bool_decide; [done|by destruct (pr_stop lastr)]).
  assert (exists i', chain ag i1 tl INITIAL i') as (i' & H2).
  { unfold tl. case_bool_decide as Hne.
    - exists idcl. eapply chain_app; [apply chain_send; [set_solver|done]|by destruct (pr_stop lastr)|].
      eapply chain_app; [apply chain_stop|done|by apply chain_end].
    - exists i1. destruct (pr_stop lastr); [by destruct (Hs eq_refl)|]. by apply chain_end. }
  exists i'. word idag idag; [apply spaced_list; [intros x _; split; apply (list_ws_ok (r :: run))|done]|].
  eapply chain_app; [|done|].
  { apply chain_list; [|intros x _; apply list_ws_ok]. intros x Hx. rewrite Forall_forall in Hp. by apply reads_name, Hp. }
  clear Hp Hc Hd Hs. cbn [app]. word ag idag.
  eapply (chain_cons _ _ _ _ ag idag); [apply reads_number; [set_solver|done]|reflexivity|done|].
  word ag idag. word ag idag. word ag idag.
  eapply (chain_cons _ _ _ _ ag idag); [apply reads_number; [set_solver|done]|reflexivity|done|].
  word ag idag. word ag idag. word ag idag. eapply (chain_cons _ _ _ _ ag idag); [destruct (pa_tswhen a); keyword|reflexivity|done|].
  word ag idag. word ag idag; [by apply spaced_computes|]. eapply chain_app; [exact H1|exact Htl|exact H2].
Qed.

(** ** Whole texts *)

(** A text that is read from its beginning to its end as [ts], whatever white space
    is in front of it, and a part of a text that contributes [ts]. *)
Definition reads_all (text : cstring) (ts : list ytoken) : Prop :=
  forall i b w, forallb white w = true ->
  exists i' b', scans (mkLex INITIAL i b) (w ++ text) ts (mkLex INITIAL i' b') [].
Definition renders (text : cstring) (ts : list ytoken) : Prop :=
  forall rest ts', reads_all rest ts' -> reads_all (text ++ rest) (ts ++ ts').

Lemma reads_all_nil : reads_all [] [].
Proof. intros i b w Hw. exists i, b. by apply scans_white. Qed.
Lemma renders_nil : renders [] [].
Proof. by intros rest ts'. Qed.
Lemma renders_app a ta b tb : renders a ta -> renders b tb -> renders (a ++ b) (ta ++ tb).
Proof. intros Ha Hb rest ts' H. rewrite <- !app_assoc. by apply Ha, Hb. Qed.
Lemma renders_concat {A} (f : A -> cstring) (g : A -> list ytoken) l :
  Forall (fun x => renders (f x) (g x)) l -> renders (concat (f <$> l)) (concat (g <$> l)).
Proof. induction 1 as [|x l Hx Hl IH]; cbn; [apply renders_nil|]. by apply renders_app. Qed.
Lemma renders_newline : renders [10] [].
Proof.
  intros rest ts' H i b w Hw. cbn [app]. rewrite (cons_middle 10 w rest), app_assoc. apply H. rewrite forallb_app, Hw. done.
Qed.
Lemma renders_text text ts : renders text ts -> lex_text text = Some (ts, None).
Proof.
  intros H. destruct (H [] [] reads_all_nil INITIAL [] [] eq_refl) as (i' & b' & Hs). rewrite !app_nil_r in Hs. cbn [app] in Hs.
  unfold lex_text. eapply scans_lex; [exact Hs|discriminate|lia].
Qed.

Lemma renders_words l :
  match l with It [] _ _ :: _ => True | _ => False end -> (forall i, exists i', chain INITIAL i l INITIAL i') ->
  renders (items_text l ++ [10]) (it_tok <$> l).
Proof.
  intros Hl Hc rest ts' Hr i b w Hw. destruct (Hc i) as (i1 & Hch). destruct (chain_scans _ _ _ _ _ Hch b 10 rest eq_refl) as (b1 & Hs).
  destruct (Hr i1 b1 [10] eq_refl) as (i' & b' & Hs'). exists i', b'. rewrite <- app_assoc. cbn [app].
  apply (scans_app _ _ [] (mkLex INITIAL i b) (items_text l ++ 10 :: rest)).
  - apply scans_white; [discriminate|done|]. destruct l as [|x l]; [done|]. inversion Hch as [|? ? ? ? ? ? ? ? (Hq & Hne & Hso & _) Hws _ _]; subst.
    destruct x as [[|] word t]; [|done]. rewrite text_cons. cbn [it_ws it_word app]. rewrite <- app_assoc. by apply solid_app.
  - eapply scans_app; [exact Hs|exact Hs'].
Qed.

Lemma step_comment c i b w rest :
  c <> qu -> (10 ∉ w) -> lex_step (mkLex c i b) (35 :: w ++ 10 :: rest) = Some (Goto (mkLex c i b), rest).
Proof.
  intros Hc Hw. set (l := 35 :: w ++ 10 :: rest).
  assert (forallb (fun c => negb (c =? 10)) (35 :: w) = true) as Hall.
  { apply forallb_forall. intros x Hx%list_elem_of_In. apply negb_true_iff, Z.eqb_neq. intros ->. set_solver. }
  assert (match_len Comment l = S (length (35 :: w))) as Hlen.
  { cbn [match_len]. unfold l. cbn [begins]. change (35 =? 35) with true. cbn [negb].
    change (35 :: w ++ 10 :: rest) with ((35 :: w) ++ 10 :: rest). rewrite run_all by done.
    rewrite (proj2 (Nat.ltb_lt _ _)); [done|]. rewrite length_app. cbn. lia. }
  unfold lex_step. cbn [lx_cond]. fold l.
  assert (rules = (keywords ++ [OpenQuote; CloseQuote; QuNewline; QuEscape; QuText]) ++ Comment :: [Space; Newlines; IntVal; Ident; Semicolon; AnyChar]) as ->.
  { with_strategy transparent [rules] unfold rules. by rewrite <- app_assoc. }
  assert (bool_decide (c = qu) = false) as Hq by (by apply bool_decide_eq_false).
  rewrite (pick_first c l _ Comment _ (S (length (35 :: w)))); [|unfold rule_len; by rewrite Hlen|lia| |].
  - run_binds. cbn [act]. unfold l. change (35 :: w ++ 10 :: rest) with ((35 :: w) ++ [10] ++ rest). rewrite app_assoc.
    replace (S (length (35 :: w))) with (length ((35 :: w) ++ [10])) by (rewrite length_app; cbn; lia). by rewrite drop_app_length.
  - apply Forall_app. split.
    + apply Forall_forall. intros r Hr. unfold l. rewrite kw_none by done. lia.
    + each_rule; unfold rule_len; cbn [active match_len]; rewrite ?Hq; try lia. unfold l, one_if. cbn. case_match; lia.
  - assert (ident_run 0 false l = O) as Hid by (unfold l; cbn [ident_run]; assert (idchr 35 = false) as -> by done; by rewrite andb_false_r).
    each_rule; unfold rule_len; cbn [active match_len]; rewrite ?Hid; unfold l; cbn; try lia; case_match; lia.
Qed.
Lemma renders_comment w : (10 ∉ w) -> renders (35 :: w ++ [10]) [].
Proof.
  intros Hw rest ts' Hr i b ws Hws. destruct (Hr i b [] eq_refl) as (i' & b' & Hs). exists i', b'. cbn [app]. rewrite <- app_assoc. cbn [app].
  apply (scans_app _ _ [] (mkLex INITIAL i b) (35 :: w ++ 10 :: rest)); [by apply scans_white|].
  eapply scans_goto; [discriminate|by apply step_comment|exact Hs].
Qed.
Create HintDb renders.
#[export] Hint Resolve renders_nil renders_app renders_newline renders_comment : renders.

(** ** The tokens of a route *)

Definition send_tokens (l : list cstring) : list ytoken := crSEND :: crTO :: (tok_dest <$> l).
Definition stop_tokens (b : bool) : list ytoken := if b then [crSTOP] else [].

Definition rewrite_tokens (r : proute) (replacement : cstring) : list ytoken :=
  [crREWRITE; crSTRING (pr_pattern r); crINTO; crSTRING replacement; end_token].
Definition match_tokens (r : proute) (run : list proute) (v : option (cstring * validate_action)) (dests : list cstring) : list ytoken :=
  crMATCH :: (tok_pattern <$> r :: run) ++
  match v with
  | Some (v, action) => [crVALIDATE; crSTRING v; crELSE; match action with VAL_LOG => crLOG | VAL_DROP => crDROP end]
  | None => []
  end ++
  match pr_masq (default r (last run)) with Some m => [crROUTE; crUSING; crSTRING m] | None => [] end ++
  match dests with [] => [] | _ => send_tokens dests ++ stop_tokens (pr_stop r) end ++ [end_token].
Definition compute_tokens (stub : cstring) (c : pcompute) : list ytoken :=
  [crCOMPUTE; tok_compute c; crWRITE; crTO; crSTRING (drop (length stub) (cm_metric c))].
Definition aggregate_tokens (r : proute) (run : list proute) (a : paggr) (dests : list cstring) : list ytoken :=
  let lastr := default r (last run) in
  crAGGREGATE :: ((fun x => crSTRING (pr_pattern x)) <$> r :: run) ++
  [crEVERY; crINTVAL (pa_interval a); crSECONDS; crEXPIRE; crAFTER; crINTVAL (pa_expire a); crSECONDS; crTIMESTAMP; crAT;
   match pa_tswhen a with TS_START => crSTART | TS_MIDDLE => crMIDDLE | TS_END => crEND end; crOF; crBUCKET] ++
  concat (compute_tokens (stub_of a dests) <$> pa_computes a) ++
  match aggr_dests lastr with [] => [] | l => send_tokens l end ++ stop_tokens (pr_stop lastr) ++ [end_token].

(** What is read of the routes: the members of a group are read as if they were on
    the outside, unless aggregations are not printed; a stub is never read. *)
Fixpoint route_tokens (fuel : nat) (aggr : bool) (rs : list proute) : list ytoken :=
  match fuel, rs with
  | S fuel', r :: rs' =>
      match pr_kind r with
      | PrAggregation a dests =>
          if aggr then let '(run, rs') := rule_run (same_aggr a) rs' in aggregate_tokens r run a dests ++ route_tokens fuel' aggr rs'
          else route_tokens fuel' aggr rs'
      | PrRewrite replacement => rewrite_tokens r replacement ++ route_tokens fuel' aggr rs'
      | PrGroup _ routes => (if aggr then route_tokens fuel' aggr routes else []) ++ route_tokens fuel' aggr rs'
      | PrStub _ _ => route_tokens fuel' aggr rs'
      | PrMatch id v dests =>
          let '(run, rs') := rule_run (same_dests id) rs' in match_tokens r run v dests ++ route_tokens fuel' aggr rs'
      end
  | _, _ => []
  end.

Lemma toks_send l : it_tok <$> send_items l = send_tokens l.
Proof. unfold send_items, send_tokens, dest_items. cbn [fmap list_fmap it_tok]. by rewrite <- list_fmap_compose. Qed.
Lemma toks_stop b : it_tok <$> stop_items b = stop_tokens b.
Proof. by destruct b. Qed.
Lemma toks_match r run v dests : it_tok <$> match_words r run v dests = match_tokens r run v dests.
Proof.
  unfold match_words, match_tokens, pattern_items. cbn [fmap list_fmap it_tok]. rewrite !fmap_app. cbn [fmap list_fmap it_tok].
  f_equal. f_equal; [by rewrite <- list_fmap_compose|]. f_equal; [by destruct v as [[? []]|]|]. f_equal; [by destruct (pr_masq _)|].
  f_equal. destruct dests; [done|]. by rewrite fmap_app, toks_send, toks_stop.
Qed.
Lemma toks_computes stub cs : it_tok <$> concat (compute_items stub <$> cs) = concat (compute_tokens stub <$> cs).
Proof. induction cs as [|c cs IH]; [done|]. cbn [fmap list_fmap concat]. by rewrite fmap_app, IH. Qed.
Lemma toks_aggregate r run a dests : it_tok <$> aggregate_items r run a dests = aggregate_tokens r run a dests.
Proof.
  unfold aggregate_items, aggregate_tokens. cbn [fmap list_fmap it_tok]. rewrite !fmap_app, toks_computes, toks_stop.
  cbn [fmap list_fmap it_tok number_item name_item]. f_equal. f_equal; [by rewrite <- list_fmap_compose|].
  cbn [app]. do 12 f_equal. f_equal. f_equal. destruct (aggr_dests _) as [|d l]; [done|]. rewrite bool_decide_eq_true_2 by done. apply toks_send.
Qed.

(** ** Routes read back *)

Lemma rule_run_all f l : Forall (fun r => f r = true) (rule_run f l).1.
Proof. induction l as [|r l IH]; cbn [rule_run]; [constructor|]. destruct (f r) eqn:E; [|constructor]. destruct (rule_run f l). by constructor. Qed.
Lemma rule_run_parts f l a b (P : proute -> Prop) : rule_run f l = (a, b) -> Forall P l -> Forall (fun r => f r = true /\ P r) a /\ Forall P b.
Proof.
  intros E Hl. pose proof (rule_run_all f l) as Ha. rewrite E in Ha. apply rule_run_spec in E. subst l. apply Forall_app in Hl as [H1 H2].
  split; [|done]. by apply Forall_and.
Qed.
Lemma last_forall {A} (P : A -> Prop) (r : A) run : P r -> Forall P run -> P (default r (last run)).
Proof. intros Hr Hl. destruct (last run) as [x|] eqn:E; [|done]. apply last_Some in E as (l' & ->). rewrite Forall_app, Forall_cons in Hl. tauto. Qed.
Lemma group_ok p m q s name routes : route_ok (mkPr p m q s (PrGroup name routes)) <-> (10 ∉ name) /\ Forall route_ok routes.
Proof.
  cbn [route_ok]. induction routes as [|r routes IH]; [split; intros [? ?]; (split; [done|constructor])|].
  rewrite Forall_cons. tauto.
Qed.
Lemma take_not_in (x : Z) n l : x ∉ l -> x ∉ rev (take n l).
Proof. intros Hx Hi. apply Hx. rewrite <- (take_drop n l), elem_of_app. left. apply list_elem_of_In, in_rev, list_elem_of_In. done. Qed.
Lemma literal_line (s : string) : forallb (fun x => negb (x =? 10)) (lit s) = true -> 10 ∉ lit s.
Proof. intros Hf Hi%list_elem_of_In. by apply (proj1 (forallb_forall _ _) Hf) in Hi. Qed.
Lemma digits_line n : 10 ∉ show_nonneg n.
Proof. intros Hi. destruct (show_nonneg_digits n) as [Hd _]. by apply (proj1 (Forall_forall _ _) Hd) in Hi. Qed.

Lemma renders_group (name : cstring) n :
  (10 ∉ name) -> renders (lit "# common pattern group '" ++ blockname name ++ lit "' contains " ++ show_nonneg n ++ lit " aggregations/matches" ++ [10]) [].
Proof.
  intros Hn. set (w := lit " common pattern group '" ++ blockname name ++ lit "' contains " ++ show_nonneg n ++ lit " aggregations/matches").
  assert (10 ∉ w) as Hw.
  { unfold w. rewrite !not_elem_of_app. pose proof (take_not_in 10 62 name Hn). pose proof (digits_line n). split_and!; try done; by apply literal_line. }
  pose proof (renders_comment w Hw) as H. unfold w in H. rewrite <- !app_assoc in H. exact H.
Qed.
Lemma renders_group_end (name : cstring) : (10 ∉ name) -> renders (lit "# end of group '" ++ blockname name ++ lit "'" ++ [10]) [].
Proof.
  intros Hn. set (w := lit " end of group '" ++ blockname name ++ lit "'").
  assert (10 ∉ w) as Hw.
  { unfold w. rewrite !not_elem_of_app. pose proof (take_not_in 10 62 name Hn). split_and!; try done; by apply literal_line. }
  pose proof (renders_comment w Hw) as H. unfold w in H. rewrite <- !app_assoc in H. exact H.
Qed.

Lemma renders_rewrite r replacement :
  route_ok r -> pr_kind r = PrRewrite replacement -> renders (print_rewrite r replacement) (rewrite_tokens r replacement).
Proof.
  destruct r as [p m q s k]. cbn [pr_kind]. intros Hr ->. destruct Hr as [Hp Hr].
  rewrite rewrite_text. apply (renders_words (rewrite_items _ _)); [done|]. intros i. exists re. by apply chain_rewrite.
Qed.
Lemma renders_match r run id v dests :
  route_ok r -> pr_kind r = PrMatch id v dests -> Forall (fun x => same_dests id x = true /\ route_ok x) run ->
  renders (print_match r run v dests) (match_tokens r run v dests).
Proof.
  intros Hr Hk Hrun. rewrite match_text, <- toks_match. apply renders_words; [done|]. intros i.
  assert (forall x, same_dests id x = true /\ route_ok x ->
    pattern_ok x /\ match pr_masq x with Some m => readable idma m | None => True end) as Hone.
  { intros [p m q s k] [Hs Hx]. destruct k; try done. cbn [route_ok pr_masq] in *. tauto. }
  assert (same_dests id r = true) as Hsame by (unfold same_dests; rewrite Hk; apply Nat.eqb_refl).
  destruct (last_forall _ r run (conj Hsame Hr) Hrun) as [Hls Hlast].
  apply chain_match.
  - constructor; [by apply Hone|]. eapply Forall_impl; [exact Hrun|]. intros x Hx. by apply Hone.
  - destruct r as [p m q s k]. cbn [pr_kind] in Hk. subst k. cbn [route_ok] in Hr. tauto.
  - by apply Hone.
  - destruct r as [p m q s k]. cbn [pr_kind] in Hk. subst k. cbn [route_ok] in Hr. tauto.
Qed.
Lemma renders_aggregate pm r run a dests :
  PMODE_STUB pm = false -> route_ok r -> pr_kind r = PrAggregation a dests -> Forall (fun x => same_aggr a x = true /\ route_ok x) run ->
  renders (print_aggregate pm r run a dests) (aggregate_tokens r run a dests).
Proof.
  intros Hpm Hr Hk Hrun. rewrite aggregate_text, <- toks_aggregate by done. apply renders_words; [done|]. intros i.
  assert (forall x, same_aggr a x = true /\ route_ok x ->
    readable idag (pr_pattern x) /\ Forall dest_ok (aggr_dests x) /\ (pr_stop x = true -> aggr_dests x <> [])) as Hone.
  { intros [p m q s k] [Hs Hx]. destruct k; try done. cbn [route_ok pr_pattern pr_stop] in *. unfold aggr_dests. cbn [pr_kind]. tauto. }
  assert (same_aggr a r = true) as Hsame by (unfold same_aggr; rewrite Hk; apply Nat.eqb_refl).
  destruct (Hone _ (last_forall _ r run (conj Hsame Hr) Hrun)) as (_ & Hd & Hstop).
  assert (0 <= pa_interval a < 2 ^ 31 /\ 0 <= pa_expire a < 2 ^ 31 /\ Forall (compute_ok (stub_of a dests)) (pa_computes a)) as (H1 & H2 & H3).
  { destruct r as [p m q s k]. cbn [pr_kind] in Hk. subst k. cbn [route_ok] in Hr. tauto. }
  apply chain_aggregate; [|done..]. constructor; [by apply Hone|]. eapply Forall_impl; [exact Hrun|]. intros x Hx. by apply Hone.
Qed.

Lemma renders_routes fuel pm rs text :
  PMODE_STUB pm = false -> Forall route_ok rs -> print_routes fuel pm rs = Some text -> renders text (route_tokens fuel (PMODE_AGGR pm) rs).
Proof.
  intros Hpm. revert rs text. induction fuel as [|fuel IH]; intros rs text Hok; cbn [print_routes route_tokens]; [discriminate|].
  destruct rs as [|r rs]; [intros [= <-]; apply renders_nil|]. apply Forall_cons in Hok as [Hr Hrs].
  destruct (pr_kind r) as [a dests|replacement|name routes|stat dests|id v dests] eqn:Hk.
  - destruct (PMODE_AGGR pm) eqn:Ea; cbn [negb]; [|intros H; by apply IH]. destruct (rule_run _ rs) as [run rs'] eqn:E.
    destruct (rule_run_parts _ _ _ _ _ E Hrs) as [Hrun Hrs']. destruct (print_routes fuel pm rs') as [t|] eqn:Et; [|discriminate]. run_binds. intros <-%Some_inj.
    apply renders_app; [by apply renders_aggregate|by apply IH].
  - destruct (print_routes fuel pm rs) as [t|] eqn:Et; [|discriminate]. run_binds. intros <-%Some_inj.
    apply renders_app; [by apply renders_rewrite|by apply IH].
  - destruct r as [p m q s k]. cbn [pr_kind] in Hk. subst k. apply group_ok in Hr as [Hname Hroutes].
    destruct (PMODE_AGGR pm) eqn:Ea.
    + destruct (print_routes fuel pm routes) as [sub|] eqn:Es; [|discriminate]. run_binds.
      destruct (print_routes fuel pm rs) as [t|] eqn:Et; [|discriminate]. run_binds. intros <-%Some_inj.
      pose proof (renders_app _ _ _ _ (renders_group name (Z.of_nat (length routes)) Hname) (renders_app _ _ _ _ renders_newline
        (renders_app _ _ _ _ (IH _ _ Hroutes Es) (renders_app _ _ _ _ (renders_group_end name Hname) (IH _ _ Hrs Et))))) as H.
      rewrite <- ?app_assoc in H. rewrite <- ?app_assoc. exact H.
    + run_binds. destruct (print_routes fuel pm rs) as [t|] eqn:Et; [|discriminate]. run_binds. intros <-%Some_inj.
      pose proof (renders_app _ _ _ _ (renders_group name (Z.of_nat (length routes)) Hname) (IH _ _ Hrs Et)) as H.
      rewrite <- ?app_assoc in H. rewrite <- ?app_assoc. exact H.
  - rewrite Hpm. destruct (print_routes fuel pm rs) as [t|] eqn:Et; [|discriminate]. run_binds. intros <-%Some_inj. by apply IH.
  - destruct (rule_run _ rs) as [run rs'] eqn:E. destruct (rule_run_parts _ _ _ _ _ E Hrs) as [Hrun Hrs'].
    destruct (print_routes fuel pm rs') as [t|] eqn:Et; [|discriminate]. run_binds. intros <-%Some_inj.
    apply renders_app; [by eapply renders_match|by apply IH].
Qed.

(** ** Clusters *)

Lemma show_Z_nonneg n : 0 <= n -> show_Z n = show_nonneg n.
Proof. intros Hn. unfold show_Z. by rewrite (proj2 (Z.ltb_ge _ _)). Qed.

(** No keyword has a colon: a host with its port is a name. *)
Definition host_word (s : psrv) : cstring := serverip s ++ lit ":" ++ show_Z (ps_port s).
Lemma not_reserved c w : ch ":" ∈ w -> reserved c w = false.
Proof.
  intros Hw. apply not_true_iff_false. intros (r & Hr & Ht)%existsb_exists.
  assert (forallb (fun r => match r with Kw _ text _ _ _ => negb (bool_decide (ch ":" ∈ text)) | _ => true end) keywords = true) as Hf
    by (vm_compute; reflexivity).
  pose proof (proj1 (forallb_forall _ _) Hf r Hr) as H. clear Hf. destruct r as [conds text ? ? ?| | | | | | | | | | | | |]; try discriminate.
  apply andb_true_iff in Ht as [_ Ht%bool_decide_eq_true]. apply negb_true_iff, bool_decide_eq_false in H. congruence.
Qed.
Lemma bare_colon c w n : forallb idchr w = true -> bare c (w ++ lit ":" ++ show_nonneg n).
Proof.
  intros Hw. destruct (show_nonneg_digits n) as [Hd Hne]. set (d := show_nonneg n) in *. split_and!.
  - by destruct w.
  - rewrite !forallb_app, Hw. cbn [andb]. apply forallb_forall. intros x Hx%list_elem_of_In.
    unfold idchr, is_alnum. by rewrite (proj1 (Forall_forall _ _) Hd x Hx), !orb_true_r.
  - rewrite !last_app. destruct (last d) as [x|] eqn:E; [|by apply last_None in E]. intros [= ->].
    apply last_Some in E as (l' & E). rewrite E, Forall_app, Forall_cons in Hd. by destruct Hd as (_ & ? & _).
  - apply not_reserved. rewrite !elem_of_app. right. left. by left.
  - intros _. rewrite !forallb_app. cbn. by rewrite andb_false_r.
Qed.
Lemma reads_bare c i w : id_cond c = true -> bare c w -> reads c i w (crSTRING w) i i.
Proof.
  intros Hc Hw. pose proof Hw as (Hne & Hid & _). split_and!; [by apply id_cond_not_ag|done| |intros b d rest Hd; exists b; by apply scans_bare].
  destruct w as [|x w]; [done|]. cbn in Hid. apply andb_true_iff in Hid as [Hx _]. by apply idchr_solid.
Qed.

(** What the configuration can set. *)
Definition transport_ok (t : Z) : Prop :=
  t ∈ [W_PLAIN; W_GZIP; W_LZ4; W_SNAPPY; Z.lor W_SSL W_PLAIN; Z.lor W_SSL W_GZIP; Z.lor W_SSL W_LZ4; Z.lor W_SSL W_SNAPPY].
Definition transport_items (t : Z) : list litem :=
  let base := Z.land t 65535 in
  (if t =? W_PLAIN then [] else [It sp (lit "transport") crTRANSPORT]) ++
  (if base =? W_PLAIN then [] else
     [It sp (con_trnsp_str base) (if base =? W_GZIP then crGZIP else if base =? W_LZ4 then crLZ4 else crSNAPPY)]) ++
  (if ssl_bit t then [It (if base =? W_PLAIN then sp ++ sp else sp) (lit "ssl") crSSL] else []).
Definition option_items (s : psrv) : list litem :=
  match ps_ctype s with CON_UDP => [It sp (lit "proto") crPROTO; It sp (lit "udp") crUDP] | _ => [] end ++
  match ps_type s with T_LINEMODE => [] | T_SYSLOGMODE => [It sp (lit "type") crTYPE; It sp (lit "syslog") crSYSLOGMODE] end ++
  transport_items (ps_transport s).
Definition host_items (s : psrv) : list litem := It nl8 (host_word s) (crSTRING (host_word s)) :: option_items s.
Definition file_item (s : psrv) : list litem := [name_item nl8 (serverip s)].
Definition count_items (show : bool) (word : string) (t : ytoken) (n : Z) : list litem :=
  if show then [It nl4 (lit word) t; number_item sp n] else [].
Definition ch_item (k : ch_kind) : litem :=
  match k with
  | PkCarbon => It nl4 (lit "carbon_ch") crCARBON_CH | PkFnv1a => It nl4 (lit "fnv1a_ch") crFNV1A_CH
  | PkJump => It nl4 (lit "jump_fnv1a_ch") crJUMP_FNV1A_CH
  end.
Definition member_items (c : pcluster) : list litem :=
  match pc_members c with
  | PmForward l => It nl4 (lit "forward") crFORWARD :: concat (host_items <$> l)
  | PmFile ip l => It nl4 (lit "file") crFILE :: (if ip then [It sp (lit "ip") crIP] else []) ++ concat (file_item <$> l)
  | PmAnyof l => It nl4 (lit "any_of") crANY_OF :: concat (host_items <$> l)
  | PmFailover l => It nl4 (lit "failover") crFAILOVER :: concat (host_items <$> l)
  | PmLb l => It nl4 (lit "lb") crLB :: concat (host_items <$> l)
  | PmCh k repl l _ =>
      ch_item k :: It sp (lit "replication") crREPLICATION :: number_item sp repl ::
      (if pc_dynamic c then [It sp (lit "dynamic") crDYNAMIC] else []) ++ concat (host_items <$> l)
  | PmHidden => []
  end.
Definition cluster_items (c : pcluster) : list litem :=
  It [] (lit "cluster") crCLUSTER :: name_item sp (pc_name c) :: member_items c ++
  count_items (negb (pc_connections c =? 1)) "connections" crCONNECTIONS (pc_connections c) ++
  count_items (negb (pc_ttl c =? 0)) "ttl" crTTL (pc_ttl c / 60) ++
  count_items (negb (pc_threshold_start c =? 0)) "threshold_start" crTHRESHOLD_START (pc_threshold_start c) ++
  count_items (negb (pc_threshold_end c =? 0)) "threshold_end" crTHRESHOLD_END (pc_threshold_end c) ++ end_items.

Lemma transport_items_text t : transport_ok t -> transport_text t (lit " ssl") = items_text (transport_items t).
Proof. unfold transport_ok. rewrite !elem_of_cons, elem_of_nil. intros Ht. repeat (destruct Ht as [->|Ht]; [done|]). done. Qed.
Lemma option_items_text s : transport_ok (ps_transport s) -> server_options s = items_text (option_items s).
Proof.
  intros Ht. unfold server_options, option_items. rewrite !items_text_app, <- transport_items_text by done.
  f_equal; [by destruct (ps_ctype s)|]. f_equal. by destruct (ps_type s).
Qed.
Lemma line_host s : transport_ok (ps_transport s) -> line (host_line s) (host_items s).
Proof.
  intros Ht. unfold line, host_items, host_line, indented, host_word. rewrite text_cons, option_items_text by done. cbn [it_ws it_word].
  rewrite <- !app_assoc. done.
Qed.
Lemma line_ch_host s : ps_instance s = None -> ch_line s = host_line s.
Proof. intros Hi. unfold ch_line, host_line. by rewrite Hi. Qed.
Lemma line_file s : line (indented (router_quoteident (serverip s))) (file_item s).
Proof. unfold line, file_item, indented, name_item. rewrite text_cons, text_nil. cbn [it_ws it_word]. by rewrite <- !app_assoc. Qed.
Lemma line_concat_in {A} (f : A -> cstring) (g : A -> list litem) l : Forall (fun x => line (f x) (g x)) l -> line (concat (f <$> l)) (concat (g <$> l)).
Proof. induction 1; cbn; [apply line_nil|]. by apply line_app. Qed.
Lemma line_count (show : bool) word t n (shown : Z -> cstring) :
  shown n = show_nonneg n -> line (if show then [] else lit "    " ++ lit word ++ sp ++ shown n ++ [10]) (count_items (negb show) word t n).
Proof.
  intros Hs. destruct show; [apply line_nil|]. unfold line, count_items. cbn [negb]. rewrite !text_cons, text_nil. cbn [it_ws it_word number_item].
  rewrite Hs, <- !app_assoc. done.
Qed.
(** The line with the keyword of the members, and their lines. *)
Lemma line_members (w rest : cstring) (x : litem) (l0 l : list litem) :
  it_ws x = nl4 -> w = lit "    " ++ it_word x ++ items_text l0 ++ [10] -> line rest l -> line (w ++ rest) (x :: l0 ++ l).
Proof.
  intros Hx -> Hr. unfold line in *. rewrite text_cons, items_text_app, Hx, <- !app_assoc, <- Hr. done.
Qed.

Definition server_ok (s : psrv) : Prop :=
  forallb idchr (serverip s) = true /\ 0 <= ps_port s /\ ps_instance s = None /\ transport_ok (ps_transport s).
Definition members_ok (m : pmembers) : Prop :=
  match m with
  | PmForward l | PmAnyof l | PmFailover l | PmLb l => Forall server_ok l
  | PmFile _ l => Forall (fun s => readable idcl (serverip s)) l
  | PmCh _ repl l _ => 0 <= repl < 2 ^ 31 /\ Forall server_ok l
  | PmHidden => True
  end.
(** A cluster whose name and members are readable, the servers without an instance. *)
Definition pcluster_ok (c : pcluster) : Prop :=
  readable idcl (pc_name c) /\ members_ok (pc_members c) /\ 0 <= pc_connections c < 2 ^ 31 /\ 0 <= pc_ttl c < 60 * 2 ^ 31 /\
  0 <= pc_threshold_start c < 2 ^ 31 /\ 0 <= pc_threshold_end c < 2 ^ 31.

Lemma line_hosts l : Forall server_ok l -> line (concat (host_line <$> l)) (concat (host_items <$> l)).
Proof. intros Hl. apply line_concat_in. eapply Forall_impl; [exact Hl|]. intros s (_ & _ & _ & Ht). by apply line_host. Qed.
Lemma ch_lines l : Forall server_ok l -> ch_line <$> l = host_line <$> l.
Proof. induction 1 as [|s l (_ & _ & Hi & _) Hl IH]; [done|]. cbn [fmap list_fmap]. by rewrite line_ch_host, IH. Qed.
Lemma line_member c : members_ok (pc_members c) -> line (print_members c) (member_items c).
Proof.
  unfold print_members, member_items. destruct (pc_members c) as [l|ip l|l|l|l|k repl l ring|]; intros Hl; [..|apply line_nil].
  1, 3-5: rewrite app_assoc; apply (line_members _ _ _ []); [done|done|by apply line_hosts].
  - rewrite !app_assoc. apply (line_members _ _ _ (if ip then _ else [])); [done|by destruct ip|]. apply line_concat, line_file.
  - destruct Hl as [Hr Hl]. rewrite (ch_lines l Hl), show_Z_nonneg by lia.
    set (l0 := It sp (lit "replication") crREPLICATION :: number_item sp repl :: (if pc_dynamic c then [It sp (lit "dynamic") crDYNAMIC] else [])).
    change (line (lit "    " ++ match k with PkCarbon => lit "carbon" | PkFnv1a => lit "fnv1a" | PkJump => lit "jump_fnv1a" end ++
      lit "_ch replication " ++ show_nonneg repl ++ (if pc_dynamic c then lit " dynamic" else []) ++ [10] ++ concat (host_line <$> l))
      (ch_item k :: l0 ++ concat (host_items <$> l))).
    rewrite !app_assoc. apply line_members; [by destruct k| |by apply line_hosts].
    unfold l0. rewrite !text_cons. cbn [it_ws it_word number_item]. destruct k, (pc_dynamic c); cbn [it_word ch_item]; rewrite ?text_cons, ?text_nil; cbn [it_ws it_word];
      rewrite ?app_nil_r, <- ?app_assoc; done.
Qed.

Lemma cluster_text pm c :
  PMODE_HASH pm = false -> pc_members c <> PmHidden -> pcluster_ok c -> print_cluster pm c = items_text (cluster_items c) ++ [10].
Proof.
  intros Hpm Hh (Hn & Hm & H1 & H2 & H3 & H4). unfold print_cluster, cluster_items. rewrite Hpm.
  pose proof (line_app _ _ _ _ (line_member c Hm) (line_app _ _ _ _ (line_count (pc_connections c =? 1) "connections" crCONNECTIONS _ show_Z (show_Z_nonneg (pc_connections c) (proj1 H1)))
    (line_app _ _ _ _ (line_count (pc_ttl c =? 0) "ttl" crTTL (pc_ttl c / 60) show_nonneg eq_refl)
    (line_app _ _ _ _ (line_count (pc_threshold_start c =? 0) "threshold_start" crTHRESHOLD_START _ show_Z (show_Z_nonneg (pc_threshold_start c) (proj1 H3)))
    (line_app _ _ _ _ (line_count (pc_threshold_end c =? 0) "threshold_end" crTHRESHOLD_END _ show_Z (show_Z_nonneg (pc_threshold_end c) (proj1 H4)))
      line_end))))) as H. unfold line in H.
  rewrite !text_cons. cbn [it_ws it_word name_item app]. rewrite <- !app_assoc, <- H.
  destruct (pc_members c); try done; cbn [app]; rewrite ?app_nil_r; done.
Qed.

(** Words that leave the scanner as it was. *)
Definition steady (c i : cond) (l : list litem) : Prop := chain c i l c i /\ spaced l.
Lemma spaced_app l1 l2 : spaced l1 -> spaced l2 -> spaced (l1 ++ l2).
Proof. by destruct l1. Qed.
Lemma steady_nil c i : steady c i [].
Proof. split; [constructor|done]. Qed.
Lemma steady_app c i l1 l2 : steady c i l1 -> steady c i l2 -> steady c i (l1 ++ l2).
Proof. intros [H1 S1] [H2 S2]. split; [by eapply chain_app|by apply spaced_app]. Qed.
Lemma steady_one c i x : reads c i (it_word x) (it_tok x) c i -> it_ws x ∈ [sp; sp ++ sp; nl4; nl8] -> steady c i [x].
Proof.
  intros Hr Hw. rewrite !elem_of_cons, elem_of_nil in Hw.
  split; [eapply chain_cons; [exact Hr| |done|constructor]|cbn]; destruct Hw as [->|[->|[->|[->|[]]]]]; done.
Qed.
Lemma steady_cons c i x l :
  reads c i (it_word x) (it_tok x) c i -> it_ws x ∈ [sp; sp ++ sp; nl4; nl8] -> steady c i l -> steady c i (x :: l).
Proof. intros Hr Hw Hl. apply (steady_app c i [x] l); [by apply steady_one|done]. Qed.
Lemma steady_concat {A} c i (f : A -> list litem) l : Forall (fun x => steady c i (f x)) l -> steady c i (concat (f <$> l)).
Proof. induction 1; cbn; [apply steady_nil|]. by apply steady_app. Qed.
Create HintDb steady.
#[export] Hint Resolve steady_nil steady_app steady_concat : steady.
(** A keyword that keeps the state. *)
Ltac kept := apply steady_cons; [cbn [it_word it_tok]; keyword|cbn [it_ws]; set_solver|].

Lemma steady_transport t : transport_ok t -> steady idcl idcl (transport_items t).
Proof.
  unfold transport_ok. rewrite !elem_of_cons, elem_of_nil. intros Ht.
  repeat (destruct Ht as [->|Ht]; [repeat first [exact (steady_nil _ _)|kept]|]). done.
Qed.
Lemma steady_host s : server_ok s -> steady idcl idcl (host_items s).
Proof.
  intros (Hip & Hport & _ & Ht). unfold host_items. apply steady_cons; [|set_solver|].
  - cbn [it_word it_tok]. unfold host_word. rewrite show_Z_nonneg by done. apply reads_bare; [done|]. by apply bare_colon.
  - unfold option_items. apply steady_app; [destruct (ps_ctype s); try apply steady_nil; do 2 kept; apply steady_nil|].
    apply steady_app; [destruct (ps_type s); try apply steady_nil; do 2 kept; apply steady_nil|]. by apply steady_transport.
Qed.
Lemma steady_hosts l : Forall server_ok l -> steady idcl idcl (concat (host_items <$> l)).
Proof. intros Hl. apply steady_concat. eapply Forall_impl; [exact Hl|apply steady_host]. Qed.
Lemma steady_number n : 0 <= n < 2 ^ 31 -> steady idcl idcl [number_item sp n].
Proof. intros Hn. apply steady_one; [apply reads_number; [set_solver|done]|set_solver]. Qed.
Lemma steady_count (show : bool) word t n :
  (forall i, reads idcl i (lit word) t idcl i) -> 0 <= n < 2 ^ 31 -> steady idcl idcl (count_items show word t n).
Proof.
  intros Hw Hn. destruct show; [|apply steady_nil]. unfold count_items. apply steady_cons; [apply Hw|set_solver|by apply steady_number].
Qed.

Lemma chain_members c :
  pc_members c <> PmHidden -> members_ok (pc_members c) ->
  exists x l, member_items c = x :: l /\ it_ws x = nl4 /\ reads cl cl (it_word x) (it_tok x) idcl idcl /\ steady idcl idcl l.
Proof.
  intros Hh Hm. unfold member_items. destruct (pc_members c) as [l|ip l|l|l|l|k repl l ring|] eqn:E; [..|done]; clear Hh.
  1, 3-5: eexists _, _; split_and!; [reflexivity|reflexivity|cbn [it_word it_tok]; clear Hm; keyword|by apply steady_hosts].
  - eexists _, _. split_and!; [reflexivity|reflexivity|cbn [it_word it_tok]; clear Hm; keyword|].
    apply steady_app; [destruct ip; [kept|]; apply steady_nil|]. apply steady_concat. eapply Forall_impl; [exact Hm|].
    intros s Hs. apply steady_one; [by apply reads_name|set_solver].
  - destruct Hm as [Hr Hl]. eexists _, _. split_and!; [reflexivity|by destruct k|clear; destruct k; keyword|].
    kept. apply (steady_app _ _ [_]); [by apply steady_number|]. apply steady_app; [destruct (pc_dynamic c); [kept|]; apply steady_nil|by apply steady_hosts].
Qed.

Lemma chain_cluster i c : pc_members c <> PmHidden -> pcluster_ok c -> exists i', chain INITIAL i (cluster_items c) INITIAL i'.
Proof.
  intros Hh (Hn & Hm & H1 & H2 & H3 & H4). destruct (chain_members c Hh Hm) as (x & l & El & Hx & Hr & Hl).
  unfold cluster_items. rewrite El. exists idcl. cbn [app]. word idcl cl.
  eapply (chain_cons _ _ _ _ cl cl); [by apply reads_name|done| |]. { cbn. by rewrite Hx. }
  assert (0 <= pc_ttl c / 60 < 2 ^ 31) as Httl by (split; [apply Z.div_pos; lia|apply Z.div_lt_upper_bound; lia]).
  set (k := l ++ _). assert (exists k', k = k' ++ end_items /\ steady idcl idcl k') as (k' & -> & Hk).
  { unfold k. rewrite !app_assoc. eexists. split; [done|]. clear -Hl H1 Httl H3 H4.
    repeat apply steady_app; [done|apply steady_count; [intros; clear; keyword|done]..]. }
  eapply (chain_cons _ _ _ _ idcl idcl); [exact Hr|by rewrite Hx|apply spaced_app; [apply Hk|done]|].
  eapply chain_app; [apply Hk|done|by apply chain_end].
Qed.

(** The tokens of a cluster. *)
Definition transport_tokens (t : Z) : list ytoken :=
  let base := Z.land t 65535 in
  (if t =? W_PLAIN then [] else [crTRANSPORT]) ++
  (if base =? W_PLAIN then [] else [if base =? W_GZIP then crGZIP else if base =? W_LZ4 then crLZ4 else crSNAPPY]) ++
  (if ssl_bit t then [crSSL] else []).
Definition server_tokens (s : psrv) : list ytoken :=
  crSTRING (host_word s) :: match ps_ctype s with CON_UDP => [crPROTO; crUDP] | _ => [] end ++
  match ps_type s with T_LINEMODE => [] | T_SYSLOGMODE => [crTYPE; crSYSLOGMODE] end ++ transport_tokens (ps_transport s).
Definition servers_tokens (l : list psrv) : list ytoken := concat (server_tokens <$> l).
Definition member_tokens (c : pcluster) : list ytoken :=
  match pc_members c with
  | PmForward l => crFORWARD :: servers_tokens l
  | PmFile ip l => crFILE :: (if ip then [crIP] else []) ++ ((fun s => crSTRING (serverip s)) <$> l)
  | PmAnyof l => crANY_OF :: servers_tokens l
  | PmFailover l => crFAILOVER :: servers_tokens l
  | PmLb l => crLB :: servers_tokens l
  | PmCh k repl l _ =>
      match k with PkCarbon => crCARBON_CH | PkFnv1a => crFNV1A_CH | PkJump => crJUMP_FNV1A_CH end ::
      crREPLICATION :: crINTVAL repl :: (if pc_dynamic c then [crDYNAMIC] else []) ++ servers_tokens l
  | PmHidden => []
  end.
Definition cluster_tokens (c : pcluster) : list ytoken :=
  match pc_members c with
  | PmHidden => []
  | _ =>
      crCLUSTER :: crSTRING (pc_name c) :: member_tokens c ++
      (if pc_connections c =? 1 then [] else [crCONNECTIONS; crINTVAL (pc_connections c)]) ++
      (if pc_ttl c =? 0 then [] else [crTTL; crINTVAL (pc_ttl c / 60)]) ++
      (if pc_threshold_start c =? 0 then [] else [crTHRESHOLD_START; crINTVAL (pc_threshold_start c)]) ++
      (if pc_threshold_end c =? 0 then [] else [crTHRESHOLD_END; crINTVAL (pc_threshold_end c)]) ++ [end_token]
  end.

Lemma toks_concat {A} (f : A -> list litem) (g : A -> list ytoken) l : (forall x, it_tok <$> f x = g x) -> it_tok <$> concat (f <$> l) = concat (g <$> l).
Proof. intros H. induction l as [|x l IH]; [done|]. cbn [fmap list_fmap concat]. by rewrite fmap_app, H, IH. Qed.
Lemma toks_host s : it_tok <$> host_items s = server_tokens s.
Proof.
  unfold host_items, option_items, server_tokens, transport_items, transport_tokens. cbn [fmap list_fmap it_tok]. rewrite !fmap_app.
  f_equal. f_equal; [by destruct (ps_ctype s)|]. f_equal; [by destruct (ps_type s)|].
  f_equal; [by destruct (_ =? _)|]. f_equal; [by destruct (_ =? _)|]. by destruct (ssl_bit _).
Qed.
Lemma toks_hosts l : it_tok <$> concat (host_items <$> l) = servers_tokens l.
Proof. apply toks_concat, toks_host. Qed.
Lemma toks_count (b : bool) word t n : it_tok <$> count_items (negb b) word t n = if b then [] else [t; crINTVAL n].
Proof. by destruct b. Qed.
Lemma toks_members c : it_tok <$> member_items c = member_tokens c.
Proof.
  unfold member_items, member_tokens. destruct (pc_members c) as [l|ip l|l|l|l|k repl l ring|]; [..|done]; cbn [fmap list_fmap it_tok number_item].
  1, 3-5: by rewrite toks_hosts.
  - rewrite fmap_app, (toks_concat file_item (fun s => [crSTRING (serverip s)])) by done. f_equal. f_equal; [by destruct ip|].
    clear. induction l as [|s l IH]; [done|]. cbn. by f_equal.
  - rewrite fmap_app, toks_hosts. f_equal; [by destruct k|]. do 2 f_equal. f_equal. by destruct (pc_dynamic c).
Qed.
Lemma renders_cluster pm c : PMODE_HASH pm = false -> pcluster_ok c -> renders (print_cluster pm c) (cluster_tokens c).
Proof.
  intros Hpm Hc. assert (pc_members c = PmHidden \/ pc_members c <> PmHidden) as [Hh|Hh] by (destruct (pc_members c); auto).
  { unfold print_cluster, cluster_tokens. rewrite Hh. apply renders_nil. }
  rewrite cluster_text by done. assert (it_tok <$> cluster_items c = cluster_tokens c) as <-.
  { unfold cluster_items, cluster_tokens. cbn [fmap list_fmap it_tok name_item]. rewrite !fmap_app, toks_members, !toks_count. by destruct (pc_members c). }
  apply renders_words; [done|]. intros i. by apply chain_cluster.
Qed.

(** ** Statistics *)

Definition statistics_dests (r : prouter) : list cstring := default [] (find_statstub (po_routes r)).
Definition statistics_items (r : prouter) : list litem :=
  [It [] (lit "statistics") crSTATISTICS; It nl4 (lit "submit") crSUBMIT; It sp (lit "every") crEVERY; number_item sp (po_interval r);
   It sp (lit "seconds") crSECONDS] ++
  match po_mode r with
  | SUB => [It nl4 (lit "reset") crRESET; It sp (lit "counters") crCOUNTERS; It sp (lit "after") crAFTER; It sp (lit "interval") crINTERVAL]
  | CUM => []
  end ++
  [It nl4 (lit "prefix") crPREFIX; It sp (lit "with") crWITH; name_item sp (po_prefix r)] ++
  (if po_stub r then send_items (statistics_dests r) ++ stop_items true else []) ++ end_items.
Definition statistics_tokens (r : prouter) : list ytoken :=
  [crSTATISTICS; crSUBMIT; crEVERY; crINTVAL (po_interval r); crSECONDS] ++
  match po_mode r with SUB => [crRESET; crCOUNTERS; crAFTER; crINTERVAL] | CUM => [] end ++
  [crPREFIX; crWITH; crSTRING (po_prefix r)] ++
  (if po_stub r then send_tokens (statistics_dests r) ++ [crSTOP] else []) ++ [end_token].
(** A stub for the statistics is among the routes when the collector has one. *)
Definition statistics_ok (r : prouter) : Prop :=
  po_interval r < 2 ^ 31 /\ readable idag (po_prefix r) /\
  (po_stub r = true -> exists dests, find_statstub (po_routes r) = Some dests /\ Forall dest_ok dests).

Lemma statistics_text r :
  0 < po_interval r -> statistics_ok r -> print_statistics r = (items_text (statistics_items r) ++ [10]) ++ [10].
Proof.
  intros Hi (_ & _ & Hs). unfold print_statistics, statistics_items. rewrite show_Z_nonneg by lia.
  assert (line (if po_stub r then lit "    send to" ++
      match find_statstub (po_routes r) with Some dests => dest_list dests ++ [10] ++ lit "    stop" ++ [10] | None => [] end else [])
    (if po_stub r then send_items (statistics_dests r) ++ stop_items true else [])) as H.
  { unfold statistics_dests. destruct (po_stub r); [|apply line_nil]. destruct (Hs eq_refl) as (dests & -> & _). cbn [default from_option].
    pose proof (line_app _ _ _ _ (line_send dests) (line_stop true)) as H. rewrite <- !app_assoc in H. exact H. }
  pose proof (line_app _ _ _ _ H line_end) as H2. unfold line in H2. rewrite items_text_app in H2. rewrite !items_text_app.
  set (S := if po_stub r then _ else _) in *. set (T := items_text (if po_stub r then _ else _)) in *. clearbody S T. clear H Hs.
  assert (T ++ items_text end_items ++ [10; 10] = [10] ++ S ++ lit "    ;" ++ [10; 10]) as H3.
  { change [10; 10] with ([10] ++ [10]). rewrite !app_assoc in *. by rewrite <- H2. }
  rewrite <- !app_assoc. cbn [app]. rewrite H3.
  rewrite !text_cons, text_nil. cbn [it_ws it_word number_item name_item]. rewrite <- !app_assoc.
  destruct (po_mode r); rewrite ?text_cons, ?text_nil; cbn [it_ws it_word]; rewrite <- ?app_assoc; done.
Qed.

Lemma chain_statistics i r :
  0 < po_interval r -> statistics_ok r -> exists i', chain INITIAL i (statistics_items r) INITIAL i'.
Proof.
  intros Hi (Hm & Hp & Hs). unfold statistics_items.
  set (tl := (if po_stub r then _ else _) ++ end_items). assert (spaced tl) as Htl by (unfold tl; by destruct (po_stub r)).
  assert (exists i', chain st st tl INITIAL i') as (i' & H).
  { unfold tl. destruct (po_stub r); [|exists st; by apply chain_end]. destruct (Hs eq_refl) as (dests & Hd & Hok). exists idcl.
    unfold statistics_dests. rewrite Hd. cbn [default from_option]. rewrite <- app_assoc.
    eapply chain_app; [apply chain_send; [set_solver|done]|done|]. eapply chain_app; [apply chain_stop|done|by apply chain_end]. }
  exists i'. clear Hs. cbn [app]. word st i. word st i. word st i.
  eapply (chain_cons _ _ _ _ st i); [apply reads_number; [set_solver|lia]|reflexivity|done|]. word st i; [by destruct (po_mode r)|].
  eapply (chain_app st i _ st i); [destruct (po_mode r); [word st i; word st i; word st i; word st i; constructor|constructor]|done|].
  cbn [app]. word st i. word idag st. eapply (chain_cons _ _ _ _ st st); [by apply reads_name|reflexivity|exact Htl|exact H].
Qed.
Lemma renders_statistics r : 0 < po_interval r -> statistics_ok r -> renders (print_statistics r) (statistics_tokens r).
Proof.
  intros Hi Hs. rewrite statistics_text by done. rewrite <- (app_nil_r (statistics_tokens r)). apply renders_app; [|apply renders_newline].
  assert (it_tok <$> statistics_items r = statistics_tokens r) as <-.
  { unfold statistics_items, statistics_tokens. rewrite !fmap_app. f_equal. f_equal; [by destruct (po_mode r)|]. f_equal. f_equal.
    destruct (po_stub r); [|done]. by rewrite fmap_app, toks_send. }
  apply renders_words; [done|]. intros i. by apply chain_statistics.
Qed.

(** ** Listeners *)

Definition listener_word (w : plistener) : cstring :=
  match pl_ctype w with
  | CON_UNIX => router_quoteident (default [] (pl_ip w))
  | _ => match pl_ip w with Some ip => ip ++ lit ":" | None => [] end ++ show_nonneg (pl_port w)
  end.
Definition listener_addr (w : plistener) : cstring := match pl_ctype w with CON_UNIX => default [] (pl_ip w) | _ => listener_word w end.
Definition proto_token (p : con_proto) : ytoken := match p with CON_UDP => crUDP | CON_UNIX => crUNIX | _ => crTCP end.
Definition listener_items (w : plistener) : list litem :=
  [It nl8 (listener_word w) (crSTRING (listener_addr w)); It sp (lit "proto") crPROTO;
   It sp (con_proto_str (pl_ctype w)) (proto_token (pl_ctype w))].
Definition header_items (w : plistener) : list litem :=
  [It nl4 (lit "type") crTYPE; It sp (lit "linemode") crLINEMODE] ++ transport_items (pl_transport w) ++
  (if ssl_bit (pl_transport w) then [name_item sp (pl_pem w)] else []).
Definition listen_items (w : plistener) (l : list plistener) : list litem :=
  It [] (lit "listen") crLISTEN :: header_items w ++ concat (listener_items <$> w :: l) ++ end_items.
Definition listen_tokens (w : plistener) (l : list plistener) : list ytoken :=
  [crLISTEN; crTYPE; crLINEMODE] ++ transport_tokens (pl_transport w) ++ (if ssl_bit (pl_transport w) then [crSTRING (pl_pem w)] else []) ++
  concat ((fun x => [crSTRING (listener_addr x); crPROTO; proto_token (pl_ctype x)]) <$> w :: l) ++ [end_token].

(** Listeners that one [listen] can have: of the one type and transport. *)
Definition listener_ok (t : Z) (w : plistener) : Prop :=
  pl_type w = T_LINEMODE /\ pl_transport w = t /\
  match pl_ctype w with
  | CON_UNIX => readable idli (default [] (pl_ip w))
  | CON_TCP | CON_UDP => match pl_ip w with Some ip => forallb idchr ip = true | None => True end
  | _ => False
  end.
Definition listeners_ok (l : list plistener) : Prop :=
  match l with
  | [] => True
  | w :: _ =>
      transport_ok (pl_transport w) /\ (ssl_bit (pl_transport w) = true -> readable idli (pl_pem w)) /\ Forall (listener_ok (pl_transport w)) l
  end.

Lemma line_listener t w : listener_ok t w -> line (listener_line w) (listener_items w).
Proof.
  intros (_ & _ & Hw). unfold line, listener_items, listener_line, listener_word. rewrite !text_cons, text_nil. cbn [it_ws it_word].
  destruct (pl_ctype w); try done; destruct (pl_ip w); rewrite <- ?app_assoc; done.
Qed.
Lemma print_more pm t l : Forall (listener_ok t) l -> print_listeners pm (Some t) l = concat (listener_line <$> l).
Proof.
  induction 1 as [|w l (Ht & Htr & _) Hl IH]; [done|]. cbn [print_listeners fmap list_fmap concat]. rewrite Ht, Htr, decide_True by done.
  cbn [app]. by rewrite IH.
Qed.
Lemma line_header pm w : PMODE_PEMT pm = false -> transport_ok (pl_transport w) -> line (listener_header pm w) (header_items w).
Proof.
  intros Hpm Ht. unfold line, listener_header, header_items. rewrite Hpm, andb_false_r. unfold transport_ok in Ht.
  rewrite !elem_of_cons, elem_of_nil in Ht. unfold name_item. generalize (router_quoteident (pl_pem w)). intros q.
  unfold transport_text, transport_items.
  repeat (destruct Ht as [->|Ht];
    [repeat match goal with |- context [if ?b then _ else _] => let v := eval vm_compute in b in change b with v; cbv iota end;
     cbn; rewrite ?app_nil_r, <- ?app_assoc; reflexivity|]). done.
Qed.
Lemma listen_text pm w l :
  PMODE_PEMT pm = false -> listeners_ok (w :: l) ->
  lit "listen" ++ [10] ++ print_listeners pm None (w :: l) ++ lit "    ;" ++ [10; 10] = (items_text (listen_items w l) ++ [10]) ++ [10].
Proof.
  intros Hpm (Ht & _ & Hl). pose proof Hl as Hw. apply Forall_cons in Hw as [(Hty & _) Hl'].
  assert (print_listeners pm None (w :: l) = listener_header pm w ++ concat (listener_line <$> w :: l)) as ->.
  { cbn [print_listeners fmap list_fmap concat]. rewrite Hty, decide_False by done. by rewrite print_more. }
  pose proof (line_app _ _ _ _ (line_header pm w Hpm Ht) (line_app _ _ _ _
    (line_concat_in listener_line listener_items (w :: l) (Forall_impl _ _ _ Hl (line_listener _))) line_end)) as H.
  unfold line in H. unfold listen_items. rewrite text_cons. cbn [it_ws it_word]. rewrite <- !app_assoc.
  rewrite (app_assoc (items_text _) [10] [10]), <- H. rewrite <- !app_assoc. done.
Qed.

Lemma not_reserved_digit c w : match w with x :: _ => is_digit x = true | [] => False end -> reserved c w = false.
Proof.
  intros Hw. apply not_true_iff_false. intros (r & Hr & Ht)%existsb_exists.
  assert (forallb (fun r => match r with Kw _ (x :: _) _ _ _ => negb (is_digit x) | _ => true end) keywords = true) as Hf by (vm_compute; reflexivity).
  pose proof (proj1 (forallb_forall _ _) Hf r Hr) as H. clear Hf. destruct r as [conds text ? ? ?| | | | | | | | | | | | |]; try discriminate.
  apply andb_true_iff in Ht as [_ Ht%bool_decide_eq_true]. subst w. destruct text as [|x text]; [done|]. apply negb_true_iff in H. congruence.
Qed.
Lemma bare_number n : bare idli (show_nonneg n).
Proof.
  destruct (show_nonneg_digits n) as [Hd Hne]. set (d := show_nonneg n) in *. split_and!; [done| | | |discriminate].
  - apply forallb_forall. intros x Hx%list_elem_of_In. unfold idchr, is_alnum. by rewrite (proj1 (Forall_forall _ _) Hd x Hx), !orb_true_r.
  - intros E. apply last_Some in E as (l' & E). rewrite E, Forall_app, Forall_cons in Hd. by destruct Hd as (_ & ? & _).
  - apply not_reserved_digit. destruct d as [|x d]; [done|]. by apply Forall_cons in Hd as [? _].
Qed.

Lemma reads_listener i t w : listener_ok t w -> reads idli i (listener_word w) (crSTRING (listener_addr w)) i i.
Proof.
  intros (_ & _ & Hw). unfold listener_addr, listener_word.
  assert (match pl_ip w with Some ip => forallb idchr ip = true | None => True end ->
    reads idli i (match pl_ip w with Some ip => ip ++ lit ":" | None => [] end ++ show_nonneg (pl_port w))
      (crSTRING (match pl_ip w with Some ip => ip ++ lit ":" | None => [] end ++ show_nonneg (pl_port w))) i i) as H.
  { intros Hip. apply reads_bare; [done|]. destruct (pl_ip w) as [ip|]; [|apply bare_number]. rewrite <- app_assoc. by apply bare_colon. }
  destruct (pl_ctype w) eqn:E; try done; [by apply H|by apply H|by apply reads_name].
Qed.
Lemma chain_listener t w k : listener_ok t w -> k ∈ [li; idli] -> chain idli k (listener_items w) idli li.
Proof.
  intros Hw Hk. unfold listener_items. eapply (chain_cons _ _ _ _ k k); [by eapply reads_listener|reflexivity|done|].
  eapply (chain_cons _ _ _ _ li k); [|reflexivity|done|].
  { cbn [it_word it_tok]. clear Hw. rewrite !elem_of_cons, elem_of_nil in Hk. destruct Hk as [->|[->|[]]]; keyword. }
  eapply (chain_cons _ _ _ _ idli li); [|reflexivity|done|constructor]. destruct Hw as (_ & _ & Hw). cbn [it_word it_tok]. clear Hk.
  destruct (pl_ctype w); try done; clear Hw; keyword.
Qed.
Lemma chain_listeners t l k : Forall (listener_ok t) l -> k ∈ [li; idli] -> exists k', chain idli k (concat (listener_items <$> l)) idli k'.
Proof.
  intros Hl. revert k. induction Hl as [|w l Hw Hl IH]; intros k Hk; cbn [fmap list_fmap concat]; [exists k; constructor|].
  destruct (IH li ltac:(set_solver)) as (k' & H). exists k'. eapply chain_app; [by eapply chain_listener|by destruct l|exact H].
Qed.
Lemma chain_header i w :
  transport_ok (pl_transport w) -> (ssl_bit (pl_transport w) = true -> readable idli (pl_pem w)) ->
  exists k, chain li i (header_items w) idli k /\ k ∈ [li; idli].
Proof.
  intros Ht Hp.
  assert (exists k, chain idli li (transport_items (pl_transport w) ++ (if ssl_bit (pl_transport w) then [name_item sp (pl_pem w)] else [])) idli k /\ k ∈ [li; idli])
    as (k & H & Hk).
  { destruct (ssl_bit (pl_transport w)) eqn:Es.
    - exists idli. split; [|set_solver]. eapply (chain_app _ _ _ idli idli); [|done|eapply chain_cons; [by apply reads_name, Hp|reflexivity|done|constructor]].
      clear Hp. unfold transport_ok in Ht. rewrite !elem_of_cons, elem_of_nil in Ht.
      repeat (destruct Ht as [Ht|Ht]; [rewrite Ht in Es |- *; first [discriminate Es|clear; repeat first [word idli idli; constructor|word idli li]]|]). done.
    - exists li. split; [|set_solver]. rewrite app_nil_r. clear Hp. unfold transport_ok in Ht. rewrite !elem_of_cons, elem_of_nil in Ht.
      repeat (destruct Ht as [Ht|Ht]; [rewrite Ht in Es |- *; first [discriminate Es|clear; repeat first [constructor|word idli li]]|]). done. }
  exists k. split; [|done]. unfold header_items. cbn [app]. word li i. word idli li; [|exact H].
  clear. unfold transport_items. destruct (_ =? W_PLAIN) eqn:E; [|done]. apply Z.eqb_eq in E. rewrite E. done.
Qed.

Lemma renders_listen pm w l :
  PMODE_PEMT pm = false -> listeners_ok (w :: l) ->
  renders (lit "listen" ++ [10] ++ print_listeners pm None (w :: l) ++ lit "    ;" ++ [10; 10]) (listen_tokens w l).
Proof.
  intros Hpm Hok. rewrite listen_text by done. rewrite <- (app_nil_r (listen_tokens w l)). apply renders_app; [|apply renders_newline].
  assert (it_tok <$> listen_items w l = listen_tokens w l) as <-.
  { unfold listen_items, listen_tokens, header_items, transport_items, transport_tokens. cbn [fmap list_fmap it_tok app]. rewrite !fmap_app, <- !app_assoc.
    do 3 f_equal. f_equal; [by destruct (_ =? _)|]. f_equal; [by destruct (_ =? _)|]. f_equal; [by destruct (ssl_bit _)|].
    f_equal; [by destruct (ssl_bit _)|]. f_equal. by apply (toks_concat listener_items (fun x => [crSTRING (listener_addr x); crPROTO; proto_token (pl_ctype x)]) (w :: l)). }
  apply renders_words; [done|]. intros i. destruct Hok as (Ht & Hp & Hl).
  destruct (chain_header i w Ht Hp) as (k & H1 & Hk). destruct (chain_listeners _ _ k Hl Hk) as (k' & H2).
  exists k'. unfold listen_items. word li i. eapply chain_app; [exact H1|done|]. eapply chain_app; [exact H2|done|by apply chain_end].
Qed.

(** ** The whole configuration *)

Definition config_ok (r : prouter) : Prop :=
  listeners_ok (po_listeners r) /\ (0 < po_interval r -> statistics_ok r) /\ Forall pcluster_ok (po_clusters r) /\ Forall route_ok (po_routes r).
Definition config_tokens (pm : pmode) (r : prouter) : list ytoken :=
  match po_listeners r with [] => [] | w :: l => listen_tokens w l end ++
  (if 0 <? po_interval r then statistics_tokens r else []) ++
  concat (cluster_tokens <$> po_clusters r) ++
  route_tokens (S (routes_size (po_routes r))) (PMODE_AGGR pm) (po_routes r).

Lemma printconfig_scans (r : prouter) (pm : pmode) :
  PMODE_HASH pm = false -> PMODE_STUB pm = false -> PMODE_PEMT pm = false -> config_ok r ->
  exists text, router_printconfig r pm = Some text /\ lex_text text = Some (config_tokens pm r, None).
Proof.
  intros Hh Hs Hp (Hl & Hst & Hc & Hr). unfold router_printconfig.
  destruct (print_routes_total (S (routes_size (po_routes r))) pm (po_routes r) ltac:(lia)) as [t Ht]. rewrite Ht. run_binds.
  eexists. split; [reflexivity|]. apply renders_text. unfold config_tokens.
  apply renders_app; [|apply renders_app; [|apply renders_app]].
  - destruct (po_listeners r) as [|w l]; [apply renders_nil|by apply renders_listen].
  - destruct (Z.ltb_spec 0 (po_interval r)); [by apply renders_statistics; auto|apply renders_nil].
  - apply renders_concat. eapply Forall_impl; [exact Hc|]. intros c Hok. by apply renders_cluster.
  - change (route_tokens ?n ?b ?l) with ([] ++ route_tokens n b l). apply renders_app; [apply renders_newline|by apply renders_routes].
Qed.

(** What [router_printconfig] prints reads back: for a configuration whose names can be printed, and without the modes that
    add text that is not configuration (hash rings, stubs, modification times), the printing ends, and the scanner turns the
    text, without an error, into exactly the tokens of the listeners, statistics, clusters and rules, in their order. *)
Theorem printconfig_reads_back (r : prouter) (pm : pmode) :
  PMODE_HASH pm = false -> PMODE_STUB pm = false -> PMODE_PEMT pm = false -> config_ok r ->
  exists text, router_printconfig r pm = Some text /\ lex_text text = Some (config_tokens pm r, None).
Proof. apply printconfig_scans. Qed.

(** Names that are readable, and transports, by evaluation. *)
Definition readable_b (c : cond) (w : cstring) : bool :=
  if needquote [] w then bool_decide (w <> []) && forallb plain_in_quotes w && bool_decide (head w <> Some 35) && (length w <? STRING_BUF)%nat
  else bool_decide (w <> []) && forallb idchr w && bool_decide (last w <> Some 92) && negb (reserved c w) &&
       negb (bool_decide (c = idcl) && forallb is_digit w).
Lemma readable_dec c w : readable_b c w = true -> readable c w.
Proof.
  unfold readable_b, readable. destruct (needquote [] w); intros H; repeat (apply andb_true_iff in H as [H ?]).
  - split_and!; [exact (bool_decide_eq_true_1 _ H)|done|exact (bool_decide_eq_true_1 _ H1)|by apply Nat.ltb_lt].
  - split_and!; [exact (bool_decide_eq_true_1 _ H)|done|exact (bool_decide_eq_true_1 _ H2)|by apply negb_true_iff|]. intros ->. by apply negb_true_iff.
Qed.
Lemma transport_dec t : bool_decide (t ∈ [1; 2; 3; 4; 65537; 65538; 65539; 65540]) = true -> transport_ok t.
Proof. intros H%bool_decide_eq_true. exact H. Qed.

Definition demo_router : prouter :=
  mkPrt [mkPl T_LINEMODE W_GZIP [] (0, 0) CON_TCP None 2003; mkPl T_LINEMODE W_GZIP [] (0, 0) CON_UNIX (Some (lit "/tmp/a b")) 0]
    60 SUB (lit "carbon.relays") true
    [mkPc (lit "c1") (PmCh PkJump 2 [mkPs (lit "10.0.0.1") 2003 None CON_UDP T_LINEMODE (Z.lor W_SSL W_LZ4)] []) true 4 0 0 0]
    [mkPr [] false None true (PrStub true [lit "c1"]);
     mkPr (lit "^a b") false None false (PrAggregation (mkPa 0 (lit "_aggregator_stub_1__") 10 35 TS_END [mkPcm PCTL 95 (lit "_aggregator_stub_1__m.p95")]) [lit "c1"]);
     mkPr (lit ".*") true None true (PrMatch 0 None [lit "c1"; lit "blackhole"])].

Lemma printconfig_reads_back_witness :
  exists text, router_printconfig demo_router (mkPm true false false false) = Some text /\
               lex_text text = Some (config_tokens (mkPm true false false false) demo_router, None).
Proof.
  apply (printconfig_reads_back demo_router (mkPm true false false false)); [reflexivity|reflexivity|reflexivity|].
  split_and!; [split_and!|intros _; split_and!| |]; repeat (apply Forall_cons; split); try apply Forall_nil;
    unfold listener_ok, pcluster_ok, members_ok, route_ok, pattern_ok; cbn [pl_ctype pc_members]; split_and?;
    try apply readable_dec; try apply transport_dec; try (intros _; eexists; split; [reflexivity|]); try reflexivity; try discriminate.
  1, 4, 6: repeat (apply Forall_cons; split; [first [left; reflexivity|right; apply readable_dec; vm_compute; reflexivity]|]); exact (Forall_nil_2 _).
  - apply Forall_cons. split; [|exact (Forall_nil_2 _)]. split_and!; [reflexivity|discriminate|reflexivity|apply transport_dec; reflexivity].
  - apply Forall_cons. split; [|exact (Forall_nil_2 _)]. split; [apply readable_dec; reflexivity|]. intros _. split; [discriminate|reflexivity].
  - left. reflexivity.
Defined.

(** Listeners with different transports are printed in one [listen], the second with its own [type], where only the address of
    a listener can follow: the word is read as that address. *)
Theorem mixed_listeners_misread :
  exists text,
    router_printconfig (mkPrt [mkPl T_LINEMODE W_PLAIN [] (0, 0) CON_TCP None 2003; mkPl T_LINEMODE W_GZIP [] (0, 0) CON_TCP None 2004]
      0 CUM [] false [] []) (mkPm false false false false) = Some text /\
    lex_text text = Some ([crLISTEN; crTYPE; crLINEMODE; crSTRING (lit "2003"); crPROTO; crTCP; crSTRING (lit "type"); crLINEMODE;
      crTRANSPORT; crGZIP; crSTRING (lit "2004"); crPROTO; crTCP; end_token], None).
Proof. eexists. split; [vm_compute; reflexivity|]. vm_compute. reflexivity. Qed.
