(* ===== verification/PrintParses.v ===== *)
(** * The printed configuration is read again

    The tokens of a printed configuration ([PrintReads]) are derived by the grammar
    ([Grammar]), with the commands of the listeners, statistics, clusters and rules
    that were printed; and the configurations for which they are not. *)
From stdpp Require Import strings.
From S2P Require Import Prelude Relay ConsistentHash Matching Router RouterConfig ConfActions Aggregator RouterTest Collector Lexer.
From S2P Require Import Predictive Grammar Print PrintReads.
#[local] Open Scope Z_scope.

(** ** The commands of a configuration *)

Definition host_spec_of (s : psrv) : host_spec :=
  mkHs (host_word s) None (match ps_ctype s with CON_UDP => CON_UDP | _ => CON_TCP end) (ps_type s) (ps_transport s).
Definition cluster_command (c : pcluster) : list command :=
  let cmd type dyn repl l := [K_cluster (pc_name c) type false dyn repl 1 0 0 0 (host_spec_of <$> l)] in
  match pc_members c with
  | PmForward l => cmd Clusttype.FORWARD false 1 l
  | PmFile ip l => [K_files (pc_name c) ip 1 0 0 0 (serverip <$> l)]
  | PmAnyof l => cmd Clusttype.ANYOF false 1 l
  | PmFailover l => cmd Clusttype.FAILOVER false 1 l
  | PmLb l => cmd Clusttype.LB false 1 l
  | PmCh k repl l _ =>
      cmd match k with PkCarbon => Clusttype.CARBON_CH | PkFnv1a => Clusttype.FNV1A_CH | PkJump => Clusttype.JUMP_CH end (pc_dynamic c) repl l
  | PmHidden => []
  end.
Definition pattern_expr (r : proute) : cstring := if pr_matchall r then lit "*" else pr_pattern r.
Definition match_command (r : proute) (run : list proute) (v : option (cstring * validate_action)) (dests : list cstring) : command :=
  K_match (pattern_expr <$> r :: run) ((fun '(v, action) => (v, match action with VAL_DROP => true | VAL_LOG => false end)) <$> v)
    (pr_masq (default r (last run))) dests (negb (bool_decide (dests = [])) && pr_stop r).
Definition compute_value (stub : cstring) (c : pcompute) : compute_type * Z * cstring :=
  (cm_type c, if decide (cm_type c = PCTL) then cm_percentile c else 0, drop (length stub) (cm_metric c)).
Definition aggregate_command (r : proute) (run : list proute) (a : paggr) (dests : list cstring) : command :=
  let lastr := default r (last run) in
  K_aggregate (pr_pattern <$> r :: run) (pa_interval a) (pa_expire a) (pa_tswhen a) (compute_value (stub_of a dests) <$> pa_computes a)
    (aggr_dests lastr) (pr_stop lastr).
Fixpoint route_commands (fuel : nat) (aggr : bool) (rs : list proute) : list command :=
  match fuel, rs with
  | S fuel', r :: rs' =>
      match pr_kind r with
      | PrAggregation a dests =>
          if aggr then let '(run, rs') := rule_run (same_aggr a) rs' in aggregate_command r run a dests :: route_commands fuel' aggr rs'
          else route_commands fuel' aggr rs'
      | PrRewrite replacement => K_rewrite (pr_pattern r) replacement :: route_commands fuel' aggr rs'
      | PrGroup _ routes => (if aggr then route_commands fuel' aggr routes else []) ++ route_commands fuel' aggr rs'
      | PrStub _ _ => route_commands fuel' aggr rs'
      | PrMatch id v dests =>
          let '(run, rs') := rule_run (same_dests id) rs' in match_command r run v dests :: route_commands fuel' aggr rs'
      end
  | _, _ => []
  end.
Definition statistics_command (r : prouter) : command :=
  K_statistics (Some (po_interval r)) (po_mode r) (Some (po_prefix r)) (if po_stub r then statistics_dests r else []) (po_stub r).
Definition receptor_spec_of (w : plistener) : receptor_spec :=
  mkRs (listener_addr w) (match pl_ctype w with CON_UDP => CON_UDP | CON_UNIX => CON_UNIX | _ => CON_TCP end).
Definition listen_command (w : plistener) (l : list plistener) : command :=
  K_listen (pl_transport w) (if ssl_bit (pl_transport w) then Some (pl_pem w) else None) (receptor_spec_of <$> w :: l).
Definition config_commands (pm : pmode) (r : prouter) : list command :=
  match po_listeners r with [] => [] | w :: l => [listen_command w l] end ++
  (if 0 <? po_interval r then [statistics_command r] else []) ++
  concat (cluster_command <$> po_clusters r) ++
  route_commands (S (routes_size (po_routes r))) (PMODE_AGGR pm) (po_routes r).

(** ** What the grammar has words for *)

Definition transport_said (t : Z) : Prop :=
  t ∈ [W_PLAIN; W_GZIP; W_LZ4; W_SNAPPY; Z.lor W_SSL W_GZIP; Z.lor W_SSL W_LZ4; Z.lor W_SSL W_SNAPPY].
Definition dests_said (l : list cstring) : Prop := l = [lit "blackhole"] \/ lit "blackhole" ∉ l.
(** Clusters have servers, or one or two files, aggregations compute something, the
    black hole is a destination of its own and [*] an expression of its own. *)
Definition command_said (c : command) : Prop :=
  match c with
  | K_cluster _ _ _ _ _ _ _ _ _ hosts => hosts <> [] /\ Forall (fun h => transport_said (hs_trnsp h)) hosts
  | K_files _ _ _ _ _ _ paths => (0 < length paths <= 2)%nat
  | K_match exprs _ _ dsts _ => (exprs = [lit "*"] \/ lit "*" ∉ exprs) /\ dests_said dsts
  | K_aggregate _ _ _ _ computes dsts _ => computes <> [] /\ dests_said dsts
  | K_statistics _ _ _ dsts stop => dests_said dsts /\ (stop = true -> dsts <> [])
  | K_listen trnsp _ _ => transport_said trnsp
  | _ => True
  end.
(** A cluster without the options that are printed behind its servers. *)
Definition no_options (c : pcluster) : Prop :=
  pc_connections c = 1 /\ pc_ttl c = 0 /\ pc_threshold_start c = 0 /\ pc_threshold_end c = 0.

(** ** Derivations *)

Lemma means_transport t : transport_said t -> means "cluster_opt_transport" (transport_tokens t) transport_of t.
Proof.
  unfold transport_said. rewrite !elem_of_cons, elem_of_nil. intros Ht.
  assert (forall i x b, productions config_grammar "cluster_transport_trans" !! i = Some [T "crTRANSPORT"; T (tname x)] ->
    transport_trans_of (Node "cluster_transport_trans" i [Leaf crTRANSPORT; Leaf x]) = Some b ->
    means "cluster_opt_transport" [crTRANSPORT; x] transport_of b /\ means "cluster_opt_transport" [crTRANSPORT; x; crSSL] transport_of (Z.lor b W_SSL)) as H.
  { intros i x b Hi Hb. assert (derived (N "cluster_transport_trans") [crTRANSPORT; x] (Node "cluster_transport_trans" i [Leaf crTRANSPORT; Leaf x])) as Hd.
    { eapply (derived_prod _ i _ [[crTRANSPORT]; [x]]); [exact Hi|derive|reflexivity]. }
    assert (derived (N "cluster_transport_opt_ssl") [] (Node "cluster_transport_opt_ssl" 0 [])) as H0.
    { eapply (derived_prod _ 0 _ []); [reflexivity|derive|reflexivity]. }
    assert (derived (N "cluster_transport_opt_ssl") [crSSL] (Node "cluster_transport_opt_ssl" 1 [Leaf crSSL])) as H1.
    { eapply (derived_prod _ 1 _ [[crSSL]]); [reflexivity|derive|reflexivity]. }
    split; [produce 1%nat [[crTRANSPORT; x]; []]|produce 1%nat [[crTRANSPORT; x]; [crSSL]]]; cbn in *; rewrite Hb; by run_binds. }
  repeat (destruct Ht as [->|Ht]); [apply means_empty; reflexivity| | | | | | |done];
    first [apply (H 1%nat crGZIP W_GZIP); reflexivity|apply (H 2%nat crLZ4 W_LZ4); reflexivity|apply (H 3%nat crSNAPPY W_SNAPPY); reflexivity].
Qed.
(** A choice of keywords: the tree is known. *)
Ltac known i ws := eexists; split; [eapply (derived_prod _ i _ ws); [reflexivity|derive|reflexivity]|reflexivity].

Lemma means_host s : transport_said (ps_transport s) -> means "cluster_host" (server_tokens s) host_of (host_spec_of s).
Proof.
  intros Ht. destruct (means_transport _ Ht) as (tt & Htt & Hvt).
  assert (exists t i ts, derived (N "cluster_opt_proto") (match ps_ctype s with CON_UDP => [crPROTO; crUDP] | _ => [] end) t /\ t = Node "cluster_opt_proto" i ts /\
    (if decide (i = 1%nat) then CON_UDP else CON_TCP) = match ps_ctype s with CON_UDP => CON_UDP | _ => CON_TCP end) as (tp & ip & tsp & Hp & -> & Hip).
  { destruct (ps_ctype s); eexists _, _, _; (split; [|split; [reflexivity|]]).
    all: first [eapply (derived_prod _ 0 _ []); [reflexivity|derive|reflexivity]|eapply (derived_prod _ 1 _ [[crPROTO]; [crUDP]]); [reflexivity|derive|reflexivity]|reflexivity]. }
  assert (exists t i ts, derived (N "cluster_opt_type") (match ps_type s with T_LINEMODE => [] | T_SYSLOGMODE => [crTYPE; crSYSLOGMODE] end) t /\ t = Node "cluster_opt_type" i ts /\
    (if decide (i = 2%nat) then T_SYSLOGMODE else T_LINEMODE) = ps_type s) as (ty & iy & tsy & Hy & -> & Hiy).
  { destruct (ps_type s); eexists _, _, _; (split; [|split; [reflexivity|]]).
    all: first [eapply (derived_prod _ 0 _ []); [reflexivity|derive|reflexivity]|eapply (derived_prod _ 2 _ [[crTYPE]; [crSYSLOGMODE]]); [reflexivity|derive|reflexivity]|reflexivity]. }
  assert (derived (N "cluster_opt_instance") [] (Node "cluster_opt_instance" 0 [])) as Hi by (eapply (derived_prod _ 0 _ []); [reflexivity|derive|reflexivity]).
  unfold server_tokens. 
  produce O [[crSTRING (host_word s)]; []; match ps_ctype s with CON_UDP => [crPROTO; crUDP] | _ => [] end;
    match ps_type s with T_LINEMODE => [] | T_SYSLOGMODE => [crTYPE; crSYSLOGMODE] end; transport_tokens (ps_transport s)].
  cbn. rewrite Hvt. run_binds. unfold host_spec_of. by rewrite Hip, Hiy.
Qed.
Lemma means_hosts l :
  l <> [] -> Forall (fun s => transport_said (ps_transport s)) l -> means "cluster_hosts" (servers_tokens l) (list_of host_of) (host_spec_of <$> l).
Proof.
  intros Hl Ht. apply (means_list "cluster_hosts" "cluster_host" "cluster_opt_host"); [reflexivity|reflexivity|done|]. intros s Hs.
  apply means_host. by apply (proj1 (Forall_forall _ _) Ht).
Qed.
Lemma means_options : forall n, n ∈ ["connections"; "ttl"; "threshold_start"; "threshold_end"]%string -> derived (N n) [] (Node n 0 []).
Proof.
  intros n Hn. rewrite !elem_of_cons, elem_of_nil in Hn. destruct Hn as [->|[->|[->|[->|[]]]]]; (eapply (derived_prod _ 0 _ []); [reflexivity|derive|reflexivity]).
Qed.
Lemma means_cluster_hosts name ws type useall repl dyn l :
  l <> [] -> Forall (fun s => transport_said (ps_transport s)) l -> means "cluster_type" ws cluster_type_of (type, useall, repl, dyn) ->
  means "cluster" (crCLUSTER :: crSTRING name :: ws ++ servers_tokens l) cluster_of (K_cluster name type useall dyn repl 1 0 0 0 (host_spec_of <$> l)).
Proof.
  intros Hl Ht (t & Hd & Hv). destruct (means_hosts l Hl Ht) as (u & Hu & Hvu).
  pose proof (means_options "connections" ltac:(set_solver)) as H1. pose proof (means_options "ttl" ltac:(set_solver)) as H2.
  pose proof (means_options "threshold_start" ltac:(set_solver)) as H3. pose proof (means_options "threshold_end" ltac:(set_solver)) as H4.
  produce O [[crCLUSTER]; [crSTRING name]; ws; []; []; []; []; servers_tokens l]. cbn. rewrite Hv. run_binds. rewrite Hvu. by run_binds.
Qed.
Lemma means_useall i x type :
  productions config_grammar "cluster_useall" !! i = Some [T (tname x)] ->
  match i with 0 => Clusttype.FORWARD | 1 => Clusttype.ANYOF | 2 => Clusttype.FAILOVER | _ => Clusttype.LB end%nat = type ->
  means "cluster_type" [x] cluster_type_of (type, false, 1, false).
Proof.
  intros Hi <-. assert (derived (N "cluster_useall") [x] (Node "cluster_useall" i [Leaf x])) as H1.
  { eapply (derived_prod _ i _ [[x]]); [exact Hi|derive|reflexivity]. }
  assert (derived (N "cluster_opt_useall") [] (Node "cluster_opt_useall" 0 [])) as H2 by (eapply (derived_prod _ 0 _ []); [reflexivity|derive|reflexivity]).
  produce O [[x]; []]. reflexivity.
Qed.
Lemma means_ch (k : ch_kind) repl (dyn : bool) :
  means "cluster_type" (match k with PkCarbon => crCARBON_CH | PkFnv1a => crFNV1A_CH | PkJump => crJUMP_FNV1A_CH end :: crREPLICATION :: crINTVAL repl ::
      (if dyn then [crDYNAMIC] else [])) cluster_type_of
    (match k with PkCarbon => Clusttype.CARBON_CH | PkFnv1a => Clusttype.FNV1A_CH | PkJump => Clusttype.JUMP_CH end, false, repl, dyn).
Proof.
  assert (derived (N "cluster_opt_repl") [crREPLICATION; crINTVAL repl] (Node "cluster_opt_repl" 1 [Leaf crREPLICATION; Leaf (crINTVAL repl)])) as H1.
  { eapply (derived_prod _ 1 _ [[crREPLICATION]; [crINTVAL repl]]); [reflexivity|derive|reflexivity]. }
  assert (exists t, derived (N "cluster_opt_dynamic") (if dyn then [crDYNAMIC] else []) t /\ opt_word t = dyn) as (t & H2 & Hw).
  { destruct dyn; [known 1%nat [[crDYNAMIC]]|known O (@nil (list ytoken))]. }
  assert (exists i, derived (N "cluster_ch") [match k with PkCarbon => crCARBON_CH | PkFnv1a => crFNV1A_CH | PkJump => crJUMP_FNV1A_CH end] (Node "cluster_ch" i [Leaf match k with PkCarbon => crCARBON_CH | PkFnv1a => crFNV1A_CH | PkJump => crJUMP_FNV1A_CH end])
    /\ match i with 0 => Clusttype.CARBON_CH | 1 => Clusttype.FNV1A_CH | _ => Clusttype.JUMP_CH end%nat =
       match k with PkCarbon => Clusttype.CARBON_CH | PkFnv1a => Clusttype.FNV1A_CH | PkJump => Clusttype.JUMP_CH end) as (i & H3 & Hi).
  { destruct k; [exists 0%nat|exists 1%nat|exists 2%nat]; (split; [|reflexivity]); eapply (derived_prod _ _ _ [[_]]); [reflexivity|derive|reflexivity|reflexivity|derive|reflexivity|reflexivity|derive|reflexivity]. }
  produce 1%nat [[match k with PkCarbon => crCARBON_CH | PkFnv1a => crFNV1A_CH | PkJump => crJUMP_FNV1A_CH end]; [crREPLICATION; crINTVAL repl]; if dyn then [crDYNAMIC] else []].
  cbn. run_binds. by rewrite Hi, Hw.
Qed.

Lemma means_paths l : (0 < length l <= 2)%nat -> means "cluster_paths" (crSTRING <$> l) paths_of l.
Proof.
  intros Hl. destruct l as [|p [|q [|? l]]]; cbn in Hl; try lia.
  - destruct (means_name "cluster_path" p eq_refl) as (t & Ht & Hv).
    assert (derived (N "cluster_opt_path") [] (Node "cluster_opt_path" 0 [])) as H0 by (eapply (derived_prod _ 0 _ []); [reflexivity|derive|reflexivity]).
    produce O [[crSTRING p]; []]. cbn. rewrite Hv. by run_binds.
  - destruct (means_name "cluster_path" p eq_refl) as (t & Ht & Hv). destruct (means_name "cluster_path" q eq_refl) as (u & Hu & Hvu).
    assert (derived (N "cluster_opt_path") [crSTRING q] (Node "cluster_opt_path" 1 [u])) as H0 by (eapply (derived_prod _ 1 _ [[crSTRING q]]); [reflexivity|derive|reflexivity]).
    produce O [[crSTRING p]; [crSTRING q]]. cbn. rewrite Hv. run_binds. rewrite Hvu. by run_binds.
Qed.
Lemma means_files name (ip : bool) l :
  (0 < length l <= 2)%nat -> means "cluster" (crCLUSTER :: crSTRING name :: (crFILE :: (if ip then [crIP] else [])) ++ (crSTRING <$> l)) cluster_of (K_files name ip 1 0 0 0 l).
Proof.
  intros Hl. destruct (means_paths l Hl) as (u & Hu & Hvu).
  assert (exists t, derived (N "cluster_file") (crFILE :: (if ip then [crIP] else [])) t /\ match t with Node _ O _ => true | _ => false end = ip) as (t & Ht & Hip).
  { destruct ip; [known O [[crFILE]; [crIP]]|known 1%nat [[crFILE]]]. }
  pose proof (means_options "connections" ltac:(set_solver)) as H1. pose proof (means_options "ttl" ltac:(set_solver)) as H2.
  pose proof (means_options "threshold_start" ltac:(set_solver)) as H3. pose proof (means_options "threshold_end" ltac:(set_solver)) as H4.
  produce 1%nat [[crCLUSTER]; [crSTRING name]; crFILE :: (if ip then [crIP] else []); []; []; []; []; crSTRING <$> l]. cbn. rewrite Hvu. run_binds. by rewrite Hip.
Qed.

Lemma says_cluster c : no_options c -> Forall command_said (cluster_command c) -> says (cluster_tokens c) (cluster_command c).
Proof.
  intros (H1 & H2 & H3 & H4) Hs. unfold cluster_command, cluster_tokens, member_tokens in *. rewrite H1, H2, H3, H4. cbn [Z.eqb Pos.eqb].
  assert (forall l, host_spec_of <$> l <> [] -> l <> []) as Hne by (by intros [|]).
  assert (forall ws type dyn repl l, Forall command_said [K_cluster (pc_name c) type false dyn repl 1 0 0 0 (host_spec_of <$> l)] ->
    means "cluster_type" ws cluster_type_of (type, false, repl, dyn) ->
    says (crCLUSTER :: crSTRING (pc_name c) :: (ws ++ servers_tokens l) ++ [] ++ [] ++ [] ++ [] ++ [end_token]) [K_cluster (pc_name c) type false dyn repl 1 0 0 0 (host_spec_of <$> l)]) as Hh.
  { intros ws type dyn repl l Hc Hm. apply Forall_cons in Hc as [[Hl Ht] _]. rewrite Forall_fmap in Ht.
    apply (says_one 0 "cluster" cluster_of (crCLUSTER :: crSTRING (pc_name c) :: ws ++ servers_tokens l)); [reflexivity|reflexivity|].
    apply means_cluster_hosts; [by apply Hne|exact Ht|exact Hm]. }
  destruct (pc_members c) as [l|ip l|l|l|l|k repl l ring|]; [..|constructor].
  - by apply (Hh [crFORWARD]); [|apply (means_useall 0)].
  - apply Forall_cons in Hs as [Hs _]. apply (says_one 0 "cluster" cluster_of (crCLUSTER :: crSTRING (pc_name c) :: (crFILE :: (if ip then [crIP] else [])) ++ _)); [reflexivity|reflexivity|].
    replace ((fun s => crSTRING (serverip s)) <$> l) with (crSTRING <$> (serverip <$> l)) by (by rewrite <- list_fmap_compose). by apply means_files.
  - by apply (Hh [crANY_OF]); [|apply (means_useall 1)].
  - by apply (Hh [crFAILOVER]); [|apply (means_useall 2)].
  - by apply (Hh [crLB]); [|apply (means_useall 3)].
  - apply (Hh (_ :: crREPLICATION :: crINTVAL repl :: (if pc_dynamic c then [crDYNAMIC] else []))); [exact Hs|apply means_ch].
Qed.

Lemma tok_dests (l : list cstring) : lit "blackhole" ∉ l -> tok_dest <$> l = crSTRING <$> l.
Proof.
  induction l as [|d l IH]; intros Hl; [done|]. cbn [fmap list_fmap]. rewrite IH by set_solver. f_equal. unfold tok_dest.
  rewrite bool_decide_eq_false_2; [done|]. intros ->. set_solver.
Qed.
Lemma means_send l : l <> [] -> dests_said l -> means "match_send_to" (send_tokens l) send_to_of l.
Proof.
  intros Hne Hs. assert (means "match_dsts" (tok_dest <$> l) dsts_of l) as (t & Ht & Hv).
  { destruct Hs as [->|Hn].
    - known O [[crBLACKHOLE]].
    - rewrite tok_dests by done. destruct (means_names "match_dsts2" "match_dst" "match_opt_dst" l eq_refl eq_refl eq_refl Hne) as (t & Ht & Hv).
      produce 1%nat [crSTRING <$> l]. exact Hv. }
  produce O [[crSEND]; [crTO]; tok_dest <$> l]. exact Hv.
Qed.
Lemma means_opt_send n l :
  productions config_grammar n = [[]; [N "match_send_to"]] -> dests_said l -> means n (match l with [] => [] | _ => send_tokens l end) opt_send_to_of l.
Proof.
  intros Hn Hs. destruct l as [|d l]; [apply means_empty; [by rewrite Hn|done]|]. destruct (means_send (d :: l) ltac:(done) Hs) as (t & Ht & Hv).
  eexists. split; [eapply (derived_prod n 1 _ [send_tokens (d :: l)]); [by rewrite Hn|derive|cbn [concat]; by rewrite app_nil_r]|]. exact Hv.
Qed.
Lemma means_stop (b : bool) : exists t, derived (N "match_opt_stop") (stop_tokens b) t /\ opt_word t = b.
Proof. destruct b; [known 1%nat [[crSTOP]]|known O (@nil (list ytoken))]. Qed.

Lemma means_exprs (l : list proute) :
  l <> [] -> pattern_expr <$> l = [lit "*"] \/ lit "*" ∉ (pattern_expr <$> l) -> means "match_exprs" (tok_pattern <$> l) exprs_of (pattern_expr <$> l).
Proof.
  intros Hne Hs.
  assert (tok_pattern <$> l = crSTRING <$> (pattern_expr <$> l) \/ tok_pattern <$> l = [Sym (ch "*")] /\ pattern_expr <$> l = [lit "*"]) as [->|[-> ->]].
  { destruct Hs as [Hs|Hs].
    - destruct l as [|r [|? ?]]; try done. cbn in *. unfold tok_pattern, pattern_expr in *. destruct (pr_matchall r); [by right|by left].
    - left. clear Hne. induction l as [|r l IH]; [done|]. cbn [fmap list_fmap] in *. rewrite IH by set_solver. f_equal.
      unfold tok_pattern, pattern_expr in *. destruct (pr_matchall r); [set_solver|done]. }
  - assert (pattern_expr <$> l <> []) as Hne' by (by destruct l). 
    destruct (means_names "match_exprs2" "match_expr" "match_opt_expr" _ eq_refl eq_refl eq_refl Hne') as (t & Ht & Hv).
    produce 1%nat [crSTRING <$> (pattern_expr <$> l)]. exact Hv.
  - known O [[Sym (ch "*")]].
Qed.
Lemma says_match r run v dests : command_said (match_command r run v dests) -> says (match_tokens r run v dests) [match_command r run v dests].
Proof.
  intros [He Hd]. destruct (means_exprs (r :: run) ltac:(done) He) as (te & Hte & Hve). unfold match_tokens, match_command.
  set (wv := match v with Some (v, action) => [crVALIDATE; crSTRING v; crELSE; match action with VAL_LOG => crLOG | VAL_DROP => crDROP end] | None => [] end).
  assert (means "match_opt_validate" wv validate_of ((fun '(v, action) => (v, match action with VAL_DROP => true | VAL_LOG => false end)) <$> v)) as (tv & Htv & Hvv).
  { destruct v as [[v action]|]; [|by apply means_empty].
    assert (exists t, derived (N "match_log_or_drop") [match action with VAL_LOG => crLOG | VAL_DROP => crDROP end] t /\
      opt_word t = match action with VAL_DROP => true | VAL_LOG => false end) as (t & Ht & Hw).
    { destruct action; [known O [[crLOG]]|known 1%nat [[crDROP]]]. }
    produce 1%nat [[crVALIDATE]; [crSTRING v]; [crELSE]; [match action with VAL_LOG => crLOG | VAL_DROP => crDROP end]]. cbn. by rewrite Hw. }
  set (m := pr_masq (default r (last run))). set (wm := match m with Some m => [crROUTE; crUSING; crSTRING m] | None => [] end).
  assert (means "match_opt_route" wm route_of m) as (tm & Htm & Hvm).
  { unfold wm. destruct m as [m|]; [|by apply means_empty]. known 1%nat [[crROUTE]; [crUSING]; [crSTRING m]]. }
  destruct (means_opt_send "match_opt_send_to" dests eq_refl Hd) as (ts & Hts & Hvs).
  destruct (means_stop (negb (bool_decide (dests = [])) && pr_stop r)) as (tp & Htp & Hwp).
  assert (match dests with [] => [] | _ => send_tokens dests ++ stop_tokens (pr_stop r) end =
    match dests with [] => [] | _ => send_tokens dests end ++ stop_tokens (negb (bool_decide (dests = [])) && pr_stop r)) as ->.
  { destruct dests; [done|]. by rewrite bool_decide_eq_false_2. }
  set (ws := match dests with [] => [] | _ => send_tokens dests end) in *. set (wp := stop_tokens _) in *.
  replace (crMATCH :: (tok_pattern <$> r :: run) ++ wv ++ wm ++ (ws ++ wp) ++ [end_token]) with ((crMATCH :: (tok_pattern <$> r :: run) ++ wv ++ wm ++ ws ++ wp) ++ [end_token])
    by (cbn [app]; by rewrite <- !app_assoc).
  apply (says_one 1 "match" match_of); [reflexivity|reflexivity|].
  produce O [[crMATCH]; tok_pattern <$> r :: run; wv; wm; ws; wp]. cbn in *. rewrite Hve. run_binds. rewrite Hvv. run_binds. rewrite Hvm. run_binds.
  rewrite Hvs. run_binds. by rewrite Hwp.
Qed.
Lemma says_rewrite r replacement : says (rewrite_tokens r replacement) [K_rewrite (pr_pattern r) replacement].
Proof.
  apply (says_one 2 "rewrite" rewrite_of [crREWRITE; crSTRING (pr_pattern r); crINTO; crSTRING replacement]); [reflexivity|reflexivity|].
  known O [[crREWRITE]; [crSTRING (pr_pattern r)]; [crINTO]; [crSTRING replacement]].
Qed.

Lemma means_compute stub c : means "aggregate_compute" (compute_tokens stub c) compute_of (compute_value stub c).
Proof.
  assert (means "aggregate_comp_type" [tok_compute c] comp_type_of (cm_type c, if decide (cm_type c = PCTL) then cm_percentile c else 0)) as (t & Ht & Hv).
  { unfold tok_compute. destruct (cm_type c);
      [known 0%nat [[crSUM]]|known 1%nat [[crCOUNT]]|known 2%nat [[crMAX]]|known 3%nat [[crMIN]]|known 4%nat [[crAVERAGE]]|known 5%nat [[crMEDIAN]]
      |known 6%nat [[crPERCENTILE (cm_percentile c)]]|known 7%nat [[crVARIANCE]]|known 8%nat [[crSTDDEV]]]. }
  unfold compute_tokens. set (m := drop _ _).
  produce O [[crCOMPUTE]; [tok_compute c]; [crWRITE]; [crTO]; [crSTRING m]]. cbn in *. rewrite Hv. by run_binds.
Qed.
Lemma says_aggregate r run a dests : command_said (aggregate_command r run a dests) -> says (aggregate_tokens r run a dests) [aggregate_command r run a dests].
Proof.
  intros [Hc Hd]. unfold aggregate_tokens, aggregate_command. set (lastr := default r (last run)) in *. set (stub := stub_of a dests) in *.
  assert (means "match_exprs2" ((fun x => crSTRING (pr_pattern x)) <$> r :: run) (list_of name_of) (pr_pattern <$> r :: run)) as (te & Hte & Hve).
  { replace ((fun x => crSTRING (pr_pattern x)) <$> r :: run) with (crSTRING <$> (pr_pattern <$> r :: run)) by (by rewrite <- list_fmap_compose).
    by apply (means_names "match_exprs2" "match_expr" "match_opt_expr"). }
  set (x := match pa_tswhen a with TS_START => crSTART | TS_MIDDLE => crMIDDLE | TS_END => crEND end).
  assert (means "aggregate_opt_timestamp" [crTIMESTAMP; crAT; x; crOF; crBUCKET] timestamp_of (pa_tswhen a)) as (tt & Htt & Hvt).
  { assert (exists i, derived (N "aggregate_ts_when") [x] (Node "aggregate_ts_when" i [Leaf x]) /\
      match i with 0 => TS_START | 1 => TS_MIDDLE | _ => TS_END end%nat = pa_tswhen a) as (i & Hi & Hw).
    { unfold x. destruct (pa_tswhen a); [exists 0%nat|exists 1%nat|exists 2%nat]; (split; [|reflexivity]);
        (eapply (derived_prod _ _ _ [[_]]); [reflexivity|derive|reflexivity]). }
    produce 1%nat [[crTIMESTAMP]; [crAT]; [x]; [crOF]; [crBUCKET]]. cbn. by rewrite Hw. }
  assert (pa_computes a <> []) as Hne by (intros E; by rewrite E in Hc).
  destruct (means_list "aggregate_computes" "aggregate_compute" "aggregate_opt_compute" compute_of (compute_tokens stub) (compute_value stub) (pa_computes a)
    eq_refl eq_refl Hne ltac:(intros; apply means_compute)) as (tc & Htc & Hvc).
  destruct (means_opt_send "aggregate_opt_send_to" (aggr_dests lastr) eq_refl Hd) as (ts & Hts & Hvs). destruct (means_stop (pr_stop lastr)) as (tp & Htp & Hwp).
  assert (match aggr_dests lastr with [] => [] | l => send_tokens l end =
    match aggr_dests lastr with [] => [] | _ => send_tokens (aggr_dests lastr) end) as -> by (by destruct (aggr_dests lastr)).
  set (wc := concat _) in *. set (ws := match aggr_dests lastr with [] => [] | _ => _ end) in *. set (wp := stop_tokens _) in *.
  set (we := (fun x => crSTRING (pr_pattern x)) <$> r :: run) in *.
  match goal with |- says ?w _ => replace w with ((crAGGREGATE :: we ++ [crEVERY; crINTVAL (pa_interval a); crSECONDS; crEXPIRE; crAFTER; crINTVAL (pa_expire a); crSECONDS]
    ++ [crTIMESTAMP; crAT; x; crOF; crBUCKET] ++ wc ++ ws ++ wp) ++ [end_token]) by (cbn [app]; rewrite <- !app_assoc; cbn [app]; by rewrite <- !app_assoc) end.
  apply (says_one 3 "aggregate" aggregate_of); [reflexivity|reflexivity|].
  produce O [[crAGGREGATE]; we; [crEVERY]; [crINTVAL (pa_interval a)]; [crSECONDS]; [crEXPIRE]; [crAFTER]; [crINTVAL (pa_expire a)]; [crSECONDS];
    [crTIMESTAMP; crAT; x; crOF; crBUCKET]; wc; ws; wp].
  cbn in *. rewrite Hve. run_binds. rewrite Hvt. run_binds. rewrite Hvc. run_binds. rewrite Hvs. run_binds. by rewrite Hwp.
Qed.
Lemma says_statistics r : command_said (statistics_command r) -> says (statistics_tokens r) [statistics_command r].
Proof.
  intros [Hd Hs]. unfold statistics_command, statistics_tokens.
  assert (exists t, derived (N "statistics_opt_counters") match po_mode r with SUB => [crRESET; crCOUNTERS; crAFTER; crINTERVAL] | CUM => [] end t /\
    (if opt_word t then SUB else CUM) = po_mode r) as (tc & Htc & Hwc).
  { destruct (po_mode r); [known 1%nat [[crRESET]; [crCOUNTERS]; [crAFTER]; [crINTERVAL]]|known O (@nil (list ytoken))]. }
  set (wc := match po_mode r with SUB => _ | CUM => [] end) in *. set (l := if po_stub r then statistics_dests r else []) in *.
  destruct (means_opt_send "aggregate_opt_send_to" l eq_refl Hd) as (ts & Hts & Hvs). destruct (means_stop (po_stub r)) as (tp & Htp & Hwp).
  assert ((if po_stub r then send_tokens (statistics_dests r) ++ [crSTOP] else []) = match l with [] => [] | _ => send_tokens l end ++ stop_tokens (po_stub r)) as ->.
  { unfold l in *. destruct (po_stub r); [|done]. specialize (Hs eq_refl). by destruct (statistics_dests r). }
  set (ws := match l with [] => [] | _ => send_tokens l end) in *. set (wp := stop_tokens _) in *.
  assert (derived (N "statistics_opt_interval") [crSUBMIT; crEVERY; crINTVAL (po_interval r); crSECONDS]
    (Node "statistics_opt_interval" 1 [Leaf crSUBMIT; Leaf crEVERY; Leaf (crINTVAL (po_interval r)); Leaf crSECONDS])) as Hi.
  { eapply (derived_prod _ 1 _ [[crSUBMIT]; [crEVERY]; [crINTVAL (po_interval r)]; [crSECONDS]]); [reflexivity|derive|reflexivity]. }
  assert (derived (N "statistics_opt_prefix") [crPREFIX; crWITH; crSTRING (po_prefix r)]
    (Node "statistics_opt_prefix" 1 [Leaf crPREFIX; Leaf crWITH; Leaf (crSTRING (po_prefix r))])) as Hx.
  { eapply (derived_prod _ 1 _ [[crPREFIX]; [crWITH]; [crSTRING (po_prefix r)]]); [reflexivity|derive|reflexivity]. }
  match goal with |- says ?w _ => replace w with ((crSTATISTICS :: [crSUBMIT; crEVERY; crINTVAL (po_interval r); crSECONDS] ++ wc ++
    [crPREFIX; crWITH; crSTRING (po_prefix r)] ++ ws ++ wp) ++ [end_token]) by (cbn [app]; rewrite <- !app_assoc; cbn [app]; by rewrite <- !app_assoc) end.
  apply (says_one 5 "statistics" statistics_of); [reflexivity|reflexivity|].
  produce O [[crSTATISTICS]; [crSUBMIT; crEVERY; crINTVAL (po_interval r); crSECONDS]; wc; [crPREFIX; crWITH; crSTRING (po_prefix r)]; ws; wp].
  cbn in *. rewrite Hvs. run_binds. by rewrite Hwp, Hwc.
Qed.

Lemma means_receptor t w :
  listener_ok t w -> means "receptor" [crSTRING (listener_addr w); crPROTO; proto_token (pl_ctype w)] receptor_of (receptor_spec_of w).
Proof.
  intros (_ & _ & Hw). unfold receptor_spec_of.
  assert (forall i x, derived (N "rcptr_proto") [x] (Node "rcptr_proto" i [Leaf x]) ->
    means "receptor" [crSTRING (listener_addr w); crPROTO; x] receptor_of (mkRs (listener_addr w) match i with O => CON_TCP | _ => CON_UDP end)) as H.
  { intros i x Hi. produce O [[crSTRING (listener_addr w)]; [crPROTO]; [x]]. reflexivity. }
  destruct (pl_ctype w); try done; cbn [proto_token].
  - apply (H O). eapply (derived_prod _ 0 _ [[crTCP]]); [reflexivity|derive|reflexivity].
  - apply (H 1%nat). eapply (derived_prod _ 1 _ [[crUDP]]); [reflexivity|derive|reflexivity].
  - known 1%nat [[crSTRING (listener_addr w)]; [crPROTO]; [crUNIX]].
Qed.
Lemma means_mode t pem :
  transport_said t -> means "transport_mode" (transport_tokens t ++ (if ssl_bit t then [crSTRING pem] else [])) mode_of (t, if ssl_bit t then Some pem else None).
Proof.
  unfold transport_said. rewrite !elem_of_cons, elem_of_nil. intros Ht.
  assert (forall i x b, productions config_grammar "transport_mode_trans" !! i = Some [T "crTRANSPORT"; T (tname x)] ->
    transport_trans_of (Node "transport_mode_trans" i [Leaf crTRANSPORT; Leaf x]) = Some b ->
    means "transport_mode" [crTRANSPORT; x] mode_of (b, None) /\ means "transport_mode" [crTRANSPORT; x; crSSL; crSTRING pem] mode_of (Z.lor W_SSL b, Some pem)) as H.
  { intros i x b Hi Hb. assert (derived (N "transport_mode_trans") [crTRANSPORT; x] (Node "transport_mode_trans" i [Leaf crTRANSPORT; Leaf x])) as Hd.
    { eapply (derived_prod _ i _ [[crTRANSPORT]; [x]]); [exact Hi|derive|reflexivity]. }
    assert (derived (N "transport_opt_ssl") [] (Node "transport_opt_ssl" 0 [])) as H0 by (eapply (derived_prod _ 0 _ []); [reflexivity|derive|reflexivity]).
    assert (derived (N "transport_opt_ssl") [crSSL; crSTRING pem] (Node "transport_opt_ssl" 1 [Leaf crSSL; Leaf (crSTRING pem)])) as H1.
    { eapply (derived_prod _ 1 _ [[crSSL]; [crSTRING pem]]); [reflexivity|derive|reflexivity]. }
    split; [produce 1%nat [[crTRANSPORT; x]; []]|produce 1%nat [[crTRANSPORT; x]; [crSSL; crSTRING pem]]]; cbn in *; rewrite Hb; by run_binds. }
  repeat (destruct Ht as [->|Ht]); [apply means_empty; reflexivity| | | | | | |done];
    first [apply (H 1%nat crGZIP W_GZIP); reflexivity|apply (H 2%nat crLZ4 W_LZ4); reflexivity|apply (H 3%nat crSNAPPY W_SNAPPY); reflexivity].
Qed.
Lemma says_listen w l : listeners_ok (w :: l) -> command_said (listen_command w l) -> says (listen_tokens w l) [listen_command w l].
Proof.
  intros (_ & _ & Hl) Ht. destruct (means_mode _ (pl_pem w) Ht) as (tm & Htm & Hvm). unfold listen_tokens, listen_command in *.
  destruct (means_list "receptors" "receptor" "opt_receptor" receptor_of (fun x => [crSTRING (listener_addr x); crPROTO; proto_token (pl_ctype x)]) receptor_spec_of (w :: l)
    eq_refl eq_refl ltac:(done) ltac:(intros x Hx; eapply means_receptor; by apply (proj1 (Forall_forall _ _) Hl))) as (tr & Htr & Hvr).
  set (wr := concat _) in *. set (wm := transport_tokens _ ++ _) in *.
  assert (derived (N "listener") (crTYPE :: crLINEMODE :: wm ++ wr) (Node "listener" 0 [Leaf crTYPE; Leaf crLINEMODE; tm; tr])) as Hd.
  { eapply (derived_prod _ 0 _ [[crTYPE]; [crLINEMODE]; wm; wr]); [reflexivity|derive|cbn [concat app]; by rewrite app_nil_r]. }
  match goal with |- says ?x _ => replace x with ((crLISTEN :: crTYPE :: crLINEMODE :: wm ++ wr) ++ [end_token])
    by (unfold wm; cbn [app]; rewrite <- !app_assoc; reflexivity) end.
  apply (says_one 6 "listen" listen_of); [reflexivity|reflexivity|].
  produce O [[crLISTEN]; crTYPE :: crLINEMODE :: wm ++ wr]. cbn in *. rewrite Hvm. run_binds. rewrite Hvr. by run_binds.
Qed.

Lemma says_routes fuel aggr rs : Forall command_said (route_commands fuel aggr rs) -> says (route_tokens fuel aggr rs) (route_commands fuel aggr rs).
Proof.
  revert rs. induction fuel as [|fuel IH]; intros rs Hc; cbn [route_commands route_tokens] in *; [constructor|]. destruct rs as [|r rs]; [constructor|].
  destruct (pr_kind r) as [a dests|replacement|name routes|stat dests|id v dests].
  - destruct aggr; [|by apply IH]. destruct (rule_run _ rs) as [run rs']. apply Forall_cons in Hc as [H1 H2].
    apply (says_app _ [_]); [by apply says_aggregate|by apply IH].
  - apply Forall_cons in Hc as [_ H2]. apply (says_app _ [_]); [by apply says_rewrite|by apply IH].
  - apply Forall_app in Hc as [H1 H2]. apply says_app; [destruct aggr; [by apply IH|constructor]|by apply IH].
  - by apply IH.
  - destruct (rule_run _ rs) as [run rs']. apply Forall_cons in Hc as [H1 H2]. apply (says_app _ [_]); [by apply says_match|by apply IH].
Qed.

Lemma says_config pm r :
  listeners_ok (po_listeners r) -> Forall no_options (po_clusters r) -> Forall command_said (config_commands pm r) -> says (config_tokens pm r) (config_commands pm r).
Proof.
  intros Hl Ho Hc. unfold config_commands, config_tokens in *. rewrite !Forall_app in Hc. destruct Hc as (H1 & H2 & H3 & H4).
  apply says_app; [|apply says_app; [|apply says_app; [|by apply says_routes]]].
  - destruct (po_listeners r) as [|w l]; [constructor|]. apply Forall_cons in H1 as [H1 _]. by apply says_listen.
  - destruct (0 <? po_interval r); [|constructor]. apply Forall_cons in H2 as [H2 _]. by apply says_statistics.
  - clear -Ho H3. induction Ho as [|c cs Hc Ho IH]; cbn [fmap list_fmap concat] in *; [constructor|]. apply Forall_app in H3 as [H3 H4].
    apply says_app; [by apply says_cluster|by apply IH].
Qed.

(** ** Properties *)


Definition printable_config : prouter :=
  mkPrt [mkPl T_LINEMODE W_GZIP [] (0, 0) CON_TCP None 2003; mkPl T_LINEMODE W_GZIP [] (0, 0) CON_UNIX (Some (lit "/tmp/a b")) 0]
    60 SUB (lit "carbon.relays") true
    [mkPc (lit "c1") (PmCh PkJump 2 [mkPs (lit "10.0.0.1") 2003 None CON_UDP T_LINEMODE (Z.lor W_SSL W_LZ4)] []) true 1 0 0 0]
    [mkPr [] false None true (PrStub true [lit "c1"]);
     mkPr (lit "^a b") false None false (PrAggregation (mkPa 0 (lit "_aggregator_stub_1__") 10 35 TS_END [mkPcm PCTL 95 (lit "_aggregator_stub_1__m.p95")]) [lit "c1"]);
     mkPr (lit ".*") true None true (PrMatch 0 None [lit "blackhole"])].


(** The options of a cluster are printed behind its servers, where the grammar does not have them: the text printed for a
    cluster with more than one connection is a syntax error; and so is that for a server with SSL and no compression. *)
Theorem printed_options_rejected (name ip : cstring) (port n : Z) :
  let cluster conns transport := mkPc name (PmForward [mkPs ip port None CON_TCP T_LINEMODE transport]) false conns 0 0 0 in
  let router c := mkPrt [] 0 CUM [] false [c] [] in
  let pm := mkPm true false false false in
  n <> 1 -> pcluster_ok (cluster n W_PLAIN) ->
  (exists text, router_printconfig (router (cluster n W_PLAIN)) pm = Some text /\ read_text text = None) /\
  (exists text, router_printconfig (router (cluster 1 (Z.lor W_SSL W_PLAIN))) pm = Some text /\ read_text text = None).
Proof.
  intros cluster router pm Hn Hok.
  assert (forall c, pcluster_ok c -> parse_config (config_tokens pm (router c)) = None ->
    exists text, router_printconfig (router c) pm = Some text /\ read_text text = None) as H.
  { intros c Hc Hp. assert (config_ok (router c)) as Hr by (split_and!; [done|done|repeat constructor; apply Hc|constructor]).
    destruct (printconfig_scans (router c) pm eq_refl eq_refl eq_refl Hr) as (text & Ht & Hl). exists text. split; [done|].
    unfold read_text. rewrite Hl. run_binds. exact Hp. }
  destruct Hok as (H1 & H2 & H3 & H4). split; apply H.
  - exact (conj H1 (conj H2 (conj H3 H4))).
  - unfold config_tokens, cluster_tokens, member_tokens, servers_tokens, server_tokens. cbn -[parse_config host_word].
    rewrite (proj2 (Z.eqb_neq n 1) Hn). reflexivity.
  - apply Forall_cons in H2 as [(Hip & Hp & _) _]. split; [exact H1|]. split; [|by split_and!].
    apply Forall_cons. split; [|exact (Forall_nil_2 _)]. split_and!; [exact Hip|exact Hp|reflexivity|]. apply transport_dec. reflexivity.
  - reflexivity.
Qed.

Lemma printed_options_rejected_witness :
  exists text, router_printconfig (mkPrt [] 0 CUM [] false [mkPc (lit "c1") (PmForward [mkPs (lit "10.0.0.1") 2003 None CON_TCP T_LINEMODE W_PLAIN]) false 4 0 0 0] [])
    (mkPm true false false false) = Some text /\ read_text text = None.
Proof.
  apply (printed_options_rejected (lit "c1") (lit "10.0.0.1") 2003 4); [discriminate|].
  split_and!; try discriminate; try reflexivity; [apply readable_dec; reflexivity|].
  apply Forall_cons. split; [|exact (Forall_nil_2 _)]. split_and!; [reflexivity|discriminate|reflexivity|apply transport_dec; reflexivity].
Defined.
